(** * Athena chess engine: position, hashing, evaluation, move generation
      and search, embedded from the C sources.

    Integers of the C code are modelled as [Z]; a [u64] bitboard is a [Z] in
    [0, 2^64) and operations that can leave that range are wrapped
    explicitly.  Squares, pieces, colours, piece types and moves are the
    small integers the C enums denote.  Arrays are lists read with [nth].
    Functions that mutate their argument return the new value. *)

From Stdlib Require Import ZArith List Bool Lia FinFun Znumtheory.
Import ListNotations.
Local Open Scope Z_scope.

(* ===================================================================== *)
(** * bit.h *)
(* ===================================================================== *)

Module Bit.

(** Modelled from the spec: bit.h is not part of the sources at hand.  The
    spec lists the bit primitives as popcount, bit-scan forward and reverse
    and pop-LSB; a bitboard has bit [i] set iff the predicate holds at
    square [i]. *)
Definition wrap64 (z : Z) : Z := z mod 2 ^ 64.

(** The 64 square indices, in increasing order. *)
Definition squares : list Z := map Z.of_nat (seq 0 64).

(** The set bits of a bitboard from the least significant upwards. *)
Definition bits_of (bb : Z) : list Z := filter (Z.testbit bb) squares.

(** Modelled from the spec: bit-scan forward.  On an empty bitboard the C
    primitive has no defined result; the model answers 0 there. *)
Definition get_ls1b (bb : Z) : Z :=
  match find (Z.testbit bb) squares with
  | Some i => i
  | None => 0
  end.

(** Modelled from the spec: bit-scan reverse, same convention on 0. *)
Definition get_ms1b (bb : Z) : Z :=
  match find (Z.testbit bb) (rev squares) with
  | Some i => i
  | None => 0
  end.

(** Modelled from the spec: pop-LSB.  [unset_ls1b(&bb)] returns the index
    of the lowest set bit and clears it in [bb]; the model returns the pair
    of the index and the new bitboard. *)
Definition unset_ls1b (bb : Z) : Z * Z :=
  let sq := get_ls1b bb in (sq, Z.clearbit bb sq).

(** Modelled from the spec: population count of a 64-bit word. *)
Definition popcnt (bb : Z) : Z := Z.of_nat (length (bits_of bb)).

(** [while (bb) { sq = unset_ls1b(&bb); acc = body(sq, acc); }] with one
    unit of fuel per bit of a 64-bit word. *)
Fixpoint bb_loop {A : Type} (fuel : nat) (body : Z -> A -> A) (bb : Z) (acc : A) : A :=
  match fuel with
  | O => acc
  | S fuel' =>
      if bb =? 0 then acc
      else let '(sq, bb') := Bit.unset_ls1b bb in
           bb_loop fuel' body bb' (body sq acc)
  end.

End Bit.

(* ===================================================================== *)
(** * pos.c *)
(* ===================================================================== *)

Module Pos.

(** Modelled from the spec: pos.h is not part of the sources at hand.  The
    enum values follow the spec's data model (WHITE=0, BLACK=1; piece types
    in the order PAWN .. KING; squares A1=0 .. H8=63) and the encodings that
    pos.c itself fixes ([create_piece], the castling nibble). *)
Definition COLOR_WHITE : Z := 0.
Definition COLOR_BLACK : Z := 1.

Definition PIECE_TYPE_PAWN : Z := 0.
Definition PIECE_TYPE_KNIGHT : Z := 1.
Definition PIECE_TYPE_BISHOP : Z := 2.
Definition PIECE_TYPE_ROOK : Z := 3.
Definition PIECE_TYPE_QUEEN : Z := 4.
Definition PIECE_TYPE_KING : Z := 5.

(** pos.c: "the least significant and most significant bits of each are for
    the queen and king sides respectively". *)
Definition CASTLING_SIDE_QUEEN : Z := 0.
Definition CASTLING_SIDE_KING : Z := 1.

(** Modelled from the spec: the value of the empty-square marker is not in
    the sources; any value outside the twelve pieces 0..11 serves. *)
Definition PIECE_NONE : Z := 12.

Definition RANK_1 : Z := 0.
Definition RANK_3 : Z := 2.
Definition RANK_4 : Z := 3.
Definition RANK_5 : Z := 4.
Definition RANK_6 : Z := 5.
Definition RANK_8 : Z := 7.
Definition FILE_A : Z := 0.
Definition FILE_H : Z := 7.

Definition A1 : Z := 0.
Definition B1 : Z := 1.
Definition C1 : Z := 2.
Definition D1 : Z := 3.
Definition E1 : Z := 4.
Definition F1 : Z := 5.
Definition G1 : Z := 6.
Definition H1 : Z := 7.
Definition A8 : Z := 56.
Definition B8 : Z := 57.
Definition C8 : Z := 58.
Definition D8 : Z := 59.
Definition E8 : Z := 60.
Definition F8 : Z := 61.
Definition G8 : Z := 62.
Definition H8 : Z := 63.

(** [!c] on a colour. *)
Definition opp (c : Z) : Z := if c =? 0 then 1 else 0.

Record irreversible_state := {
  castling_rights_and_enpassant : Z;   (* u8 *)
  halfmove_clock : Z;                  (* u8 *)
  captured_piece : Z                   (* u8 *)
}.

Record position := {
  irr_states : list irreversible_state;
  irr_state_cap : Z;
  irr_state_idx : nat;
  side_to_move : Z;                    (* u8 *)
  fullmove_counter : Z;                (* short *)
  color_bb : list Z;                   (* u64 color_bb[2] *)
  type_bb : list Z;                    (* u64 type_bb[6] *)
  board : list Z                       (* Piece board[64] *)
}.

Definition irr_zero : irreversible_state :=
  {| castling_rights_and_enpassant := 0; halfmove_clock := 0;
     captured_piece := 0 |}.

(** [pos->irr_states[pos->irr_state_idx]] *)
Definition cur_irr (pos : position) : irreversible_state :=
  nth (irr_state_idx pos) (irr_states pos) irr_zero.

Definition file_rank_to_square (f r : Z) : Z := 8 * r + f.
Definition get_file (sq : Z) : Z := sq mod 8.
Definition get_rank (sq : Z) : Z := sq / 8.
Definition get_piece_color (piece : Z) : Z := Z.land piece 1.
Definition get_piece_type (piece : Z) : Z := Z.shiftr piece 1.
Definition create_piece (pt c : Z) : Z := Z.lor (Z.shiftl pt 1) c.

Definition get_square_color (sq : Z) : Z :=
  let dark := 0xaa55aa55aa55aa55 in
  if Z.land (Z.shiftr dark sq) 1 =? 0 then 1 else 0.

Definition has_castling_right (pos : position) (c side : Z) : bool :=
  negb (Z.land (castling_rights_and_enpassant (cur_irr pos))
               (Z.shiftl (Z.shiftl 1 side) (2 * c)) =? 0).

Definition get_halfmove_clock (pos : position) : Z :=
  halfmove_clock (cur_irr pos).

Definition get_fullmove_counter (pos : position) : Z :=
  fullmove_counter pos.

Definition enpassant_possible (pos : position) : Z :=
  Z.land (castling_rights_and_enpassant (cur_irr pos)) 0x80.

Definition get_enpassant_square (pos : position) : Z :=
  let f := Z.shiftr (Z.land (castling_rights_and_enpassant (cur_irr pos)) 0x70) 4 in
  let r := if side_to_move pos =? COLOR_WHITE then RANK_6 else RANK_3 in
  file_rank_to_square f r.

Definition get_side_to_move (pos : position) : Z := side_to_move pos.

Definition get_piece_at (pos : position) (sq : Z) : Z :=
  nth (Z.to_nat sq) (board pos) 0.

Definition get_color_bitboard (pos : position) (c : Z) : Z :=
  nth (Z.to_nat c) (color_bb pos) 0.

Definition get_type_bitboard (pos : position) (pt : Z) : Z :=
  nth (Z.to_nat pt) (type_bb pos) 0.

Definition get_piece_bitboard (pos : position) (piece : Z) : Z :=
  let type := get_piece_type piece in
  let color := get_piece_color piece in
  Z.land (get_type_bitboard pos type) (get_color_bitboard pos color).

Definition get_king_square (pos : position) (c : Z) : Z :=
  let piece := create_piece PIECE_TYPE_KING c in
  Bit.get_ls1b (get_piece_bitboard pos piece).

Definition get_number_of_pieces (pos : position) (piece : Z) : Z :=
  Bit.popcnt (get_piece_bitboard pos piece).

(** [weights] of [get_phase]; the array has no entry for the king. *)
Definition phase_weight (pt : Z) : Z :=
  if pt =? PIECE_TYPE_KNIGHT then 1
  else if pt =? PIECE_TYPE_BISHOP then 1
  else if pt =? PIECE_TYPE_ROOK then 2
  else if pt =? PIECE_TYPE_QUEEN then 4
  else 0.

Definition phase_neutral : Z :=
  16 * phase_weight PIECE_TYPE_PAWN + 4 * phase_weight PIECE_TYPE_KNIGHT +
  4 * phase_weight PIECE_TYPE_BISHOP + 4 * phase_weight PIECE_TYPE_ROOK +
  2 * phase_weight PIECE_TYPE_QUEEN.

Definition get_phase (pos : position) : Z :=
  let phase :=
    fold_left
      (fun ph c =>
         fold_left
           (fun ph pt =>
              ph - get_number_of_pieces pos (create_piece pt c) * phase_weight pt)
           [PIECE_TYPE_PAWN; PIECE_TYPE_KNIGHT; PIECE_TYPE_BISHOP;
            PIECE_TYPE_ROOK; PIECE_TYPE_QUEEN] ph)
      [COLOR_WHITE; COLOR_BLACK] phase_neutral in
  Z.quot (256 * phase + Z.quot phase_neutral 2) phase_neutral.

(** The two nested loops of [pos_equal] over colours and castling sides
    return false at the first disagreement. *)
Definition same_castling_rights (pos1 pos2 : position) : bool :=
  forallb
    (fun c =>
       forallb
         (fun s =>
            Bool.eqb (has_castling_right pos1 c s) (has_castling_right pos2 c s))
         [CASTLING_SIDE_QUEEN; CASTLING_SIDE_KING])
    [COLOR_WHITE; COLOR_BLACK].

Definition all_piece_types : list Z :=
  [PIECE_TYPE_PAWN; PIECE_TYPE_KNIGHT; PIECE_TYPE_BISHOP; PIECE_TYPE_ROOK;
   PIECE_TYPE_QUEEN; PIECE_TYPE_KING].

Definition pos_equal (pos1 pos2 : position) : bool :=
  if negb (get_side_to_move pos1 =? get_side_to_move pos2) then false
  else if negb (same_castling_rights pos1 pos2) then false
  else if negb (enpassant_possible pos1 =? enpassant_possible pos2) then false
  else if negb (enpassant_possible pos1 =? 0) &&
          negb (enpassant_possible pos2 =? 0) &&
          negb (get_enpassant_square pos1 =? get_enpassant_square pos2)
       then false
  else if negb (get_color_bitboard pos1 COLOR_WHITE =?
                get_color_bitboard pos2 COLOR_WHITE) then false
  else if negb (get_color_bitboard pos1 COLOR_BLACK =?
                get_color_bitboard pos2 COLOR_BLACK) then false
  else forallb
         (fun pt => get_type_bitboard pos1 pt =? get_type_bitboard pos2 pt)
         all_piece_types.

(** What two positions must share to count as the same position for the
    repetition rule. *)
Definition same_for_repetition (pos1 pos2 : position) : Prop :=
  get_side_to_move pos1 = get_side_to_move pos2 /\
  (forall c s, In c [COLOR_WHITE; COLOR_BLACK] ->
               In s [CASTLING_SIDE_QUEEN; CASTLING_SIDE_KING] ->
               has_castling_right pos1 c s = has_castling_right pos2 c s) /\
  (enpassant_possible pos1 <> 0 <-> enpassant_possible pos2 <> 0) /\
  (enpassant_possible pos1 <> 0 -> enpassant_possible pos2 <> 0 ->
   get_enpassant_square pos1 = get_enpassant_square pos2) /\
  get_color_bitboard pos1 COLOR_WHITE = get_color_bitboard pos2 COLOR_WHITE /\
  get_color_bitboard pos1 COLOR_BLACK = get_color_bitboard pos2 COLOR_BLACK /\
  (forall pt, In pt all_piece_types ->
              get_type_bitboard pos1 pt = get_type_bitboard pos2 pt).

(** The position with other clocks: the halfmove clock of the current
    irreversible state and the fullmove counter replaced. *)
Definition set_nth {A} (n : nat) (x : A) (l : list A) : list A :=
  firstn n l ++ match skipn n l with [] => [] | _ :: t => x :: t end.

Definition with_clocks (pos : position) (hm fm : Z) : position :=
  {| irr_states :=
       set_nth (irr_state_idx pos)
         {| castling_rights_and_enpassant :=
              castling_rights_and_enpassant (cur_irr pos);
            halfmove_clock := hm;
            captured_piece := captured_piece (cur_irr pos) |}
         (irr_states pos);
     irr_state_cap := irr_state_cap pos;
     irr_state_idx := irr_state_idx pos;
     side_to_move := side_to_move pos;
     fullmove_counter := fm;
     color_bb := color_bb pos;
     type_bb := type_bb pos;
     board := board pos |}.

(** Array update [a[n] = x]; nothing changes when [n] is out of range (the C
    code never writes out of range on the arrays modelled this way). *)
Definition upd (n : Z) (x : Z) (l : list Z) : list Z := set_nth (Z.to_nat n) x l.

Definition with_board (pos : position) (cbb tbb brd : list Z) : position :=
  {| irr_states := irr_states pos; irr_state_cap := irr_state_cap pos;
     irr_state_idx := irr_state_idx pos; side_to_move := side_to_move pos;
     fullmove_counter := fullmove_counter pos;
     color_bb := cbb; type_bb := tbb; board := brd |}.

Definition with_rights (pos : position) (cre : Z) : position :=
  {| irr_states :=
       set_nth (irr_state_idx pos)
         {| castling_rights_and_enpassant := cre;
            halfmove_clock := halfmove_clock (cur_irr pos);
            captured_piece := captured_piece (cur_irr pos) |}
         (irr_states pos);
     irr_state_cap := irr_state_cap pos;
     irr_state_idx := irr_state_idx pos; side_to_move := side_to_move pos;
     fullmove_counter := fullmove_counter pos;
     color_bb := color_bb pos; type_bb := type_bb pos; board := board pos |}.

Definition with_side (pos : position) (c : Z) : position :=
  {| irr_states := irr_states pos; irr_state_cap := irr_state_cap pos;
     irr_state_idx := irr_state_idx pos; side_to_move := c;
     fullmove_counter := fullmove_counter pos;
     color_bb := color_bb pos; type_bb := type_bb pos; board := board pos |}.

Definition remove_piece (pos : position) (sq : Z) : position :=
  let piece := get_piece_at pos sq in
  let bb := Z.shiftl 1 sq in
  let c := get_piece_color piece in
  let t := get_piece_type piece in
  with_board pos
    (upd c (Z.land (get_color_bitboard pos c) (Z.lnot bb)) (color_bb pos))
    (upd t (Z.land (get_type_bitboard pos t) (Z.lnot bb)) (type_bb pos))
    (upd sq PIECE_NONE (board pos)).

Definition place_piece (pos : position) (sq piece : Z) : position :=
  let bb := Z.shiftl 1 sq in
  let pos := if negb (get_piece_at pos sq =? PIECE_NONE)
             then remove_piece pos sq else pos in
  let c := get_piece_color piece in
  let t := get_piece_type piece in
  with_board pos
    (upd c (Z.lor (get_color_bitboard pos c) bb) (color_bb pos))
    (upd t (Z.lor (get_type_bitboard pos t) bb) (type_bb pos))
    (upd sq piece (board pos)).

Definition add_castling (pos : position) (c side : Z) : position :=
  with_rights pos
    (Z.lor (castling_rights_and_enpassant (cur_irr pos))
           (Z.shiftl (Z.shiftl 1 side) (2 * c))).

Definition unset_enpassant (pos : position) : position :=
  with_rights pos (Z.land (castling_rights_and_enpassant (cur_irr pos)) 0xf).

Definition set_enpassant (pos : position) (file : Z) : position :=
  let cre := castling_rights_and_enpassant (cur_irr pos) in
  let cre := Z.land cre 0x8f in
  let cre := Z.lor cre 0x80 in
  let cre := Z.lor cre (Z.shiftl (Z.land file 0x7) 4) in
  with_rights pos cre.

(** The position [create_pos] hands to the FEN parser: one irreversible
    state with no castling right, no en-passant file and clock 0, an empty
    board and empty bitboards.  The side to move is written by the parser;
    it is White here. *)
Definition empty_position : position :=
  {| irr_states :=
       [{| castling_rights_and_enpassant := 0; halfmove_clock := 0;
           captured_piece := PIECE_NONE |}];
     irr_state_cap := 256;
     irr_state_idx := 0;
     side_to_move := COLOR_WHITE;
     fullmove_counter := 0;
     color_bb := [0; 0];
     type_bb := [0; 0; 0; 0; 0; 0];
     board := repeat PIECE_NONE 64 |}.

(** A position set up as the FEN parser does: the pieces placed one by one
    with [place_piece], then the side to move and the castling rights. *)
Definition setup (pieces : list (Z * Z)) (side : Z) (rights : list (Z * Z)) : position :=
  let pos := fold_left (fun pos sp => place_piece pos (fst sp) (snd sp))
                       pieces empty_position in
  let pos := with_side pos side in
  fold_left (fun pos cs => add_castling pos (fst cs) (snd cs)) rights pos.

(** The bitboards are 64-bit words. *)
Definition is_u64 (z : Z) : Prop := 0 <= z < 2 ^ 64.

Definition PIECE_WHITE_PAWN : Z := Eval cbv in create_piece PIECE_TYPE_PAWN COLOR_WHITE.
Definition PIECE_BLACK_PAWN : Z := Eval cbv in create_piece PIECE_TYPE_PAWN COLOR_BLACK.
Definition PIECE_WHITE_KNIGHT : Z := Eval cbv in create_piece PIECE_TYPE_KNIGHT COLOR_WHITE.
Definition PIECE_BLACK_KNIGHT : Z := Eval cbv in create_piece PIECE_TYPE_KNIGHT COLOR_BLACK.
Definition PIECE_WHITE_BISHOP : Z := Eval cbv in create_piece PIECE_TYPE_BISHOP COLOR_WHITE.
Definition PIECE_BLACK_BISHOP : Z := Eval cbv in create_piece PIECE_TYPE_BISHOP COLOR_BLACK.
Definition PIECE_WHITE_ROOK : Z := Eval cbv in create_piece PIECE_TYPE_ROOK COLOR_WHITE.
Definition PIECE_BLACK_ROOK : Z := Eval cbv in create_piece PIECE_TYPE_ROOK COLOR_BLACK.
Definition PIECE_WHITE_QUEEN : Z := Eval cbv in create_piece PIECE_TYPE_QUEEN COLOR_WHITE.
Definition PIECE_BLACK_QUEEN : Z := Eval cbv in create_piece PIECE_TYPE_QUEEN COLOR_BLACK.
Definition PIECE_WHITE_KING : Z := Eval cbv in create_piece PIECE_TYPE_KING COLOR_WHITE.
Definition PIECE_BLACK_KING : Z := Eval cbv in create_piece PIECE_TYPE_KING COLOR_BLACK.

(** ** The other functions of pos.c *)

(** [pos->irr_states[pos->irr_state_idx] = irr] *)
Definition with_irr (pos : position) (irr : irreversible_state) : position :=
  {| irr_states := set_nth (irr_state_idx pos) irr (irr_states pos);
     irr_state_cap := irr_state_cap pos;
     irr_state_idx := irr_state_idx pos; side_to_move := side_to_move pos;
     fullmove_counter := fullmove_counter pos;
     color_bb := color_bb pos; type_bb := type_bb pos; board := board pos |}.

Definition remove_castling (pos : position) (c side : Z) : position :=
  with_rights pos
    (Z.land (castling_rights_and_enpassant (cur_irr pos))
            (Z.lnot (Z.shiftl (Z.shiftl 1 side) (2 * c)))).

Definition flip_side_to_move (pos : position) : position :=
  if side_to_move pos =? COLOR_WHITE then with_side pos COLOR_BLACK
  else with_side pos COLOR_WHITE.

Definition set_captured_piece (pos : position) (piece : Z) : position :=
  with_irr pos
    {| castling_rights_and_enpassant := castling_rights_and_enpassant (cur_irr pos);
       halfmove_clock := halfmove_clock (cur_irr pos);
       captured_piece := piece mod 2 ^ 8 |}.

Definition get_captured_piece (pos : position) : Z := captured_piece (cur_irr pos).

Definition reset_halfmove_clock (pos : position) : position :=
  with_irr pos
    {| castling_rights_and_enpassant := castling_rights_and_enpassant (cur_irr pos);
       halfmove_clock := 0;
       captured_piece := captured_piece (cur_irr pos) |}.

(** [++halfmove_clock] on a [u8]. *)
Definition increment_halfmove_clock (pos : position) : position :=
  with_irr pos
    {| castling_rights_and_enpassant := castling_rights_and_enpassant (cur_irr pos);
       halfmove_clock := (halfmove_clock (cur_irr pos) + 1) mod 2 ^ 8;
       captured_piece := captured_piece (cur_irr pos) |}.

Definition get_number_of_pieces_of_color (pos : position) (c : Z) : Z :=
  Bit.popcnt (get_color_bitboard pos c).

(** [--pos->irr_state_idx]; the index is a [size_t], and the function is
    only called on a position that has an earlier state. *)
Definition backtrack_irreversible_state (pos : position) : position :=
  {| irr_states := irr_states pos; irr_state_cap := irr_state_cap pos;
     irr_state_idx := Nat.pred (irr_state_idx pos);
     side_to_move := side_to_move pos;
     fullmove_counter := fullmove_counter pos;
     color_bb := color_bb pos; type_bb := type_bb pos; board := board pos |}.

(** [a[n] = x] on the stack of irreversible states.  The list holds the
    states written so far; a write just above them extends it (the malloc'd
    array has room up to [irr_state_cap], grown by [realloc] before the
    write when needed). *)
Definition write_state (n : nat) (x : irreversible_state)
    (l : list irreversible_state) : list irreversible_state :=
  if (n <? length l)%nat then set_nth n x l
  else l ++ repeat irr_zero (n - length l) ++ [x].

Definition start_new_irreversible_state (pos : position) : position :=
  let idx := S (irr_state_idx pos) in
  let cap := if Z.of_nat idx =? irr_state_cap pos
             then irr_state_cap pos + 256 else irr_state_cap pos in
  {| irr_states := write_state idx (nth (idx - 1) (irr_states pos) irr_zero)
                     (irr_states pos);
     irr_state_cap := cap;
     irr_state_idx := idx;
     side_to_move := side_to_move pos;
     fullmove_counter := fullmove_counter pos;
     color_bb := color_bb pos; type_bb := type_bb pos; board := board pos |}.

(** The functions of pos.c that write the current irreversible state. *)
Inductive irr_write : Type :=
| AddCastling (c side : Z)
| RemoveCastling (c side : Z)
| SetEnpassant (file : Z)
| UnsetEnpassant
| SetCapturedPiece (piece : Z)
| ResetHalfmoveClock
| IncrementHalfmoveClock.

Definition do_irr_write (pos : position) (w : irr_write) : position :=
  match w with
  | AddCastling c side => add_castling pos c side
  | RemoveCastling c side => remove_castling pos c side
  | SetEnpassant file => set_enpassant pos file
  | UnsetEnpassant => unset_enpassant pos
  | SetCapturedPiece piece => set_captured_piece pos piece
  | ResetHalfmoveClock => reset_halfmove_clock pos
  | IncrementHalfmoveClock => increment_halfmove_clock pos
  end.

(** ** Vocabulary for the two board formats

    The header comment of pos.c: the placement is stored piece-centric, in
    the colour and type bitboards, and square-centric, in [board]. *)

(** The integers from 0 below [n]. *)
Definition zrange (n : nat) : list Z := map Z.of_nat (seq 0 n).

(** A piece code, or the empty-square marker. *)
Definition piece_valid (p : Z) : bool := (0 <=? p) && (p <=? PIECE_NONE).

Definition u64b (z : Z) : bool := (0 <=? z) && (z <? 2 ^ 64).

(** At square [sq] the bitboards say what [board] says: the bit of a colour
    or of a type is set exactly when the square holds a piece of that colour
    or type. *)
Definition square_consistent (pos : position) (sq : Z) : bool :=
  let p := get_piece_at pos sq in
  piece_valid p &&
  forallb
    (fun c => Bool.eqb (Z.testbit (get_color_bitboard pos c) sq)
                       (negb (p =? PIECE_NONE) && (get_piece_color p =? c)))
    [COLOR_WHITE; COLOR_BLACK] &&
  forallb
    (fun t => Bool.eqb (Z.testbit (get_type_bitboard pos t) sq)
                       (negb (p =? PIECE_NONE) && (get_piece_type p =? t)))
    all_piece_types.

Definition board_consistent (pos : position) : bool :=
  (length (board pos) =? 64)%nat && (length (color_bb pos) =? 2)%nat &&
  (length (type_bb pos) =? 6)%nat &&
  forallb u64b (color_bb pos) && forallb u64b (type_bb pos) &&
  forallb (square_consistent pos) (zrange 64).

(** What [board_consistent] checks, as a proposition. *)
Definition consistent_view (pos : position) : Prop :=
  length (board pos) = 64%nat /\ length (color_bb pos) = 2%nat /\
  length (type_bb pos) = 6%nat /\
  (forall c, 0 <= c < 2 -> is_u64 (get_color_bitboard pos c)) /\
  (forall t, 0 <= t < 6 -> is_u64 (get_type_bitboard pos t)) /\
  (forall sq, 0 <= sq < 64 ->
     let p := get_piece_at pos sq in
     0 <= p <= PIECE_NONE /\
     (forall c, 0 <= c < 2 ->
        Z.testbit (get_color_bitboard pos c) sq =
        negb (p =? PIECE_NONE) && (get_piece_color p =? c)) /\
     (forall t, 0 <= t < 6 ->
        Z.testbit (get_type_bitboard pos t) sq =
        negb (p =? PIECE_NONE) && (get_piece_type p =? t))).

(** The current irreversible state exists and its first field is a [u8]. *)
Definition irr_valid (pos : position) : bool :=
  (irr_state_idx pos <? length (irr_states pos))%nat &&
  (0 <=? castling_rights_and_enpassant (cur_irr pos)) &&
  (castling_rights_and_enpassant (cur_irr pos) <? 2 ^ 8).

(** The material that [get_phase] weighs: minor pieces 1, rooks 2, queens
    4, of both colours. *)
Definition phase_material (pos : position) : Z :=
  let num pt c := get_number_of_pieces pos (create_piece pt c) in
  num PIECE_TYPE_KNIGHT COLOR_WHITE + num PIECE_TYPE_KNIGHT COLOR_BLACK +
  num PIECE_TYPE_BISHOP COLOR_WHITE + num PIECE_TYPE_BISHOP COLOR_BLACK +
  2 * (num PIECE_TYPE_ROOK COLOR_WHITE + num PIECE_TYPE_ROOK COLOR_BLACK) +
  4 * (num PIECE_TYPE_QUEEN COLOR_WHITE + num PIECE_TYPE_QUEEN COLOR_BLACK).

(** ** Positions that differ above the top of the stack only

    [start_new_irreversible_state] writes a state above the current one and
    [backtrack_irreversible_state] only lowers the index: a move that is made
    and taken back leaves the written state behind, above the top, and the
    array may have grown.  Two positions are the same for every reader when
    they agree on the board, the side, the move counter and the stack of
    irreversible states up to its top. *)
Definition pos_same (p q : position) : Prop :=
  side_to_move p = side_to_move q /\
  fullmove_counter p = fullmove_counter q /\
  color_bb p = color_bb q /\ type_bb p = type_bb q /\ board p = board q /\
  irr_state_idx p = irr_state_idx q /\
  forall i, (i <= irr_state_idx p)%nat ->
            nth i (irr_states p) irr_zero = nth i (irr_states q) irr_zero.

(** The position with the current irreversible state as the only state of
    its stack: what the functions that do not pop the stack can see. *)
Definition rebase (p : position) : position :=
  {| irr_states := [cur_irr p]; irr_state_cap := 0; irr_state_idx := 0;
     side_to_move := side_to_move p; fullmove_counter := fullmove_counter p;
     color_bb := color_bb p; type_bb := type_bb p; board := board p |}.

(** The starting position, set up as the FEN parser does. *)
Definition pos_start : position :=
  setup
    ([(A1, PIECE_WHITE_ROOK); (B1, PIECE_WHITE_KNIGHT); (C1, PIECE_WHITE_BISHOP);
      (D1, PIECE_WHITE_QUEEN); (E1, PIECE_WHITE_KING); (F1, PIECE_WHITE_BISHOP);
      (G1, PIECE_WHITE_KNIGHT); (H1, PIECE_WHITE_ROOK)] ++
     map (fun f => (8 + f, PIECE_WHITE_PAWN)) (zrange 8) ++
     map (fun f => (48 + f, PIECE_BLACK_PAWN)) (zrange 8) ++
     [(A8, PIECE_BLACK_ROOK); (B8, PIECE_BLACK_KNIGHT); (C8, PIECE_BLACK_BISHOP);
      (D8, PIECE_BLACK_QUEEN); (E8, PIECE_BLACK_KING); (F8, PIECE_BLACK_BISHOP);
      (G8, PIECE_BLACK_KNIGHT); (H8, PIECE_BLACK_ROOK)])
    COLOR_WHITE
    [(COLOR_WHITE, CASTLING_SIDE_KING); (COLOR_WHITE, CASTLING_SIDE_QUEEN);
     (COLOR_BLACK, CASTLING_SIDE_KING); (COLOR_BLACK, CASTLING_SIDE_QUEEN)].

End Pos.

(* ===================================================================== *)
(** * move.h *)
(* ===================================================================== *)

Module Move.

(** Modelled from the spec: move.h and move.c are not part of the sources at
    hand.  A move packs origin (6 bits), target (6 bits) and move type
    (4 bits); the move types are numbered in the order the spec lists them.
    The move 0 (A1 to A1, quiet) is what search.c uses as "no move". *)
Definition MOVE_OTHER : Z := 0.
Definition MOVE_DOUBLE_PAWN_PUSH : Z := 1.
Definition MOVE_KING_CASTLE : Z := 2.
Definition MOVE_QUEEN_CASTLE : Z := 3.
Definition MOVE_CAPTURE : Z := 4.
Definition MOVE_EP_CAPTURE : Z := 5.
Definition MOVE_KNIGHT_PROMOTION : Z := 6.
Definition MOVE_BISHOP_PROMOTION : Z := 7.
Definition MOVE_ROOK_PROMOTION : Z := 8.
Definition MOVE_QUEEN_PROMOTION : Z := 9.
Definition MOVE_KNIGHT_PROMOTION_CAPTURE : Z := 10.
Definition MOVE_BISHOP_PROMOTION_CAPTURE : Z := 11.
Definition MOVE_ROOK_PROMOTION_CAPTURE : Z := 12.
Definition MOVE_QUEEN_PROMOTION_CAPTURE : Z := 13.

(** Modelled from the spec: the packing of a move. *)
Definition create_move (from to type : Z) : Z :=
  Z.lor (Z.lor (Z.land from 0x3f) (Z.shiftl (Z.land to 0x3f) 6))
        (Z.shiftl (Z.land type 0xf) 12).

Definition get_move_origin (move : Z) : Z := Z.land move 0x3f.
Definition get_move_target (move : Z) : Z := Z.land (Z.shiftr move 6) 0x3f.
Definition get_move_type (move : Z) : Z := Z.land (Z.shiftr move 12) 0xf.

(** Modelled from the spec: "is_capture covers both plain and
    promotion-captures and EP; is_promotion covers all promotion types;
    is_castling covers the two castling types; is_quiet = not capture and
    not promotion". *)
Definition move_is_capture (move : Z) : bool :=
  let t := get_move_type move in
  (t =? MOVE_CAPTURE) || (t =? MOVE_EP_CAPTURE) ||
  ((MOVE_KNIGHT_PROMOTION_CAPTURE <=? t) && (t <=? MOVE_QUEEN_PROMOTION_CAPTURE)).

Definition move_is_promotion (move : Z) : bool :=
  let t := get_move_type move in
  (MOVE_KNIGHT_PROMOTION <=? t) && (t <=? MOVE_QUEEN_PROMOTION_CAPTURE).

Definition move_is_castling (move : Z) : bool :=
  let t := get_move_type move in
  (t =? MOVE_KING_CASTLE) || (t =? MOVE_QUEEN_CASTLE).

Definition move_is_quiet (move : Z) : bool :=
  negb (move_is_capture move) && negb (move_is_promotion move).

End Move.

(* ===================================================================== *)
(** * movegen.c *)
(* ===================================================================== *)

Module Movegen.
Import Pos Move.

Definition rank_bitboards (r : Z) : Z :=
  nth (Z.to_nat r)
    [0x00000000000000ff; 0x000000000000ff00; 0x0000000000ff0000;
     0x00000000ff000000; 0x000000ff00000000; 0x0000ff0000000000;
     0x00ff000000000000; 0xff00000000000000] 0.

Definition file_bitboards (f : Z) : Z :=
  nth (Z.to_nat f)
    [0x0101010101010101; 0x0202020202020202; 0x0404040404040404;
     0x0808080808080808; 0x1010101010101010; 0x2020202020202020;
     0x4040404040404040; 0x8080808080808080] 0.

Definition move_west (bb n : Z) : Z :=
  Nat.iter (Z.to_nat n)
    (fun bb => Z.land (Z.shiftr bb 1) (Z.lnot (file_bitboards FILE_H))) bb.

Definition move_east (bb n : Z) : Z :=
  Nat.iter (Z.to_nat n)
    (fun bb => Z.land (Bit.wrap64 (Z.shiftl bb 1)) (Z.lnot (file_bitboards FILE_A))) bb.

Definition move_south (bb n : Z) : Z := Z.shiftr bb (8 * n).
Definition move_north (bb n : Z) : Z := Bit.wrap64 (Z.shiftl bb (8 * n)).

Definition move_southwest (bb n : Z) : Z := move_west (move_south bb n) n.
Definition move_southeast (bb n : Z) : Z := move_east (move_south bb n) n.
Definition move_northwest (bb n : Z) : Z := move_west (move_north bb n) n.
Definition move_northeast (bb n : Z) : Z := move_east (move_north bb n) n.

(** [knight_attack_table[sq]] as [init_knight_attacks] computes it. *)
Definition get_knight_attacks (sq : Z) : Z :=
  let bb := Z.shiftl 1 sq in
  let l1 := Z.land (Z.shiftr bb 1) 0x7f7f7f7f7f7f7f7f in
  let l2 := Z.land (Z.shiftr bb 2) 0x3f3f3f3f3f3f3f3f in
  let r1 := Z.land (Bit.wrap64 (Z.shiftl bb 1)) 0xfefefefefefefefe in
  let r2 := Z.land (Bit.wrap64 (Z.shiftl bb 2)) 0xfcfcfcfcfcfcfcfc in
  let h1 := Z.lor l1 r1 in
  let h2 := Z.lor l2 r2 in
  Z.lor (Z.lor (Z.lor (Bit.wrap64 (Z.shiftl h1 16)) (Z.shiftr h1 16))
               (Bit.wrap64 (Z.shiftl h2 8)))
        (Z.shiftr h2 8).

(** [king_attack_table[sq]] as [init_king_attacks] computes it. *)
Definition get_king_attacks (sq : Z) : Z :=
  let bb := Z.shiftl 1 sq in
  let t := Z.lor (move_east bb 1) (move_west bb 1) in
  let bb := Z.lor bb t in
  Z.lor t (Z.lor (move_north bb 1) (move_south bb 1)).

Definition get_single_push (sq occ c : Z) : Z :=
  let bb := Z.shiftl 1 sq in
  if c =? COLOR_WHITE
  then Z.land (move_north bb 1) (Z.lnot occ)
  else Z.land (move_south bb 1) (Z.lnot occ).

Definition get_double_push (sq occ c : Z) : Z :=
  if c =? COLOR_WHITE then
    let single_push := get_single_push sq occ c in
    Z.land (Z.land (move_north single_push 1) (Z.lnot occ)) (rank_bitboards RANK_4)
  else
    let single_push := get_single_push sq occ c in
    Z.land (Z.land (move_south single_push 1) (Z.lnot occ)) (rank_bitboards RANK_5).

Definition get_pawn_attacks (sq c : Z) : Z :=
  let bb := Z.shiftl 1 sq in
  if c =? COLOR_WHITE
  then Z.lor (move_northeast bb 1) (move_northwest bb 1)
  else Z.lor (move_southeast bb 1) (move_southwest bb 1).

(** [add_move]: the list grows by the move; the array is reallocated when
    full, so no move is ever dropped. *)
Definition add_move (lst : list Z) (move : Z) : list Z := lst ++ [move].

Definition promotion_rank (color to : Z) : bool :=
  ((color =? COLOR_WHITE) && (get_rank to =? RANK_8)) ||
  ((color =? COLOR_BLACK) && (get_rank to =? RANK_1)).

Definition add_pushes (lst : list Z) (from occ color : Z) : list Z :=
  let targets := get_single_push from occ color in
  if negb (targets =? 0) then
    let to := Bit.get_ls1b targets in
    if promotion_rank color to then
      fold_left (fun lst move_type => add_move lst (create_move from to move_type))
        [MOVE_KNIGHT_PROMOTION; MOVE_BISHOP_PROMOTION; MOVE_ROOK_PROMOTION;
         MOVE_QUEEN_PROMOTION] lst
    else add_move lst (create_move from to MOVE_OTHER)
  else lst.

Definition add_double_pushes (lst : list Z) (from occ color : Z) : list Z :=
  let targets := get_double_push from occ color in
  if negb (targets =? 0) then
    let to := Bit.get_ls1b targets in
    add_move lst (create_move from to MOVE_DOUBLE_PAWN_PUSH)
  else lst.

Definition add_pawn_attacks (lst : list Z) (from enemy_pieces color : Z) : list Z :=
  let targets := Z.land (get_pawn_attacks from color) enemy_pieces in
  Bit.bb_loop 64
    (fun to lst =>
       if promotion_rank color to then
         fold_left (fun lst move_type => add_move lst (create_move from to move_type))
           [MOVE_KNIGHT_PROMOTION_CAPTURE; MOVE_BISHOP_PROMOTION_CAPTURE;
            MOVE_ROOK_PROMOTION_CAPTURE; MOVE_QUEEN_PROMOTION_CAPTURE] lst
       else add_move lst (create_move from to MOVE_CAPTURE))
    targets lst.

Definition add_pawn_moves (lst : list Z) (pos : position) : list Z :=
  let color := get_side_to_move pos in
  let piece := create_piece PIECE_TYPE_PAWN color in
  let enemy_pieces := get_color_bitboard pos (opp color) in
  let occ := Z.lor enemy_pieces (get_color_bitboard pos color) in
  let bb := get_piece_bitboard pos piece in
  let lst :=
    if negb (enpassant_possible pos =? 0) then
      let sq := get_enpassant_square pos in
      let attackers := Z.land (get_pawn_attacks sq (opp color)) bb in
      Bit.bb_loop 64
        (fun from lst => add_move lst (create_move from sq MOVE_EP_CAPTURE))
        attackers lst
    else lst in
  Bit.bb_loop 64
    (fun from lst =>
       let lst := add_pushes lst from occ color in
       let lst := add_double_pushes lst from occ color in
       add_pawn_attacks lst from enemy_pieces color)
    bb lst.

(** Modelled from the spec: the [Direction] enum of movegen.h, which is not
    part of the sources at hand; only the names matter. *)
Inductive Direction : Set :=
| NORTH | SOUTH | EAST | WEST | NORTHEAST | NORTHWEST | SOUTHEAST | SOUTHWEST.

Definition get_north_ray (sq : Z) : Z := Bit.wrap64 (Z.shiftl 0x0101010101010100 sq).
Definition get_south_ray (sq : Z) : Z := Z.shiftr 0x0080808080808080 (Z.lxor sq 63).
Definition get_northeast_ray (sq : Z) : Z :=
  Bit.wrap64 (Z.shiftl (move_east 0x8040201008040200 (get_file sq)) (get_rank sq * 8)).
Definition get_northwest_ray (sq : Z) : Z :=
  Bit.wrap64 (Z.shiftl (move_west 0x0102040810204000 (7 - get_file sq)) (get_rank sq * 8)).
Definition get_southeast_ray (sq : Z) : Z :=
  Z.shiftr (move_east 0x0002040810204080 (get_file sq)) ((7 - get_rank sq) * 8).
Definition get_southwest_ray (sq : Z) : Z :=
  Z.shiftr (move_west 0x0040201008040201 (7 - get_file sq)) ((7 - get_rank sq) * 8).
Definition get_east_ray (sq : Z) : Z :=
  Bit.wrap64 (2 * (Z.shiftl 1 (Z.lor sq 7) - Z.shiftl 1 sq)).
Definition get_west_ray (sq : Z) : Z :=
  Bit.wrap64 (Z.shiftl 1 sq - Z.shiftl 1 (Z.land sq 56)).

(** [ray_bitboards[dir][sq]] as [init_rays] fills it. *)
Definition ray_bitboards (dir : Direction) (sq : Z) : Z :=
  match dir with
  | NORTH => get_north_ray sq
  | SOUTH => get_south_ray sq
  | NORTHEAST => get_northeast_ray sq
  | NORTHWEST => get_northwest_ray sq
  | SOUTHEAST => get_southeast_ray sq
  | SOUTHWEST => get_southwest_ray sq
  | EAST => get_east_ray sq
  | WEST => get_west_ray sq
  end.

Definition dir_mask (dir : Direction) : Z :=
  match dir with
  | NORTH | NORTHEAST | EAST | NORTHWEST => 0
  | SOUTH | SOUTHEAST | WEST | SOUTHWEST => 0xffffffffffffffff
  end.

Definition dir_bit (dir : Direction) : Z :=
  match dir with
  | SOUTH | SOUTHEAST | WEST | SOUTHWEST => 0x1
  | NORTH | NORTHEAST | EAST | NORTHWEST => 0x8000000000000000
  end.

Definition gen_ray_attacks (occ : Z) (dir : Direction) (sq : Z) : Z :=
  let attacks := ray_bitboards dir sq in
  let blockers := Z.land attacks occ in
  let blockers := Z.lor blockers (dir_bit dir) in
  let blockers := Z.land blockers (Z.lor (Bit.wrap64 (- blockers)) (dir_mask dir)) in
  let sq := Bit.get_ms1b blockers in
  Z.lxor attacks (ray_bitboards dir sq).

Definition slow_gen_bishop_attacks (sq occ : Z) : Z :=
  Z.lor (Z.lor (Z.lor (gen_ray_attacks occ NORTHEAST sq)
                      (gen_ray_attacks occ SOUTHEAST sq))
               (gen_ray_attacks occ SOUTHWEST sq))
        (gen_ray_attacks occ NORTHWEST sq).

Definition slow_gen_rook_attacks (sq occ : Z) : Z :=
  Z.lor (Z.lor (Z.lor (gen_ray_attacks occ NORTH sq)
                      (gen_ray_attacks occ EAST sq))
               (gen_ray_attacks occ SOUTH sq))
        (gen_ray_attacks occ WEST sq).

(** [m->mask] of [init_magics_for_piece_type] for the square [sq]. *)
Definition magic_mask (attack_generator : Z -> Z -> Z) (sq : Z) : Z :=
  let f := get_file sq in
  let r := get_rank sq in
  let edges :=
    Z.lor (Z.land (Z.lor (file_bitboards FILE_A) (file_bitboards FILE_H))
                  (Z.lnot (file_bitboards f)))
          (Z.land (Z.lor (rank_bitboards RANK_1) (rank_bitboards RANK_8))
                  (Z.lnot (rank_bitboards r))) in
  Z.land (attack_generator sq 0) (Z.lnot edges).

(** The magic tables once [init_magics] has found its magic numbers: every
    subset [bb] of the mask has its slot, which holds
    [attack_generator(sq, bb)], and the lookup reads the slot of
    [occ & mask]. *)
Definition table_rook_attacks (sq occ : Z) : Z :=
  slow_gen_rook_attacks sq (Z.land occ (magic_mask slow_gen_rook_attacks sq)).

Definition table_bishop_attacks (sq occ : Z) : Z :=
  slow_gen_bishop_attacks sq (Z.land occ (magic_mask slow_gen_bishop_attacks sq)).

Section Sliding.

(** [get_rook_attacks] and [get_bishop_attacks] read the magic-bitboard
    tables that [init_magics] fills by random search (rng.h is not part of
    the sources at hand): the generator is stated for any table contents. *)
Variable get_rook_attacks : Z -> Z -> Z.
Variable get_bishop_attacks : Z -> Z -> Z.

Definition get_queen_attacks (sq occ : Z) : Z :=
  Z.lor (get_rook_attacks sq occ) (get_bishop_attacks sq occ).

Definition is_square_attacked (sq by_side : Z) (pos : position) : bool :=
  let occ := Z.lor (get_color_bitboard pos by_side)
                   (get_color_bitboard pos (opp by_side)) in
  let pawns := get_piece_bitboard pos (create_piece PIECE_TYPE_PAWN by_side) in
  if negb (Z.land (get_pawn_attacks sq (opp by_side)) pawns =? 0) then true else
  let knights := get_piece_bitboard pos (create_piece PIECE_TYPE_KNIGHT by_side) in
  if negb (Z.land (get_knight_attacks sq) knights =? 0) then true else
  let rooks_queens := get_piece_bitboard pos (create_piece PIECE_TYPE_ROOK by_side) in
  let queens := get_piece_bitboard pos (create_piece PIECE_TYPE_QUEEN by_side) in
  let rooks_queens := Z.lor rooks_queens queens in
  if negb (Z.land (get_rook_attacks sq occ) rooks_queens =? 0) then true else
  let bishops_queens := queens in
  let bishops_queens :=
    Z.lor bishops_queens
          (get_piece_bitboard pos (create_piece PIECE_TYPE_BISHOP by_side)) in
  if negb (Z.land (get_bishop_attacks sq occ) bishops_queens =? 0) then true else
  let king := get_piece_bitboard pos (create_piece PIECE_TYPE_KING by_side) in
  if negb (Z.land (get_king_attacks sq) king =? 0) then true else
  false.

(** [add_king_castling]; [gen_king_castling] of the other movegen.c has the
    same body. *)
Definition add_king_castling (lst : list Z) (pos : position) : list Z :=
  let color := get_side_to_move pos in
  let from := get_king_square pos color in
  if has_castling_right pos color CASTLING_SIDE_KING then
    let k_castling_test_sq1 := if color =? COLOR_WHITE then F1 else F8 in
    let k_castling_test_sq2 := if color =? COLOR_WHITE then G1 else G8 in
    if (get_piece_at pos k_castling_test_sq1 =? PIECE_NONE) &&
       (get_piece_at pos k_castling_test_sq2 =? PIECE_NONE) &&
       negb (is_square_attacked k_castling_test_sq1 (opp color) pos) &&
       negb (is_square_attacked k_castling_test_sq2 (opp color) pos) &&
       negb (is_square_attacked from (opp color) pos)
    then
      let to := if color =? COLOR_WHITE then G1 else G8 in
      add_move lst (create_move from to MOVE_KING_CASTLE)
    else lst
  else lst.

(** [add_queen_castling]; [gen_queen_castling] of the other movegen.c has
    the same body. *)
Definition add_queen_castling (lst : list Z) (pos : position) : list Z :=
  let color := get_side_to_move pos in
  let from := get_king_square pos color in
  if has_castling_right pos color CASTLING_SIDE_QUEEN then
    let q_castling_test_sq1 := if color =? COLOR_WHITE then D1 else D8 in
    let q_castling_test_sq2 := if color =? COLOR_WHITE then C1 else C8 in
    let q_castling_test_sq3 := if color =? COLOR_WHITE then B1 else B8 in
    if (get_piece_at pos q_castling_test_sq1 =? PIECE_NONE) &&
       (get_piece_at pos q_castling_test_sq2 =? PIECE_NONE) &&
       (get_piece_at pos q_castling_test_sq3 =? PIECE_NONE) &&
       negb (is_square_attacked q_castling_test_sq1 (opp color) pos) &&
       negb (is_square_attacked q_castling_test_sq2 (opp color) pos) &&
       negb (is_square_attacked from (opp color) pos)
    then
      let to := if color =? COLOR_WHITE then C1 else C8 in
      add_move lst (create_move from to MOVE_QUEEN_CASTLE)
    else lst
  else lst.

(** The loop over a target bitboard shared by the king and the pieces:
    a quiet move to an empty square, a capture otherwise. *)
Definition add_targets (lst : list Z) (pos : position) (from targets : Z) : list Z :=
  Bit.bb_loop 64
    (fun to lst =>
       let move := if get_piece_at pos to =? PIECE_NONE
                   then create_move from to MOVE_OTHER
                   else create_move from to MOVE_CAPTURE in
       add_move lst move)
    targets lst.

Definition add_king_moves (lst : list Z) (pos : position) : list Z :=
  let color := get_side_to_move pos in
  let from := get_king_square pos color in
  let occ := Z.lor (get_color_bitboard pos color)
                   (get_color_bitboard pos (opp color)) in
  let friendly_pieces := Z.land occ (get_color_bitboard pos color) in
  let lst := add_king_castling lst pos in
  let lst := add_queen_castling lst pos in
  let targets := Z.land (get_king_attacks from) (Z.lnot friendly_pieces) in
  add_targets lst pos from targets.

(** [add_moves]; the [default: abort()] of the inner switch is reached for
    no piece type the generator passes and leaves the list as it is here. *)
Definition add_moves (lst : list Z) (piece_type : Z) (pos : position) : list Z :=
  if piece_type =? PIECE_TYPE_PAWN then add_pawn_moves lst pos
  else if piece_type =? PIECE_TYPE_KING then add_king_moves lst pos
  else
    let color := get_side_to_move pos in
    let piece := create_piece piece_type color in
    let occ := Z.lor (get_color_bitboard pos color)
                     (get_color_bitboard pos (opp color)) in
    let friendly_pieces := Z.land occ (get_color_bitboard pos color) in
    let bb := get_piece_bitboard pos piece in
    Bit.bb_loop 64
      (fun from lst =>
         let targets :=
           if piece_type =? PIECE_TYPE_KNIGHT then get_knight_attacks from
           else if piece_type =? PIECE_TYPE_ROOK then get_rook_attacks from occ
           else if piece_type =? PIECE_TYPE_BISHOP then get_bishop_attacks from occ
           else if piece_type =? PIECE_TYPE_QUEEN then get_queen_attacks from occ
           else 0 in
         let targets := Z.land targets (Z.lnot friendly_pieces) in
         add_targets lst pos from targets)
      bb lst.

(** The move list [get_pseudo_legal_moves] builds before it decides what to
    return. *)
Definition generate (pos : position) : list Z :=
  let lst := [] in
  let lst := add_moves lst PIECE_TYPE_PAWN pos in
  let lst := add_moves lst PIECE_TYPE_KNIGHT pos in
  let lst := add_moves lst PIECE_TYPE_ROOK pos in
  let lst := add_moves lst PIECE_TYPE_BISHOP pos in
  let lst := add_moves lst PIECE_TYPE_QUEEN pos in
  add_moves lst PIECE_TYPE_KING pos.

(** [get_pseudo_legal_moves] returns the pointer and writes [*len]; the
    model returns both, [None] standing for [NULL]. *)
Definition get_pseudo_legal_moves (pos : position) : option (list Z) * Z :=
  let lst := generate pos in
  let len := Z.of_nat (length lst) in
  if len =? 0 then (None, len) else (Some lst, len).

Definition get_attackers (sq : Z) (pos : position) : Z :=
  let occ := Z.lor (get_color_bitboard pos COLOR_WHITE)
                   (get_color_bitboard pos COLOR_BLACK) in
  let get_bb := get_piece_bitboard pos in
  let white_pawns := get_bb PIECE_BLACK_PAWN in
  let black_pawns := get_bb PIECE_WHITE_PAWN in
  let knights := Z.lor (get_bb PIECE_WHITE_KNIGHT) (get_bb PIECE_BLACK_KNIGHT) in
  let kings := Z.lor (get_bb PIECE_WHITE_KING) (get_bb PIECE_BLACK_KING) in
  let bishops_queens :=
    Z.lor (Z.lor (Z.lor (get_bb PIECE_WHITE_QUEEN) (get_bb PIECE_BLACK_QUEEN))
                 (get_bb PIECE_WHITE_BISHOP))
          (get_bb PIECE_BLACK_BISHOP) in
  let rooks_queens :=
    Z.lor (Z.lor (Z.lor (get_bb PIECE_WHITE_QUEEN) (get_bb PIECE_BLACK_QUEEN))
                 (get_bb PIECE_WHITE_ROOK))
          (get_bb PIECE_BLACK_ROOK) in
  Z.lor
    (Z.lor
       (Z.lor
          (Z.lor
             (Z.lor (Z.land (get_pawn_attacks sq COLOR_WHITE) white_pawns)
                    (Z.land (get_pawn_attacks sq COLOR_BLACK) black_pawns))
             (Z.land (get_knight_attacks sq) knights))
          (Z.land (get_king_attacks sq) kings))
       (Z.land (get_bishop_attacks sq occ) bishops_queens))
    (Z.land (get_rook_attacks sq occ) rooks_queens).

(** ** The specification's vocabulary for castling *)

Definition king_home (c : Z) : Z := if c =? COLOR_WHITE then E1 else E8.

Definition rook_home (c side : Z) : Z :=
  if side =? CASTLING_SIDE_KING
  then (if c =? COLOR_WHITE then H1 else H8)
  else (if c =? COLOR_WHITE then A1 else A8).

(** The king lands two files from home, towards the rook. *)
Definition castling_target (c side : Z) : Z :=
  if side =? CASTLING_SIDE_KING then king_home c + 2 else king_home c - 2.

(** The squares strictly between two squares of one rank. *)
Definition between (a b : Z) : list Z :=
  filter (fun sq => (Z.min a b <? sq) && (sq <? Z.max a b)) Bit.squares.

(** The squares the king crosses or lands on when it goes from [a] to [b]. *)
Definition traversed (a b : Z) : list Z := between a b ++ [b].

Definition castling_move_type (side : Z) : Z :=
  if side =? CASTLING_SIDE_KING then MOVE_KING_CASTLE else MOVE_QUEEN_CASTLE.

(** The generator emits a castling move to the given side of the board. *)
Definition emits_castling (pos : position) (side : Z) : Prop :=
  exists move, In move (generate pos) /\ get_move_type move = castling_move_type side.

Definition may_castle (pos : position) (side : Z) : Prop :=
  let c := get_side_to_move pos in
  let king := get_king_square pos c in
  has_castling_right pos c side = true /\
  (forall sq, In sq (between king (rook_home c side)) ->
              get_piece_at pos sq = PIECE_NONE) /\
  (forall sq, In sq (king :: traversed king (castling_target c side)) ->
              is_square_attacked sq (opp c) pos = false).

(** The same with the squares counted from the home square of the king,
    where the generator looks for them; the square that must not be
    attacked is still the one the king stands on. *)
Definition may_castle_from_home (pos : position) (side : Z) : Prop :=
  let c := get_side_to_move pos in
  has_castling_right pos c side = true /\
  (forall sq, In sq (between (king_home c) (rook_home c side)) ->
              get_piece_at pos sq = PIECE_NONE) /\
  (forall sq, In sq (get_king_square pos c ::
                     traversed (king_home c) (castling_target c side)) ->
              is_square_attacked sq (opp c) pos = false).

End Sliding.

(** The moves of type [t]. *)
Definition of_type (t : Z) (move : Z) : bool := get_move_type move =? t.

(** The two castling types. *)
Definition castling_type (t : Z) : Prop := t = MOVE_KING_CASTLE \/ t = MOVE_QUEEN_CASTLE.

(** The castling claim as the specification words it, on every position. *)
Definition castling_claim : Prop :=
  forall (get_rook_attacks get_bishop_attacks : Z -> Z -> Z) (pos : position)
         (side : Z),
    side = CASTLING_SIDE_KING \/ side = CASTLING_SIDE_QUEEN ->
    (emits_castling get_rook_attacks get_bishop_attacks pos side <->
     may_castle get_rook_attacks get_bishop_attacks pos side).

(** FEN 4k3/8/8/8/8/8/8/3KB2R w K -: White holds the king-side right while
    its king stands on d1, with a bishop on e1 between it and the rook. *)
Definition pos_king_off_home : position :=
  setup [(D1, PIECE_WHITE_KING); (E1, PIECE_WHITE_BISHOP); (H1, PIECE_WHITE_ROOK);
         (E8, PIECE_BLACK_KING)]
        COLOR_WHITE [(COLOR_WHITE, CASTLING_SIDE_KING)].

(** FEN KP6/PP6/8/8/8/8/8/7k w - -: the white king on a8 behind its own
    pawns on a7, b7 and b8. *)
Definition pos_boxed : position :=
  setup [(A8, PIECE_WHITE_KING); (48, PIECE_WHITE_PAWN); (49, PIECE_WHITE_PAWN);
         (B8, PIECE_WHITE_PAWN); (H1, PIECE_BLACK_KING)] COLOR_WHITE [].

(** ** Vocabulary for the attack sets: the geometry of the board *)

Definition file_distance (a b : Z) : Z := Z.abs (get_file a - get_file b).
Definition rank_distance (a b : Z) : Z := Z.abs (get_rank a - get_rank b).

(** One file and two ranks apart, or two files and one rank. *)
Definition knight_jump (sq t : Z) : bool :=
  ((file_distance sq t =? 1) && (rank_distance sq t =? 2)) ||
  ((file_distance sq t =? 2) && (rank_distance sq t =? 1)).

(** A neighbouring square. *)
Definition king_step (sq t : Z) : bool :=
  Z.max (file_distance sq t) (rank_distance sq t) =? 1.

(** One file aside and one rank ahead, as the colour [c] moves. *)
Definition pawn_capture_step (c sq t : Z) : bool :=
  (file_distance sq t =? 1) &&
  (get_rank t =? get_rank sq + (if c =? COLOR_WHITE then 1 else -1)).

(** The bitboard with exactly the given squares. *)
Definition bb_of_squares (l : list Z) : Z :=
  fold_right (fun s bb => Z.lor (Z.shiftl 1 s) bb) 0 l.

(** The file and rank steps of a direction. *)
Definition dir_delta (dir : Direction) : Z * Z :=
  match dir with
  | NORTH => (0, 1)
  | SOUTH => (0, -1)
  | EAST => (1, 0)
  | WEST => (-1, 0)
  | NORTHEAST => (1, 1)
  | NORTHWEST => (-1, 1)
  | SOUTHEAST => (1, -1)
  | SOUTHWEST => (-1, -1)
  end.

(** The squares met from file [f], rank [r] by steps of [(df, dr)], nearest
    first, up to the edge of the board. *)
Fixpoint walk (n : nat) (df dr f r : Z) : list Z :=
  match n with
  | O => []
  | S n' =>
      let f' := f + df in
      let r' := r + dr in
      if (0 <=? f') && (f' <? 8) && (0 <=? r') && (r' <? 8)
      then file_rank_to_square f' r' :: walk n' df dr f' r'
      else []
  end.

Definition ray_squares (dir : Direction) (sq : Z) : list Z :=
  walk 7 (fst (dir_delta dir)) (snd (dir_delta dir)) (get_file sq) (get_rank sq).

(** The squares of a ray that a slider reaches: up to the first occupied
    square, which is included. *)
Fixpoint reach (occ : Z) (l : list Z) : list Z :=
  match l with
  | [] => []
  | s :: rest => if Z.testbit occ s then [s] else s :: reach occ rest
  end.

Definition all_directions : list Direction :=
  [NORTH; SOUTH; EAST; WEST; NORTHEAST; NORTHWEST; SOUTHEAST; SOUTHWEST].

Definition rook_directions : list Direction := [NORTH; EAST; SOUTH; WEST].
Definition bishop_directions : list Direction :=
  [NORTHEAST; SOUTHEAST; SOUTHWEST; NORTHWEST].

(** What a slider on [sq] reaches along the given directions. *)
Definition slider_reach (dirs : list Direction) (sq occ : Z) : list Z :=
  flat_map (fun dir => reach occ (ray_squares dir sq)) dirs.

(** ** Vocabulary for the generated moves *)

(** The square holds a piece of the side to move, or of the other side. *)
Definition own_piece (pos : position) (sq : Z) : Prop :=
  get_piece_at pos sq <> PIECE_NONE /\
  get_piece_color (get_piece_at pos sq) = get_side_to_move pos.

Definition enemy_piece (pos : position) (sq : Z) : Prop :=
  get_piece_at pos sq <> PIECE_NONE /\
  get_piece_color (get_piece_at pos sq) = opp (get_side_to_move pos).

(** The move types that take the piece on the target square. *)
Definition takes_on_target (t : Z) : bool :=
  (t =? MOVE_CAPTURE) ||
  ((MOVE_KNIGHT_PROMOTION_CAPTURE <=? t) && (t <=? MOVE_QUEEN_PROMOTION_CAPTURE)).

(** FEN 4k3/8/4p3/3P4/8/8/8/4K3 w - e6: the en-passant square e6 holds a
    pawn; the FEN parser takes the square as it is written. *)
Definition pos_enpassant_occupied : position :=
  set_enpassant
    (setup [(E8, PIECE_BLACK_KING); (44, PIECE_BLACK_PAWN); (35, PIECE_WHITE_PAWN);
            (E1, PIECE_WHITE_KING)] COLOR_WHITE []) 4.

(** A move from a piece of the side to move that lands on an enemy piece
    when its type says it takes the piece on the target square, on the
    en-passant square of the position when it is an en-passant capture, and
    on an empty square otherwise. *)
Definition sound_move (pos : position) (move : Z) : Prop :=
  exists from to t,
    move = create_move from to t /\
    0 <= from < 64 /\ 0 <= to < 64 /\ 0 <= t < 16 /\
    own_piece pos from /\
    (if t =? MOVE_EP_CAPTURE
     then enpassant_possible pos <> 0 /\ to = get_enpassant_square pos
     else if takes_on_target t then enemy_piece pos to
     else get_piece_at pos to = PIECE_NONE).

Fixpoint sublists {A : Type} (l : list A) : list (list A) :=
  match l with
  | [] => [[]]
  | x :: rest => map (cons x) (sublists rest) ++ sublists rest
  end.

End Movegen.

(* ===================================================================== *)
(** * tt.c *)
(* ===================================================================== *)

Module TT.
Import Pos.

Definition NUM_PIECES : Z := 12.
Definition NUM_SQUARES : Z := 64.
Definition NUM_CASTLING_RIGHTS : Z := 16.
Definition NUM_EN_PASSANT_FILES : Z := 8.
Definition NUM_COLOR_VARIATION : Z := 1.
Definition ZOBRIST_ARRAY_SIZE : Z :=
  NUM_PIECES * NUM_SQUARES + NUM_CASTLING_RIGHTS + NUM_EN_PASSANT_FILES +
  NUM_COLOR_VARIATION.

Definition b2z (b : bool) : Z := if b then 1 else 0.

Section Zobrist.

(** [zobrist_numbers[i]]: the table [init_hash] fills from the random
    number generator (rng.h is not part of the sources at hand), read at
    index [i]. *)
Variable zobrist_numbers : Z -> Z.

(** The loop of [hash_pos] over the two colours.  Each round assigns
    [rights] anew from the rights of that colour and shifts it into place;
    [rights] is a [u8]. *)
Definition castling_index (pos : position) : Z :=
  fold_left
    (fun (rights : Z) (color : Z) =>
       let has_king_right := has_castling_right pos color CASTLING_SIDE_KING in
       let has_queen_right := has_castling_right pos color CASTLING_SIDE_QUEEN in
       let rights := Z.lor (Z.shiftl (b2z has_king_right) 1) (b2z has_queen_right) in
       Z.shiftl rights (2 * color) mod 2 ^ 8)
    [COLOR_WHITE; COLOR_BLACK] 0.

(** The loop of [hash_pos] over the 64 squares. *)
Definition hash_pieces (pos : position) : Z :=
  fold_left
    (fun (key : Z) (sq : Z) =>
       let piece := get_piece_at pos sq in
       if negb (piece =? PIECE_NONE)
       then Z.lxor key (zobrist_numbers (NUM_SQUARES * piece + sq))
       else key)
    Bit.squares 0.

Definition hash_pos (pos : position) : Z :=
  let key := hash_pieces pos in
  let ptr := NUM_PIECES * NUM_SQUARES in
  let rights := castling_index pos in
  let key := Z.lxor key (zobrist_numbers (ptr + rights)) in
  let ptr := ptr + NUM_CASTLING_RIGHTS in
  let key :=
    if negb (enpassant_possible pos =? 0) then
      let sq := get_enpassant_square pos in
      let file := get_file sq in
      Z.lxor key (zobrist_numbers (ptr + file))
    else key in
  let ptr := ptr + NUM_EN_PASSANT_FILES in
  if get_side_to_move pos =? COLOR_BLACK
  then Z.lxor key (zobrist_numbers (ptr + 0))
  else key.

(** The hash as the specification words it: piece keys, the key of the full
    four-bit castling-rights set, the en-passant-file key when present, the
    side key when Black is to move.  The four-bit set is the low nibble of
    [castling_rights_and_enpassant]. *)
Definition castling_rights_set (pos : position) : Z :=
  Z.land (castling_rights_and_enpassant (cur_irr pos)) 0xf.

Definition hash_spec (pos : position) : Z :=
  let key := hash_pieces pos in
  let key := Z.lxor key
               (zobrist_numbers (NUM_PIECES * NUM_SQUARES + castling_rights_set pos)) in
  let key :=
    if negb (enpassant_possible pos =? 0)
    then Z.lxor key
           (zobrist_numbers (NUM_PIECES * NUM_SQUARES + NUM_CASTLING_RIGHTS +
                             get_file (get_enpassant_square pos)))
    else key in
  if get_side_to_move pos =? COLOR_BLACK
  then Z.lxor key
         (zobrist_numbers (NUM_PIECES * NUM_SQUARES + NUM_CASTLING_RIGHTS +
                           NUM_EN_PASSANT_FILES))
  else key.

End Zobrist.

(** Kings and rooks on their home squares, White to move. *)
Definition castling_pieces : list (Z * Z) :=
  [(E1, PIECE_WHITE_KING); (A1, PIECE_WHITE_ROOK); (H1, PIECE_WHITE_ROOK);
   (E8, PIECE_BLACK_KING); (A8, PIECE_BLACK_ROOK); (H8, PIECE_BLACK_ROOK)].

(** FEN r3k2r/8/8/8/8/8/8/R3K2R w KQkq - *)
Definition pos_all_rights : position :=
  setup castling_pieces COLOR_WHITE
    [(COLOR_WHITE, CASTLING_SIDE_KING); (COLOR_WHITE, CASTLING_SIDE_QUEEN);
     (COLOR_BLACK, CASTLING_SIDE_KING); (COLOR_BLACK, CASTLING_SIDE_QUEEN)].

(** FEN r3k2r/8/8/8/8/8/8/R3K2R w kq - *)
Definition pos_black_rights : position :=
  setup castling_pieces COLOR_WHITE
    [(COLOR_BLACK, CASTLING_SIDE_KING); (COLOR_BLACK, CASTLING_SIDE_QUEEN)].

(** ** The capacity of the table *)

(** [is_prime]: the loop [for (m = n - 1; m * m >= n; --m)] on
    [unsigned long long], one unit of fuel a round.  [None]: the fuel ran
    out, or the loop came to [n % 0]. *)
Fixpoint is_prime_loop (fuel : nat) (n m : Z) : option bool :=
  match fuel with
  | O => None
  | S fuel' =>
      if Bit.wrap64 (m * m) >=? n then
        if m =? 0 then None
        else if n mod m =? 0 then Some false
        else is_prime_loop fuel' n (Bit.wrap64 (m - 1))
      else Some true
  end.

Definition is_prime (fuel : nat) (n : Z) : option bool :=
  is_prime_loop fuel n (Bit.wrap64 (n - 1)).

(** How [find_prime] ends: it returns a number, or prints "Internal error."
    and calls [exit(1)]. *)
Inductive found : Type :=
| Prime (p : Z)
| InternalError.

(** [find_prime]: the loop [for (p = n; p > 0; --p)]. *)
Fixpoint find_prime (fuel : nat) (p : Z) : option found :=
  match fuel with
  | O => None
  | S fuel' =>
      if p >? 0 then
        match is_prime fuel' p with
        | None => None
        | Some true => Some (Prime p)
        | Some false => find_prime fuel' (Bit.wrap64 (p - 1))
        end
      else Some InternalError
  end.

End TT.

(* ===================================================================== *)
(** * eval.c *)
(* ===================================================================== *)

(** The piece-square tables, the same in both versions of eval.c. *)
Module Tables.

Definition mg_pawn_sq_table : list Z :=
  [
   0; 0; 0; 0; 0; 0; 0; 0;
   98; 134; 61; 95; 68; 126; 34; (-11);
   (-6); 7; 26; 31; 65; 56; 25; (-20);
   (-14); 13; 6; 21; 23; 12; 17; (-23);
   (-27); (-2); (-5); 12; 17; 6; 10; (-25);
   (-26); (-4); (-4); (-10); 3; 3; 33; (-12);
   (-35); (-1); (-20); (-23); (-15); 24; 38; (-22);
   0; 0; 0; 0; 0; 0; 0; 0
  ].

Definition eg_pawn_sq_table : list Z :=
  [
   0; 0; 0; 0; 0; 0; 0; 0;
   178; 173; 158; 134; 147; 132; 165; 187;
   94; 100; 85; 67; 56; 53; 82; 84;
   32; 24; 13; 5; (-2); 4; 17; 17;
   13; 9; (-3); (-7); (-7); (-8); 3; (-1);
   4; 7; (-6); 1; 0; (-5); (-1); (-8);
   13; 8; 8; 10; 13; 0; 2; (-7);
   0; 0; 0; 0; 0; 0; 0; 0
  ].

Definition mg_knight_sq_table : list Z :=
  [
   (-167); (-89); (-34); (-49); 61; (-97); (-15); (-107);
   (-73); (-41); 72; 36; 23; 62; 7; (-17);
   (-47); 60; 37; 65; 84; 129; 73; 44;
   (-9); 17; 19; 53; 37; 69; 18; 22;
   (-13); 4; 16; 13; 28; 19; 21; (-8);
   (-23); (-9); 12; 10; 19; 17; 25; (-16);
   (-29); (-53); (-12); (-3); (-1); 18; (-14); (-19);
   (-105); (-21); (-58); (-33); (-17); (-28); (-19); (-23)
  ].

Definition eg_knight_sq_table : list Z :=
  [
   (-58); (-38); (-13); (-28); (-31); (-27); (-63); (-99);
   (-25); (-8); (-25); (-2); (-9); (-25); (-24); (-52);
   (-24); (-20); 10; 9; (-1); (-9); (-19); (-41);
   (-17); 3; 22; 22; 22; 11; 8; (-18);
   (-18); (-6); 16; 25; 16; 17; 4; (-18);
   (-23); (-3); (-1); 15; 10; (-3); (-20); (-22);
   (-42); (-20); (-10); (-5); (-2); (-20); (-23); (-44);
   (-29); (-51); (-23); (-15); (-22); (-18); (-50); (-64)
  ].

Definition mg_bishop_sq_table : list Z :=
  [
   (-29); 4; (-82); (-37); (-25); (-42); 7; (-8);
   (-26); 16; (-18); (-13); 30; 59; 18; (-47);
   (-16); 37; 43; 40; 35; 50; 37; (-2);
   (-4); 5; 19; 50; 37; 37; 7; (-2);
   (-6); 13; 13; 26; 34; 12; 10; 4;
   0; 15; 15; 15; 14; 27; 18; 10;
   4; 15; 16; 0; 7; 21; 33; 1;
   (-33); (-3); (-14); (-21); (-13); (-12); (-39); (-21)
  ].

Definition eg_bishop_sq_table : list Z :=
  [
   (-14); (-21); (-11); (-8); (-7); (-9); (-17); (-24);
   (-8); (-4); 7; (-12); (-3); (-13); (-4); (-14);
   2; (-8); 0; (-1); (-2); 6; 0; 4;
   (-3); 9; 12; 9; 14; 10; 3; 2;
   (-6); 3; 13; 19; 7; 10; (-3); (-9);
   (-12); (-3); 8; 10; 13; 3; (-7); (-15);
   (-14); (-18); (-7); (-1); 4; (-9); (-15); (-27);
   (-23); (-9); (-23); (-5); (-9); (-16); (-5); (-17)
  ].

Definition mg_rook_sq_table : list Z :=
  [
   32; 42; 32; 51; 63; 9; 31; 43;
   27; 32; 58; 62; 80; 67; 26; 44;
   (-5); 19; 26; 36; 17; 45; 61; 16;
   (-24); (-11); 7; 26; 24; 35; (-8); (-20);
   (-36); (-26); (-12); (-1); 9; (-7); 6; (-23);
   (-45); (-25); (-16); (-17); 3; 0; (-5); (-33);
   (-44); (-16); (-20); (-9); (-1); 11; (-6); (-71);
   (-19); (-13); 1; 17; 16; 7; (-37); (-26)
  ].

Definition eg_rook_sq_table : list Z :=
  [
   13; 10; 18; 15; 12; 12; 8; 5;
   11; 13; 13; 11; (-3); 3; 8; 3;
   7; 7; 7; 5; 4; (-3); (-5); (-3);
   4; 3; 13; 1; 2; 1; (-1); 2;
   3; 5; 8; 4; (-5); (-6); (-8); (-11);
   (-4); 0; (-5); (-1); (-7); (-12); (-8); (-16);
   (-6); (-6); 0; 2; (-9); (-9); (-11); (-3);
   (-9); 2; 3; (-1); (-5); (-13); 4; (-20)
  ].

Definition mg_queen_sq_table : list Z :=
  [
   (-28); 0; 29; 12; 59; 44; 43; 45;
   (-24); (-39); (-5); 1; (-16); 57; 28; 54;
   (-13); (-17); 7; 8; 29; 56; 47; 57;
   (-27); (-27); (-16); (-16); (-1); 17; (-2); 1;
   (-9); (-26); (-9); (-10); (-2); (-4); 3; (-3);
   (-14); 2; (-11); (-2); (-5); 2; 14; 5;
   (-35); (-8); 11; 2; 8; 15; (-3); 1;
   (-1); (-18); (-9); 10; (-15); (-25); (-31); (-50)
  ].

Definition eg_queen_sq_table : list Z :=
  [
   (-9); 22; 22; 27; 27; 19; 10; 20;
   (-17); 20; 32; 41; 58; 25; 30; 0;
   (-20); 6; 9; 49; 47; 35; 19; 9;
   3; 22; 24; 45; 57; 40; 57; 36;
   (-18); 28; 19; 47; 31; 34; 39; 23;
   (-16); (-27); 15; 6; 9; 17; 10; 5;
   (-22); (-23); (-30); (-16); (-16); (-23); (-36); (-32);
   (-33); (-28); (-22); (-43); (-5); (-32); (-20); (-41)
  ].

Definition mg_king_sq_table : list Z :=
  [
   (-65); 23; 16; (-15); (-56); (-34); 2; 13;
   29; (-1); (-20); (-7); (-8); (-4); (-38); (-29);
   (-9); 24; 2; (-16); (-20); 6; 22; (-22);
   (-17); (-20); (-12); (-27); (-30); (-25); (-14); (-36);
   (-49); (-1); (-27); (-39); (-46); (-44); (-33); (-51);
   (-14); (-14); (-22); (-46); (-44); (-30); (-15); (-27);
   1; 7; (-8); (-64); (-43); (-16); 9; 8;
   (-15); 36; 12; (-54); 8; (-28); 24; 14
  ].

Definition eg_king_sq_table : list Z :=
  [
   (-74); (-35); (-18); (-18); (-11); 15; 4; (-17);
   (-12); 17; 14; 17; 17; 38; 23; 11;
   10; 17; 23; 15; 20; 45; 44; 13;
   (-8); 22; 24; 27; 26; 33; 26; 3;
   (-18); (-4); 21; 24; 27; 23; 9; (-11);
   (-19); (-3); 11; 21; 23; 16; 7; (-9);
   (-27); (-11); 4; 13; 14; 4; (-5); (-17);
   (-53); (-34); (-21); (-11); (-28); (-14); (-24); (-43)
  ].

Definition mg_tables (pt : Z) : list Z :=
  nth (Z.to_nat pt)
    [mg_pawn_sq_table; mg_knight_sq_table; mg_bishop_sq_table;
     mg_rook_sq_table; mg_queen_sq_table; mg_king_sq_table] [].

Definition eg_tables (pt : Z) : list Z :=
  nth (Z.to_nat pt)
    [eg_pawn_sq_table; eg_knight_sq_table; eg_bishop_sq_table;
     eg_rook_sq_table; eg_queen_sq_table; eg_king_sq_table] [].

Definition point_value (pt : Z) : Z :=
  nth (Z.to_nat pt) [100; 325; 350; 500; 1000; 10000] 0.

Record score := { mg : Z; eg : Z }.

End Tables.

(** eval.c, the version with [compute_material], the bishop pair and the
    king-pawn distance. *)
Module Eval1.
Import Pos Tables.

(** [sq_tables[color][pt][sq]] as [init_sq_tables] leaves it: the White
    entry at [sq ^ 56] and the Black entry at [sq] both hold the table value
    at [sq], so the White entry at [sq] holds the table value at [sq ^ 56]. *)
Definition sq_tables (color pt sq : Z) : score :=
  if color =? COLOR_WHITE
  then {| mg := nth (Z.to_nat (Z.lxor sq 56)) (mg_tables pt) 0;
          eg := nth (Z.to_nat (Z.lxor sq 56)) (eg_tables pt) 0 |}
  else {| mg := nth (Z.to_nat sq) (mg_tables pt) 0;
          eg := nth (Z.to_nat sq) (eg_tables pt) 0 |}.

Definition compute_material (pos : position) : Z :=
  let c := get_side_to_move pos in
  let num pt col := get_number_of_pieces pos (create_piece pt col) in
  point_value PIECE_TYPE_PAWN * (num PIECE_TYPE_PAWN c - num PIECE_TYPE_PAWN (opp c))
  + point_value PIECE_TYPE_KNIGHT * (num PIECE_TYPE_KNIGHT c - num PIECE_TYPE_KNIGHT (opp c))
  + point_value PIECE_TYPE_ROOK * (num PIECE_TYPE_ROOK c - num PIECE_TYPE_ROOK (opp c))
  + point_value PIECE_TYPE_BISHOP * (num PIECE_TYPE_BISHOP c - num PIECE_TYPE_BISHOP (opp c))
  + point_value PIECE_TYPE_QUEEN * (num PIECE_TYPE_QUEEN c - num PIECE_TYPE_QUEEN (opp c))
  + point_value PIECE_TYPE_KING * (num PIECE_TYPE_KING c - num PIECE_TYPE_KING (opp c)).

(** The body of the [while (pawn_bb)] loop of [get_smallest_pawn_distance]
    for the pawn on [sq], with the running minimum [dist]. *)
Definition pawn_distance_step (king_file king_rank : Z) (sq : Z) (dist : Z) : Z :=
  let file := get_file sq in
  let rank := get_rank sq in
  let file_dist := Z.abs (king_file - file) in
  let rank_dist := Z.abs (king_rank - rank) in
  let tmp := if file_dist >? rank_dist then file_dist else rank_dist in
  if tmp <? dist then tmp else dist.

Definition get_smallest_pawn_distance (pos : position) (color : Z) : Z :=
  let king_sq := get_king_square pos color in
  let king_file := get_file king_sq in
  let king_rank := get_rank king_sq in
  let pawn := create_piece PIECE_TYPE_PAWN color in
  let pawn_bb := Z.land (get_piece_bitboard pos pawn) (get_color_bitboard pos color) in
  let dist := Bit.bb_loop 64 (pawn_distance_step king_file king_rank) pawn_bb 6 in
  dist - 1.

Definition has_bishop_pair (pos : position) (color : Z) : bool :=
  let light_bb := 0x5555555555555555 in
  let dark_bb := 0xAAAAAAAAAAAAAAAA in
  let bishop := create_piece PIECE_TYPE_BISHOP color in
  let piece_bb := get_piece_bitboard pos bishop in
  if negb (Z.land piece_bb light_bb =? 0) && negb (Z.land piece_bb dark_bb =? 0)
  then true else false.

(** The body of the piece-square loop of [evaluate] at square [sq]. *)
Definition pst_step (pos : position) (color : Z) (s : score) (sq : Z) : score :=
  let piece := get_piece_at pos sq in
  if piece =? PIECE_NONE then s
  else
    let pt := get_piece_type piece in
    if get_piece_color piece =? color
    then {| mg := mg s + mg (sq_tables color pt sq);
            eg := eg s + eg (sq_tables color pt sq) |}
    else {| mg := mg s - mg (sq_tables (opp color) pt sq);
            eg := eg s - eg (sq_tables (opp color) pt sq) |}.

Definition add_piece_square (pos : position) (color : Z) (s : score) : score :=
  fold_left (pst_step pos color) Bit.squares s.

Definition add_bishop_pair (pos : position) (color : Z) (s : score) : score :=
  let s := if has_bishop_pair pos color
           then {| mg := mg s + Z.quot (point_value PIECE_TYPE_PAWN) 2;
                   eg := eg s + Z.quot (point_value PIECE_TYPE_PAWN) 2 |}
           else s in
  if has_bishop_pair pos (opp color)
  then {| mg := mg s - Z.quot (point_value PIECE_TYPE_PAWN) 2;
          eg := eg s - Z.quot (point_value PIECE_TYPE_PAWN) 2 |}
  else s.

Definition add_material (pos : position) (s : score) : score :=
  let material := compute_material pos in
  {| mg := mg s + material; eg := eg s + material |}.

Definition add_king_pawn_distance (pos : position) (color : Z) (s : score) : score :=
  let s := {| mg := mg s;
              eg := eg s + 16 * get_smallest_pawn_distance pos (opp color) |} in
  {| mg := mg s; eg := eg s - 16 * get_smallest_pawn_distance pos color |}.

(** The pair [score] of [evaluate] before the final interpolation. *)
Definition evaluate_score (pos : position) : score :=
  let color := get_side_to_move pos in
  let s := {| mg := 0; eg := 0 |} in
  let s := add_piece_square pos color s in
  let s := add_bishop_pair pos color s in
  let s := add_material pos s in
  add_king_pawn_distance pos color s.

Definition taper (s : score) (phase : Z) : Z :=
  Z.quot (mg s * (256 - phase) + eg s * phase) 256.

Definition evaluate (pos : position) : Z :=
  let phase := get_phase pos in
  taper (evaluate_score pos) phase.

(** ** The specification's vocabulary for the evaluation terms *)

(** Chebyshev distance between two squares. *)
Definition chebyshev (sq1 sq2 : Z) : Z :=
  Z.max (Z.abs (get_file sq1 - get_file sq2)) (Z.abs (get_rank sq1 - get_rank sq2)).

(** The squares that hold a pawn of [color]. *)
Definition pawn_squares (pos : position) (color : Z) : list Z :=
  Bit.bits_of (get_piece_bitboard pos (create_piece PIECE_TYPE_PAWN color)).

(** The least element of a list of distances ([d] for the empty list). *)
Definition list_min (d : Z) (l : list Z) : Z :=
  match l with
  | [] => d
  | x :: l' => fold_left Z.min l' x
  end.

(** Chebyshev distance from the king of [color] to its nearest pawn. *)
Definition nearest_pawn_distance (pos : position) (color : Z) : Z :=
  list_min 0 (map (chebyshev (get_king_square pos color)) (pawn_squares pos color)).

(** The squares that hold a bishop of [color]. *)
Definition bishop_squares (pos : position) (color : Z) : list Z :=
  Bit.bits_of (get_piece_bitboard pos (create_piece PIECE_TYPE_BISHOP color)).

(** A bishop pair by the checkerboard colouring of [get_square_color]: a
    bishop on a light square and a bishop on a dark square. *)
Definition bishops_on_both_colors (pos : position) (color : Z) : bool :=
  existsb (fun sq => get_square_color sq =? 0) (bishop_squares pos color) &&
  existsb (fun sq => get_square_color sq =? 1) (bishop_squares pos color).

(** FEN 4k3/8/8/8/2B5/8/8/2B1K3 w - -: White bishops on c1 and c4. *)
Definition pos_bishops_c1_c4 : position :=
  setup [(E1, PIECE_WHITE_KING); (E8, PIECE_BLACK_KING);
         (C1, PIECE_WHITE_BISHOP); (26, PIECE_WHITE_BISHOP)] COLOR_WHITE [].

(** FEN 4k3/8/8/8/8/8/1B6/2B1K3 w - -: White bishops on c1 and b2. *)
Definition pos_bishops_c1_b2 : position :=
  setup [(E1, PIECE_WHITE_KING); (E8, PIECE_BLACK_KING);
         (C1, PIECE_WHITE_BISHOP); (9, PIECE_WHITE_BISHOP)] COLOR_WHITE [].

(** FEN 7k/8/8/8/8/8/p3P3/4K3 w - -: the black king on h8 is seven files
    from its only pawn on a2. *)
Definition pos_far_pawn : position :=
  setup [(E1, PIECE_WHITE_KING); (12, PIECE_WHITE_PAWN);
         (H8, PIECE_BLACK_KING); (8, PIECE_BLACK_PAWN)] COLOR_WHITE [].

(** The king-pawn term as the specification words it: 16 centipawns per
    unit of distance, the enemy king's gained and our king's lost. *)
Definition king_pawn_claim (pos : position) : Prop :=
  let c := get_side_to_move pos in
  pawn_squares pos c <> [] ->
  pawn_squares pos (opp c) <> [] ->
  forall s,
    eg (add_king_pawn_distance pos c s) =
    eg s + 16 * nearest_pawn_distance pos (opp c)
         - 16 * nearest_pawn_distance pos c.

End Eval1.

(** src/eval.c, the version that folds material into [evaluate]. *)
Module Eval2.
Import Pos Tables.

(** Modelled from the spec: the phase bounds are macros of a header that is
    not part of the sources at hand; the spec has phase 0 for the opening
    and 256 for the bare-king endgame. *)
Definition INITIAL_PHASE : Z := 0.
Definition FINAL_PHASE : Z := 256.

Definition get_square_value (piece sq : Z) (middle_game : bool) : Z :=
  let pt := get_piece_type piece in
  if get_piece_color piece =? COLOR_WHITE
  then if middle_game then nth (Z.to_nat (Z.lxor sq 56)) (mg_tables pt) 0
       else nth (Z.to_nat (Z.lxor sq 56)) (eg_tables pt) 0
  else if middle_game then nth (Z.to_nat sq) (mg_tables pt) 0
       else nth (Z.to_nat sq) (eg_tables pt) 0.

(** The body of the material loop of [evaluate] for piece type [pt]. *)
Definition material_step (pos : position) (color : Z) (s : score) (pt : Z) : score :=
  let p1 := create_piece pt color in
  let p2 := create_piece pt (opp color) in
  let nb1 := get_number_of_pieces pos p1 in
  let nb2 := get_number_of_pieces pos p2 in
  let tmp := point_value pt * (nb1 - nb2) in
  {| mg := mg s + tmp; eg := eg s + tmp |}.

(** The body of the piece-square loop of [evaluate] at square [sq]. *)
Definition pst_step (pos : position) (color : Z) (s : score) (sq : Z) : score :=
  let piece := get_piece_at pos sq in
  if piece =? PIECE_NONE then s
  else if get_piece_color piece =? color
  then {| mg := mg s + get_square_value piece sq true;
          eg := eg s + get_square_value piece sq false |}
  else {| mg := mg s - get_square_value piece sq true;
          eg := eg s + get_square_value piece sq false |}.

(** The pair [score] of [evaluate] before the final interpolation. *)
Definition evaluate_score (pos : position) : score :=
  let color := get_side_to_move pos in
  let s := {| mg := 0; eg := 0 |} in
  let s := fold_left (material_step pos color)
             [PIECE_TYPE_PAWN; PIECE_TYPE_KNIGHT; PIECE_TYPE_BISHOP;
              PIECE_TYPE_ROOK; PIECE_TYPE_QUEEN] s in
  fold_left (pst_step pos color) Bit.squares s.

Definition evaluate (pos : position) : Z :=
  let phase := get_phase pos in
  let s := evaluate_score pos in
  Z.quot (mg s * (FINAL_PHASE - phase) + eg s * (phase - INITIAL_PHASE)) FINAL_PHASE.

(** The piece-square sum with every opponent piece subtracted in both
    components, as the specification has it. *)
Definition pst_step_spec (pos : position) (color : Z) (s : score) (sq : Z) : score :=
  let piece := get_piece_at pos sq in
  if piece =? PIECE_NONE then s
  else if get_piece_color piece =? color
  then {| mg := mg s + get_square_value piece sq true;
          eg := eg s + get_square_value piece sq false |}
  else {| mg := mg s - get_square_value piece sq true;
          eg := eg s - get_square_value piece sq false |}.

(** FEN 4k3/8/8/8/8/8/p7/4K3 w - -: a lone white king against king and a
    pawn on a2. *)
Definition pos_pawn_a2 : position :=
  setup [(E1, PIECE_WHITE_KING); (E8, PIECE_BLACK_KING); (8, PIECE_BLACK_PAWN)]
        COLOR_WHITE [].

End Eval2.

(* ===================================================================== *)
(** * search.c *)
(* ===================================================================== *)

Module Search.
Import Pos Move.

Definition MAX_DEPTH : Z := 128.
Definition MAX_PLY : Z := 2 * MAX_DEPTH.
Definition POS_CNT_TABLE_LEN : Z := 8191.
Definition MAX_KILLER_MOVES : Z := 2.
Definition AVERAGE_GAME_LENGTH : Z := 40.
Definition NULL_MOVE_REDUCTION : Z := 4.
Definition LLONG_MAX : Z := 2 ^ 63 - 1.

(** [INF = SHRT_MAX] *)
Definition INF : Z := 32767.

Definition score_to_ttscore (score ply : Z) : Z :=
  if score >=? INF - MAX_PLY then score + ply
  else if score <=? - INF + MAX_PLY then score - ply
  else score.

Definition ttscore_to_score (score ply : Z) : Z :=
  if score >=? INF - MAX_PLY then score - ply
  else if score <=? INF + MAX_PLY then score + ply
  else score.

(** tt.h *)
Definition NODE_TYPE_EXACT : Z := 0.
Definition NODE_TYPE_CUT : Z := 1.
Definition NODE_TYPE_ALPHA_UNCHANGED : Z := 2.

Record node_data := {
  nd_score : Z;        (* int score *)
  nd_depth : Z;        (* u8 depth *)
  nd_type : Z;         (* u8 type *)
  nd_hash : Z;         (* u64 hash *)
  nd_best_move : Z     (* Move best_move *)
}.

(** search.h *)
Definition INFO_FLAG_DEPTH : Z := 0x1.
Definition INFO_FLAG_NODES : Z := 0x2.
Definition INFO_FLAG_NPS : Z := 0x4.
Definition INFO_FLAG_MATE : Z := 0x8.
Definition INFO_FLAG_TIME : Z := 0x10.
Definition INFO_FLAG_CP : Z := 0x20.
Definition INFO_FLAG_LBOUND : Z := 0x40.

(** [struct info]; the fields [nps] and [time] are computed in floating
    point from two readings of the clock and are left out. *)
Record info := {
  info_flags : Z;
  info_depth : Z;
  info_cp : Z;
  info_mate : Z;
  info_nodes : Z
}.

Record search_argument := {
  arg_pos : position;
  arg_moves : list Z;
  arg_num_moves : Z;
  arg_infinite : bool;
  arg_depth : Z;
  arg_mate : Z;
  arg_movestogo : Z;
  arg_perft : Z;
  arg_nodes : Z;
  arg_time : Z -> Z;         (* long long time[2] *)
  arg_inc : Z -> Z;          (* long long inc[2] *)
  arg_movetime : Z
}.

Record parameters := {
  params_depth : Z;
  params_mate : Z;
  params_movestogo : Z;
  params_nodes : Z;
  params_limited_time : bool;
  params_stop_time : Z * Z;  (* struct timespec: tv_sec, tv_nsec *)
  params_pos : position;
  params_moves : list Z;
  params_num_moves : Z
}.

Record result := {
  result_best : Z;
  result_found_mate : bool;
  result_nodes : Z
}.

(** What the two callbacks of [struct search_argument] are called with, in
    the order of the calls. *)
Inductive event : Type :=
| InfoSent (i : info)            (* arg->info_sender(&info) *)
| BestMoveSent (move : Z).       (* arg->best_move_sender(move) *)

(** The memory the search works on: [struct search_data], the node counter
    of [struct info], the flag [*params->running], the transposition table,
    the number of clock readings so far and the calls made to the
    callbacks. *)
Record state := {
  ply : Z;
  nodes : Z;
  pos : position;
  killers : Z -> Z * Z;      (* Move killers[MAX_DEPTH + 1][2] *)
  move_made : Z -> Z;        (* Move move_made[MAX_PLY + 2] *)
  pos_cnt : Z -> Z;          (* i8 pos_cnt[POS_CNT_TABLE_LEN] *)
  inodes : Z;                (* info->nodes *)
  running : bool;
  tt : Z -> node_data;       (* transposition_table.ptr *)
  clock_reads : nat;
  trace : list event
}.

Definition set_ply (st : state) (v : Z) : state :=
  {| ply := v; nodes := nodes st; pos := pos st; killers := killers st;
     move_made := move_made st; pos_cnt := pos_cnt st; inodes := inodes st;
     running := running st; tt := tt st; clock_reads := clock_reads st;
     trace := trace st |}.

Definition set_nodes (st : state) (v : Z) : state :=
  {| ply := ply st; nodes := v; pos := pos st; killers := killers st;
     move_made := move_made st; pos_cnt := pos_cnt st; inodes := inodes st;
     running := running st; tt := tt st; clock_reads := clock_reads st;
     trace := trace st |}.

Definition set_pos (st : state) (v : position) : state :=
  {| ply := ply st; nodes := nodes st; pos := v; killers := killers st;
     move_made := move_made st; pos_cnt := pos_cnt st; inodes := inodes st;
     running := running st; tt := tt st; clock_reads := clock_reads st;
     trace := trace st |}.

Definition set_killers (st : state) (v : Z -> Z * Z) : state :=
  {| ply := ply st; nodes := nodes st; pos := pos st; killers := v;
     move_made := move_made st; pos_cnt := pos_cnt st; inodes := inodes st;
     running := running st; tt := tt st; clock_reads := clock_reads st;
     trace := trace st |}.

Definition set_move_made (st : state) (v : Z -> Z) : state :=
  {| ply := ply st; nodes := nodes st; pos := pos st; killers := killers st;
     move_made := v; pos_cnt := pos_cnt st; inodes := inodes st;
     running := running st; tt := tt st; clock_reads := clock_reads st;
     trace := trace st |}.

Definition set_pos_cnt (st : state) (v : Z -> Z) : state :=
  {| ply := ply st; nodes := nodes st; pos := pos st; killers := killers st;
     move_made := move_made st; pos_cnt := v; inodes := inodes st;
     running := running st; tt := tt st; clock_reads := clock_reads st;
     trace := trace st |}.

Definition set_inodes (st : state) (v : Z) : state :=
  {| ply := ply st; nodes := nodes st; pos := pos st; killers := killers st;
     move_made := move_made st; pos_cnt := pos_cnt st; inodes := v;
     running := running st; tt := tt st; clock_reads := clock_reads st;
     trace := trace st |}.

Definition set_running (st : state) (v : bool) : state :=
  {| ply := ply st; nodes := nodes st; pos := pos st; killers := killers st;
     move_made := move_made st; pos_cnt := pos_cnt st; inodes := inodes st;
     running := v; tt := tt st; clock_reads := clock_reads st;
     trace := trace st |}.

Definition set_tt (st : state) (v : Z -> node_data) : state :=
  {| ply := ply st; nodes := nodes st; pos := pos st; killers := killers st;
     move_made := move_made st; pos_cnt := pos_cnt st; inodes := inodes st;
     running := running st; tt := v; clock_reads := clock_reads st;
     trace := trace st |}.

Definition set_clock_reads (st : state) (v : nat) : state :=
  {| ply := ply st; nodes := nodes st; pos := pos st; killers := killers st;
     move_made := move_made st; pos_cnt := pos_cnt st; inodes := inodes st;
     running := running st; tt := tt st; clock_reads := v;
     trace := trace st |}.

Definition emit (st : state) (e : event) : state :=
  {| ply := ply st; nodes := nodes st; pos := pos st; killers := killers st;
     move_made := move_made st; pos_cnt := pos_cnt st; inodes := inodes st;
     running := running st; tt := tt st; clock_reads := clock_reads st;
     trace := trace st ++ [e] |}.

(** [a[k] = v] on an array modelled as a function of the index. *)
Definition fupd {A : Type} (a : Z -> A) (k : Z) (v : A) : Z -> A :=
  fun i => if i =? k then v else a i.

(** Wrap-around of an 8-bit signed counter. *)
Definition wrap_i8 (z : Z) : Z := (z + 128) mod 256 - 128.

(** [moves[i]] and [moves[j]] exchanged. *)
Definition swap (i j : nat) (moves : list Z) : list Z :=
  let mi := nth i moves 0 in
  let mj := nth j moves 0 in
  set_nth i mj (set_nth j mi moves).

(** The locals of [negamax] and [qsearch] that their move loops update. *)
Record locals := {
  l_alpha : Z;
  l_best_score : Z;
  l_best_move : Z;
  l_type : Z;
  l_has_legal : bool;
  l_moves : list Z
}.

Definition set_l_moves (loc : locals) (v : list Z) : locals :=
  {| l_alpha := l_alpha loc; l_best_score := l_best_score loc;
     l_best_move := l_best_move loc; l_type := l_type loc;
     l_has_legal := l_has_legal loc; l_moves := v |}.

Definition set_l_has_legal (loc : locals) (v : bool) : locals :=
  {| l_alpha := l_alpha loc; l_best_score := l_best_score loc;
     l_best_move := l_best_move loc; l_type := l_type loc;
     l_has_legal := v; l_moves := l_moves loc |}.

Definition set_l_type (loc : locals) (v : Z) : locals :=
  {| l_alpha := l_alpha loc; l_best_score := l_best_score loc;
     l_best_move := l_best_move loc; l_type := v;
     l_has_legal := l_has_legal loc; l_moves := l_moves loc |}.

(** [if (score > best_score) { best_score = score; best_move = move;
    if (score > alpha) { alpha = best_score; type = NODE_TYPE_EXACT; } }] *)
Definition update_best (loc : locals) (score move : Z) : locals :=
  if score >? l_best_score loc then
    if score >? l_alpha loc then
      {| l_alpha := score; l_best_score := score; l_best_move := move;
         l_type := NODE_TYPE_EXACT; l_has_legal := l_has_legal loc;
         l_moves := l_moves loc |}
    else
      {| l_alpha := l_alpha loc; l_best_score := score; l_best_move := move;
         l_type := l_type loc; l_has_legal := l_has_legal loc;
         l_moves := l_moves loc |}
  else loc.

(** How a move loop ends: it falls out of the loop (by [break] or at the
    end) or the function returns from inside it. *)
Inductive loop_end : Type :=
| Fallthrough (loc : locals) (st : state)
| Returned (v : Z) (st : state).

(** Two memories that [repeated], the table probe and the end of a node
    cannot tell apart. *)
Definition same_node (s1 s2 : state) : Prop :=
  pos s1 = pos s2 /\ ply s1 = ply s2 /\ move_made s1 = move_made s2 /\
  pos_cnt s1 = pos_cnt s2 /\ tt s1 = tt s2.

Section Engine.

(** What the search takes from parts of the program that are not in the
    sources at hand, or that cannot be computed here. *)

(** tt.c: the Zobrist numbers and [transposition_table.capacity]. *)
Variable zobrist_numbers : Z -> Z.
Variable tt_capacity : Z.

(** movegen.c: the magic-bitboard lookups. *)
Variable get_rook_attacks : Z -> Z -> Z.
Variable get_bishop_attacks : Z -> Z -> Z.

(** move.c (not in the sources): making and unmaking moves, and the
    legality test built on them. *)
Variable do_move : position -> Z -> position.
Variable undo_move : position -> Z -> position.
Variable do_null_move : position -> position.
Variable undo_null_move : position -> position.
Variable move_is_legal : position -> Z -> bool.

(** eval.c: [evaluate_move] makes and unmakes moves to score captures; the
    search uses it to order moves only. *)
Variable evaluate_move : Z -> position -> Z.

(** The wall clock: the [n]-th call of [timespec_get] reads
    [timespec_get n] = (tv_sec, tv_nsec). *)
Variable timespec_get : nat -> Z * Z.

(** [init_params]: the stop time computed in floating point from the search
    argument and the clock reading. *)
Variable compute_stop_time : search_argument -> Z * Z -> Z * Z.

(** Contents of locals that are read before they are written: the
    [pos_cnt] array of [struct search_data] when no earlier move is given,
    [best_move] of [run_search], the fields of [struct info] that [perft]
    does not set. *)
Variable stack_garbage : Z -> Z.
Variable indeterminate_move : Z.
Variable indeterminate_int : Z.

Definition hash_pos (p : position) : Z := TT.hash_pos zobrist_numbers p.
Definition evaluate (p : position) : Z := Eval1.evaluate p.
Definition generate (p : position) : list Z :=
  Movegen.generate get_rook_attacks get_bishop_attacks p.
Definition get_pseudo_legal_moves (p : position) : option (list Z) * Z :=
  Movegen.get_pseudo_legal_moves get_rook_attacks get_bishop_attacks p.
Definition is_square_attacked (sq by_side : Z) (p : position) : bool :=
  Movegen.is_square_attacked get_rook_attacks get_bishop_attacks sq by_side p.

(** The array behind a move pointer; [NULL] has no elements to read. *)
Definition array_of (moves : option (list Z)) : list Z :=
  match moves with Some l => l | None => [] end.

Definition inc_pos_cnt (cnt : Z -> Z) (p : position) : Z -> Z :=
  let hash := hash_pos p in
  let key := hash mod POS_CNT_TABLE_LEN in
  fupd cnt key (wrap_i8 (cnt key + 1)).

Definition dec_pos_cnt (cnt : Z -> Z) (p : position) : Z -> Z :=
  let hash := hash_pos p in
  let key := hash mod POS_CNT_TABLE_LEN in
  fupd cnt key (wrap_i8 (cnt key - 1)).

(** [init_pos_cnt_table]: nothing is written when there is no earlier
    move. *)
Definition init_pos_cnt_table (st : state) (params : parameters) : state :=
  if params_num_moves params =? 0 then st
  else
    let cnt0 : Z -> Z := fun _ => 0 in
    let idxs := rev (seq 0 (Z.to_nat (params_num_moves params))) in
    let '(_, cnt) :=
      fold_left
        (fun '(prev_pos, cnt) i =>
           let prev_pos := undo_move prev_pos (nth i (params_moves params) 0) in
           (prev_pos, inc_pos_cnt cnt prev_pos))
        idxs (pos st, cnt0) in
    set_pos_cnt st cnt.

Definition get_ply_move (ply : Z) (st : state) (params : parameters) : Z :=
  if ply <? 0 then
    let idx := ply + params_num_moves params in
    if (idx >=? 0) && (idx <? params_num_moves params)
    then nth (Z.to_nat idx) (params_moves params) 0
    else 0
  else move_made st ply.

(** The [for (int ply = data->ply;; --ply)] loop of [repeated]; every round
    lowers [ply] by two and the loop stops at the latest below the first
    earlier move, which the fuel covers. *)
Fixpoint repeated_loop (fuel : nat) (ply : Z) (prev_pos : position)
    (st : state) (params : parameters) : bool :=
  match fuel with
  | O => false
  | S fuel' =>
      let move := get_ply_move ply st params in
      if move =? 0 then false else
      let prev_pos := undo_move prev_pos move in
      let ply := ply - 1 in
      let move := get_ply_move ply st params in
      if move =? 0 then false else
      let from := get_move_origin move in
      let piece := get_piece_at prev_pos from in
      let pt := get_piece_type piece in
      if negb (move_is_quiet move) || move_is_castling move ||
         (pt =? PIECE_TYPE_PAWN)
      then false else
      let prev_pos := undo_move prev_pos move in
      if pos_equal (pos st) prev_pos then true
      else repeated_loop fuel' (ply - 1) prev_pos st params
  end.

Definition repeated (st : state) (params : parameters) : bool :=
  let hash := hash_pos (pos st) in
  let key := hash mod POS_CNT_TABLE_LEN in
  if pos_cnt st key <=? 1 then false
  else repeated_loop (Z.to_nat (ply st + params_num_moves params + 2))
         (ply st) (pos st) st params.

Definition store_killer (killers : Z * Z) (move : Z) : Z * Z :=
  if (move =? fst killers) || (move =? snd killers) then killers
  else (move, fst killers).

Definition is_killer (move : Z) (killers : Z * Z) : bool :=
  (negb (fst killers =? 0) && (move =? fst killers)) ||
  (negb (snd killers =? 0) && (move =? snd killers)).

Definition get_tt_entry (table : Z -> node_data) (p : position) : option node_data :=
  let node_hash := hash_pos p in
  let key := node_hash mod tt_capacity in
  let tt_data := table key in
  if node_hash =? nd_hash tt_data then Some tt_data else None.

Definition store_tt_entry (table : Z -> node_data) (data : node_data) : Z -> node_data :=
  let key := nd_hash data mod tt_capacity in
  fupd table key data.

(** [init_tt_entry]; the depth is stored in a [u8]. *)
Definition init_tt_entry (score depth type best_move : Z) (p : position) : node_data :=
  {| nd_score := score; nd_depth := depth mod 2 ^ 8; nd_type := type;
     nd_hash := hash_pos p; nd_best_move := best_move |}.

(** The best move of an exact entry for the position, if the table has
    one: the test both move pickers make on every move. *)
Definition tt_exact_move (table : Z -> node_data) (p : position) : option Z :=
  match get_tt_entry table p with
  | Some pos_data =>
      if nd_type pos_data =? NODE_TYPE_EXACT then Some (nd_best_move pos_data)
      else None
  | None => None
  end.

(** First loop of [get_next_move]: the index of the table move. *)
Fixpoint tt_move_index (table : Z -> node_data) (p : position)
    (moves : list Z) (i : nat) : option nat :=
  match moves with
  | [] => None
  | move :: rest =>
      match tt_exact_move table p with
      | Some best => if move =? best then Some i
                     else tt_move_index table p rest (S i)
      | None => tt_move_index table p rest (S i)
      end
  end.

(** Second loop of [get_next_move]. *)
Fixpoint best_scored_index (killers : Z * Z) (p : position) (moves : list Z)
    (i : nat) (best_score : Z) (best_idx : nat) : nat :=
  match moves with
  | [] => best_idx
  | move :: rest =>
      let capture_offset := 300 in
      let killer_offset := 600 in
      let score :=
        if is_killer move killers then killer_offset + evaluate_move move p
        else if move_is_capture move then capture_offset + evaluate_move move p
        else evaluate_move move p in
      if score >? best_score
      then best_scored_index killers p rest (S i) score i
      else best_scored_index killers p rest (S i) best_score best_idx
  end.

Definition get_next_move (moves : list Z) (killers : Z * Z)
    (table : Z -> node_data) (p : position) : nat :=
  match tt_move_index table p moves 0 with
  | Some i => i
  | None => best_scored_index killers p moves 0 (- INF) 0
  end.

(** The loop of [get_next_qmove]; the result is the index and the value
    left in [*ended]. *)
Fixpoint get_next_qmove_loop (table : Z -> node_data) (p : position)
    (moves : list Z) (i : nat) (best_score : Z) (best_idx : nat) : nat * bool :=
  match moves with
  | [] => (best_idx, best_score =? - INF)
  | move :: rest =>
      if negb (move_is_capture move)
      then get_next_qmove_loop table p rest (S i) best_score best_idx
      else
        match tt_exact_move table p with
        | Some best =>
            if move =? best then (i, false)
            else
              let score := evaluate_move move p in
              if score >? best_score
              then get_next_qmove_loop table p rest (S i) score i
              else get_next_qmove_loop table p rest (S i) best_score best_idx
        | None =>
            let score := evaluate_move move p in
            if score >? best_score
            then get_next_qmove_loop table p rest (S i) score i
            else get_next_qmove_loop table p rest (S i) best_score best_idx
        end
  end.

Definition get_next_qmove (moves : list Z) (st : state) : nat * bool :=
  get_next_qmove_loop (tt st) (pos st) moves 0 (- INF) 0.

Definition is_in_check (p : position) : bool :=
  let c := get_side_to_move p in
  let king_sq := get_king_square p c in
  is_square_attacked king_sq (opp c) p.

Definition has_legal_moves (moves : list Z) (p : position) : bool :=
  existsb (move_is_legal p) moves.

Definition is_zugzwang_likely (p : position) : bool :=
  let color := get_side_to_move p in
  let color_bb := get_color_bitboard p color in
  let pawn_bb := get_piece_bitboard p (create_piece PIECE_TYPE_PAWN color) in
  let king_bb := get_piece_bitboard p (create_piece PIECE_TYPE_KING color) in
  Z.land color_bb (Z.lor pawn_bb king_bb) =? color_bb.

(** [++data->nodes; ++info->nodes;] *)
Definition count_node (st : state) : state :=
  let st := set_nodes st (nodes st + 1) in
  set_inodes st (inodes st + 1).

(** [--data->nodes; --info->nodes;] *)
Definition uncount_node (st : state) : state :=
  let st := set_nodes st (nodes st - 1) in
  set_inodes st (inodes st - 1).

(** [if (data->nodes >= params->nodes || data->ply > MAX_PLY)
       *params->running = false;] *)
Definition limit_check (st : state) (params : parameters) : state :=
  if (nodes st >=? params_nodes params) || (ply st >? MAX_PLY)
  then set_running st false else st.

(** The clock poll at the top of [negamax]. *)
Definition time_check (st : state) (params : parameters) : state :=
  if Z.rem (nodes st) 8192 =? 0 then
    let now := timespec_get (clock_reads st) in
    let st := set_clock_reads st (S (clock_reads st)) in
    if params_limited_time params then
      if (fst now >? fst (params_stop_time params)) ||
         ((fst now =? fst (params_stop_time params)) &&
          (snd now >=? snd (params_stop_time params)))
      then set_running st false else st
    else st
  else st.

(** The transposition-table probe of [negamax] and [qsearch]: the score to
    return at once, if any. *)
Definition tt_probe (st : state) (depth alpha beta : Z) : option Z :=
  match get_tt_entry (tt st) (pos st) with
  | Some pos_data =>
      if nd_depth pos_data >=? depth then
        let type := nd_type pos_data in
        let score := ttscore_to_score (nd_score pos_data) (ply st) in
        if (type =? NODE_TYPE_EXACT) ||
           ((type =? NODE_TYPE_CUT) && (score >=? beta)) ||
           ((type =? NODE_TYPE_ALPHA_UNCHANGED) && (score <=? alpha))
        then Some score else None
      else None
  | None => None
  end.

(** [do_move; inc_pos_cnt; ++ply; move_made[ply] = move] *)
Definition enter_child (st : state) (move : Z) : state :=
  let st := set_pos st (do_move (pos st) move) in
  let st := set_pos_cnt st (inc_pos_cnt (pos_cnt st) (pos st)) in
  let st := set_ply st (ply st + 1) in
  set_move_made st (fupd (move_made st) (ply st) move).

(** [dec_pos_cnt; undo_move; --ply] *)
Definition leave_child (st : state) (move : Z) : state :=
  let st := set_pos_cnt st (dec_pos_cnt (pos_cnt st) (pos st)) in
  let st := set_pos st (undo_move (pos st) move) in
  set_ply st (ply st - 1).

(** What [negamax] and [qsearch] do once their move loop is over: pick a
    best move if none was chosen, score the node without legal move, store
    the table entry, return the best score. *)
Definition finish_node (depth : Z) (loc : locals) (st : state) : Z * state :=
  let best_move :=
    if (l_best_move loc =? 0) && l_has_legal loc
    then nth 0 (l_moves loc) 0 else l_best_move loc in
  let best_score :=
    if negb (l_has_legal loc) then
      if is_in_check (pos st) then - INF + ply st else 0
    else l_best_score loc in
  let st :=
    if running st then
      set_tt st
        (store_tt_entry (tt st)
           (init_tt_entry (score_to_ttscore best_score (ply st)) depth
              (l_type loc) best_move (pos st)))
    else st in
  (best_score, st).

(** The move loop of [qsearch], from index [i], with [n] rounds to go;
    [rec] is [qsearch] itself for the recursive call. *)
Fixpoint qsearch_loop (rec : Z -> Z -> Z -> state -> option (Z * state))
    (depth beta : Z) (n i : nat) (loc : locals) (st : state)
    : option (locals * state) :=
  match n with
  | O => Some (loc, st)
  | S n' =>
      let rest := skipn i (l_moves loc) in
      let '(k, ended) := get_next_qmove rest st in
      let j := (i + k)%nat in
      if ended && negb (l_has_legal loc) then
        Some (set_l_has_legal loc (has_legal_moves rest (pos st)), st)
      else if ended then Some (loc, st)
      else
        let move := nth j (l_moves loc) 0 in
        let loc := set_l_moves loc (swap i j (l_moves loc)) in
        let loc := if move_is_legal (pos st) move
                   then set_l_has_legal loc true else loc in
        if negb (move_is_legal (pos st) move) || negb (move_is_capture move)
        then qsearch_loop rec depth beta n' (S i) loc st
        else
          let st := enter_child st move in
          match rec (depth - 1) (- beta) (- l_alpha loc) st with
          | None => None
          | Some (s, st) =>
              let score := - s in
              let st := leave_child st move in
              let loc := update_best loc score move in
              if l_alpha loc >=? beta
              then Some (set_l_type loc NODE_TYPE_CUT, st)
              else qsearch_loop rec depth beta n' (S i) loc st
          end
  end.

Fixpoint qsearch (fuel : nat) (params : parameters) (depth alpha beta : Z)
    (st : state) {struct fuel} : option (Z * state) :=
  match fuel with
  | O => None
  | S fuel' =>
      let st := limit_check st params in
      if negb (running st) || (nodes st >=? params_nodes params)
      then Some (alpha, st) else
      let st := count_node st in
      if repeated st params then Some (0, st) else
      match tt_probe st depth alpha beta with
      | Some score => Some (score, st)
      | None =>
          let best_score := evaluate (pos st) in
          if (best_score >=? beta) && negb (is_in_check (pos st))
          then Some (best_score, st) else
          let alpha := if best_score >? alpha then best_score else alpha in
          let '(moves, len) := get_pseudo_legal_moves (pos st) in
          let loc := {| l_alpha := alpha; l_best_score := best_score;
                        l_best_move := 0;
                        l_type := NODE_TYPE_ALPHA_UNCHANGED;
                        l_has_legal := false; l_moves := array_of moves |} in
          match qsearch_loop (qsearch fuel' params) depth beta
                  (Z.to_nat len) 0 loc st with
          | None => None
          | Some (loc, st) => Some (finish_node depth loc st)
          end
      end
  end.

(** The two futility tests of [negamax] share their guard. *)
Definition futility_guard (move : Z) (in_check : bool) (alpha beta : Z) : bool :=
  move_is_quiet move && negb in_check &&
  (Z.abs alpha <? INF - MAX_PLY) && (Z.abs beta <? INF - MAX_PLY).

(** The move loop of [negamax]. *)
Fixpoint negamax_loop (rec : Z -> Z -> Z -> state -> option (Z * state))
    (depth beta static_eval : Z) (in_check : bool) (n i : nat) (loc : locals)
    (st : state) : option loop_end :=
  match n with
  | O => Some (Fallthrough loc st)
  | S n' =>
      let rest := skipn i (l_moves loc) in
      let j := (i + get_next_move rest (killers st depth) (tt st) (pos st))%nat in
      let move := nth j (l_moves loc) 0 in
      let loc := set_l_moves loc (swap i j (l_moves loc)) in
      if negb (move_is_legal (pos st) move)
      then negamax_loop rec depth beta static_eval in_check n' (S i) loc st
      else
        let loc := set_l_has_legal loc true in
        if futility_guard move in_check (l_alpha loc) beta &&
           (static_eval + 175 * depth <=? l_alpha loc)
        then Some (Returned static_eval st)
        else if futility_guard move in_check (l_alpha loc) beta &&
                (static_eval - 175 * depth >=? beta)
        then Some (Returned (static_eval - 175 * depth) st)
        else
          let st := enter_child st move in
          match rec (depth - 1) (- beta) (- l_alpha loc) st with
          | None => None
          | Some (s, st) =>
              let score := - s in
              let st := leave_child st move in
              let loc := update_best loc score move in
              if l_alpha loc >=? beta then
                let st :=
                  if negb (move_is_capture move)
                  then set_killers st
                         (fupd (killers st) depth
                               (store_killer (killers st depth) move))
                  else st in
                Some (Fallthrough (set_l_type loc NODE_TYPE_CUT) st)
              else negamax_loop rec depth beta static_eval in_check n' (S i) loc st
          end
  end.

Fixpoint negamax (fuel : nat) (params : parameters) (depth alpha beta : Z)
    (st : state) {struct fuel} : option (Z * state) :=
  match fuel with
  | O => None
  | S fuel' =>
      let st := time_check st params in
      let st := limit_check st params in
      if negb (running st) then Some (alpha, st) else
      let st := count_node st in
      if repeated st params then Some (0, st) else
      match tt_probe st depth alpha beta with
      | Some score => Some (score, st)
      | None =>
          if depth =? 0 then
            let st := uncount_node st in
            qsearch fuel' params depth alpha beta st
          else
            let in_check := is_in_check (pos st) in
            let after_null_move : option (option Z * state) :=
              if negb in_check && negb (is_zugzwang_likely (pos st)) &&
                 (depth >? NULL_MOVE_REDUCTION)
              then
                let new_depth := depth - NULL_MOVE_REDUCTION in
                let st := set_pos st (do_null_move (pos st)) in
                match negamax fuel' params new_depth (- beta) (- alpha) st with
                | None => None
                | Some (s, st) =>
                    let score := - s in
                    let st := set_pos st (undo_null_move (pos st)) in
                    if score >=? beta then Some (Some beta, st)
                    else Some (None, st)
                end
              else Some (None, st) in
            match after_null_move with
            | None => None
            | Some (Some v, st) => Some (v, st)
            | Some (None, st) =>
                let '(moves, len) := get_pseudo_legal_moves (pos st) in
                let static_eval := evaluate (pos st) in
                let loc := {| l_alpha := alpha; l_best_score := - INF;
                              l_best_move := 0;
                              l_type := NODE_TYPE_ALPHA_UNCHANGED;
                              l_has_legal := false;
                              l_moves := array_of moves |} in
                match negamax_loop (negamax fuel' params) depth beta static_eval
                        in_check (Z.to_nat len) 0 loc st with
                | None => None
                | Some (Returned v st) => Some (v, st)
                | Some (Fallthrough loc st) => Some (finish_node depth loc st)
                end
            end
      end
  end.

(** The root loop of [search] over the moves still to try. *)
Fixpoint search_loop (rec : Z -> Z -> Z -> state -> option (Z * state))
    (params : parameters) (moves : list Z) (alpha : Z) (res : result)
    (st : state) : option (Z * result * state) :=
  match moves with
  | [] => Some (alpha, res, st)
  | move :: rest =>
      let beta := INF in
      let st := if nodes st >=? params_nodes params
                then set_running st false else st in
      if negb (running st) then Some (alpha, res, st)
      else if negb (move_is_legal (pos st) move)
      then search_loop rec params rest alpha res st
      else
        let st := enter_child st move in
        match rec (params_depth params - 1) (- beta) (- alpha) st with
        | None => None
        | Some (s, st) =>
            let score := - s in
            let st := leave_child st move in
            let '(alpha, res) :=
              if score >? alpha
              then (score, {| result_best := move;
                              result_found_mate := result_found_mate res;
                              result_nodes := result_nodes res |})
              else (alpha, res) in
            if negb (params_mate params =? 0) && (alpha >=? INF - MAX_PLY)
            then Some (alpha, {| result_best := move;
                                 result_found_mate := true;
                                 result_nodes := result_nodes res |}, st)
            else search_loop rec params rest alpha res st
        end
  end.

(** The [struct info] that [search] sends after its root loop. *)
Definition search_info (params : parameters) (alpha : Z) (st : state) : info :=
  let flags := Z.lor (Z.lor (Z.lor INFO_FLAG_DEPTH INFO_FLAG_NODES) INFO_FLAG_NPS)
                     INFO_FLAG_TIME in
  let '(mate, flags) :=
    if alpha >=? INF - MAX_PLY
    then (Z.quot (INF - alpha + 1) 2, Z.lor flags INFO_FLAG_MATE)
    else if alpha <=? - INF + MAX_PLY
    then (Z.quot (- (INF + alpha + 1)) 2, Z.lor flags INFO_FLAG_MATE)
    else (0, Z.lor flags INFO_FLAG_CP) in
  let flags := if negb (running st) then Z.lor flags INFO_FLAG_LBOUND else flags in
  {| info_flags := flags; info_depth := params_depth params; info_cp := alpha;
     info_mate := mate; info_nodes := inodes st |}.

Definition search (fuel : nat) (params : parameters) (st : state)
    : option (result * state) :=
  let st := set_ply st 0 in
  let st := set_nodes st 0 in
  let st := set_pos st (params_pos params) in
  let st := set_move_made st (fun _ => 0) in
  let st := set_killers st (fun _ => (0, 0)) in
  let st := set_pos_cnt st stack_garbage in
  let st := init_pos_cnt_table st params in
  let st := set_pos_cnt st (inc_pos_cnt (pos_cnt st) (pos st)) in
  let st := set_inodes st 0 in
  let res := {| result_best := 0; result_found_mate := false; result_nodes := 0 |} in
  let alpha := - INF in
  let '(moves, len) := get_pseudo_legal_moves (params_pos params) in
  let st := set_clock_reads st (S (clock_reads st)) in
  match search_loop (negamax fuel params) params (array_of moves) alpha res st with
  | None => None
  | Some (alpha, res, st) =>
      let st := set_clock_reads st (S (clock_reads st)) in
      let res := {| result_best := result_best res;
                    result_found_mate := result_found_mate res;
                    result_nodes := nodes st |} in
      let st := emit st (InfoSent (search_info params alpha st)) in
      let best :=
        if (result_best res =? 0) && negb (len =? 0) then
          fold_left
            (fun best move => if move_is_legal (pos st) move then move else best)
            (array_of moves) (result_best res)
        else result_best res in
      let st := set_pos_cnt st (dec_pos_cnt (pos_cnt st) (pos st)) in
      Some ({| result_best := best;
               result_found_mate := result_found_mate res;
               result_nodes := result_nodes res |}, st)
  end.

(** [movegen_perft] for a depth that is not negative; the position is made
    and unmade along the way. *)
Fixpoint movegen_perft (depth : nat) (p : position) : Z * position :=
  match depth with
  | O => (1, p)
  | S depth' =>
      fold_left
        (fun '(n, p) move =>
           if negb (move_is_legal p move) then (n, p)
           else
             let p := do_move p move in
             let '(sub, p) := movegen_perft depth' p in
             (Bit.wrap64 (n + sub), undo_move p move))
        (array_of (fst (get_pseudo_legal_moves p))) (0, p)
  end.

(** [perft] of search.c: only [flags] and [nodes] of the record are set. *)
Definition perft (depth : Z) (p : position) (st : state) : option state :=
  if depth <? 0 then None   (* the recursion never reaches depth 0 *)
  else
    let st := set_clock_reads st (S (clock_reads st)) in
    let n := fst (movegen_perft (Z.to_nat depth) p) in
    let st := set_clock_reads st (S (clock_reads st)) in
    Some (emit st (InfoSent {| info_flags := Z.lor INFO_FLAG_NODES INFO_FLAG_NPS;
                               info_depth := indeterminate_int;
                               info_cp := indeterminate_int;
                               info_mate := indeterminate_int;
                               info_nodes := n |})).

Definition init_params (arg : search_argument) (st : state) : parameters * state :=
  let nodes := if arg_infinite arg || negb (arg_mate arg =? 0)
               then LLONG_MAX else arg_nodes arg in
  let color := get_side_to_move (arg_pos arg) in
  let '(limited_time, stop_time, st) :=
    if negb (arg_movetime arg =? 0) then
      (true, compute_stop_time arg (timespec_get (clock_reads st)),
       set_clock_reads st (S (clock_reads st)))
    else if negb (arg_time arg color =? 0) then
      (true, compute_stop_time arg (timespec_get (clock_reads st)),
       set_clock_reads st (S (clock_reads st)))
    else (false, (0, 0), st) in
  ({| params_depth := 1; params_mate := arg_mate arg;
      params_movestogo := arg_movestogo arg; params_nodes := nodes;
      params_limited_time := limited_time; params_stop_time := stop_time;
      params_pos := arg_pos arg; params_moves := arg_moves arg;
      params_num_moves := arg_num_moves arg |}, st).

Definition with_depth_nodes (params : parameters) (depth nodes : Z) : parameters :=
  {| params_depth := depth; params_mate := params_mate params;
     params_movestogo := params_movestogo params; params_nodes := nodes;
     params_limited_time := params_limited_time params;
     params_stop_time := params_stop_time params;
     params_pos := params_pos params; params_moves := params_moves params;
     params_num_moves := params_num_moves params |}.

(** The iterative-deepening loop of [run_search]; [n] bounds the rounds
    left, at most [max_depth]. *)
Fixpoint deepening_loop (fuel : nat) (n : nat) (max_depth depth nodes : Z)
    (params : parameters) (best_move : Z) (st : state) : option (Z * state) :=
  match n with
  | O => Some (best_move, st)
  | S n' =>
      if (depth <=? max_depth) && (nodes >? 0) then
        let params := with_depth_nodes params depth nodes in
        match search fuel params st with
        | None => None
        | Some (res, st) =>
            let nodes := nodes - result_nodes res in
            if negb (running st) then Some (best_move, st)
            else
              let best_move := result_best res in
              if negb (params_mate params =? 0) && result_found_mate res
              then Some (best_move, st)
              else deepening_loop fuel n' max_depth (depth + 1) nodes params
                     best_move st
        end
      else Some (best_move, st)
  end.

(** [run_search]: the value returned and the memory afterwards; [None] when
    it does not return within the fuel given to the recursive search. *)
Definition run_search (fuel : nat) (arg : search_argument) (st : state)
    : option (Z * state) :=
  let '(moves, len) := get_pseudo_legal_moves (arg_pos arg) in
  match moves with
  | None => Some (0, st)
  | Some moves =>
      let '(has_legal, best_move) :=
        fold_left
          (fun '(has_legal, best_move) move =>
             if move_is_legal (arg_pos arg) move then (true, move)
             else (has_legal, best_move))
          moves (false, indeterminate_move) in
      if negb has_legal && is_in_check (arg_pos arg) then Some (0, st)
      else if negb (arg_perft arg =? 0) then
        match perft (arg_perft arg) (arg_pos arg) st with
        | None => None
        | Some st => Some (0, set_running st false)
        end
      else
        let '(params, st) := init_params arg st in
        let nodes := params_nodes params in
        let max_depth :=
          if arg_infinite arg || negb (arg_mate arg =? 0) then MAX_DEPTH
          else if arg_depth arg >? MAX_DEPTH then MAX_DEPTH
          else arg_depth arg in
        match deepening_loop fuel (Z.to_nat max_depth) max_depth 1 nodes params
                best_move st with
        | None => None
        | Some (best_move, st) =>
            let st := emit st (BestMoveSent best_move) in
            Some (0, set_running st false)
        end
  end.

(** The moves handed to [best_move_sender], in order. *)
Definition best_moves_sent (tr : list event) : list Z :=
  flat_map (fun e => match e with BestMoveSent m => [m] | InfoSent _ => [] end) tr.

(** A move of the position that is pseudo-legal and legal. *)
Definition has_legal_move (p : position) : Prop :=
  exists move, In move (generate p) /\ move_is_legal p move = true.

Definition no_legal_move (p : position) : Prop :=
  forall move, In move (generate p) -> move_is_legal p move = false.

(** The recursion depth that [negamax] can reach from a node [depth] plies
    above the horizon at [ply] plies from the root. *)
Definition fuel_for (depth ply : Z) : nat :=
  Z.to_nat (2 * Z.max 0 (MAX_PLY + 2 - ply) + Z.max 0 depth + 1).

End Engine.

(** A search function returns on every node at depth [depth] and ply [p],
    and leaves the ply and the callback calls as they were. *)
Definition returns_at (rec : Z -> Z -> Z -> state -> option (Z * state))
    (depth p : Z) : Prop :=
  forall (alpha beta : Z) (s : state),
    ply s = p ->
    exists v s', rec depth alpha beta s = Some (v, s') /\
                 ply s' = p /\ trace s' = trace s.

(** Fuel that lets [qsearch] return from a node at ply [p]. *)
Definition qfuel_for (p : Z) : nat := S (Z.to_nat (Z.max 0 (MAX_PLY + 2 - p))).

(** The repetition counters are [i8] cells. *)
Definition i8_table (cnt : Z -> Z) : Prop := forall k, -128 <= cnt k <= 127.

(** What a node hands back to its caller beside the score: the position
    (up to what lies above the top of its stack of irreversible states), the
    ply, the repetition counters and the output are as it found them. *)
Definition node_kept (s s' : state) : Prop :=
  pos_same (pos s') (pos s) /\ ply s' = ply s /\
  (forall k, pos_cnt s' k = pos_cnt s k) /\ trace s' = trace s.

(** A search function that returns from every node at ply [p] whose
    position meets [valid], and hands the node back as it found it. *)
Definition restores_at (valid : position -> Prop)
    (rec : Z -> Z -> Z -> state -> option (Z * state)) (depth p : Z) : Prop :=
  forall (alpha beta : Z) (s : state),
    ply s = p -> i8_table (pos_cnt s) -> valid (pos s) ->
    exists v s', rec depth alpha beta s = Some (v, s') /\ node_kept s s'.

(** ** Two positions without legal move, and a memory to search them in *)

(** FEN k7/2K5/1Q6/8/8/8/8/8 b - -: Black to move is stalemated. *)
Definition pos_stalemate : position :=
  setup [(A8, PIECE_BLACK_KING); (50, PIECE_WHITE_KING); (41, PIECE_WHITE_QUEEN)]
        COLOR_BLACK [].

(** FEN 8/8/8/8/8/6K1/6Q1/7k b - -: Black to move is checkmated. *)
Definition pos_checkmate : position :=
  setup [(H1, PIECE_BLACK_KING); (22, PIECE_WHITE_KING); (14, PIECE_WHITE_QUEEN)]
        COLOR_BLACK [].

(** FEN kb5R/8/1K6/8/8/8/8/8 b - -: Black to move is stalemated with a
    bishop on the board: the bishop on b8 is pinned by the rook on h8, and
    a7 and b7 are covered by the king on b6. *)
Definition pos_stalemate_pinned : position :=
  setup [(A8, PIECE_BLACK_KING); (57, PIECE_BLACK_BISHOP); (63, PIECE_WHITE_ROOK);
         (41, PIECE_WHITE_KING)] COLOR_BLACK [].

(** Stand-ins for what the sources at hand leave open, to run the search
    on the two positions: some Zobrist numbers, a table capacity, the magic
    tables as [init_magics] fills them, and a legality test that rejects
    every move, as the real one does on both positions.  No move is ever
    made on them, so [do_move] and its kin are never asked. *)
Definition ex_zobrist (i : Z) : Z := 1000003 * (i + 1).
Definition ex_capacity : Z := 1009.
Definition ex_do_move (p : position) (move : Z) : position := p.
Definition ex_do_null_move (p : position) : position := p.
Definition ex_illegal (p : position) (move : Z) : bool := false.
Definition ex_evaluate_move (move : Z) (p : position) : Z := 0.
Definition ex_clock (n : nat) : Z * Z := (0, 0).
Definition ex_stop_time (arg : search_argument) (now : Z * Z) : Z * Z := now.

(** A make and an unmake of quiet moves, and of the null move, put together
    from the functions of pos.c the way a [do_move] uses them: the
    irreversible state is pushed and popped, the piece is lifted from its
    square and set down on the other, and the side to move changes.  The
    legality test that goes with them accepts the quiet moves from an
    occupied square to an empty one. *)
Definition ex_quiet_move (p : position) (move : Z) : bool :=
  (get_move_type move =? MOVE_OTHER) &&
  negb (get_piece_at p (get_move_origin move) =? PIECE_NONE) &&
  (get_piece_at p (get_move_target move) =? PIECE_NONE).

Definition ex_make_move (p : position) (move : Z) : position :=
  let from := get_move_origin move in
  let to := get_move_target move in
  let piece := get_piece_at p from in
  let p := start_new_irreversible_state p in
  let p := remove_piece p from in
  let p := place_piece p to piece in
  flip_side_to_move p.

Definition ex_unmake_move (p : position) (move : Z) : position :=
  let from := get_move_origin move in
  let to := get_move_target move in
  let p := flip_side_to_move p in
  let piece := get_piece_at p to in
  let p := remove_piece p to in
  let p := place_piece p from piece in
  backtrack_irreversible_state p.

Definition ex_make_null (p : position) : position :=
  flip_side_to_move (start_new_irreversible_state p).

Definition ex_unmake_null (p : position) : position :=
  backtrack_irreversible_state (flip_side_to_move p).

(** The positions they are meant for: the two board formats agree and the
    side to move is a colour. *)
Definition ex_valid (p : position) : Prop :=
  board_consistent p = true /\
  (side_to_move p = COLOR_WHITE \/ side_to_move p = COLOR_BLACK).

(** A running search at ply [p] on position [q], with an empty table and
    no position counted. *)
Definition ex_state (q : position) (p : Z) : state :=
  {| ply := p; nodes := 0; pos := q; killers := fun _ => (0, 0);
     move_made := fun _ => 0; pos_cnt := fun _ => 0; inodes := 0;
     running := true;
     tt := fun _ => {| nd_score := 0; nd_depth := 0; nd_type := 0;
                       nd_hash := -1; nd_best_move := 0 |};
     clock_reads := 0; trace := [] |}.

Definition ex_params (q : position) : parameters :=
  {| params_depth := 1; params_mate := 0; params_movestogo := 0;
     params_nodes := LLONG_MAX; params_limited_time := false;
     params_stop_time := (0, 0); params_pos := q; params_moves := [];
     params_num_moves := 0 |}.

(** [go depth 4] on position [q]. *)
Definition ex_arg (q : position) : search_argument :=
  {| arg_pos := q; arg_moves := []; arg_num_moves := 0; arg_infinite := false;
     arg_depth := 4; arg_mate := 0; arg_movestogo := 0; arg_perft := 0;
     arg_nodes := LLONG_MAX; arg_time := fun _ => 0; arg_inc := fun _ => 0;
     arg_movetime := 0 |}.

Definition ex_qsearch : nat -> parameters -> Z -> Z -> Z -> state -> option (Z * state) :=
  qsearch ex_zobrist ex_capacity Movegen.table_rook_attacks
    Movegen.table_bishop_attacks ex_do_move ex_do_move ex_illegal ex_evaluate_move.

Definition ex_negamax : nat -> parameters -> Z -> Z -> Z -> state -> option (Z * state) :=
  negamax ex_zobrist ex_capacity Movegen.table_rook_attacks
    Movegen.table_bishop_attacks ex_do_move ex_do_move ex_do_null_move
    ex_do_null_move ex_illegal ex_evaluate_move ex_clock.

Definition ex_run_search : nat -> search_argument -> state -> option (Z * state) :=
  run_search ex_zobrist ex_capacity Movegen.table_rook_attacks
    Movegen.table_bishop_attacks ex_do_move ex_do_move ex_do_null_move
    ex_do_null_move ex_illegal ex_evaluate_move ex_clock ex_stop_time
    (fun _ => 0) 0 0.

(** The search on the make and unmake put together from pos.c, with a
    legality test under which White has its quiet moves and Black has no
    legal move. *)
Definition ex_white_quiet_move (p : position) (move : Z) : bool :=
  (side_to_move p =? COLOR_WHITE) && ex_quiet_move p move.

Definition ex_tree_qsearch
    : nat -> parameters -> Z -> Z -> Z -> state -> option (Z * state) :=
  qsearch ex_zobrist ex_capacity Movegen.table_rook_attacks
    Movegen.table_bishop_attacks ex_make_move ex_unmake_move ex_white_quiet_move
    ex_evaluate_move.

Definition ex_tree_negamax
    : nat -> parameters -> Z -> Z -> Z -> state -> option (Z * state) :=
  negamax ex_zobrist ex_capacity Movegen.table_rook_attacks
    Movegen.table_bishop_attacks ex_make_move ex_unmake_move ex_make_null
    ex_unmake_null ex_white_quiet_move ex_evaluate_move ex_clock.

Definition ex_tree_run_search : nat -> search_argument -> state -> option (Z * state) :=
  run_search ex_zobrist ex_capacity Movegen.table_rook_attacks
    Movegen.table_bishop_attacks ex_make_move ex_unmake_move ex_make_null
    ex_unmake_null ex_white_quiet_move ex_evaluate_move ex_clock ex_stop_time
    (fun _ => 0) 0 0.

(** The mate and stalemate scores as the specification words them: in a
    position without legal move, whatever [negamax] or [qsearch] returns is
    [-INF + ply] in check and 0 otherwise. *)
Definition no_legal_move_claim : Prop :=
  forall zobrist_numbers tt_capacity get_rook_attacks get_bishop_attacks
         do_move undo_move do_null_move undo_null_move move_is_legal
         evaluate_move timespec_get
         (fuel : nat) (params : parameters) (depth alpha beta : Z)
         (st st' : state) (v : Z),
    no_legal_move get_rook_attacks get_bishop_attacks move_is_legal (pos st) ->
    let expected :=
      if is_in_check get_rook_attacks get_bishop_attacks (pos st)
      then - INF + ply st else 0 in
    (negamax zobrist_numbers tt_capacity get_rook_attacks get_bishop_attacks
       do_move undo_move do_null_move undo_null_move move_is_legal
       evaluate_move timespec_get fuel params depth alpha beta st = Some (v, st') ->
     v = expected) /\
    (qsearch zobrist_numbers tt_capacity get_rook_attacks get_bishop_attacks
       do_move undo_move move_is_legal evaluate_move
       fuel params depth alpha beta st = Some (v, st') ->
     v = expected).

(** One [bestmove] per search as the specification words it: on a root
    position with a legal move, and on a root position without one
    (checkmate or stalemate), a [run_search] that returns has called
    [best_move_sender] exactly once, with the move 0 when there was no legal
    move. *)
Definition one_best_move_claim : Prop :=
  forall zobrist_numbers tt_capacity get_rook_attacks get_bishop_attacks
         do_move undo_move do_null_move undo_null_move move_is_legal
         evaluate_move timespec_get compute_stop_time stack_garbage
         indeterminate_move indeterminate_int
         (fuel : nat) (arg : search_argument) (st st' : state) (v : Z),
    trace st = [] ->
    run_search zobrist_numbers tt_capacity get_rook_attacks get_bishop_attacks
      do_move undo_move do_null_move undo_null_move move_is_legal
      evaluate_move timespec_get compute_stop_time stack_garbage
      indeterminate_move indeterminate_int fuel arg st = Some (v, st') ->
    (has_legal_move get_rook_attacks get_bishop_attacks move_is_legal (arg_pos arg) ->
     length (best_moves_sent (trace st')) = 1%nat) /\
    (no_legal_move get_rook_attacks get_bishop_attacks move_is_legal (arg_pos arg) ->
     best_moves_sent (trace st') = [0]).

End Search.

(* ===================================================================== *)
(** * Properties *)
(* ===================================================================== *)

Module PosFacts.
Import Pos.

Lemma land_bit7_cases (x : Z) : Z.land x 0x80 = 0 \/ Z.land x 0x80 = 0x80.
Proof.
  change 0x80 with (2 ^ 7).
  destruct (Z.testbit x 7) eqn:Hb; [right | left];
    apply Z.bits_inj'; intros n Hn;
    rewrite Z.land_spec, ?Z.bits_0, Z.pow2_bits_eqb by lia;
    destruct (Z.eqb_spec 7 n) as [<- | Hne];
    rewrite ?Hb, ?andb_false_r; reflexivity.
Qed.

Lemma nth_set_nth_field {A B} (f : A -> B) (d x : A) (l : list A) (n : nat) :
  f x = f (nth n l d) -> f (nth n (set_nth n x l) d) = f (nth n l d).
Proof.
  unfold set_nth. revert n.
  induction l as [| a l IH]; intros [| n] Hx; cbn in *; auto.
Qed.

Lemma cur_irr_with_clocks_rights (pos : position) (hm fm : Z) :
  castling_rights_and_enpassant (cur_irr (with_clocks pos hm fm)) =
  castling_rights_and_enpassant (cur_irr pos).
Proof.
  unfold cur_irr at 1. unfold with_clocks; cbn [irr_states irr_state_idx].
  apply nth_set_nth_field. reflexivity.
Qed.

Lemma pos_equal_spec (pos1 pos2 : position) :
  pos_equal pos1 pos2 = true <-> same_for_repetition pos1 pos2.
Proof.
  unfold pos_equal, same_for_repetition, same_castling_rights.
  destruct (Z.eqb_spec (get_side_to_move pos1) (get_side_to_move pos2)) as [Hs | Hs];
    cbn [negb]; [| split; [discriminate | tauto]].
  match goal with |- context [forallb ?f [COLOR_WHITE; COLOR_BLACK]] =>
    destruct (forallb f [COLOR_WHITE; COLOR_BLACK]) eqn:Hc end; cbn [negb].
  2:{ split; [discriminate |]. intros (_ & Hr & _). exfalso.
      rewrite <- not_true_iff_false in Hc. apply Hc.
      apply forallb_forall; intros c Hin. apply forallb_forall; intros s Hin'.
      apply Bool.eqb_true_iff. auto. }
  assert (Hrights : forall c s, In c [COLOR_WHITE; COLOR_BLACK] ->
                      In s [CASTLING_SIDE_QUEEN; CASTLING_SIDE_KING] ->
                      has_castling_right pos1 c s = has_castling_right pos2 c s).
  { intros c s Hin Hin'. rewrite forallb_forall in Hc.
    specialize (Hc c Hin). rewrite forallb_forall in Hc.
    apply Bool.eqb_true_iff. auto. }
  destruct (Z.eqb_spec (enpassant_possible pos1) (enpassant_possible pos2)) as [He | He];
    cbn [negb].
  2:{ split; [discriminate |]. intros (_ & _ & Hep & _). exfalso. apply He.
      unfold enpassant_possible in *.
      destruct (land_bit7_cases (castling_rights_and_enpassant (cur_irr pos1))) as [H1 | H1],
               (land_bit7_cases (castling_rights_and_enpassant (cur_irr pos2))) as [H2 | H2];
        rewrite H1, H2 in *; try reflexivity; exfalso; lia. }
  assert (Hep : enpassant_possible pos1 <> 0 <-> enpassant_possible pos2 <> 0)
    by (rewrite He; tauto).
  destruct (Z.eqb_spec (enpassant_possible pos1) 0) as [Hz1 | Hz1];
  destruct (Z.eqb_spec (enpassant_possible pos2) 0) as [Hz2 | Hz2];
    cbn [negb andb]; try (exfalso; lia).
  - destruct (Z.eqb_spec (get_color_bitboard pos1 COLOR_WHITE)
                         (get_color_bitboard pos2 COLOR_WHITE)) as [Hw | Hw];
      cbn [negb]; [| split; [discriminate | tauto]].
    destruct (Z.eqb_spec (get_color_bitboard pos1 COLOR_BLACK)
                         (get_color_bitboard pos2 COLOR_BLACK)) as [Hb | Hb];
      cbn [negb]; [| split; [discriminate | tauto]].
    rewrite forallb_forall. split.
    + intros Ht. repeat split; auto; try tauto.
      intros pt Hin. apply Z.eqb_eq. auto.
    + intros (_ & _ & _ & _ & _ & _ & Ht) pt Hin. apply Z.eqb_eq. auto.
  - destruct (Z.eqb_spec (get_enpassant_square pos1) (get_enpassant_square pos2))
      as [Hq | Hq]; cbn [negb]; [| split; [discriminate | tauto]].
    destruct (Z.eqb_spec (get_color_bitboard pos1 COLOR_WHITE)
                         (get_color_bitboard pos2 COLOR_WHITE)) as [Hw | Hw];
      cbn [negb]; [| split; [discriminate | tauto]].
    destruct (Z.eqb_spec (get_color_bitboard pos1 COLOR_BLACK)
                         (get_color_bitboard pos2 COLOR_BLACK)) as [Hb | Hb];
      cbn [negb]; [| split; [discriminate | tauto]].
    rewrite forallb_forall. split.
    + intros Ht. repeat split; auto; try tauto.
      intros pt Hin. apply Z.eqb_eq. auto.
    + intros (_ & _ & _ & _ & _ & _ & Ht) pt Hin. apply Z.eqb_eq. auto.
Qed.

(** C10: [pos_equal] holds exactly when the two positions agree on the side
    to move, on each of the four castling rights, on whether en passant is
    available (and on the en-passant square when both have one), on both
    colour bitboards and on all six piece-type bitboards; replacing the
    halfmove clock and the fullmove counter of either position never changes
    its answer. *)
Theorem pos_equal_ignores_clocks :
  forall pos1 pos2 : position,
    (pos_equal pos1 pos2 = true <-> same_for_repetition pos1 pos2) /\
    (forall hm fm hm' fm',
        pos_equal (with_clocks pos1 hm fm) (with_clocks pos2 hm' fm') =
        pos_equal pos1 pos2).
Proof.
  intros pos1 pos2. split; [apply pos_equal_spec |].
  intros hm fm hm' fm'.
  unfold pos_equal, same_castling_rights, has_castling_right,
    enpassant_possible, get_enpassant_square.
  rewrite !cur_irr_with_clocks_rights. reflexivity.
Qed.

End PosFacts.

Module BitFacts.
Import Bit.

Lemma in_squares (i : Z) : In i squares <-> 0 <= i < 64.
Proof.
  unfold squares. rewrite in_map_iff. split.
  - intros (n & <- & Hn). apply in_seq in Hn. lia.
  - intros Hi. exists (Z.to_nat i). split; [lia |]. apply in_seq. lia.
Qed.

Lemma NoDup_squares : NoDup squares.
Proof.
  unfold squares. apply Injective_map_NoDup.
  - intros a b Hab. lia.
  - apply seq_NoDup.
Qed.

Lemma in_bits_of (bb i : Z) :
  In i (bits_of bb) <-> 0 <= i < 64 /\ Z.testbit bb i = true.
Proof. unfold bits_of. rewrite filter_In, in_squares. tauto. Qed.

Lemma u64_high_bits (bb i : Z) :
  0 <= bb < 2 ^ 64 -> 64 <= i -> Z.testbit bb i = false.
Proof.
  intros Hbb Hi.
  rewrite <- (Z.mod_small bb (2 ^ 64)) by assumption.
  apply Z.mod_pow2_bits_high. lia.
Qed.

Lemma bits_of_nil (bb : Z) : 0 <= bb < 2 ^ 64 -> bits_of bb = [] -> bb = 0.
Proof.
  intros Hbb Hnil. apply Z.bits_inj'. intros i Hi. rewrite Z.bits_0.
  destruct (Z_lt_ge_dec i 64) as [Hlt | Hge].
  - destruct (Z.testbit bb i) eqn:Hb; [| reflexivity].
    assert (Hin : In i (bits_of bb)) by (apply in_bits_of; split; [lia | assumption]).
    rewrite Hnil in Hin. destruct Hin.
  - apply u64_high_bits; [assumption | lia].
Qed.

Lemma bits_of_0 : bits_of 0 = [].
Proof. reflexivity. Qed.

(** On a list without repetition, the elements that pass a test are the
    first one that passes followed by the others that pass. *)
Lemma filter_find_cons (p : Z -> bool) (l : list Z) (i : Z) :
  NoDup l -> find p l = Some i ->
  filter p l = i :: filter (fun j => p j && negb (i =? j)) l.
Proof.
  induction l as [| a l IH]; intros Hnd Hfind; [discriminate |].
  inversion Hnd as [| ? ? Hnotin Hnd']; subst.
  cbn in Hfind |- *. destruct (p a) eqn:Hpa.
  - injection Hfind as <-. rewrite Z.eqb_refl. cbn. f_equal.
    apply filter_ext_in. intros j Hj.
    destruct (Z.eqb_spec a j) as [-> | _]; [contradiction |].
    now rewrite andb_true_r.
  - cbn. apply IH; assumption.
Qed.

Lemma find_bits_of (bb : Z) :
  0 <= bb < 2 ^ 64 -> bb <> 0 ->
  exists i, find (Z.testbit bb) squares = Some i.
Proof.
  intros Hbb Hnz.
  destruct (find (Z.testbit bb) squares) as [i |] eqn:Hf; [eauto |].
  exfalso. apply Hnz. apply bits_of_nil; [assumption |].
  unfold bits_of.
  assert (Hall : forall x, In x squares -> Z.testbit bb x = false)
    by (intros x Hx; eapply find_none; eassumption).
  clear Hf. induction squares as [| a l IH]; [reflexivity |].
  cbn. rewrite (Hall a) by (left; reflexivity).
  apply IH. intros x Hx. apply Hall. right. assumption.
Qed.

Lemma get_ls1b_range (bb : Z) : 0 <= get_ls1b bb < 64.
Proof.
  unfold get_ls1b. destruct (find (Z.testbit bb) squares) as [i |] eqn:Hf; [| lia].
  apply find_some in Hf. apply in_squares. tauto.
Qed.

(** Popping the lowest bit of a non-empty bitboard splits the list of its
    set bits into head and tail. *)
Lemma bits_of_unset_ls1b (bb : Z) :
  0 <= bb < 2 ^ 64 -> bb <> 0 ->
  bits_of bb = fst (unset_ls1b bb) :: bits_of (snd (unset_ls1b bb)).
Proof.
  intros Hbb Hnz. destruct (find_bits_of bb Hbb Hnz) as [i Hf].
  unfold unset_ls1b, get_ls1b. rewrite Hf. cbn [fst snd].
  unfold bits_of. rewrite (filter_find_cons _ _ i NoDup_squares Hf). f_equal.
  apply filter_ext_in. intros j Hj.
  rewrite Z.clearbit_eqb. reflexivity.
Qed.

Lemma u64_of_high_bits (x : Z) :
  0 <= x -> (forall i, 64 <= i -> Z.testbit x i = false) -> 0 <= x < 2 ^ 64.
Proof.
  intros Hx Hhigh. split; [assumption |].
  assert (Hmod : x mod 2 ^ 64 = x).
  { apply Z.bits_inj'. intros n Hn.
    destruct (Z_lt_ge_dec n 64) as [Hlt | Hge].
    - apply Z.mod_pow2_bits_low. lia.
    - rewrite Z.mod_pow2_bits_high by lia. symmetry. apply Hhigh. lia. }
  rewrite <- Hmod. apply Z.mod_pos_bound. lia.
Qed.

Lemma clearbit_u64 (bb i : Z) : 0 <= bb < 2 ^ 64 -> 0 <= Z.clearbit bb i < 2 ^ 64.
Proof.
  intros Hbb. apply u64_of_high_bits.
  - rewrite Z.clearbit_spec'. apply Z.ldiff_nonneg. lia.
  - intros n Hn. rewrite Z.clearbit_eqb, (u64_high_bits bb n) by assumption.
    reflexivity.
Qed.

Lemma bits_of_length (bb : Z) : (length (bits_of bb) <= 64)%nat.
Proof.
  unfold bits_of. etransitivity; [apply filter_length_le |].
  unfold squares. rewrite length_map, length_seq. reflexivity.
Qed.

Lemma fold_left_cons {A B : Type} (f : A -> B -> A) (b : B) (l : list B) (a : A) :
  fold_left f (b :: l) a = fold_left f l (f a b).
Proof. reflexivity. Qed.

Lemma bb_loop_0 {A : Type} (body : Z -> A -> A) (fuel : nat) (acc : A) :
  bb_loop fuel body 0 acc = acc.
Proof. destruct fuel; reflexivity. Qed.

Lemma bb_loop_step {A : Type} (body : Z -> A -> A) (fuel : nat) (bb : Z) (acc : A) :
  bb <> 0 ->
  bb_loop (S fuel) body bb acc =
  bb_loop fuel body (snd (unset_ls1b bb)) (body (fst (unset_ls1b bb)) acc).
Proof.
  intros Hnz. cbn [bb_loop].
  destruct (Z.eqb_spec bb 0) as [-> | _]; [contradiction | reflexivity].
Qed.

Lemma length_cons_le (sq : Z) (l : list Z) (fuel : nat) :
  (length (sq :: l) <= S fuel)%nat -> (length l <= fuel)%nat.
Proof. intros Hlen. cbn [length] in Hlen. lia. Qed.

Lemma bb_loop_no_fuel {A : Type} (body : Z -> A -> A) (bb : Z) (acc : A) :
  (length (bits_of bb) <= 0)%nat ->
  bb_loop 0 body bb acc = fold_left (fun a sq => body sq a) (bits_of bb) acc.
Proof.
  intros Hlen. destruct (bits_of bb); [reflexivity |].
  cbn [length] in Hlen. clear - Hlen. lia.
Qed.

(** The [while (bb)] loop visits the set bits from the lowest upwards. *)
Lemma bb_loop_fold {A : Type} (body : Z -> A -> A) :
  forall (fuel : nat) (bb : Z) (acc : A),
    0 <= bb < 2 ^ 64 -> (length (bits_of bb) <= fuel)%nat ->
    bb_loop fuel body bb acc = fold_left (fun a sq => body sq a) (bits_of bb) acc.
Proof.
  induction fuel as [| fuel IH]; intros bb acc Hbb Hlen.
  - apply bb_loop_no_fuel. assumption.
  - destruct (Z.eq_dec bb 0) as [Hz | Hnz].
    + rewrite Hz, bb_loop_0, bits_of_0. reflexivity.
    + rewrite bb_loop_step by assumption.
      pose proof (bits_of_unset_ls1b bb Hbb Hnz) as Hsplit.
      rewrite Hsplit, fold_left_cons. apply IH.
      * apply clearbit_u64. assumption.
      * rewrite Hsplit in Hlen. apply length_cons_le in Hlen. exact Hlen.
Qed.

Lemma bb_loop_64 {A : Type} (body : Z -> A -> A) (bb : Z) (acc : A) :
  0 <= bb < 2 ^ 64 ->
  bb_loop 64 body bb acc = fold_left (fun a sq => body sq a) (bits_of bb) acc.
Proof. intros Hbb. apply bb_loop_fold; [assumption | apply bits_of_length]. Qed.

Lemma land_u64_r (a b : Z) : 0 <= b < 2 ^ 64 -> 0 <= Z.land a b < 2 ^ 64.
Proof.
  intros Hb. apply u64_of_high_bits.
  - apply Z.land_nonneg. lia.
  - intros n Hn. rewrite Z.land_spec, (u64_high_bits b n) by assumption.
    apply andb_false_r.
Qed.

End BitFacts.

Module TTFacts.
Import Pos TT.

Lemma cur_irr_with_rights (pos : position) (cre : Z) :
  (irr_state_idx pos < length (irr_states pos))%nat ->
  castling_rights_and_enpassant (cur_irr (with_rights pos cre)) = cre.
Proof.
  unfold cur_irr at 1. unfold with_rights, set_nth; cbn [irr_states irr_state_idx].
  generalize (irr_state_idx pos) as n. generalize (irr_states pos) as l.
  induction l as [| a l IH]; intros [| n] Hn; cbn in *; try lia; auto.
  apply IH. lia.
Qed.

Lemma cur_irr_with_rights_out (pos : position) (cre : Z) :
  (length (irr_states pos) <= irr_state_idx pos)%nat ->
  cur_irr (with_rights pos cre) = cur_irr pos.
Proof.
  unfold cur_irr, with_rights, set_nth; cbn [irr_states irr_state_idx].
  intros Hn. rewrite skipn_all2, firstn_all2, app_nil_r by lia. reflexivity.
Qed.

(** Only the rights of Black, the last colour of the loop, reach the
    index into the castling keys. *)
Lemma castling_index_black (pos : position) :
  castling_index pos =
  Z.shiftl (Z.lor (Z.shiftl (b2z (has_castling_right pos COLOR_BLACK CASTLING_SIDE_KING)) 1)
                  (b2z (has_castling_right pos COLOR_BLACK CASTLING_SIDE_QUEEN)))
           (2 * COLOR_BLACK) mod 2 ^ 8.
Proof. reflexivity. Qed.

Lemma land_lor_white_bit (x side s : Z) :
  side = CASTLING_SIDE_QUEEN \/ side = CASTLING_SIDE_KING ->
  s = CASTLING_SIDE_QUEEN \/ s = CASTLING_SIDE_KING ->
  Z.land (Z.lor x (Z.shiftl (Z.shiftl 1 side) (2 * COLOR_WHITE)))
         (Z.shiftl (Z.shiftl 1 s) (2 * COLOR_BLACK)) =
  Z.land x (Z.shiftl (Z.shiftl 1 s) (2 * COLOR_BLACK)).
Proof.
  intros [-> | ->] [-> | ->]; rewrite Z.land_lor_distr_l;
    cbn; rewrite Z.lor_0_r; reflexivity.
Qed.

Lemma land_lor_low_nibble (x side m : Z) :
  side = CASTLING_SIDE_QUEEN \/ side = CASTLING_SIDE_KING ->
  m = 0x80 \/ m = 0x70 ->
  Z.land (Z.lor x (Z.shiftl (Z.shiftl 1 side) (2 * COLOR_WHITE))) m = Z.land x m.
Proof.
  intros [-> | ->] [-> | ->]; rewrite Z.land_lor_distr_l;
    cbn; rewrite Z.lor_0_r; reflexivity.
Qed.

Lemma fold_left_ext {A B : Type} (f g : A -> B -> A) (l : list B) (a : A) :
  (forall x y, f x y = g x y) -> fold_left f l a = fold_left g l a.
Proof.
  intros Hfg. revert a. induction l as [| b l IH]; intros a; cbn; [reflexivity |].
  rewrite Hfg. apply IH.
Qed.

Lemma hash_pos_congr (zobrist_numbers : Z -> Z) (p q : position) :
  hash_pieces zobrist_numbers p = hash_pieces zobrist_numbers q ->
  castling_index p = castling_index q ->
  enpassant_possible p = enpassant_possible q ->
  get_enpassant_square p = get_enpassant_square q ->
  get_side_to_move p = get_side_to_move q ->
  hash_pos zobrist_numbers p = hash_pos zobrist_numbers q.
Proof. unfold hash_pos. intros -> -> -> -> ->. reflexivity. Qed.

Lemma hash_pieces_with_rights (zobrist_numbers : Z -> Z) (pos : position) (cre : Z) :
  hash_pieces zobrist_numbers (with_rights pos cre) = hash_pieces zobrist_numbers pos.
Proof. unfold hash_pieces. apply fold_left_ext. intros key sq. reflexivity. Qed.

(** C3: giving White a castling right never changes [hash_pos]: the
    castling key is chosen by the rights of Black alone, so two positions
    that differ only in the castling rights of White have the same hash,
    whatever the Zobrist numbers are. *)
Theorem hash_pos_ignores_white_castling :
  forall (zobrist_numbers : Z -> Z) (pos : position) (side : Z),
    side = CASTLING_SIDE_QUEEN \/ side = CASTLING_SIDE_KING ->
    hash_pos zobrist_numbers (add_castling pos COLOR_WHITE side) =
    hash_pos zobrist_numbers pos.
Proof.
  intros zob pos side Hside.
  assert (Hks : forall s, In s [CASTLING_SIDE_KING; CASTLING_SIDE_QUEEN] ->
                s = CASTLING_SIDE_QUEEN \/ s = CASTLING_SIDE_KING)
    by (intros s [<- | [<- | []]]; auto).
  apply hash_pos_congr.
  - apply hash_pieces_with_rights.
  - rewrite !castling_index_black. unfold has_castling_right, add_castling.
    destruct (Nat.lt_ge_cases (irr_state_idx pos) (length (irr_states pos))) as [Hin | Hout].
    + rewrite !cur_irr_with_rights by assumption.
      rewrite !land_lor_white_bit by (cbn; auto). reflexivity.
    + rewrite !cur_irr_with_rights_out by assumption. reflexivity.
  - unfold enpassant_possible, add_castling.
    destruct (Nat.lt_ge_cases (irr_state_idx pos) (length (irr_states pos))) as [Hin | Hout].
    + rewrite !cur_irr_with_rights by assumption.
      apply land_lor_low_nibble; auto.
    + rewrite !cur_irr_with_rights_out by assumption. reflexivity.
  - unfold get_enpassant_square, add_castling.
    destruct (Nat.lt_ge_cases (irr_state_idx pos) (length (irr_states pos))) as [Hin | Hout].
    + rewrite !cur_irr_with_rights by assumption.
      rewrite land_lor_low_nibble by auto. reflexivity.
    + rewrite !cur_irr_with_rights_out by assumption. reflexivity.
  - reflexivity.
Qed.

Lemma hash_pos_ignores_white_castling_witness :
  (CASTLING_SIDE_KING = CASTLING_SIDE_QUEEN \/ CASTLING_SIDE_KING = CASTLING_SIDE_KING) /\
  hash_pos (fun i => i) (add_castling pos_black_rights COLOR_WHITE CASTLING_SIDE_KING) =
  hash_pos (fun i => i) pos_black_rights.
Proof.
  split; [right; reflexivity |].
  apply (hash_pos_ignores_white_castling (fun i => i) pos_black_rights CASTLING_SIDE_KING).
  right; reflexivity.
Defined.

(** The two positions r3k2r/8/8/8/8/8/8/R3K2R w KQkq and ... w kq differ
    in the castling rights of White only; their four-bit right sets are 15
    and 12, yet both hashes are the same. *)
Lemma hash_collision_on_white_rights (zobrist_numbers : Z -> Z) :
  castling_rights_set pos_all_rights = 15 /\
  castling_rights_set pos_black_rights = 12 /\
  hash_pos zobrist_numbers pos_all_rights = hash_pos zobrist_numbers pos_black_rights.
Proof.
  split; [vm_compute; reflexivity |]. split; [vm_compute; reflexivity |].
  apply hash_pos_congr; vm_compute; reflexivity.
Qed.

End TTFacts.

Module EvalFacts.
Import Pos Tables.

(** ** Piece-square term *)

(** In eval.c the table value of an opponent piece is taken off both
    components. *)
Lemma pst_step_opponent (pos : position) (color : Z) (s : score) (sq : Z) :
  get_piece_at pos sq <> PIECE_NONE ->
  get_piece_color (get_piece_at pos sq) <> color ->
  Eval1.pst_step pos color s sq =
  let pt := get_piece_type (get_piece_at pos sq) in
  {| mg := mg s - mg (Eval1.sq_tables (opp color) pt sq);
     eg := eg s - eg (Eval1.sq_tables (opp color) pt sq) |}.
Proof.
  intros Hp Hc. unfold Eval1.pst_step.
  destruct (Z.eqb_spec (get_piece_at pos sq) PIECE_NONE); [contradiction |].
  destruct (Z.eqb_spec (get_piece_color (get_piece_at pos sq)) color); [contradiction |].
  reflexivity.
Qed.

(** In src/eval.c the end-game value of an opponent piece is added. *)
Lemma pst_step_opponent_new (pos : position) (color : Z) (s : score) (sq : Z) :
  get_piece_at pos sq <> PIECE_NONE ->
  get_piece_color (get_piece_at pos sq) <> color ->
  Eval2.pst_step pos color s sq =
  {| mg := mg s - Eval2.get_square_value (get_piece_at pos sq) sq true;
     eg := eg s + Eval2.get_square_value (get_piece_at pos sq) sq false |}.
Proof.
  intros Hp Hc. unfold Eval2.pst_step.
  destruct (Z.eqb_spec (get_piece_at pos sq) PIECE_NONE); [contradiction |].
  destruct (Z.eqb_spec (get_piece_color (get_piece_at pos sq)) color); [contradiction |].
  reflexivity.
Qed.

(** C5: with White to move, a lone white king on e1 against the black king
    on e8 and a black pawn on a2, [evaluate] of src/eval.c returns +22: the
    end-game table values of the two black pieces (-28 for the king, 178 for
    the pawn) are added to the score.  Subtracting them in both components,
    as for the middle game, gives -278. *)
Theorem evaluate_adds_opponent_endgame_value :
  Eval2.evaluate_score Eval2.pos_pawn_a2 = {| mg := -198; eg := 22 |} /\
  Eval2.evaluate Eval2.pos_pawn_a2 = 22 /\
  fold_left (Eval2.pst_step_spec Eval2.pos_pawn_a2 COLOR_WHITE) Bit.squares
    {| mg := -100; eg := -100 |} = {| mg := -198; eg := -278 |}.
Proof. repeat split; vm_compute; reflexivity. Qed.

(** ** Bishop pair *)

(** C6: [has_bishop_pair] tests files, not square colours.  White bishops on
    c1 (dark) and c4 (light) stand on both colours of the checkerboard, yet
    [has_bishop_pair] is false and the evaluation gives no bonus; White
    bishops on c1 and b2, both dark, are taken for a pair. *)
Theorem has_bishop_pair_tests_files :
  Eval1.bishops_on_both_colors Eval1.pos_bishops_c1_c4 COLOR_WHITE = true /\
  Eval1.has_bishop_pair Eval1.pos_bishops_c1_c4 COLOR_WHITE = false /\
  (forall s, Eval1.add_bishop_pair Eval1.pos_bishops_c1_c4 COLOR_WHITE s = s) /\
  Eval1.bishops_on_both_colors Eval1.pos_bishops_c1_b2 COLOR_WHITE = false /\
  Eval1.has_bishop_pair Eval1.pos_bishops_c1_b2 COLOR_WHITE = true.
Proof.
  split; [vm_compute; reflexivity |].
  split; [vm_compute; reflexivity |].
  split; [| split; vm_compute; reflexivity].
  intros s. unfold Eval1.add_bishop_pair.
  assert (H1 : Eval1.has_bishop_pair Eval1.pos_bishops_c1_c4 COLOR_WHITE = false)
    by (vm_compute; reflexivity).
  assert (H2 : Eval1.has_bishop_pair Eval1.pos_bishops_c1_c4 (opp COLOR_WHITE) = false)
    by (vm_compute; reflexivity).
  rewrite H1, H2. reflexivity.
Qed.

(** ** King-pawn distance *)

Lemma pawn_distance_step_min (king_sq sq dist : Z) :
  Eval1.pawn_distance_step (get_file king_sq) (get_rank king_sq) sq dist =
  Z.min dist (Eval1.chebyshev king_sq sq).
Proof.
  unfold Eval1.pawn_distance_step, Eval1.chebyshev.
  destruct (Z.gtb_spec (Z.abs (get_file king_sq - get_file sq))
                       (Z.abs (get_rank king_sq - get_rank sq)));
  match goal with |- context [?a <? ?b] => destruct (Z.ltb_spec a b) end; lia.
Qed.

Lemma fold_min_map (f : Z -> Z) (l : list Z) (a : Z) :
  fold_left (fun d sq => Z.min d (f sq)) l a = fold_left Z.min (map f l) a.
Proof. revert a. induction l as [| x l IH]; intros a; cbn; [reflexivity | apply IH]. Qed.

Lemma fold_min_assoc (l : list Z) (a x : Z) :
  fold_left Z.min l (Z.min a x) = Z.min a (fold_left Z.min l x).
Proof.
  revert x. induction l as [| y l IH]; intros x; cbn; [reflexivity |].
  rewrite <- Z.min_assoc. apply IH.
Qed.

Lemma fold_min_list_min (l : list Z) (a : Z) :
  l <> [] -> fold_left Z.min l a = Z.min a (Eval1.list_min 0 l).
Proof.
  destruct l as [| x l]; [congruence |]. intros _. cbn [fold_left Eval1.list_min].
  apply fold_min_assoc.
Qed.

Lemma piece_color_create (pt c : Z) :
  c = 0 \/ c = 1 -> 0 <= pt -> get_piece_color (create_piece pt c) = c.
Proof.
  intros Hc Hpt. unfold get_piece_color, create_piece.
  rewrite Z.land_lor_distr_l.
  replace (Z.land (Z.shiftl pt 1) 1) with 0.
  - destruct Hc as [-> | ->]; reflexivity.
  - symmetry. apply Z.bits_inj'. intros n Hn.
    rewrite Z.land_spec, Z.bits_0.
    destruct (Z.eq_dec n 0) as [-> | Hne].
    + rewrite Z.shiftl_spec_low by lia. reflexivity.
    + change 1 with (2 ^ 0). rewrite Z.pow2_bits_eqb by lia.
      destruct (Z.eqb_spec 0 n); [lia |]. apply andb_false_r.
Qed.

(** With at least one pawn, [get_smallest_pawn_distance] is one less than
    the distance to the nearest pawn, capped at 6. *)
Lemma get_smallest_pawn_distance_spec (pos : position) (color : Z) :
  color = 0 \/ color = 1 ->
  is_u64 (get_color_bitboard pos color) ->
  Eval1.pawn_squares pos color <> [] ->
  Eval1.get_smallest_pawn_distance pos color =
  Z.min 6 (Eval1.nearest_pawn_distance pos color) - 1.
Proof.
  intros Hc Hu Hpawns.
  unfold Eval1.get_smallest_pawn_distance, Eval1.nearest_pawn_distance,
    Eval1.pawn_squares in *.
  set (pawn := create_piece PIECE_TYPE_PAWN color) in *.
  set (king_sq := get_king_square pos color).
  assert (Hbb : Z.land (get_piece_bitboard pos pawn) (get_color_bitboard pos color) =
                get_piece_bitboard pos pawn).
  { unfold get_piece_bitboard. subst pawn.
    rewrite piece_color_create by (auto; unfold PIECE_TYPE_PAWN; lia).
    rewrite <- Z.land_assoc, Z.land_diag. reflexivity. }
  rewrite Hbb.
  assert (Hrange : 0 <= get_piece_bitboard pos pawn < 2 ^ 64).
  { rewrite <- Hbb. apply BitFacts.land_u64_r. exact Hu. }
  rewrite BitFacts.bb_loop_64 by exact Hrange.
  f_equal.
  rewrite (TTFacts.fold_left_ext _ (fun d sq => Z.min d (Eval1.chebyshev king_sq sq)))
    by (intros; apply pawn_distance_step_min).
  rewrite fold_min_map. apply fold_min_list_min.
  intros Hnil. apply Hpawns. apply map_eq_nil in Hnil. exact Hnil.
Qed.

(** C7 fails when a king is seven squares from its nearest pawn: in
    7k/8/8/8/8/8/p3P3/4K3 w, the black king on h8 is at distance 7 from the
    pawn on a2 and the white king at distance 1 from its pawn; the claim
    asks for 16 * 7 - 16 * 1 = 96 and the code adds 80. *)
Lemma king_pawn_claim_fails_at_distance_7 : ~ Eval1.king_pawn_claim Eval1.pos_far_pawn.
Proof.
  unfold Eval1.king_pawn_claim. intros H.
  assert (H1 : Eval1.pawn_squares Eval1.pos_far_pawn
                 (get_side_to_move Eval1.pos_far_pawn) <> [])
    by (vm_compute; discriminate).
  assert (H2 : Eval1.pawn_squares Eval1.pos_far_pawn
                 (opp (get_side_to_move Eval1.pos_far_pawn)) <> [])
    by (vm_compute; discriminate).
  specialize (H H1 H2 {| mg := 0; eg := 0 |}).
  vm_compute in H. discriminate H.
Qed.

(** C7, amended: when both sides have a pawn, the end-game component gains
    16 centipawns per unit of the distance from the enemy king to its
    nearest pawn and loses 16 per unit of the distance from our king to its
    nearest pawn, each distance counted up to 6 at most; the middle-game
    component is not touched. *)
Theorem king_pawn_distance_capped :
  forall pos : position,
    let c := get_side_to_move pos in
    c = 0 \/ c = 1 ->
    is_u64 (get_color_bitboard pos COLOR_WHITE) ->
    is_u64 (get_color_bitboard pos COLOR_BLACK) ->
    Eval1.pawn_squares pos c <> [] ->
    Eval1.pawn_squares pos (opp c) <> [] ->
    let before :=
      Eval1.add_material pos
        (Eval1.add_bishop_pair pos c
           (Eval1.add_piece_square pos c {| mg := 0; eg := 0 |})) in
    eg (Eval1.evaluate_score pos) =
      eg before + 16 * Z.min 6 (Eval1.nearest_pawn_distance pos (opp c))
                - 16 * Z.min 6 (Eval1.nearest_pawn_distance pos c) /\
    mg (Eval1.evaluate_score pos) = mg before.
Proof.
  intros pos c Hc Hw Hb Hown Henemy before.
  assert (Hu : forall k, k = 0 \/ k = 1 -> is_u64 (get_color_bitboard pos k))
    by (intros k [-> | ->]; assumption).
  assert (Hoc : opp c = 0 \/ opp c = 1) by (destruct Hc as [-> | ->]; cbn; auto).
  unfold Eval1.evaluate_score. fold c. fold before.
  unfold Eval1.add_king_pawn_distance. cbn [mg eg].
  rewrite (get_smallest_pawn_distance_spec pos c) by auto.
  rewrite (get_smallest_pawn_distance_spec pos (opp c)) by auto.
  split; [lia | reflexivity].
Qed.

Lemma king_pawn_distance_capped_witness :
  eg (Eval1.evaluate_score Eval1.pos_far_pawn) = -150 + 16 * 6 - 16 * 1.
Proof.
  pose proof (king_pawn_distance_capped Eval1.pos_far_pawn) as H.
  cbv zeta in H.
  assert (H0 : get_side_to_move Eval1.pos_far_pawn = 0 \/
               get_side_to_move Eval1.pos_far_pawn = 1) by (left; reflexivity).
  assert (H1 : is_u64 (get_color_bitboard Eval1.pos_far_pawn COLOR_WHITE))
    by (vm_compute; split; [discriminate | reflexivity]).
  assert (H2 : is_u64 (get_color_bitboard Eval1.pos_far_pawn COLOR_BLACK))
    by (vm_compute; split; [discriminate | reflexivity]).
  assert (H3 : Eval1.pawn_squares Eval1.pos_far_pawn
                 (get_side_to_move Eval1.pos_far_pawn) <> [])
    by (vm_compute; discriminate).
  assert (H4 : Eval1.pawn_squares Eval1.pos_far_pawn
                 (opp (get_side_to_move Eval1.pos_far_pawn)) <> [])
    by (vm_compute; discriminate).
  destruct (H H0 H1 H2 H3 H4) as [Heg _].
  rewrite Heg. vm_compute. reflexivity.
Defined.

End EvalFacts.

Module MovegenFacts.
Import Pos Move Movegen.

(** ** The move encoding *)

Lemma land_63_range (x : Z) : 0 <= Z.land x 0x3f < 2 ^ 6.
Proof.
  change 0x3f with (Z.ones 6). rewrite Z.land_ones by lia.
  apply Z.mod_pos_bound. lia.
Qed.

Lemma get_move_type_create (from to type : Z) :
  0 <= type < 16 -> get_move_type (create_move from to type) = type.
Proof.
  intros Hty. unfold get_move_type, create_move.
  rewrite !Z.shiftr_lor.
  rewrite (Z.shiftr_shiftl_r _ 6 12) by lia.
  rewrite (Z.shiftr_shiftl_l _ 12 12) by lia.
  change (12 - 6) with 6. change (12 - 12) with 0. rewrite Z.shiftl_0_r.
  pose proof (land_63_range from) as Hf. pose proof (land_63_range to) as Ht.
  rewrite (Z.shiftr_div_pow2 (Z.land from 63)), (Z.shiftr_div_pow2 (Z.land to 63)) by lia.
  rewrite !Z.div_small by lia.
  rewrite Z.lor_0_l, <- Z.land_assoc, Z.land_diag.
  change 15 with (Z.ones 4). rewrite Z.land_ones by lia.
  apply Z.mod_small. lia.
Qed.

(** ** Moves of one type in the generated list *)

(** Every type the generator uses outside castling differs from the two
    castling types. *)
Lemma filter_add_move_other (t : Z) (lst : list Z) (from to type : Z) :
  0 <= type < 16 -> type <> t ->
  filter (of_type t) (add_move lst (create_move from to type)) = filter (of_type t) lst.
Proof.
  intros Hty Hne. unfold add_move. rewrite filter_app. cbn [filter].
  unfold of_type at 2. rewrite get_move_type_create by assumption.
  destruct (Z.eqb_spec type t); [contradiction |]. apply app_nil_r.
Qed.

Lemma filter_add_move_same (t : Z) (lst : list Z) (from to : Z) :
  0 <= t < 16 ->
  filter (of_type t) (add_move lst (create_move from to t)) =
  filter (of_type t) lst ++ [create_move from to t].
Proof.
  intros Hty. unfold add_move. rewrite filter_app. cbn [filter].
  unfold of_type at 2. rewrite get_move_type_create by assumption.
  rewrite Z.eqb_refl. reflexivity.
Qed.

Lemma bb_loop_invariant {A B : Type} (P : A -> B) (body : Z -> A -> A) :
  (forall sq acc, P (body sq acc) = P acc) ->
  forall fuel bb acc, P (Bit.bb_loop fuel body bb acc) = P acc.
Proof.
  intros Hbody. induction fuel as [| fuel IH]; intros bb acc; [reflexivity |].
  cbn [Bit.bb_loop]. destruct (bb =? 0); [reflexivity |].
  destruct (Bit.unset_ls1b bb) as [sq bb']. rewrite IH. apply Hbody.
Qed.

Ltac other_type :=
  first [ apply filter_add_move_other;
          [ cbv; intuition discriminate
          | match goal with H : castling_type _ |- _ =>
              destruct H as [-> | ->]; cbv; discriminate end ]
        | reflexivity ].

Lemma filter_add_pushes (t : Z) (lst : list Z) (from occ color : Z) :
  castling_type t ->
  filter (of_type t) (add_pushes lst from occ color) = filter (of_type t) lst.
Proof.
  intros Ht. unfold add_pushes.
  destruct (negb _); [| reflexivity].
  destruct (promotion_rank _ _).
  - cbn [fold_left]. repeat (etransitivity; [other_type |]). reflexivity.
  - other_type.
Qed.

Lemma filter_add_double_pushes (t : Z) (lst : list Z) (from occ color : Z) :
  castling_type t ->
  filter (of_type t) (add_double_pushes lst from occ color) = filter (of_type t) lst.
Proof.
  intros Ht. unfold add_double_pushes.
  destruct (negb _); [| reflexivity]. other_type.
Qed.

Lemma filter_add_pawn_attacks (t : Z) (lst : list Z) (from enemy_pieces color : Z) :
  castling_type t ->
  filter (of_type t) (add_pawn_attacks lst from enemy_pieces color) = filter (of_type t) lst.
Proof.
  intros Ht. unfold add_pawn_attacks.
  apply (bb_loop_invariant (filter (of_type t))). intros to acc.
  destruct (promotion_rank _ _).
  - cbn [fold_left]. repeat (etransitivity; [other_type |]). reflexivity.
  - other_type.
Qed.

Lemma filter_add_pawn_moves (t : Z) (lst : list Z) (pos : position) :
  castling_type t ->
  filter (of_type t) (add_pawn_moves lst pos) = filter (of_type t) lst.
Proof.
  intros Ht. unfold add_pawn_moves.
  rewrite (bb_loop_invariant (filter (of_type t))).
  - destruct (negb _); [| reflexivity].
    apply (bb_loop_invariant (filter (of_type t))). intros from acc. other_type.
  - intros from acc.
    rewrite filter_add_pawn_attacks, filter_add_double_pushes, filter_add_pushes
      by assumption.
    reflexivity.
Qed.

Section Tables.

Variable get_rook_attacks : Z -> Z -> Z.
Variable get_bishop_attacks : Z -> Z -> Z.

Lemma filter_add_targets (t : Z) (lst : list Z) (pos : position) (from targets : Z) :
  castling_type t ->
  filter (of_type t) (add_targets lst pos from targets) = filter (of_type t) lst.
Proof.
  intros Ht. unfold add_targets.
  apply (bb_loop_invariant (filter (of_type t))). intros to acc.
  destruct (get_piece_at pos to =? PIECE_NONE); other_type.
Qed.

Lemma filter_add_moves_piece (t : Z) (lst : list Z) (piece_type : Z) (pos : position) :
  castling_type t ->
  piece_type <> PIECE_TYPE_KING ->
  filter (of_type t) (add_moves get_rook_attacks get_bishop_attacks lst piece_type pos) =
  filter (of_type t) lst.
Proof.
  intros Ht Hk. unfold add_moves.
  destruct (piece_type =? PIECE_TYPE_PAWN); [apply filter_add_pawn_moves; assumption |].
  destruct (Z.eqb_spec piece_type PIECE_TYPE_KING); [contradiction |].
  apply (bb_loop_invariant (filter (of_type t))). intros from acc.
  apply filter_add_targets. assumption.
Qed.

Notation attacked := (is_square_attacked get_rook_attacks get_bishop_attacks).

(** [add_king_castling] adds its move exactly under the conditions of its
    two [if]s, and nothing otherwise. *)
Lemma add_king_castling_cases (lst : list Z) (pos : position) :
  let color := get_side_to_move pos in
  let from := get_king_square pos color in
  let sq1 := if color =? COLOR_WHITE then F1 else F8 in
  let sq2 := if color =? COLOR_WHITE then G1 else G8 in
  let conds :=
    has_castling_right pos color CASTLING_SIDE_KING = true /\
    get_piece_at pos sq1 = PIECE_NONE /\ get_piece_at pos sq2 = PIECE_NONE /\
    attacked sq1 (opp color) pos = false /\ attacked sq2 (opp color) pos = false /\
    attacked from (opp color) pos = false in
  (conds /\
   add_king_castling get_rook_attacks get_bishop_attacks lst pos =
   add_move lst (create_move from sq2 MOVE_KING_CASTLE)) \/
  (~ conds /\ add_king_castling get_rook_attacks get_bishop_attacks lst pos = lst).
Proof.
  intros color from sq1 sq2 conds. subst conds. unfold add_king_castling.
  fold color. fold from. fold sq1. fold sq2.
  destruct (has_castling_right pos color CASTLING_SIDE_KING);
    [| right; split; [intros (H & _); discriminate | reflexivity]].
  destruct (Z.eqb_spec (get_piece_at pos sq1) PIECE_NONE) as [H1 | H1];
    [| right; split; [tauto | reflexivity]].
  destruct (Z.eqb_spec (get_piece_at pos sq2) PIECE_NONE) as [H2 | H2];
    [| right; split; [tauto | reflexivity]].
  destruct (attacked sq1 (opp color) pos);
    [right; split; [intros (_ & _ & _ & H & _); discriminate | reflexivity] |].
  destruct (attacked sq2 (opp color) pos);
    [right; split; [intros (_ & _ & _ & _ & H & _); discriminate | reflexivity] |].
  destruct (attacked from (opp color) pos);
    [right; split; [intros (_ & _ & _ & _ & _ & H); discriminate | reflexivity] |].
  left. cbn [andb negb]. tauto.
Qed.

Lemma add_queen_castling_cases (lst : list Z) (pos : position) :
  let color := get_side_to_move pos in
  let from := get_king_square pos color in
  let sq1 := if color =? COLOR_WHITE then D1 else D8 in
  let sq2 := if color =? COLOR_WHITE then C1 else C8 in
  let sq3 := if color =? COLOR_WHITE then B1 else B8 in
  let conds :=
    has_castling_right pos color CASTLING_SIDE_QUEEN = true /\
    get_piece_at pos sq1 = PIECE_NONE /\ get_piece_at pos sq2 = PIECE_NONE /\
    get_piece_at pos sq3 = PIECE_NONE /\
    attacked sq1 (opp color) pos = false /\ attacked sq2 (opp color) pos = false /\
    attacked from (opp color) pos = false in
  (conds /\
   add_queen_castling get_rook_attacks get_bishop_attacks lst pos =
   add_move lst (create_move from sq2 MOVE_QUEEN_CASTLE)) \/
  (~ conds /\ add_queen_castling get_rook_attacks get_bishop_attacks lst pos = lst).
Proof.
  intros color from sq1 sq2 sq3 conds. subst conds. unfold add_queen_castling.
  fold color. fold from. fold sq1. fold sq2. fold sq3.
  destruct (has_castling_right pos color CASTLING_SIDE_QUEEN);
    [| right; split; [intros (H & _); discriminate | reflexivity]].
  destruct (Z.eqb_spec (get_piece_at pos sq1) PIECE_NONE) as [H1 | H1];
    [| right; split; [tauto | reflexivity]].
  destruct (Z.eqb_spec (get_piece_at pos sq2) PIECE_NONE) as [H2 | H2];
    [| right; split; [tauto | reflexivity]].
  destruct (Z.eqb_spec (get_piece_at pos sq3) PIECE_NONE) as [H3 | H3];
    [| right; split; [tauto | reflexivity]].
  destruct (attacked sq1 (opp color) pos);
    [right; split; [intros (_ & _ & _ & _ & H & _); discriminate | reflexivity] |].
  destruct (attacked sq2 (opp color) pos);
    [right; split; [intros (_ & _ & _ & _ & _ & H & _); discriminate | reflexivity] |].
  destruct (attacked from (opp color) pos);
    [right; split; [intros (_ & _ & _ & _ & _ & _ & H); discriminate | reflexivity] |].
  left. cbn [andb negb]. tauto.
Qed.

Lemma filter_generate (t : Z) (pos : position) :
  castling_type t ->
  exists lst,
    filter (of_type t) lst = [] /\
    filter (of_type t) (generate get_rook_attacks get_bishop_attacks pos) =
    filter (of_type t)
      (add_queen_castling get_rook_attacks get_bishop_attacks
         (add_king_castling get_rook_attacks get_bishop_attacks lst pos) pos).
Proof.
  intros Ht. unfold generate.
  set (lst := add_moves _ _ (add_moves _ _ (add_moves _ _ (add_moves _ _
                (add_moves _ _ [] PIECE_TYPE_PAWN pos) PIECE_TYPE_KNIGHT pos)
                PIECE_TYPE_ROOK pos) PIECE_TYPE_BISHOP pos) PIECE_TYPE_QUEEN pos).
  exists lst. split.
  - subst lst. rewrite !filter_add_moves_piece by (assumption || discriminate).
    reflexivity.
  - unfold add_moves at 1. cbn [Z.eqb PIECE_TYPE_KING PIECE_TYPE_PAWN Pos.eqb].
    unfold add_king_moves. apply filter_add_targets. assumption.
Qed.

Lemma emits_iff_filter (pos : position) (side : Z) :
  emits_castling get_rook_attacks get_bishop_attacks pos side <->
  filter (of_type (castling_move_type side))
         (generate get_rook_attacks get_bishop_attacks pos) <> [].
Proof.
  unfold emits_castling. split.
  - intros (move & Hin & Hty) Hnil.
    assert (Hf : In move (filter (of_type (castling_move_type side))
                            (generate get_rook_attacks get_bishop_attacks pos))).
    { apply filter_In. split; [assumption |]. unfold of_type. now apply Z.eqb_eq. }
    rewrite Hnil in Hf. destruct Hf.
  - intros Hne.
    destruct (filter (of_type (castling_move_type side))
                (generate get_rook_attacks get_bishop_attacks pos)) as [| move l] eqn:Hf;
      [congruence |].
    assert (Hin : In move (move :: l)) by (left; reflexivity).
    rewrite <- Hf in Hin. apply filter_In in Hin. destruct Hin as [Hin Hty].
    exists move. split; [assumption |]. now apply Z.eqb_eq.
Qed.

Lemma forall_in_2 (P : Z -> Prop) (a b : Z) :
  (forall sq, In sq [a; b] -> P sq) <-> P a /\ P b.
Proof.
  split.
  - intros H. split; apply H; cbn; auto.
  - intros [Ha Hb] sq [<- | [<- | []]]; assumption.
Qed.

Lemma forall_in_3 (P : Z -> Prop) (a b c : Z) :
  (forall sq, In sq [a; b; c] -> P sq) <-> P a /\ P b /\ P c.
Proof.
  split.
  - intros H. repeat split; apply H; cbn; auto.
  - intros (Ha & Hb & Hc) sq [<- | [<- | [<- | []]]]; assumption.
Qed.

(** With the king on its home square this is the specification's wording:
    the generator emits the castling move to a side exactly when the right
    to castle there is held, every square strictly between the king and the
    rook of that side is empty, and neither the king's square nor any square
    the king crosses or lands on is attacked by the enemy.  On the queen
    side the b-file square is among the squares that must be empty and not
    among those that must be unattacked. *)
Theorem castling_emitted_iff :
  forall (pos : position) (side : Z),
    let c := get_side_to_move pos in
    c = COLOR_WHITE \/ c = COLOR_BLACK ->
    side = CASTLING_SIDE_KING \/ side = CASTLING_SIDE_QUEEN ->
    get_king_square pos c = king_home c ->
    (emits_castling get_rook_attacks get_bishop_attacks pos side <->
     may_castle get_rook_attacks get_bishop_attacks pos side).
Proof.
  intros pos side c Hc Hside Hking.
  rewrite emits_iff_filter.
  assert (Hct : castling_type (castling_move_type side))
    by (destruct Hside as [-> | ->]; [left | right]; reflexivity).
  destruct (filter_generate (castling_move_type side) pos Hct) as (lst & Hnil & ->).
  unfold may_castle. fold c. rewrite Hking.
  pose proof (add_king_castling_cases lst pos) as Hk.
  pose proof (add_queen_castling_cases
                (add_king_castling get_rook_attacks get_bishop_attacks lst pos) pos) as Hq.
  cbv zeta in Hk, Hq. fold c in Hk, Hq. rewrite Hking in Hk, Hq.
  destruct Hside as [-> | ->];
    [change (castling_move_type CASTLING_SIDE_KING) with MOVE_KING_CASTLE in *
    | change (castling_move_type CASTLING_SIDE_QUEEN) with MOVE_QUEEN_CASTLE in *];
    (destruct Hc as [Hc | Hc]; rewrite Hc in *).
  - (* king side, White *)
    change (between (king_home COLOR_WHITE) (rook_home COLOR_WHITE CASTLING_SIDE_KING))
      with [F1; G1].
    change (king_home COLOR_WHITE ::
            traversed (king_home COLOR_WHITE)
                      (castling_target COLOR_WHITE CASTLING_SIDE_KING))
      with [E1; F1; G1].
    rewrite forall_in_2, forall_in_3.
    change (king_home COLOR_WHITE) with E1 in Hk, Hq.
    cbn [Z.eqb COLOR_WHITE] in Hk, Hq.
    destruct Hq as [(_ & ->) | (_ & ->)];
      rewrite ?filter_add_move_other by (cbv; intuition discriminate);
      (destruct Hk as [(Hconds & ->) | (Hconds & ->)];
       [rewrite filter_add_move_same, Hnil by (cbv; intuition discriminate);
        split; [intros _; tauto | intros _; discriminate]
       | rewrite Hnil; split; [congruence | intros; exfalso; tauto]]).
  - (* king side, Black *)
    change (between (king_home COLOR_BLACK) (rook_home COLOR_BLACK CASTLING_SIDE_KING))
      with [F8; G8].
    change (king_home COLOR_BLACK ::
            traversed (king_home COLOR_BLACK)
                      (castling_target COLOR_BLACK CASTLING_SIDE_KING))
      with [E8; F8; G8].
    rewrite forall_in_2, forall_in_3.
    change (king_home COLOR_BLACK) with E8 in Hk, Hq.
    cbn [Z.eqb COLOR_BLACK COLOR_WHITE] in Hk, Hq.
    destruct Hq as [(_ & ->) | (_ & ->)];
      rewrite ?filter_add_move_other by (cbv; intuition discriminate);
      (destruct Hk as [(Hconds & ->) | (Hconds & ->)];
       [rewrite filter_add_move_same, Hnil by (cbv; intuition discriminate);
        split; [intros _; tauto | intros _; discriminate]
       | rewrite Hnil; split; [congruence | intros; exfalso; tauto]]).
  - (* queen side, White *)
    change (between (king_home COLOR_WHITE) (rook_home COLOR_WHITE CASTLING_SIDE_QUEEN))
      with [B1; C1; D1].
    change (king_home COLOR_WHITE ::
            traversed (king_home COLOR_WHITE)
                      (castling_target COLOR_WHITE CASTLING_SIDE_QUEEN))
      with [E1; D1; C1].
    rewrite !forall_in_3.
    change (king_home COLOR_WHITE) with E1 in Hk, Hq.
    cbn [Z.eqb COLOR_WHITE] in Hk, Hq.
    assert (Hkk : filter (of_type MOVE_QUEEN_CASTLE)
                    (add_king_castling get_rook_attacks get_bishop_attacks lst pos) = []).
    { destruct Hk as [(_ & ->) | (_ & ->)];
        rewrite ?filter_add_move_other by (cbv; intuition discriminate); exact Hnil. }
    destruct Hq as [(Hconds & ->) | (Hconds & ->)].
    + rewrite filter_add_move_same, Hkk by (cbv; intuition discriminate).
      split; [intros _; tauto | intros _; discriminate].
    + rewrite Hkk. split; [congruence | intros; exfalso; tauto].
  - (* queen side, Black *)
    change (between (king_home COLOR_BLACK) (rook_home COLOR_BLACK CASTLING_SIDE_QUEEN))
      with [B8; C8; D8].
    change (king_home COLOR_BLACK ::
            traversed (king_home COLOR_BLACK)
                      (castling_target COLOR_BLACK CASTLING_SIDE_QUEEN))
      with [E8; D8; C8].
    rewrite !forall_in_3.
    change (king_home COLOR_BLACK) with E8 in Hk, Hq.
    cbn [Z.eqb COLOR_BLACK COLOR_WHITE] in Hk, Hq.
    assert (Hkk : filter (of_type MOVE_QUEEN_CASTLE)
                    (add_king_castling get_rook_attacks get_bishop_attacks lst pos) = []).
    { destruct Hk as [(_ & ->) | (_ & ->)];
        rewrite ?filter_add_move_other by (cbv; intuition discriminate); exact Hnil. }
    destruct Hq as [(Hconds & ->) | (Hconds & ->)].
    + rewrite filter_add_move_same, Hkk by (cbv; intuition discriminate).
      split; [intros _; tauto | intros _; discriminate].
    + rewrite Hkk. split; [congruence | intros; exfalso; tauto].
Qed.

Ltac home_squares l1 l2 :=
  match goal with
  | |- context [between ?a ?b] => replace (between a b) with l1 by reflexivity
  end;
  match goal with
  | |- context [traversed ?a ?b] => replace (traversed a b) with l2 by reflexivity
  end.

(** C8, amended: for every position and either side of the board, the
    generator emits the castling move exactly when the side to move holds
    the right to castle there, every square strictly between the home square
    of its king and the rook's corner is empty, and neither the square the
    king stands on nor any square between the king's home square and its
    target, the target included, is attacked by the enemy.  On the queen
    side the b-file square is among the squares that must be empty and not
    among those that must be unattacked.  The squares are counted from the
    king's home square, not from the king. *)
Theorem castling_emitted_from_home :
  forall (pos : position) (side : Z),
    side = CASTLING_SIDE_KING \/ side = CASTLING_SIDE_QUEEN ->
    (emits_castling get_rook_attacks get_bishop_attacks pos side <->
     may_castle_from_home get_rook_attacks get_bishop_attacks pos side).
Proof.
  intros pos side Hside.
  rewrite emits_iff_filter.
  assert (Hct : castling_type (castling_move_type side))
    by (destruct Hside as [-> | ->]; [left | right]; reflexivity).
  destruct (filter_generate (castling_move_type side) pos Hct) as (lst & Hnil & ->).
  unfold may_castle_from_home. cbv zeta.
  pose proof (add_king_castling_cases lst pos) as Hk.
  pose proof (add_queen_castling_cases
                (add_king_castling get_rook_attacks get_bishop_attacks lst pos) pos)
    as Hq.
  cbv zeta in Hk, Hq.
  unfold castling_target, rook_home, king_home.
  set (c := get_side_to_move pos) in *.
  destruct Hside as [-> | ->];
    [change (castling_move_type CASTLING_SIDE_KING) with MOVE_KING_CASTLE in *
    | change (castling_move_type CASTLING_SIDE_QUEEN) with MOVE_QUEEN_CASTLE in *];
    destruct (c =? COLOR_WHITE).
  - (* king side, White *)
    home_squares [F1; G1] [F1; G1].
    rewrite forall_in_2, forall_in_3.
    destruct Hq as [(_ & ->) | (_ & ->)];
      rewrite ?filter_add_move_other by (cbv; intuition discriminate);
      (destruct Hk as [(Hconds & ->) | (Hconds & ->)];
       [rewrite filter_add_move_same, Hnil by (cbv; intuition discriminate);
        split; [intros _; tauto | intros _; discriminate]
       | rewrite Hnil; split; [congruence | intros; exfalso; tauto]]).
  - (* king side, Black *)
    home_squares [F8; G8] [F8; G8].
    rewrite forall_in_2, forall_in_3.
    destruct Hq as [(_ & ->) | (_ & ->)];
      rewrite ?filter_add_move_other by (cbv; intuition discriminate);
      (destruct Hk as [(Hconds & ->) | (Hconds & ->)];
       [rewrite filter_add_move_same, Hnil by (cbv; intuition discriminate);
        split; [intros _; tauto | intros _; discriminate]
       | rewrite Hnil; split; [congruence | intros; exfalso; tauto]]).
  - (* queen side, White *)
    home_squares [B1; C1; D1] [D1; C1].
    rewrite !forall_in_3.
    assert (Hkk : filter (of_type MOVE_QUEEN_CASTLE)
                    (add_king_castling get_rook_attacks get_bishop_attacks lst pos) = []).
    { destruct Hk as [(_ & ->) | (_ & ->)];
        rewrite ?filter_add_move_other by (cbv; intuition discriminate);
        exact Hnil. }
    destruct Hq as [(Hconds & ->) | (Hconds & ->)].
    + rewrite filter_add_move_same, Hkk by (cbv; intuition discriminate).
      split; [intros _; tauto | intros _; discriminate].
    + rewrite Hkk. split; [congruence | intros; exfalso; tauto].
  - (* queen side, Black *)
    home_squares [B8; C8; D8] [D8; C8].
    rewrite !forall_in_3.
    assert (Hkk : filter (of_type MOVE_QUEEN_CASTLE)
                    (add_king_castling get_rook_attacks get_bishop_attacks lst pos) = []).
    { destruct Hk as [(_ & ->) | (_ & ->)];
        rewrite ?filter_add_move_other by (cbv; intuition discriminate);
        exact Hnil. }
    destruct Hq as [(Hconds & ->) | (Hconds & ->)].
    + rewrite filter_add_move_same, Hkk by (cbv; intuition discriminate).
      split; [intros _; tauto | intros _; discriminate].
    + rewrite Hkk. split; [congruence | intros; exfalso; tauto].
Qed.

End Tables.

Lemma castling_emitted_iff_witness :
  (get_side_to_move TT.pos_all_rights = COLOR_WHITE \/
   get_side_to_move TT.pos_all_rights = COLOR_BLACK) /\
  (CASTLING_SIDE_QUEEN = CASTLING_SIDE_KING \/ CASTLING_SIDE_QUEEN = CASTLING_SIDE_QUEEN) /\
  get_king_square TT.pos_all_rights (get_side_to_move TT.pos_all_rights) =
    king_home (get_side_to_move TT.pos_all_rights) /\
  emits_castling table_rook_attacks table_bishop_attacks TT.pos_all_rights
    CASTLING_SIDE_QUEEN.
Proof.
  split; [left; reflexivity |]. split; [right; reflexivity |].
  split; [vm_compute; reflexivity |].
  apply (castling_emitted_iff table_rook_attacks table_bishop_attacks
           TT.pos_all_rights CASTLING_SIDE_QUEEN).
  - left; reflexivity.
  - right; reflexivity.
  - vm_compute; reflexivity.
  - split; [vm_compute; reflexivity |].
    split; intros sq Hin; vm_compute in Hin;
      repeat (destruct Hin as [<- | Hin]; [vm_compute; reflexivity |]);
      destruct Hin.
Defined.

Lemma castling_emitted_from_home_witness :
  (CASTLING_SIDE_KING = CASTLING_SIDE_KING \/
   CASTLING_SIDE_KING = CASTLING_SIDE_QUEEN) /\
  may_castle_from_home table_rook_attacks table_bishop_attacks pos_king_off_home
    CASTLING_SIDE_KING.
Proof.
  split; [left; reflexivity |].
  apply (castling_emitted_from_home table_rook_attacks table_bishop_attacks
           pos_king_off_home CASTLING_SIDE_KING (or_introl eq_refl)).
  exists (create_move D1 G1 MOVE_KING_CASTLE). split; [| reflexivity].
  vm_compute. repeat (first [left; reflexivity | right]).
Defined.

(** C8 fails where the king is not on its home square: on
    4k3/8/8/8/8/8/8/3KB2R w K, with the white king on d1, the generator
    emits the castling move d1-g1 although the bishop on e1 stands between
    the king and the rook on h1. *)
Lemma castling_claim_fails_off_home_square : ~ castling_claim.
Proof.
  intros H.
  destruct (H table_rook_attacks table_bishop_attacks pos_king_off_home
              CASTLING_SIDE_KING (or_introl eq_refl)) as [Hemit _].
  assert (He : emits_castling table_rook_attacks table_bishop_attacks
                 pos_king_off_home CASTLING_SIDE_KING).
  { exists (create_move D1 G1 MOVE_KING_CASTLE). split; [| reflexivity].
    vm_compute. repeat (first [left; reflexivity | right]). }
  destruct (Hemit He) as (_ & Hempty & _).
  assert (Hin : In E1 (between (get_king_square pos_king_off_home
                                  (get_side_to_move pos_king_off_home))
                         (rook_home (get_side_to_move pos_king_off_home)
                            CASTLING_SIDE_KING)))
    by (vm_compute; auto).
  apply Hempty in Hin. vm_compute in Hin. discriminate Hin.
Qed.

End MovegenFacts.

Module SearchFacts.
Import Pos Move Search.

(** ** Transposition-table scores *)

(** C2: on a score outside both mate windows, storing leaves the score as
    it is and probing adds the ply to it, so the round trip returns
    [score + ply] and not [score]: the second test of [ttscore_to_score]
    compares with [INF + MAX_PLY], which every such score is below. *)
Theorem ttscore_round_trip_adds_ply :
  forall score ply : Z,
    - INF + MAX_PLY < score < INF - MAX_PLY ->
    ttscore_to_score (score_to_ttscore score ply) ply = score + ply.
Proof.
  intros score ply. unfold ttscore_to_score, score_to_ttscore, INF, MAX_PLY, MAX_DEPTH.
  intros H.
  repeat match goal with
         | |- context [?a >=? ?b] => destruct (Z.geb_spec a b); try lia
         | |- context [?a <=? ?b] => destruct (Z.leb_spec a b); try lia
         end.
Qed.

Lemma ttscore_round_trip_adds_ply_witness :
  - INF + MAX_PLY < 0 < INF - MAX_PLY /\
  ttscore_to_score (score_to_ttscore 0 1) 1 = 1.
Proof.
  split; [cbv; split; reflexivity |].
  apply (ttscore_round_trip_adds_ply 0 1). cbv; split; reflexivity.
Defined.

(** ** Lists of moves *)

Lemma set_nth_length {A : Type} (n : nat) (x : A) (l : list A) :
  length (set_nth n x l) = length l.
Proof.
  unfold set_nth. revert n. induction l as [| a l IH]; intros [| n]; cbn; auto.
Qed.

Lemma in_set_nth {A : Type} (n : nat) (x y : A) (l : list A) :
  In y (set_nth n x l) -> y = x \/ In y l.
Proof.
  unfold set_nth. revert n. induction l as [| a l IH]; intros [| n]; cbn; auto.
  - intros [<- | H]; auto.
  - intros [<- | H]; auto. destruct (IH n H); auto.
Qed.

Lemma swap_length (i j : nat) (moves : list Z) : length (swap i j moves) = length moves.
Proof. unfold swap. now rewrite !set_nth_length. Qed.

Lemma in_swap (i j : nat) (moves : list Z) (m : Z) :
  (i < length moves)%nat -> (j < length moves)%nat ->
  In m (swap i j moves) -> In m moves.
Proof.
  intros Hi Hj Hin. unfold swap in Hin.
  apply in_set_nth in Hin. destruct Hin as [-> | Hin]; [now apply nth_In |].
  apply in_set_nth in Hin. destruct Hin as [-> | Hin]; [now apply nth_In | assumption].
Qed.

Lemma in_skipn {A : Type} (n : nat) (l : list A) (x : A) : In x (skipn n l) -> In x l.
Proof.
  revert l. induction n as [| n IH]; intros [| a l]; cbn; auto.
Qed.

(** ** Nodes without legal move *)

Section Engine.

Variable zobrist_numbers : Z -> Z.
Variable tt_capacity : Z.
Variable get_rook_attacks : Z -> Z -> Z.
Variable get_bishop_attacks : Z -> Z -> Z.
Variable do_move : position -> Z -> position.
Variable undo_move : position -> Z -> position.
Variable do_null_move : position -> position.
Variable undo_null_move : position -> position.
Variable move_is_legal : position -> Z -> bool.
Variable evaluate_move : Z -> position -> Z.
Variable timespec_get : nat -> Z * Z.
Variable compute_stop_time : search_argument -> Z * Z -> Z * Z.
Variable stack_garbage : Z -> Z.
Variable indeterminate_move : Z.
Variable indeterminate_int : Z.

Notation generate := (generate get_rook_attacks get_bishop_attacks).
Notation get_pseudo_legal_moves :=
  (get_pseudo_legal_moves get_rook_attacks get_bishop_attacks).
Notation is_in_check := (is_in_check get_rook_attacks get_bishop_attacks).
Notation no_legal_move :=
  (no_legal_move get_rook_attacks get_bishop_attacks move_is_legal).
Notation has_legal_move :=
  (has_legal_move get_rook_attacks get_bishop_attacks move_is_legal).
Notation repeated := (repeated zobrist_numbers undo_move).
Notation tt_probe := (tt_probe zobrist_numbers tt_capacity).
Notation finish_node :=
  (finish_node zobrist_numbers tt_capacity get_rook_attacks get_bishop_attacks).
Notation get_next_qmove := (get_next_qmove zobrist_numbers tt_capacity evaluate_move).
Notation get_next_move := (get_next_move zobrist_numbers tt_capacity evaluate_move).
Notation qsearch_loop :=
  (qsearch_loop zobrist_numbers tt_capacity do_move undo_move move_is_legal
     evaluate_move).
Notation negamax_loop :=
  (negamax_loop zobrist_numbers tt_capacity do_move undo_move move_is_legal
     evaluate_move).
Notation qsearch :=
  (qsearch zobrist_numbers tt_capacity get_rook_attacks get_bishop_attacks
     do_move undo_move move_is_legal evaluate_move).
Notation negamax :=
  (negamax zobrist_numbers tt_capacity get_rook_attacks get_bishop_attacks
     do_move undo_move do_null_move undo_null_move move_is_legal evaluate_move
     timespec_get).
Notation time_check := (time_check timespec_get).

Lemma array_of_moves (p : position) :
  array_of (fst (get_pseudo_legal_moves p)) = generate p /\
  Z.to_nat (snd (get_pseudo_legal_moves p)) = length (generate p).
Proof.
  unfold Search.get_pseudo_legal_moves, Movegen.get_pseudo_legal_moves, Search.generate.
  destruct (Movegen.generate get_rook_attacks get_bishop_attacks p) as [| m l];
    [split; reflexivity |].
  destruct (Z.eqb_spec (Z.of_nat (length (m :: l))) 0) as [H | H];
    [cbn [length] in H; lia |].
  cbn [fst snd array_of]. split; [reflexivity | apply Nat2Z.id].
Qed.

(** *** The move pickers return an index inside the list *)

Lemma get_next_qmove_loop_index (table : Z -> node_data) (p : position) :
  forall (moves : list Z) (i : nat) (best_score : Z) (best_idx idx : nat) (ended : bool),
    get_next_qmove_loop zobrist_numbers tt_capacity evaluate_move table p moves i
      best_score best_idx = (idx, ended) ->
    idx = best_idx \/ (i <= idx < i + length moves)%nat.
Proof.
  induction moves as [| move rest IH]; intros i bs bi idx ended H; cbn in H.
  - injection H as <- _. now left.
  - assert (Hrec : forall bs' bi', (bi' = bi \/ bi' = i) ->
              get_next_qmove_loop zobrist_numbers tt_capacity evaluate_move table p
                rest (S i) bs' bi' = (idx, ended) ->
              idx = bi \/ (i <= idx < i + length (move :: rest))%nat).
    { intros bs' bi' Hbi Hr. apply IH in Hr. cbn [length].
      destruct Hr as [-> | Hr]; [destruct Hbi as [-> | ->]; [now left | right; lia] |].
      right; lia. }
    destruct (negb (move_is_capture move)); [apply (Hrec bs bi); auto |].
    destruct (tt_exact_move zobrist_numbers tt_capacity table p) as [best |].
    + destruct (move =? best).
      * injection H as <- _. right. cbn [length]. lia.
      * destruct (evaluate_move move p >? bs);
          [apply (Hrec (evaluate_move move p) i) | apply (Hrec bs bi)]; auto.
    + destruct (evaluate_move move p >? bs);
        [apply (Hrec (evaluate_move move p) i) | apply (Hrec bs bi)]; auto.
Qed.

Lemma get_next_qmove_index (moves : list Z) (st : state) (k : nat) (ended : bool) :
  moves <> [] -> get_next_qmove moves st = (k, ended) -> (k < length moves)%nat.
Proof.
  intros Hne H. unfold Search.get_next_qmove in H.
  apply get_next_qmove_loop_index in H.
  destruct moves; [congruence |]. cbn [length] in *. lia.
Qed.

Lemma tt_move_index_range (table : Z -> node_data) (p : position) :
  forall (moves : list Z) (i idx : nat),
    tt_move_index zobrist_numbers tt_capacity table p moves i = Some idx ->
    (i <= idx < i + length moves)%nat.
Proof.
  induction moves as [| move rest IH]; intros i idx H; cbn in H; [discriminate |].
  cbn [length].
  destruct (tt_exact_move zobrist_numbers tt_capacity table p) as [best |].
  - destruct (move =? best).
    + injection H as <-. lia.
    + apply IH in H. lia.
  - apply IH in H. lia.
Qed.

Lemma best_scored_index_range (killers : Z * Z) (p : position) :
  forall (moves : list Z) (i : nat) (best_score : Z) (best_idx idx : nat),
    best_scored_index evaluate_move killers p moves i best_score best_idx = idx ->
    idx = best_idx \/ (i <= idx < i + length moves)%nat.
Proof.
  induction moves as [| move rest IH]; intros i bs bi idx H; cbn in H; [now left |].
  cbn [length].
  match type of H with context [if ?c then _ else _] => destruct c end;
    apply IH in H; destruct H as [-> | H]; auto; right; lia.
Qed.

Lemma get_next_move_index (moves : list Z) (killers : Z * Z)
    (table : Z -> node_data) (p : position) :
  moves <> [] -> (get_next_move moves killers table p < length moves)%nat.
Proof.
  intros Hne. unfold Search.get_next_move.
  destruct (tt_move_index zobrist_numbers tt_capacity table p moves 0) as [idx |] eqn:Hi.
  - apply tt_move_index_range in Hi. lia.
  - pose proof (best_scored_index_range killers p moves 0 (- INF) 0 _ eq_refl) as H.
    destruct moves; [congruence |]. cbn [length] in *. lia.
Qed.

(** *** Entering a node *)

Lemma same_node_refl (s : state) : same_node s s.
Proof. repeat split. Qed.

Lemma same_node_trans (s1 s2 s3 : state) :
  same_node s1 s2 -> same_node s2 s3 -> same_node s1 s3.
Proof.
  unfold same_node. intros (-> & -> & -> & -> & ->) (-> & -> & -> & -> & ->).
  repeat split.
Qed.

Lemma same_node_count (s : state) : same_node (count_node s) s.
Proof. repeat split. Qed.

Lemma same_node_limit_check (s : state) (params : parameters) :
  same_node (limit_check s params) s.
Proof. unfold limit_check. destruct (_ || _); repeat split. Qed.

Lemma same_node_time_check (s : state) (params : parameters) :
  same_node (time_check s params) s.
Proof.
  unfold Search.time_check. destruct (Z.rem (nodes s) 8192 =? 0); [| repeat split].
  destruct (params_limited_time params); [| repeat split].
  destruct (_ || _); repeat split.
Qed.

Lemma repeated_loop_same (params : parameters) (s1 s2 : state) :
  same_node s1 s2 ->
  forall (fuel : nat) (ply : Z) (prev_pos : position),
    repeated_loop undo_move fuel ply prev_pos s1 params =
    repeated_loop undo_move fuel ply prev_pos s2 params.
Proof.
  intros (Hpos & _ & Hmm & _ & _).
  assert (Hgpm : forall ply, get_ply_move ply s1 params = get_ply_move ply s2 params)
    by (intros ply; unfold get_ply_move; rewrite Hmm; reflexivity).
  induction fuel as [| fuel IH]; intros ply prev_pos; [reflexivity |].
  cbn [repeated_loop]. rewrite !Hgpm, Hpos.
  destruct (get_ply_move ply s2 params =? 0); [reflexivity |].
  destruct (get_ply_move (ply - 1) s2 params =? 0); [reflexivity |].
  destruct (_ || _); [reflexivity |].
  destruct (pos_equal _ _); [reflexivity | apply IH].
Qed.

Lemma repeated_same (params : parameters) (s1 s2 : state) :
  same_node s1 s2 -> repeated s1 params = repeated s2 params.
Proof.
  intros Hsame. unfold Search.repeated.
  rewrite (repeated_loop_same params s1 s2 Hsame).
  destruct Hsame as (-> & -> & _ & -> & _). reflexivity.
Qed.

Lemma tt_probe_same (s1 s2 : state) (depth alpha beta : Z) :
  same_node s1 s2 -> tt_probe s1 depth alpha beta = tt_probe s2 depth alpha beta.
Proof.
  intros (Hpos & Hply & _ & _ & Htt). unfold Search.tt_probe.
  rewrite Hpos, Hply, Htt. reflexivity.
Qed.

Lemma limit_check_running (s : state) (params : parameters) :
  running (limit_check s params) = true ->
  limit_check s params = s /\ running s = true /\
  nodes s < params_nodes params /\ ply s <= MAX_PLY.
Proof.
  unfold limit_check.
  destruct (Z.geb_spec (nodes s) (params_nodes params)) as [Hn | Hn];
    [cbn; discriminate |].
  destruct (Z.gtb_spec (ply s) MAX_PLY) as [Hp | Hp]; [cbn; discriminate |].
  cbn [orb]. intros H. repeat split; (assumption || lia).
Qed.

(** The score of a node left without legal move. *)
Lemma finish_node_no_legal (depth : Z) (loc : locals) (st : state) :
  l_has_legal loc = false ->
  fst (finish_node depth loc st) =
  if is_in_check (pos st) then - INF + ply st else 0.
Proof.
  intros H. unfold Search.finish_node. rewrite H. cbn [negb fst].
  reflexivity.
Qed.

Lemma has_legal_moves_none (moves : list Z) (p : position) :
  (forall m, In m moves -> move_is_legal p m = false) ->
  has_legal_moves move_is_legal moves p = false.
Proof.
  intros H. unfold has_legal_moves.
  destruct (existsb (move_is_legal p) moves) eqn:He; [| reflexivity].
  apply existsb_exists in He. destruct He as (m & Hin & Hm).
  rewrite (H m Hin) in Hm. discriminate.
Qed.

(** *** The move loops when no move is legal *)

Lemma qsearch_loop_no_legal (rec : Z -> Z -> Z -> state -> option (Z * state))
    (depth beta : Z) (st : state) :
  forall (n i : nat) (loc : locals),
    length (l_moves loc) = (i + n)%nat ->
    (forall m, In m (l_moves loc) -> move_is_legal (pos st) m = false) ->
    l_has_legal loc = false ->
    exists loc',
      qsearch_loop rec depth beta n i loc st = Some (loc', st) /\
      l_has_legal loc' = false.
Proof.
  induction n as [| n IH]; intros i loc Hlen Hill Hleg.
  - exists loc. split; [reflexivity | assumption].
  - cbn [Search.qsearch_loop].
    assert (Hrest : skipn i (l_moves loc) <> []).
    { intros Hnil. apply (f_equal (@length Z)) in Hnil.
      rewrite length_skipn, Hlen in Hnil. cbn in Hnil. lia. }
    destruct (get_next_qmove (skipn i (l_moves loc)) st) as [k ended] eqn:Hq.
    pose proof (get_next_qmove_index _ _ _ _ Hrest Hq) as Hk.
    rewrite length_skipn, Hlen in Hk.
    rewrite Hleg. cbn [negb]. rewrite andb_true_r.
    destruct ended.
    + eexists. split; [reflexivity |]. cbn [l_has_legal set_l_has_legal].
      apply has_legal_moves_none. intros m Hm. apply Hill. eapply in_skipn; eassumption.
    + assert (Hmove : move_is_legal (pos st) (nth (i + k) (l_moves loc) 0) = false)
        by (apply Hill; apply nth_In; lia).
      rewrite Hmove. cbn [negb orb].
      apply IH.
      * cbn [l_moves set_l_moves]. rewrite swap_length. lia.
      * cbn [l_moves set_l_moves]. intros m Hm. apply Hill.
        apply in_swap in Hm; [assumption | lia | lia].
      * cbn [l_has_legal set_l_moves]. assumption.
Qed.

Lemma negamax_loop_no_legal (rec : Z -> Z -> Z -> state -> option (Z * state))
    (depth beta static_eval : Z) (in_check : bool) (st : state) :
  forall (n i : nat) (loc : locals),
    length (l_moves loc) = (i + n)%nat ->
    (forall m, In m (l_moves loc) -> move_is_legal (pos st) m = false) ->
    l_has_legal loc = false ->
    exists loc',
      negamax_loop rec depth beta static_eval in_check n i loc st =
        Some (Fallthrough loc' st) /\
      l_has_legal loc' = false.
Proof.
  induction n as [| n IH]; intros i loc Hlen Hill Hleg.
  - exists loc. split; [reflexivity | assumption].
  - cbn [Search.negamax_loop].
    assert (Hrest : skipn i (l_moves loc) <> []).
    { intros Hnil. apply (f_equal (@length Z)) in Hnil.
      rewrite length_skipn, Hlen in Hnil. cbn in Hnil. lia. }
    pose proof (get_next_move_index (skipn i (l_moves loc)) (killers st depth)
                  (tt st) (pos st) Hrest) as Hk.
    rewrite length_skipn, Hlen in Hk.
    set (k := get_next_move _ _ _ _) in *.
    assert (Hmove : move_is_legal (pos st) (nth (i + k) (l_moves loc) 0) = false)
      by (apply Hill; apply nth_In; lia).
    rewrite Hmove. cbn [negb].
    apply IH.
    + cbn [l_moves set_l_moves]. rewrite swap_length. lia.
    + cbn [l_moves set_l_moves]. intros m Hm. apply Hill.
      apply in_swap in Hm; [assumption | lia | lia].
    + cbn [l_has_legal set_l_moves]. assumption.
Qed.

Lemma negamax_unfold (fuel : nat) (params : parameters) (depth alpha beta : Z)
    (st : state) :
  negamax (S fuel) params depth alpha beta st =
  let st := time_check st params in
  let st := limit_check st params in
  if negb (running st) then Some (alpha, st) else
  let st := count_node st in
  if repeated st params then Some (0, st) else
  match tt_probe st depth alpha beta with
  | Some score => Some (score, st)
  | None =>
      if depth =? 0 then
        let st := uncount_node st in
        qsearch fuel params depth alpha beta st
      else
        let in_check := is_in_check (pos st) in
        let after_null_move : option (option Z * state) :=
          if negb in_check && negb (is_zugzwang_likely (pos st)) &&
             (depth >? NULL_MOVE_REDUCTION)
          then
            let new_depth := depth - NULL_MOVE_REDUCTION in
            let st := set_pos st (do_null_move (pos st)) in
            match negamax fuel params new_depth (- beta) (- alpha) st with
            | None => None
            | Some (s, st) =>
                let score := - s in
                let st := set_pos st (undo_null_move (pos st)) in
                if score >=? beta then Some (Some beta, st)
                else Some (None, st)
            end
          else Some (None, st) in
        match after_null_move with
        | None => None
        | Some (Some v, st) => Some (v, st)
        | Some (None, st) =>
            let '(moves, len) := get_pseudo_legal_moves (pos st) in
            let static_eval := evaluate (pos st) in
            let loc := {| l_alpha := alpha; l_best_score := - INF;
                          l_best_move := 0;
                          l_type := NODE_TYPE_ALPHA_UNCHANGED;
                          l_has_legal := false;
                          l_moves := array_of moves |} in
            match negamax_loop (negamax fuel params) depth beta static_eval
                    in_check (Z.to_nat len) 0 loc st with
            | None => None
            | Some (Returned v st) => Some (v, st)
            | Some (Fallthrough loc st) => Some (finish_node depth loc st)
            end
        end
  end.
Proof. reflexivity. Qed.

Lemma qsearch_unfold (fuel : nat) (params : parameters) (depth alpha beta : Z)
    (st : state) :
  qsearch (S fuel) params depth alpha beta st =
  let st := limit_check st params in
  if negb (running st) || (nodes st >=? params_nodes params)
  then Some (alpha, st) else
  let st := count_node st in
  if repeated st params then Some (0, st) else
  match tt_probe st depth alpha beta with
  | Some score => Some (score, st)
  | None =>
      let best_score := evaluate (pos st) in
      if (best_score >=? beta) && negb (is_in_check (pos st))
      then Some (best_score, st) else
      let alpha := if best_score >? alpha then best_score else alpha in
      let '(moves, len) := get_pseudo_legal_moves (pos st) in
      let loc := {| l_alpha := alpha; l_best_score := best_score;
                    l_best_move := 0;
                    l_type := NODE_TYPE_ALPHA_UNCHANGED;
                    l_has_legal := false; l_moves := array_of moves |} in
      match qsearch_loop (qsearch fuel params) depth beta
              (Z.to_nat len) 0 loc st with
      | None => None
      | Some (loc, st) => Some (finish_node depth loc st)
      end
  end.
Proof. reflexivity. Qed.

(** In a position where no pseudo-legal move is legal, a node that is
    searched to the end of its move loop returns [-INF + ply] when the side
    to move is in check and 0 when it is not.  [negamax] searches the node
    to the end when the search is running after the polls at its top, the
    position is not a repetition, the table has no usable entry, the depth
    is not 0 and the null move is not tried; [qsearch] does when the search
    is running, the position is not a repetition, the table has no usable
    entry and the stand-pat score does not cut. *)
Lemma no_legal_move_score :
  forall (fuel : nat) (params : parameters) (depth alpha beta : Z) (st : state),
    no_legal_move (pos st) ->
    repeated st params = false ->
    tt_probe st depth alpha beta = None ->
    let expected := if is_in_check (pos st) then - INF + ply st else 0 in
    (running (limit_check (time_check st params) params) = true ->
     depth <> 0 ->
     is_in_check (pos st) = true \/ is_zugzwang_likely (pos st) = true \/
       depth <= NULL_MOVE_REDUCTION ->
     exists st', negamax (S fuel) params depth alpha beta st = Some (expected, st')) /\
    (running (limit_check st params) = true ->
     is_in_check (pos st) = true \/ evaluate (pos st) < beta ->
     exists st', qsearch (S fuel) params depth alpha beta st = Some (expected, st')).
Proof.
  intros fuel params depth alpha beta st Hnone Hrep Htt expected. split.
  - intros Hrun Hdepth Hnull. rewrite negamax_unfold. cbv zeta.
    set (st1 := count_node (limit_check (time_check st params) params)).
    assert (Hsame : same_node st1 st).
    { subst st1. eapply same_node_trans; [apply same_node_count |].
      eapply same_node_trans; [apply same_node_limit_check | apply same_node_time_check]. }
    rewrite Hrun. cbn [negb].
    rewrite (repeated_same params st1 st Hsame), Hrep.
    rewrite (tt_probe_same st1 st depth alpha beta Hsame), Htt.
    destruct (Z.eqb_spec depth 0) as [| _]; [contradiction |].
    assert (Hpos : pos st1 = pos st) by apply Hsame.
    assert (Hply : ply st1 = ply st) by apply Hsame.
    rewrite Hpos.
    assert (Hcond : negb (is_in_check (pos st)) && negb (is_zugzwang_likely (pos st)) &&
                    (depth >? NULL_MOVE_REDUCTION) = false).
    { destruct Hnull as [-> | [-> | Hd]]; [reflexivity | apply andb_false_intro1, andb_false_r |].
      destruct (Z.gtb_spec depth NULL_MOVE_REDUCTION); [lia | apply andb_false_r]. }
    rewrite Hcond. cbv beta iota. rewrite ?Hpos.
    destruct (array_of_moves (pos st)) as [Harr Hlen].
    destruct (get_pseudo_legal_moves (pos st)) as [moves len]. cbn [fst snd] in Harr, Hlen.
    cbv beta iota.
    match goal with
    | |- context [negamax_loop ?rec depth beta ?e ?c (Z.to_nat len) 0 ?loc st1] =>
        destruct (negamax_loop_no_legal rec depth beta e c st1 (Z.to_nat len) 0 loc)
          as (loc' & -> & Hleg)
    end.
    + cbn [l_moves]. rewrite Harr, Hlen. reflexivity.
    + cbn [l_moves]. rewrite Harr, Hpos. exact Hnone.
    + reflexivity.
    + pose proof (finish_node_no_legal depth loc' st1 Hleg) as Hfin.
      rewrite Hpos, Hply in Hfin. fold expected in Hfin.
      destruct (finish_node depth loc' st1) as [v st']. cbn [fst] in Hfin. subst v.
      exists st'. reflexivity.
  - intros Hrun Hstand. rewrite qsearch_unfold. cbv zeta.
    destruct (limit_check_running st params Hrun) as (Heq & Hr & Hn & _).
    rewrite Heq, Hr. cbn [negb orb].
    destruct (Z.geb_spec (nodes st) (params_nodes params)) as [| _]; [lia |].
    set (st1 := count_node st).
    assert (Hsame : same_node st1 st) by apply same_node_count.
    rewrite (repeated_same params st1 st Hsame), Hrep.
    rewrite (tt_probe_same st1 st depth alpha beta Hsame), Htt.
    assert (Hpos : pos st1 = pos st) by apply Hsame.
    assert (Hply : ply st1 = ply st) by apply Hsame.
    rewrite Hpos.
    assert (Hcut : (evaluate (pos st) >=? beta) && negb (is_in_check (pos st)) = false).
    { destruct Hstand as [-> | Hlt]; [apply andb_false_r |].
      destruct (Z.geb_spec (evaluate (pos st)) beta); [lia | reflexivity]. }
    rewrite Hcut. cbv beta iota. rewrite ?Hpos.
    destruct (array_of_moves (pos st)) as [Harr Hlen].
    destruct (get_pseudo_legal_moves (pos st)) as [moves len]. cbn [fst snd] in Harr, Hlen.
    cbv beta iota.
    match goal with
    | |- context [qsearch_loop ?rec depth beta (Z.to_nat len) 0 ?loc st1] =>
        destruct (qsearch_loop_no_legal rec depth beta st1 (Z.to_nat len) 0 loc)
          as (loc' & -> & Hleg)
    end.
    + cbn [l_moves]. rewrite Harr, Hlen. reflexivity.
    + cbn [l_moves]. rewrite Harr, Hpos. exact Hnone.
    + reflexivity.
    + pose proof (finish_node_no_legal depth loc' st1 Hleg) as Hfin.
      rewrite Hpos, Hply in Hfin. fold expected in Hfin.
      destruct (finish_node depth loc' st1) as [v st']. cbn [fst] in Hfin. subst v.
      exists st'. reflexivity.
Qed.

End Engine.

(** ** The search returns *)

Section Termination.

Variable zobrist_numbers : Z -> Z.
Variable tt_capacity : Z.
Variable get_rook_attacks : Z -> Z -> Z.
Variable get_bishop_attacks : Z -> Z -> Z.
Variable do_move : position -> Z -> position.
Variable undo_move : position -> Z -> position.
Variable do_null_move : position -> position.
Variable undo_null_move : position -> position.
Variable move_is_legal : position -> Z -> bool.
Variable evaluate_move : Z -> position -> Z.
Variable timespec_get : nat -> Z * Z.

Notation qsearch_loop :=
  (qsearch_loop zobrist_numbers tt_capacity do_move undo_move move_is_legal
     evaluate_move).
Notation negamax_loop :=
  (negamax_loop zobrist_numbers tt_capacity do_move undo_move move_is_legal
     evaluate_move).
Notation qsearch :=
  (qsearch zobrist_numbers tt_capacity get_rook_attacks get_bishop_attacks
     do_move undo_move move_is_legal evaluate_move).
Notation negamax :=
  (negamax zobrist_numbers tt_capacity get_rook_attacks get_bishop_attacks
     do_move undo_move do_null_move undo_null_move move_is_legal evaluate_move
     timespec_get).
Notation enter_child := (enter_child zobrist_numbers do_move).
Notation leave_child := (leave_child zobrist_numbers undo_move).
Notation finish_node :=
  (finish_node zobrist_numbers tt_capacity get_rook_attacks get_bishop_attacks).

Lemma finish_node_keeps (depth : Z) (loc : locals) (st : state) :
  ply (snd (finish_node depth loc st)) = ply st /\
  trace (snd (finish_node depth loc st)) = trace st.
Proof.
  unfold Search.finish_node. cbn [snd]. destruct (running st); split; reflexivity.
Qed.

Lemma limit_check_keeps (st : state) (params : parameters) :
  ply (limit_check st params) = ply st /\
  trace (limit_check st params) = trace st.
Proof. unfold limit_check. destruct (_ || _); split; reflexivity. Qed.

Lemma time_check_keeps (st : state) (params : parameters) :
  ply (time_check timespec_get st params) = ply st /\
  trace (time_check timespec_get st params) = trace st.
Proof.
  unfold time_check. destruct (Z.rem (nodes st) 8192 =? 0); [| split; reflexivity].
  destruct (params_limited_time params); [| split; reflexivity].
  destruct (_ || _); split; reflexivity.
Qed.

Ltac head_if :=
  match goal with
  | |- exists _ _, (if ?c then _ else _) = _ /\ _ => destruct c eqn:?
  end.

Ltac done_here := do 2 eexists; split; [reflexivity | split; (reflexivity || assumption)].

Lemma qsearch_loop_returns (rec : Z -> Z -> Z -> state -> option (Z * state))
    (depth beta p : Z) :
  returns_at rec (depth - 1) (p + 1) ->
  forall (n i : nat) (loc : locals) (st : state),
    ply st = p ->
    exists loc' st',
      qsearch_loop rec depth beta n i loc st = Some (loc', st') /\
      ply st' = p /\ trace st' = trace st.
Proof.
  intros Hrec. induction n as [| n IH]; intros i loc st Hply; [done_here |].
  cbn [Search.qsearch_loop].
  destruct (get_next_qmove zobrist_numbers tt_capacity evaluate_move
              (skipn i (l_moves loc)) st) as [k ended].
  head_if; [done_here |].
  destruct ended; [done_here |].
  head_if; [apply IH; assumption |].
  destruct (Hrec (- beta)
              (- l_alpha (if move_is_legal (pos st) (nth (i + k) (l_moves loc) 0)
                          then set_l_has_legal
                                 (set_l_moves loc (swap i (i + k) (l_moves loc))) true
                          else set_l_moves loc (swap i (i + k) (l_moves loc))))
              (enter_child st (nth (i + k) (l_moves loc) 0)))
    as (v & s' & -> & Hp' & Ht').
  { cbn. lia. }
  head_if.
  - do 2 eexists. split; [reflexivity |]. cbn. rewrite Hp', Ht'. split; [lia | reflexivity].
  - match goal with
    | |- context [qsearch_loop rec depth beta n (S i) ?l ?s] =>
        destruct (IH (S i) l s) as (loc' & st' & -> & Hp'' & Ht'')
    end.
    + cbn. lia.
    + do 2 eexists. split; [reflexivity |]. split; [assumption |].
      rewrite Ht''. cbn. exact Ht'.
Qed.

Lemma negamax_loop_returns (rec : Z -> Z -> Z -> state -> option (Z * state))
    (depth beta static_eval p : Z) (in_check : bool) :
  returns_at rec (depth - 1) (p + 1) ->
  forall (n i : nat) (loc : locals) (st : state),
    ply st = p ->
    exists e,
      negamax_loop rec depth beta static_eval in_check n i loc st = Some e /\
      match e with
      | Fallthrough _ st' | Returned _ st' => ply st' = p /\ trace st' = trace st
      end.
Proof.
  intros Hrec. induction n as [| n IH]; intros i loc st Hply.
  { eexists. split; [reflexivity |]. split; [assumption | reflexivity]. }
  cbn [Search.negamax_loop].
  set (k := get_next_move _ _ _ _ _ _ _).
  set (move := nth (i + k) (l_moves loc) 0).
  destruct (negb (move_is_legal (pos st) move)); [apply IH; assumption |].
  match goal with |- exists _, (if ?c then _ else _) = _ /\ _ => destruct c end.
  { eexists. split; [reflexivity |]. split; [assumption | reflexivity]. }
  match goal with |- exists _, (if ?c then _ else _) = _ /\ _ => destruct c end.
  { eexists. split; [reflexivity |]. split; [assumption | reflexivity]. }
  match goal with
  | |- context [rec (depth - 1) ?a ?b ?s] =>
      destruct (Hrec a b s) as (v & s' & -> & Hp' & Ht')
  end.
  { cbn. lia. }
  match goal with |- exists _, (if ?c then _ else _) = _ /\ _ => destruct c end.
  - eexists. split; [reflexivity |].
    destruct (negb (move_is_capture move)); cbn; rewrite Hp', Ht'; split; (lia || reflexivity).
  - match goal with
    | |- context [negamax_loop rec depth beta static_eval in_check n (S i) ?l ?s] =>
        destruct (IH (S i) l s) as (e & -> & He)
    end.
    + cbn. lia.
    + eexists. split; [reflexivity |].
      destruct e; destruct He as [Hp'' Ht'']; (split; [assumption |]);
        rewrite Ht''; cbn; exact Ht'.
Qed.

Lemma qfuel_step (p : Z) (fuel : nat) :
  p <= MAX_PLY -> (qfuel_for p <= S fuel)%nat -> (qfuel_for (p + 1) <= fuel)%nat.
Proof. unfold qfuel_for, MAX_PLY, MAX_DEPTH. lia. Qed.

Lemma qsearch_returns (params : parameters) :
  forall (fuel : nat) (depth p : Z),
    (qfuel_for p <= fuel)%nat -> returns_at (qsearch fuel params) depth p.
Proof.
  induction fuel as [| fuel IH]; intros depth p Hfuel alpha beta st Hply;
    [unfold qfuel_for in Hfuel; lia |].
  cbn [Search.qsearch].
  pose proof (limit_check_keeps st params) as [Hlp Hlt].
  destruct (negb (running (limit_check st params)) ||
            (nodes (limit_check st params) >=? params_nodes params)) eqn:Hstop.
  { do 2 eexists. split; [reflexivity |]. rewrite Hlp, Hlt. auto. }
  apply orb_false_elim in Hstop. destruct Hstop as [Hrun _].
  apply negb_false_iff in Hrun.
  destruct (limit_check_running st params Hrun) as (Heq & _ & _ & Hmax).
  rewrite Heq.
  destruct (repeated _ _ _ _).
  { do 2 eexists. split; [reflexivity |]. cbn. auto. }
  destruct (tt_probe _ _ _ _ _ _).
  { do 2 eexists. split; [reflexivity |]. cbn. auto. }
  match goal with |- exists _ _, (if ?c then _ else _) = _ /\ _ => destruct c end.
  { do 2 eexists. split; [reflexivity |]. cbn. auto. }
  destruct (Search.get_pseudo_legal_moves get_rook_attacks get_bishop_attacks
              (pos (count_node st))) as [moves len].
  match goal with
  | |- context [qsearch_loop ?rec depth beta ?n 0%nat ?l ?s] =>
      destruct (qsearch_loop_returns rec depth beta p
                  (IH (depth - 1) (p + 1) ltac:(apply qfuel_step; (assumption || lia)))
                  n 0%nat l s) as (loc' & st' & -> & Hp' & Ht')
  end.
  { cbn. assumption. }
  pose proof (finish_node_keeps depth loc' st') as [Hfp Hft].
  destruct (finish_node depth loc' st') as [v st'']. cbn [snd] in Hfp, Hft.
  do 2 eexists. split; [reflexivity |]. rewrite Hfp, Hft, Hp', Ht'. auto.
Qed.

Lemma fuel_for_child (depth p : Z) (fuel : nat) :
  p <= MAX_PLY -> (fuel_for depth p <= S fuel)%nat ->
  (fuel_for (depth - 1) (p + 1) <= fuel)%nat.
Proof. unfold fuel_for, MAX_PLY, MAX_DEPTH. lia. Qed.

Lemma fuel_for_null (depth p : Z) (fuel : nat) :
  depth > NULL_MOVE_REDUCTION -> (fuel_for depth p <= S fuel)%nat ->
  (fuel_for (depth - NULL_MOVE_REDUCTION) p <= fuel)%nat.
Proof. unfold fuel_for, NULL_MOVE_REDUCTION, MAX_PLY, MAX_DEPTH. lia. Qed.

Lemma fuel_for_qsearch (depth p : Z) (fuel : nat) :
  p <= MAX_PLY -> (fuel_for depth p <= S fuel)%nat -> (qfuel_for p <= fuel)%nat.
Proof. unfold fuel_for, qfuel_for, MAX_PLY, MAX_DEPTH. lia. Qed.

Lemma negamax_returns (params : parameters) :
  forall (fuel : nat) (depth p : Z),
    (fuel_for depth p <= fuel)%nat -> returns_at (negamax fuel params) depth p.
Proof.
  induction fuel as [| fuel IH]; intros depth p Hfuel alpha beta st Hply;
    [unfold fuel_for in Hfuel; lia |].
  cbn [Search.negamax].
  pose proof (time_check_keeps st params) as [Htp Htt].
  set (st0 := time_check timespec_get st params) in *.
  pose proof (limit_check_keeps st0 params) as [Hlp Hlt].
  destruct (negb (running (limit_check st0 params))) eqn:Hstop.
  { do 2 eexists. split; [reflexivity |]. rewrite Hlp, Hlt, Htp, Htt. auto. }
  apply negb_false_iff in Hstop.
  destruct (limit_check_running st0 params Hstop) as (Heq & _ & _ & Hmax).
  rewrite Heq. rewrite Htp, Hply in Hmax.
  assert (Hp0 : ply st0 = p) by congruence.
  destruct (repeated _ _ _ _).
  { do 2 eexists. split; [reflexivity |]. cbn. rewrite Htt. auto. }
  destruct (tt_probe _ _ _ _ _ _).
  { do 2 eexists. split; [reflexivity |]. cbn. rewrite Htt. auto. }
  destruct (depth =? 0).
  { destruct (qsearch_returns params fuel depth p
                ltac:(eapply fuel_for_qsearch; eassumption)
                alpha beta (uncount_node (count_node st0)))
      as (v & s' & -> & Hp' & Ht'); [cbn; assumption |].
    do 2 eexists. split; [reflexivity |]. split; [assumption |].
    rewrite Ht'. cbn. assumption. }
  match goal with
  | |- exists _ _, match (if ?c then _ else _) with _ => _ end = _ /\ _ =>
      destruct c eqn:Hnull
  end.
  - (* null move tried *)
    assert (Hd : depth > NULL_MOVE_REDUCTION).
    { apply andb_true_iff in Hnull. destruct Hnull as [_ Hd].
      apply Z.gtb_lt in Hd. lia. }
    match goal with
    | |- context [negamax fuel params ?d ?a ?b ?s] =>
        destruct (IH d p ltac:(apply fuel_for_null; assumption) a b s)
          as (v & s' & -> & Hp' & Ht')
    end.
    { cbn. assumption. }
    match goal with |- exists _ _, match (if ?c then _ else _) with _ => _ end = _ /\ _ =>
      destruct c end.
    + do 2 eexists. split; [reflexivity |]. cbn. rewrite Hp', Ht'. cbn. rewrite Htt. auto.
    + destruct (Search.get_pseudo_legal_moves get_rook_attacks get_bishop_attacks
                  (pos (set_pos s' (undo_null_move (pos s'))))) as [moves len].
      match goal with
      | |- context [negamax_loop ?rec depth beta ?e ?c ?n 0%nat ?l ?s] =>
          destruct (negamax_loop_returns rec depth beta e p c
                      (IH (depth - 1) (p + 1)
                          ltac:(apply fuel_for_child; (assumption || lia)))
                      n 0%nat l s) as (le & -> & Hle)
      end.
      { cbn. assumption. }
      destruct le as [loc' st' | v' st']; destruct Hle as [Hp'' Ht''].
      * pose proof (finish_node_keeps depth loc' st') as [Hfp Hft].
        destruct (finish_node depth loc' st') as [v2 st'']. cbn [snd] in Hfp, Hft.
        do 2 eexists. split; [reflexivity |].
        rewrite Hfp, Hft, Hp'', Ht''. cbn. rewrite Ht'. cbn. rewrite Htt. auto.
      * do 2 eexists. split; [reflexivity |].
        rewrite Hp'', Ht''. cbn. rewrite Ht'. cbn. rewrite Htt. auto.
  - destruct (Search.get_pseudo_legal_moves get_rook_attacks get_bishop_attacks
                (pos (count_node st0))) as [moves len].
    match goal with
    | |- context [negamax_loop ?rec depth beta ?e ?c ?n 0%nat ?l ?s] =>
        destruct (negamax_loop_returns rec depth beta e p c
                    (IH (depth - 1) (p + 1)
                        ltac:(apply fuel_for_child; (assumption || lia)))
                    n 0%nat l s) as (le & -> & Hle)
    end.
    { cbn. assumption. }
    destruct le as [loc' st' | v' st']; destruct Hle as [Hp'' Ht''].
    + pose proof (finish_node_keeps depth loc' st') as [Hfp Hft].
      destruct (finish_node depth loc' st') as [v2 st'']. cbn [snd] in Hfp, Hft.
      do 2 eexists. split; [reflexivity |].
      rewrite Hfp, Hft, Hp'', Ht''. cbn. rewrite Htt. auto.
    + do 2 eexists. split; [reflexivity |].
      rewrite Hp'', Ht''. cbn. rewrite Htt. auto.
Qed.

(** *** The root search and the deepening loop *)

Variable compute_stop_time : search_argument -> Z * Z -> Z * Z.
Variable stack_garbage : Z -> Z.
Variable indeterminate_move : Z.
Variable indeterminate_int : Z.

Notation search :=
  (search zobrist_numbers tt_capacity get_rook_attacks get_bishop_attacks
     do_move undo_move do_null_move undo_null_move move_is_legal evaluate_move
     timespec_get stack_garbage).
Notation search_loop := (search_loop zobrist_numbers do_move undo_move move_is_legal).
Notation deepening_loop :=
  (deepening_loop zobrist_numbers tt_capacity get_rook_attacks get_bishop_attacks
     do_move undo_move do_null_move undo_null_move move_is_legal evaluate_move
     timespec_get stack_garbage).
Notation run_search :=
  (run_search zobrist_numbers tt_capacity get_rook_attacks get_bishop_attacks
     do_move undo_move do_null_move undo_null_move move_is_legal evaluate_move
     timespec_get compute_stop_time stack_garbage indeterminate_move
     indeterminate_int).
Notation generate := (Search.generate get_rook_attacks get_bishop_attacks).
Notation is_in_check := (Search.is_in_check get_rook_attacks get_bishop_attacks).
Notation no_legal_move :=
  (Search.no_legal_move get_rook_attacks get_bishop_attacks move_is_legal).
Notation has_legal_move :=
  (Search.has_legal_move get_rook_attacks get_bishop_attacks move_is_legal).
Notation init_pos_cnt_table := (init_pos_cnt_table zobrist_numbers undo_move).

Lemma init_pos_cnt_table_keeps (st : state) (params : parameters) :
  ply (init_pos_cnt_table st params) = ply st /\
  trace (init_pos_cnt_table st params) = trace st /\
  running (init_pos_cnt_table st params) = running st /\
  nodes (init_pos_cnt_table st params) = nodes st /\
  pos (init_pos_cnt_table st params) = pos st.
Proof.
  unfold Search.init_pos_cnt_table.
  destruct (params_num_moves params =? 0); [repeat split |].
  destruct (fold_left _ _ _) as [prev cnt]. repeat split.
Qed.

Lemma search_loop_returns (rec : Z -> Z -> Z -> state -> option (Z * state))
    (params : parameters) :
  returns_at rec (params_depth params - 1) 1 ->
  forall (moves : list Z) (alpha : Z) (res : result) (st : state),
    ply st = 0 ->
    exists alpha' res' st',
      search_loop rec params moves alpha res st = Some (alpha', res', st') /\
      ply st' = 0 /\ trace st' = trace st.
Proof.
  intros Hrec. induction moves as [| move rest IH]; intros alpha res st Hply.
  { do 3 eexists. split; [reflexivity |]. auto. }
  cbn [Search.search_loop].
  set (st0 := if nodes st >=? params_nodes params then set_running st false else st).
  assert (Hp0 : ply st0 = 0) by (subst st0; destruct (_ >=? _); assumption).
  assert (Ht0 : trace st0 = trace st) by (subst st0; destruct (_ >=? _); reflexivity).
  destruct (negb (running st0)).
  { do 3 eexists. split; [reflexivity |]. auto. }
  destruct (negb (move_is_legal (pos st0) move)).
  { destruct (IH alpha res st0 Hp0) as (a' & r' & s' & -> & Hp' & Ht').
    do 3 eexists. split; [reflexivity |]. split; [assumption | congruence]. }
  destruct (Hrec (- INF) (- alpha) (enter_child st0 move))
    as (v & s1 & -> & Hp1 & Ht1); [cbn; lia |].
  set (st2 := leave_child s1 move).
  assert (Hp2 : ply st2 = 0) by (subst st2; cbn; lia).
  assert (Ht2 : trace st2 = trace st) by (subst st2; cbn; rewrite Ht1; cbn; exact Ht0).
  destruct (- v >? alpha); cbv beta iota.
  - match goal with |- exists _ _ _, (if ?c then _ else _) = _ /\ _ => destruct c end.
    + do 3 eexists. split; [reflexivity |]. auto.
    + match goal with
      | |- context [search_loop rec params rest ?a ?r st2] =>
          destruct (IH a r st2 Hp2) as (a' & r' & s' & -> & Hp' & Ht')
      end.
      do 3 eexists. split; [reflexivity |]. split; [assumption | congruence].
  - match goal with |- exists _ _ _, (if ?c then _ else _) = _ /\ _ => destruct c end.
    + do 3 eexists. split; [reflexivity |]. auto.
    + match goal with
      | |- context [search_loop rec params rest ?a ?r st2] =>
          destruct (IH a r st2 Hp2) as (a' & r' & s' & -> & Hp' & Ht')
      end.
      do 3 eexists. split; [reflexivity |]. split; [assumption | congruence].
Qed.

Lemma best_moves_sent_app (l1 l2 : list event) :
  best_moves_sent (l1 ++ l2) = best_moves_sent l1 ++ best_moves_sent l2.
Proof. unfold best_moves_sent. apply flat_map_app. Qed.

Lemma search_returns (fuel : nat) (params : parameters) (st : state) :
  (fuel_for (params_depth params - 1) 1 <= fuel)%nat ->
  exists res st',
    search fuel params st = Some (res, st') /\
    best_moves_sent (trace st') = best_moves_sent (trace st).
Proof.
  intros Hfuel. unfold Search.search.
  destruct (Search.get_pseudo_legal_moves get_rook_attacks get_bishop_attacks
              (params_pos params)) as [moves len].
  match goal with
  | |- context [search_loop ?rec params ?ms ?a ?r ?s] =>
      destruct (search_loop_returns rec params
                  (negamax_returns params fuel (params_depth params - 1) 1 Hfuel)
                  ms a r s) as (a' & r' & s' & -> & Hp' & Ht')
  end.
  { cbn. apply init_pos_cnt_table_keeps. }
  do 2 eexists. split; [reflexivity |].
  cbn. rewrite Ht'. cbn.
  rewrite best_moves_sent_app. cbn.
  rewrite app_nil_r.
  match goal with
  | |- context [trace (init_pos_cnt_table ?s params)] =>
      destruct (init_pos_cnt_table_keeps s params) as (_ & -> & _)
  end.
  reflexivity.
Qed.

(** *** A root without legal move *)

Lemma search_loop_no_legal (rec : Z -> Z -> Z -> state -> option (Z * state))
    (params : parameters) (alpha : Z) (res : result) (st : state) :
  forall moves : list Z,
    (forall move, In move moves -> move_is_legal (pos st) move = false) ->
    running st = true -> nodes st < params_nodes params ->
    search_loop rec params moves alpha res st = Some (alpha, res, st).
Proof.
  induction moves as [| move rest IH]; intros Hill Hrun Hnodes; [reflexivity |].
  cbn [Search.search_loop].
  destruct (Z.geb_spec (nodes st) (params_nodes params)) as [Hge | _]; [lia |].
  rewrite Hrun. cbn [negb].
  rewrite (Hill move (or_introl eq_refl)). cbn [negb].
  apply IH; [| assumption | assumption].
  intros m Hm. apply Hill. right. exact Hm.
Qed.

Lemma fold_last_legal_none (p : position) (moves : list Z) (best : Z) :
  (forall move, In move moves -> move_is_legal p move = false) ->
  fold_left (fun best move => if move_is_legal p move then move else best)
            moves best = best.
Proof.
  revert best. induction moves as [| move rest IH]; intros best Hill; [reflexivity |].
  cbn [fold_left]. rewrite (Hill move (or_introl eq_refl)).
  apply IH. intros m Hm. apply Hill. right. exact Hm.
Qed.

Lemma search_no_legal (fuel : nat) (params : parameters) (st : state) :
  no_legal_move (params_pos params) ->
  running st = true -> 0 < params_nodes params ->
  exists res st',
    search fuel params st = Some (res, st') /\
    result_best res = 0 /\ result_nodes res = 0 /\
    result_found_mate res = false /\ running st' = true /\
    best_moves_sent (trace st') = best_moves_sent (trace st).
Proof.
  intros Hnone Hrun Hnodes. unfold Search.search.
  destruct (array_of_moves get_rook_attacks get_bishop_attacks (params_pos params))
    as [Harr _].
  destruct (Search.get_pseudo_legal_moves get_rook_attacks get_bishop_attacks
              (params_pos params)) as [moves len].
  cbn [fst] in Harr.
  match goal with
  | |- context [search_loop ?rec params ?ms ?a ?r ?s] =>
      destruct (init_pos_cnt_table_keeps
                  (set_pos_cnt
                     (set_killers
                        (set_move_made
                           (set_pos (set_nodes (set_ply st 0) 0) (params_pos params))
                           (fun _ => 0)) (fun _ => (0, 0))) stack_garbage) params)
        as (Kp & Kt & Kr & Kn & Kpos);
      assert (Hloop : search_loop rec params ms a r s = Some (a, r, s))
  end.
  { apply search_loop_no_legal.
    - cbn. rewrite Kpos. cbn. rewrite Harr. exact Hnone.
    - cbn. rewrite Kr. cbn. exact Hrun.
    - cbn. rewrite Kn. cbn. exact Hnodes. }
  rewrite Hloop. do 2 eexists. split; [reflexivity |].
  cbn. rewrite Kpos, Kn, Kr, Kt. cbn.
  repeat split.
  - destruct (negb (len =? 0)); [| reflexivity].
    apply fold_last_legal_none. rewrite Harr. exact Hnone.
  - exact Hrun.
  - rewrite best_moves_sent_app. cbn. apply app_nil_r.
Qed.

(** *** The deepening loop *)

Lemma fuel_for_root (depth : Z) :
  depth <= MAX_DEPTH -> (fuel_for (depth - 1) 1 <= fuel_for MAX_DEPTH 0)%nat.
Proof.
  intros Hd. unfold fuel_for, MAX_PLY, MAX_DEPTH in *.
  apply Z2Nat.inj_le; lia.
Qed.

Lemma deepening_loop_returns (fuel : nat) (max_depth : Z) :
  max_depth <= MAX_DEPTH -> (fuel_for MAX_DEPTH 0 <= fuel)%nat ->
  forall (n : nat) (depth nodes : Z) (params : parameters) (best_move : Z)
         (st : state),
    exists best_move' st',
      deepening_loop fuel n max_depth depth nodes params best_move st
      = Some (best_move', st') /\
      best_moves_sent (trace st') = best_moves_sent (trace st).
Proof.
  intros Hmax Hfuel. induction n as [| n IH]; intros depth nodes params best_move st.
  { do 2 eexists. split; reflexivity. }
  cbn [Search.deepening_loop].
  destruct (Z.leb_spec depth max_depth) as [Hd | Hd]; cbn [andb];
    [| do 2 eexists; split; reflexivity].
  destruct (nodes >? 0); [| do 2 eexists; split; reflexivity].
  destruct (search_returns fuel (with_depth_nodes params depth nodes) st)
    as (res & st1 & -> & Ht1).
  { cbn. etransitivity; [apply fuel_for_root; lia | exact Hfuel]. }
  destruct (negb (running st1)); [do 2 eexists; split; [reflexivity | exact Ht1] |].
  match goal with |- exists _ _, (if ?c then _ else _) = _ /\ _ => destruct c end;
    [do 2 eexists; split; [reflexivity | exact Ht1] |].
  match goal with
  | |- context [deepening_loop fuel n max_depth ?d ?k ?ps ?bm st1] =>
      destruct (IH d k ps bm st1) as (bm' & st' & -> & Ht')
  end.
  do 2 eexists. split; [reflexivity | congruence].
Qed.

Lemma deepening_loop_no_legal (fuel : nat) (max_depth : Z) :
  forall (n : nat) (params : parameters) (depth nodes best_move : Z) (st : state),
    no_legal_move (params_pos params) ->
    running st = true -> 0 < nodes ->
    exists st',
      deepening_loop fuel n max_depth depth nodes params best_move st
      = Some (match n with
              | O => best_move
              | S _ => if depth <=? max_depth then 0 else best_move
              end, st').
Proof.
  induction n as [| n IH]; intros params depth nodes best_move st Hnone Hrun Hnodes.
  { eexists. reflexivity. }
  cbn [Search.deepening_loop].
  destruct (depth <=? max_depth); cbn [andb]; [| eexists; reflexivity].
  destruct (Z.gtb_spec nodes 0) as [_ | Hle]; [| lia].
  destruct (search_no_legal fuel (with_depth_nodes params depth nodes) st)
    as (res & st1 & -> & Hbest & Hcount & Hmate & Hrun1 & _);
    [exact Hnone | exact Hrun | exact Hnodes |].
  rewrite Hrun1, Hmate, Hbest, Hcount, Bool.andb_false_r. cbn [negb].
  destruct (IH (with_depth_nodes params depth nodes) (depth + 1) (nodes - 0) 0 st1
              Hnone Hrun1) as (st' & ->); [lia |].
  exists st'. destruct n; [reflexivity |].
  destruct (depth + 1 <=? max_depth); reflexivity.
Qed.

(** *** [run_search] *)

Notation get_pseudo_legal_moves :=
  (Search.get_pseudo_legal_moves get_rook_attacks get_bishop_attacks).

Lemma get_pseudo_legal_moves_cases (p : position) :
  (generate p = [] /\ get_pseudo_legal_moves p = (None, 0)) \/
  (generate p <> [] /\
   get_pseudo_legal_moves p = (Some (generate p), Z.of_nat (length (generate p)))).
Proof.
  unfold Search.get_pseudo_legal_moves, Movegen.get_pseudo_legal_moves, Search.generate.
  destruct (Movegen.generate get_rook_attacks get_bishop_attacks p) as [| m l].
  - left. split; reflexivity.
  - right. split; [discriminate |].
    destruct (Z.eqb_spec (Z.of_nat (length (m :: l))) 0) as [H | H];
      [cbn [length] in H; lia | reflexivity].
Qed.

Lemma root_fold_has_legal (p : position) (moves : list Z) (h : bool) (b : Z) :
  fst (fold_left
         (fun '(has_legal, best_move) move =>
            if move_is_legal p move then (true, move) else (has_legal, best_move))
         moves (h, b))
  = h || existsb (move_is_legal p) moves.
Proof.
  revert h b. induction moves as [| move rest IH]; intros h b.
  - cbn. symmetry. apply Bool.orb_false_r.
  - cbn [fold_left existsb]. destruct (move_is_legal p move).
    + rewrite IH. cbn. symmetry. apply Bool.orb_true_r.
    + rewrite IH. reflexivity.
Qed.

Lemma existsb_has_legal_move (p : position) :
  existsb (move_is_legal p) (generate p) = true <-> has_legal_move p.
Proof. unfold Search.has_legal_move. apply existsb_exists. Qed.

Lemma existsb_no_legal_move (p : position) :
  existsb (move_is_legal p) (generate p) = false <-> no_legal_move p.
Proof.
  unfold Search.no_legal_move. split.
  - intros H move Hin. destruct (move_is_legal p move) eqn:E; [| reflexivity].
    assert (Hex : existsb (move_is_legal p) (generate p) = true)
      by (apply existsb_exists; exists move; auto).
    congruence.
  - intros H. destruct (existsb (move_is_legal p) (generate p)) eqn:E; [| reflexivity].
    apply existsb_exists in E. destruct E as (move & Hin & Hlegal).
    rewrite (H move Hin) in Hlegal. discriminate.
Qed.

Lemma init_params_keeps (arg : search_argument) (st : state) :
  params_pos (fst (init_params timespec_get compute_stop_time arg st)) = arg_pos arg /\
  params_nodes (fst (init_params timespec_get compute_stop_time arg st))
  = (if arg_infinite arg || negb (arg_mate arg =? 0)
     then LLONG_MAX else arg_nodes arg) /\
  trace (snd (init_params timespec_get compute_stop_time arg st)) = trace st /\
  running (snd (init_params timespec_get compute_stop_time arg st)) = running st.
Proof.
  unfold Search.init_params.
  destruct (negb (arg_movetime arg =? 0)); [repeat split |].
  destruct (negb (arg_time arg (get_side_to_move (arg_pos arg)) =? 0)); repeat split.
Qed.

(** C1, as the code has it: a [run_search] that is not a perft run returns 0
    on every root position.  When the position has no pseudo-legal move, or no
    legal move and a king in check (checkmate), it returns at once and
    [best_move_sender] is not called at all.  In every other case, that is,
    with a legal move or in stalemate, [best_move_sender] is called exactly
    once; in stalemate the move handed to it is 0 as soon as the search was
    not stopped beforehand and was allowed at least one iteration. *)
Theorem run_search_best_move_calls (fuel : nat) (arg : search_argument) (st : state) :
  arg_perft arg = 0 ->
  (fuel_for MAX_DEPTH 0 <= fuel)%nat ->
  exists st',
    run_search fuel arg st = Some (0, st') /\
    (generate (arg_pos arg) = [] \/
     (no_legal_move (arg_pos arg) /\ is_in_check (arg_pos arg) = true) ->
     st' = st) /\
    (has_legal_move (arg_pos arg) \/
     (generate (arg_pos arg) <> [] /\ is_in_check (arg_pos arg) = false) ->
     exists move,
       best_moves_sent (trace st') = best_moves_sent (trace st) ++ [move]) /\
    (generate (arg_pos arg) <> [] -> no_legal_move (arg_pos arg) ->
     is_in_check (arg_pos arg) = false ->
     running st = true ->
     arg_infinite arg = true \/ arg_mate arg <> 0 \/
     (1 <= arg_depth arg /\ 0 < arg_nodes arg) ->
     best_moves_sent (trace st') = best_moves_sent (trace st) ++ [0]).
Proof.
  intros Hperft Hfuel. unfold Search.run_search.
  destruct (get_pseudo_legal_moves_cases (arg_pos arg)) as [[Hgen ->] | [Hgen ->]].
  { exists st. split; [reflexivity |]. split; [reflexivity |]. split.
    - intros [(move & Hin & _) | [Hne _]]; [rewrite Hgen in Hin; destruct Hin | tauto].
    - tauto. }
  pose proof (root_fold_has_legal (arg_pos arg) (generate (arg_pos arg)) false
                indeterminate_move) as Hfold.
  destruct (fold_left _ (generate (arg_pos arg)) (false, indeterminate_move))
    as [has_legal first_move].
  cbn [fst orb] in Hfold. subst has_legal.
  destruct (existsb (move_is_legal (arg_pos arg)) (generate (arg_pos arg))) eqn:Hex;
    [apply existsb_has_legal_move in Hex | apply existsb_no_legal_move in Hex];
    cbn [negb andb].
  2: destruct (is_in_check (arg_pos arg)) eqn:Hcheck.
  2: { exists st. split; [reflexivity |]. split; [reflexivity |]. split.
       - intros [(move & Hin & Hlegal) | [_ Hc]]; [| discriminate].
         rewrite (Hex move Hin) in Hlegal. discriminate.
       - intros _ _ Hc. discriminate. }
  all: rewrite Hperft; cbn [Z.eqb negb].
  all: destruct (init_params_keeps arg st) as (Hpos & Hnodes & Htrace & Hrun).
  all: destruct (init_params timespec_get compute_stop_time arg st) as [params st0].
  all: cbn [fst snd] in Hpos, Hnodes, Htrace, Hrun.
  all: set (max_depth := if arg_infinite arg || negb (arg_mate arg =? 0)
                         then MAX_DEPTH
                         else if arg_depth arg >? MAX_DEPTH then MAX_DEPTH
                              else arg_depth arg).
  all: assert (Hmax : max_depth <= MAX_DEPTH)
         by (subst max_depth; destruct (_ || _); [lia |];
             destruct (Z.gtb_spec (arg_depth arg) MAX_DEPTH); lia).
  all: destruct (deepening_loop_returns fuel max_depth Hmax Hfuel
                   (Z.to_nat max_depth) 1 (params_nodes params) params first_move st0)
         as (best & st1 & Hloop & Ht1).
  all: rewrite Hloop.
  all: eexists; split; [reflexivity |].
  all: assert (Hsent : best_moves_sent
                         (trace (set_running (emit st1 (BestMoveSent best)) false))
                       = best_moves_sent (trace st) ++ [best])
         by (cbn; rewrite best_moves_sent_app, Ht1, Htrace; reflexivity).
  - split; [| split].
    + intros [Hne | [Hnone _]]; [contradiction |].
      destruct Hex as (move & Hin & Hlegal). rewrite (Hnone move Hin) in Hlegal.
      discriminate.
    + intros _. exists best. exact Hsent.
    + intros _ Hnone. destruct Hex as (move & Hin & Hlegal).
      rewrite (Hnone move Hin) in Hlegal. discriminate.
  - split; [| split].
    + intros [Hne | [_ Hc]]; [contradiction | discriminate].
    + intros _. exists best. exact Hsent.
    + intros _ _ _ Hrunning Hgo. rewrite Hsent. f_equal. f_equal.
      destruct (deepening_loop_no_legal fuel max_depth (Z.to_nat max_depth) params 1
                  (params_nodes params) first_move st0) as (st2 & Hloop2).
      * rewrite Hpos. exact Hex.
      * congruence.
      * rewrite Hnodes. destruct (arg_infinite arg); cbn [orb]; [reflexivity |].
        destruct (Z.eqb_spec (arg_mate arg) 0) as [Hm | Hm]; cbn [negb];
          [| reflexivity].
        destruct Hgo as [Hi | [Hm' | [_ Hn]]]; [discriminate | contradiction | exact Hn].
      * rewrite Hloop in Hloop2. injection Hloop2 as Hbest _. rewrite Hbest.
        assert (Hone : 1 <= max_depth).
        { subst max_depth. destruct (arg_infinite arg); cbn [orb];
            [unfold MAX_DEPTH; lia |].
          destruct (Z.eqb_spec (arg_mate arg) 0) as [Hm | Hm]; cbn [negb];
            [| unfold MAX_DEPTH; lia].
          destruct Hgo as [Hi | [Hm' | [Hd _]]]; [discriminate | contradiction |].
          destruct (Z.gtb_spec (arg_depth arg) MAX_DEPTH);
            [unfold MAX_DEPTH; lia | exact Hd]. }
        destruct (Z.to_nat max_depth) eqn:Hn; [lia |].
        destruct (Z.leb_spec 1 max_depth); [reflexivity | lia].
Qed.

(** C9: a position without pseudo-legal move makes [get_pseudo_legal_moves]
    return [NULL] with the length 0, and it never returns a pointer to an
    empty list; the caller [run_search] reads a [NULL] list as no moves: it
    returns 0 like after any search, with the memory untouched. *)
Theorem no_pseudo_legal_move_is_null (p : position) :
  (generate p = [] -> get_pseudo_legal_moves p = (None, 0)) /\
  fst (get_pseudo_legal_moves p) <> Some [] /\
  (generate p = [] ->
   forall (fuel : nat) (arg : search_argument) (st : state),
     arg_pos arg = p -> run_search fuel arg st = Some (0, st)).
Proof.
  destruct (get_pseudo_legal_moves_cases p) as [[Hgen Hnull] | [Hgen Hlist]].
  - split; [intros _; exact Hnull |]. split; [rewrite Hnull; discriminate |].
    intros _ fuel arg st Harg. unfold Search.run_search. rewrite Harg, Hnull.
    reflexivity.
  - split; [intros H; contradiction |]. split; [| intros H; contradiction].
    rewrite Hlist. cbn [fst]. intros H. injection H as H. contradiction.
Qed.

End Termination.


(** C1 fails on a checkmate: on 8/8/8/8/8/6K1/6Q1/7k b, where Black is in
    check and has no legal move, [run_search] returns 0 from its second
    early exit and [best_move_sender] is never called. *)
Lemma one_best_move_claim_fails_on_checkmate : ~ one_best_move_claim.
Proof.
  intros H.
  specialize (H ex_zobrist ex_capacity Movegen.table_rook_attacks
                Movegen.table_bishop_attacks ex_do_move ex_do_move
                ex_do_null_move ex_do_null_move ex_illegal ex_evaluate_move
                ex_clock ex_stop_time (fun _ => 0) 0 0
                1%nat (ex_arg pos_checkmate) (ex_state pos_checkmate 0)
                (ex_state pos_checkmate 0) 0 eq_refl).
  assert (Hrun : ex_run_search 1 (ex_arg pos_checkmate) (ex_state pos_checkmate 0) =
                 Some (0, ex_state pos_checkmate 0))
    by (vm_compute; reflexivity).
  destruct (H Hrun) as [_ Hmate].
  assert (Hno : no_legal_move Movegen.table_rook_attacks Movegen.table_bishop_attacks
                  ex_illegal (arg_pos (ex_arg pos_checkmate)))
    by (intros m _; reflexivity).
  specialize (Hmate Hno). vm_compute in Hmate. discriminate Hmate.
Qed.

(** [go depth 4] on the stalemate position: one call of [best_move_sender],
    with the move 0. *)
Lemma run_search_best_move_calls_witness :
  arg_perft (ex_arg pos_stalemate) = 0 /\
  (fuel_for MAX_DEPTH 0 <= fuel_for MAX_DEPTH 0)%nat /\
  exists st',
    ex_run_search (fuel_for MAX_DEPTH 0) (ex_arg pos_stalemate)
      (ex_state pos_stalemate 0) = Some (0, st') /\
    best_moves_sent (trace st') = [0].
Proof.
  split; [reflexivity |]. split; [apply le_n |].
  destruct (run_search_best_move_calls ex_zobrist ex_capacity
              Movegen.table_rook_attacks Movegen.table_bishop_attacks
              ex_do_move ex_do_move ex_do_null_move ex_do_null_move ex_illegal
              ex_evaluate_move ex_clock ex_stop_time (fun _ => 0) 0 0
              (fuel_for MAX_DEPTH 0) (ex_arg pos_stalemate)
              (ex_state pos_stalemate 0) eq_refl (le_n _))
    as (st' & Hrun & _ & _ & Hstale).
  exists st'. split; [exact Hrun |].
  apply Hstale.
  - vm_compute. discriminate.
  - intros move _. reflexivity.
  - vm_compute. reflexivity.
  - reflexivity.
  - right. right. split; [apply Z.leb_le | apply Z.ltb_lt]; vm_compute; reflexivity.
Defined.

(** The boxed-in king: the generator returns [NULL] and the length 0, and
    [run_search] returns 0 at once. *)
Lemma no_pseudo_legal_move_is_null_witness :
  generate Movegen.table_rook_attacks Movegen.table_bishop_attacks Movegen.pos_boxed
  = [] /\
  get_pseudo_legal_moves Movegen.table_rook_attacks Movegen.table_bishop_attacks
    Movegen.pos_boxed = (None, 0) /\
  ex_run_search 0 (ex_arg Movegen.pos_boxed) (ex_state Movegen.pos_boxed 0)
  = Some (0, ex_state Movegen.pos_boxed 0).
Proof.
  assert (Hgen : generate Movegen.table_rook_attacks Movegen.table_bishop_attacks
                   Movegen.pos_boxed = [])
    by (vm_compute; reflexivity).
  destruct (no_pseudo_legal_move_is_null ex_zobrist ex_capacity
              Movegen.table_rook_attacks Movegen.table_bishop_attacks
              ex_do_move ex_do_move ex_do_null_move ex_do_null_move ex_illegal
              ex_evaluate_move ex_clock ex_stop_time (fun _ => 0) 0 0
              Movegen.pos_boxed) as (Hnull & _ & Hcaller).
  split; [exact Hgen |]. split; [exact (Hnull Hgen) |].
  exact (Hcaller Hgen 0%nat (ex_arg Movegen.pos_boxed) (ex_state Movegen.pos_boxed 0)
           eq_refl).
Defined.

End SearchFacts.

Module PosProps.
Import Pos.

Lemma in_zrange (n : nat) (i : Z) : In i (zrange n) <-> 0 <= i < Z.of_nat n.
Proof.
  unfold zrange. rewrite in_map_iff. split.
  - intros (k & <- & Hk). apply in_seq in Hk. lia.
  - intros Hi. exists (Z.to_nat i). split; [lia |]. apply in_seq. lia.
Qed.

Lemma forallb_zrange (n : nat) (f : Z -> bool) :
  forallb f (zrange n) = true <-> forall i, 0 <= i < Z.of_nat n -> f i = true.
Proof.
  rewrite forallb_forall. split; intros H i Hi; apply H; apply in_zrange; assumption.
Qed.

Lemma nth_set_nth {A : Type} (x d : A) :
  forall (l : list A) (n m : nat),
    nth m (set_nth n x l) d =
    if (n =? m)%nat && (n <? length l)%nat then x else nth m l d.
Proof.
  unfold set_nth. induction l as [| a l IH]; intros n m.
  - rewrite firstn_nil, skipn_nil. cbn.
    rewrite andb_false_r. destruct m; reflexivity.
  - destruct n as [| n], m as [| m]; cbn; try reflexivity.
    rewrite IH. reflexivity.
Qed.

Lemma length_set_nth {A : Type} (x : A) (l : list A) (n : nat) :
  length (set_nth n x l) = length l.
Proof.
  unfold set_nth. revert n. induction l as [| a l IH]; intros [| n]; cbn; auto.
Qed.

Lemma nth_upd (i j x d : Z) (l : list Z) :
  0 <= i -> 0 <= j ->
  nth (Z.to_nat j) (upd i x l) d =
  if (i =? j) && (i <? Z.of_nat (length l)) then x else nth (Z.to_nat j) l d.
Proof.
  intros Hi Hj. unfold upd. rewrite nth_set_nth.
  destruct (Nat.eqb_spec (Z.to_nat i) (Z.to_nat j)), (Z.eqb_spec i j); try lia;
    destruct (Nat.ltb_spec (Z.to_nat i) (length l)), (Z.ltb_spec i (Z.of_nat (length l)));
    try lia; reflexivity.
Qed.

Lemma length_upd (i x : Z) (l : list Z) : length (upd i x l) = length l.
Proof. apply length_set_nth. Qed.

Lemma Forall_set_nth {A : Type} (P : A -> Prop) (x : A) :
  forall (l : list A) (n : nat), Forall P l -> P x -> Forall P (set_nth n x l).
Proof.
  unfold set_nth. induction l as [| a l IH]; intros [| n] Hl Hx; cbn; auto;
    inversion Hl; subst; constructor; auto.
Qed.

Lemma testbit_square (sq n : Z) :
  0 <= sq -> Z.testbit (Z.shiftl 1 sq) n = (sq =? n).
Proof.
  intros Hsq. rewrite Z.shiftl_1_l. apply Z.pow2_bits_eqb. assumption.
Qed.

Lemma piece_color_range (p : Z) : 0 <= p -> 0 <= get_piece_color p < 2.
Proof.
  intros Hp. unfold get_piece_color. change 1 with (Z.ones 1).
  rewrite Z.land_ones by lia. apply Z.mod_pos_bound. lia.
Qed.

Lemma piece_type_range (p : Z) : 0 <= p < 12 -> 0 <= get_piece_type p < 6.
Proof.
  intros Hp. unfold get_piece_type. rewrite Z.shiftr_div_pow2 by lia.
  change (2 ^ 1) with 2. split.
  - apply Z.div_pos; lia.
  - apply Z.div_lt_upper_bound; lia.
Qed.


Lemma Forall_nth_range (P : Z -> Prop) (l : list Z) (n : nat) :
  length l = n ->
  (Forall P l <-> forall i, 0 <= i < Z.of_nat n -> P (nth (Z.to_nat i) l 0)).
Proof.
  intros Hlen. rewrite Forall_forall. split.
  - intros H i Hi. apply H. apply nth_In. lia.
  - intros H x Hx. destruct (In_nth l x 0 Hx) as (k & Hk & <-).
    rewrite <- (Nat2Z.id k). apply H. lia.
Qed.

Lemma u64b_spec (z : Z) : u64b z = true <-> is_u64 z.
Proof. unfold u64b, is_u64. rewrite andb_true_iff, Z.leb_le, Z.ltb_lt. tauto. Qed.

Lemma forallb_two (f : Z -> bool) :
  forallb f [COLOR_WHITE; COLOR_BLACK] = true <-> forall c, 0 <= c < 2 -> f c = true.
Proof.
  rewrite forallb_forall. split.
  - intros H c Hc. apply H. assert (c = 0 \/ c = 1) as [-> | ->] by lia; cbn; auto.
  - intros H c [<- | [<- | []]]; apply H; unfold COLOR_WHITE, COLOR_BLACK; lia.
Qed.

Lemma forallb_types (f : Z -> bool) :
  forallb f all_piece_types = true <-> forall t, 0 <= t < 6 -> f t = true.
Proof.
  rewrite forallb_forall. split.
  - intros H t Ht. apply H.
    assert (t = 0 \/ t = 1 \/ t = 2 \/ t = 3 \/ t = 4 \/ t = 5)
      as [-> | [-> | [-> | [-> | [-> | ->]]]]] by lia; cbn; auto 10.
  - intros H t Hin. apply H. cbn in Hin.
    unfold PIECE_TYPE_PAWN, PIECE_TYPE_KNIGHT, PIECE_TYPE_BISHOP, PIECE_TYPE_ROOK,
      PIECE_TYPE_QUEEN, PIECE_TYPE_KING in Hin.
    intuition lia.
Qed.

Lemma board_consistent_view (pos : position) :
  board_consistent pos = true <-> consistent_view pos.
Proof.
  unfold board_consistent, consistent_view.
  rewrite !andb_true_iff, !Nat.eqb_eq, forallb_zrange.
  split.
  - intros (((((Hb & Hc) & Ht) & Hcu) & Htu) & Hsq).
    split; [assumption |]. split; [assumption |]. split; [assumption |].
    split; [| split].
    + rewrite forallb_forall in Hcu.
      intros c Hc'. apply u64b_spec. apply Hcu. apply nth_In. lia.
    + rewrite forallb_forall in Htu.
      intros t Ht'. apply u64b_spec. apply Htu. apply nth_In. lia.
    + intros sq Hsq'. specialize (Hsq sq Hsq'). unfold square_consistent in Hsq.
      rewrite !andb_true_iff, forallb_two, forallb_types in Hsq.
      destruct Hsq as ((Hv & Hcs) & Hts). cbv zeta.
      unfold piece_valid in Hv. rewrite andb_true_iff, Z.leb_le, Z.leb_le in Hv.
      split; [exact Hv |]. split.
      * intros c Hc'. apply Bool.eqb_prop. apply Hcs. assumption.
      * intros t Ht'. apply Bool.eqb_prop. apply Hts. assumption.
  - intros (Hb & Hc & Ht & Hcu & Htu & Hsq).
    repeat split; try assumption.
    + apply forallb_forall. intros x Hx. apply u64b_spec.
      destruct (In_nth _ x 0 Hx) as (k & Hk & <-).
      specialize (Hcu (Z.of_nat k)). unfold get_color_bitboard in Hcu.
      rewrite Nat2Z.id in Hcu. apply Hcu. lia.
    + apply forallb_forall. intros x Hx. apply u64b_spec.
      destruct (In_nth _ x 0 Hx) as (k & Hk & <-).
      specialize (Htu (Z.of_nat k)). unfold get_type_bitboard in Htu.
      rewrite Nat2Z.id in Htu. apply Htu. lia.
    + intros sq Hsq'. specialize (Hsq sq Hsq'). cbv zeta in Hsq.
      destruct Hsq as (Hv & Hcs & Hts).
      unfold square_consistent.
      rewrite !andb_true_iff, forallb_two, forallb_types.
      split; [split |].
      * unfold piece_valid. rewrite andb_true_iff, Z.leb_le, Z.leb_le. exact Hv.
      * intros c Hc'. rewrite (Hcs c Hc'). apply Bool.eqb_reflx.
      * intros t Ht'. rewrite (Hts t Ht'). apply Bool.eqb_reflx.
Qed.

Lemma land_u64_l (a b : Z) : is_u64 a -> is_u64 (Z.land a b).
Proof.
  intros Ha. apply BitFacts.u64_of_high_bits.
  - apply Z.land_nonneg. left. apply Ha.
  - intros n Hn. rewrite Z.land_spec, (BitFacts.u64_high_bits a n) by assumption.
    reflexivity.
Qed.

Lemma lor_square_u64 (a sq : Z) :
  is_u64 a -> 0 <= sq < 64 -> is_u64 (Z.lor a (Z.shiftl 1 sq)).
Proof.
  intros Ha Hsq. apply BitFacts.u64_of_high_bits.
  - apply Z.lor_nonneg. split; [apply Ha |]. apply Z.shiftl_nonneg. lia.
  - intros n Hn.
    rewrite Z.lor_spec, (BitFacts.u64_high_bits a n), testbit_square by (assumption || lia).
    cbn. apply Z.eqb_neq. lia.
Qed.

Lemma get_piece_at_upd (pos : position) (cbb tbb : list Z) (sq s x : Z) :
  0 <= sq -> 0 <= s -> length (board pos) = 64%nat ->
  get_piece_at (with_board pos cbb tbb (upd sq x (board pos))) s =
  if (sq =? s) && (sq <? 64) then x else get_piece_at pos s.
Proof.
  intros Hsq Hs Hlen. unfold get_piece_at, with_board. cbn [board].
  rewrite nth_upd, Hlen by assumption. reflexivity.
Qed.

Lemma remove_piece_view (pos : position) (sq : Z) :
  consistent_view pos -> 0 <= sq < 64 -> get_piece_at pos sq <> PIECE_NONE ->
  consistent_view (remove_piece pos sq) /\
  get_piece_at (remove_piece pos sq) sq = PIECE_NONE /\
  (forall s, 0 <= s -> s <> sq ->
     get_piece_at (remove_piece pos sq) s = get_piece_at pos s).
Proof.
  intros (Hb & Hc & Ht & Hcu & Htu & Hsqs) Hsq Hocc.
  destruct (Hsqs sq Hsq) as (Hv & Hcb & Htb). cbv zeta in *.
  set (p := get_piece_at pos sq) in *.
  assert (Hp : 0 <= p < 12) by (unfold PIECE_NONE in *; lia).
  pose proof (piece_color_range p (proj1 Hp)) as Hcr.
  pose proof (piece_type_range p Hp) as Htr.
  assert (Hat : forall s, 0 <= s ->
            get_piece_at (remove_piece pos sq) s =
            if sq =? s then PIECE_NONE else get_piece_at pos s).
  { intros s Hs. unfold remove_piece. rewrite get_piece_at_upd by (assumption || lia).
    destruct (Z.ltb_spec sq 64); [| lia]. rewrite andb_true_r. reflexivity. }
  assert (Hgc : forall c, 0 <= c ->
            get_color_bitboard (remove_piece pos sq) c =
            if get_piece_color p =? c
            then Z.land (get_color_bitboard pos (get_piece_color p))
                        (Z.lnot (Z.shiftl 1 sq))
            else get_color_bitboard pos c).
  { intros c Hc0. unfold remove_piece, with_board, get_color_bitboard at 1.
    cbn [color_bb]. fold p. rewrite nth_upd, Hc by lia.
    destruct (Z.ltb_spec (get_piece_color p) (Z.of_nat 2)); [| lia].
    rewrite andb_true_r. reflexivity. }
  assert (Hgt : forall t, 0 <= t ->
            get_type_bitboard (remove_piece pos sq) t =
            if get_piece_type p =? t
            then Z.land (get_type_bitboard pos (get_piece_type p))
                        (Z.lnot (Z.shiftl 1 sq))
            else get_type_bitboard pos t).
  { intros t Ht0. unfold remove_piece, with_board, get_type_bitboard at 1.
    cbn [type_bb]. fold p. rewrite nth_upd, Ht by lia.
    destruct (Z.ltb_spec (get_piece_type p) (Z.of_nat 6)); [| lia].
    rewrite andb_true_r. reflexivity. }
  split; [| split].
  - unfold consistent_view.
    split; [unfold remove_piece; cbn; rewrite length_upd; assumption |].
    split; [unfold remove_piece; cbn; rewrite length_upd; assumption |].
    split; [unfold remove_piece; cbn; rewrite length_upd; assumption |].
    split; [| split].
    + intros c Hc'. rewrite Hgc by lia.
      destruct (get_piece_color p =? c); [apply land_u64_l |]; apply Hcu; lia.
    + intros t Ht'. rewrite Hgt by lia.
      destruct (get_piece_type p =? t); [apply land_u64_l |]; apply Htu; lia.
    + intros s Hs. cbv zeta. rewrite Hat by lia.
      destruct (Hsqs s Hs) as (Hvs & Hcs & Hts). cbv zeta in *.
      destruct (Z.eqb_spec sq s) as [<- | Hne].
      * split; [unfold PIECE_NONE; lia |]. split.
        -- intros c Hc'. rewrite Hgc by lia. rewrite Z.eqb_refl. cbn [negb andb].
           destruct (Z.eqb_spec (get_piece_color p) c) as [_ | Hcne].
           ++ rewrite Z.land_spec, Z.lnot_spec, testbit_square, Z.eqb_refl by lia.
              apply andb_false_r.
           ++ rewrite Hcb by assumption. fold p.
              destruct (Z.eqb_spec (get_piece_color p) c); [contradiction |].
              apply andb_false_r.
        -- intros t Ht'. rewrite Hgt by lia. rewrite Z.eqb_refl. cbn [negb andb].
           destruct (Z.eqb_spec (get_piece_type p) t) as [_ | Htne].
           ++ rewrite Z.land_spec, Z.lnot_spec, testbit_square, Z.eqb_refl by lia.
              apply andb_false_r.
           ++ rewrite Htb by assumption. fold p.
              destruct (Z.eqb_spec (get_piece_type p) t); [contradiction |].
              apply andb_false_r.
      * split; [assumption |]. split.
        -- intros c Hc'. rewrite Hgc by lia. rewrite <- Hcs by assumption.
           destruct (Z.eqb_spec (get_piece_color p) c) as [-> | _]; [| reflexivity].
           rewrite Z.land_spec, Z.lnot_spec, testbit_square by lia.
           destruct (Z.eqb_spec sq s); [contradiction |]. apply andb_true_r.
        -- intros t Ht'. rewrite Hgt by lia. rewrite <- Hts by assumption.
           destruct (Z.eqb_spec (get_piece_type p) t) as [-> | _]; [| reflexivity].
           rewrite Z.land_spec, Z.lnot_spec, testbit_square by lia.
           destruct (Z.eqb_spec sq s); [contradiction |]. apply andb_true_r.
  - rewrite Hat by lia. rewrite Z.eqb_refl. reflexivity.
  - intros s Hs Hne. rewrite Hat by lia.
    destruct (Z.eqb_spec sq s); [congruence | reflexivity].
Qed.

Lemma place_piece_empty_view (pos : position) (sq piece : Z) :
  consistent_view pos -> 0 <= sq < 64 -> 0 <= piece < 12 ->
  get_piece_at pos sq = PIECE_NONE ->
  consistent_view (place_piece pos sq piece) /\
  get_piece_at (place_piece pos sq piece) sq = piece /\
  (forall s, 0 <= s -> s <> sq ->
     get_piece_at (place_piece pos sq piece) s = get_piece_at pos s).
Proof.
  intros (Hb & Hc & Ht & Hcu & Htu & Hsqs) Hsq Hp Hempty.
  destruct (Hsqs sq Hsq) as (Hv & Hcb & Htb). cbv zeta in *.
  rewrite Hempty in Hcb, Htb. rewrite Z.eqb_refl in Hcb, Htb. cbn [negb andb] in Hcb, Htb.
  pose proof (piece_color_range piece (proj1 Hp)) as Hcr.
  pose proof (piece_type_range piece Hp) as Htr.
  assert (Hplace : place_piece pos sq piece =
            with_board pos
              (upd (get_piece_color piece)
                   (Z.lor (get_color_bitboard pos (get_piece_color piece)) (Z.shiftl 1 sq))
                   (color_bb pos))
              (upd (get_piece_type piece)
                   (Z.lor (get_type_bitboard pos (get_piece_type piece)) (Z.shiftl 1 sq))
                   (type_bb pos))
              (upd sq piece (board pos))).
  { unfold place_piece. rewrite Hempty, Z.eqb_refl. reflexivity. }
  rewrite Hplace. clear Hplace.
  assert (Hat : forall s, 0 <= s ->
            get_piece_at
              (with_board pos
                 (upd (get_piece_color piece)
                    (Z.lor (get_color_bitboard pos (get_piece_color piece)) (Z.shiftl 1 sq))
                    (color_bb pos))
                 (upd (get_piece_type piece)
                    (Z.lor (get_type_bitboard pos (get_piece_type piece)) (Z.shiftl 1 sq))
                    (type_bb pos))
                 (upd sq piece (board pos))) s =
            if sq =? s then piece else get_piece_at pos s).
  { intros s Hs. rewrite get_piece_at_upd by (assumption || lia).
    destruct (Z.ltb_spec sq 64); [| lia]. rewrite andb_true_r. reflexivity. }
  match goal with |- consistent_view ?q /\ _ => set (pos' := q) in * end.
  assert (Hgc : forall c, 0 <= c ->
            get_color_bitboard pos' c =
            if get_piece_color piece =? c
            then Z.lor (get_color_bitboard pos (get_piece_color piece)) (Z.shiftl 1 sq)
            else get_color_bitboard pos c).
  { intros c Hc0. unfold pos', with_board, get_color_bitboard at 1.
    cbn [color_bb]. rewrite nth_upd, Hc by lia.
    destruct (Z.ltb_spec (get_piece_color piece) (Z.of_nat 2)); [| lia].
    rewrite andb_true_r. reflexivity. }
  assert (Hgt : forall t, 0 <= t ->
            get_type_bitboard pos' t =
            if get_piece_type piece =? t
            then Z.lor (get_type_bitboard pos (get_piece_type piece)) (Z.shiftl 1 sq)
            else get_type_bitboard pos t).
  { intros t Ht0. unfold pos', with_board, get_type_bitboard at 1.
    cbn [type_bb]. rewrite nth_upd, Ht by lia.
    destruct (Z.ltb_spec (get_piece_type piece) (Z.of_nat 6)); [| lia].
    rewrite andb_true_r. reflexivity. }
  assert (Hnn : (piece =? PIECE_NONE) = false)
    by (apply Z.eqb_neq; unfold PIECE_NONE; lia).
  split; [| split].
  - unfold consistent_view.
    split; [unfold pos'; cbn; rewrite length_upd; assumption |].
    split; [unfold pos'; cbn; rewrite length_upd; assumption |].
    split; [unfold pos'; cbn; rewrite length_upd; assumption |].
    split; [| split].
    + intros c Hc'. rewrite Hgc by lia.
      destruct (get_piece_color piece =? c); [apply lor_square_u64; [| assumption] |];
        apply Hcu; lia.
    + intros t Ht'. rewrite Hgt by lia.
      destruct (get_piece_type piece =? t); [apply lor_square_u64; [| assumption] |];
        apply Htu; lia.
    + intros s Hs. cbv zeta. rewrite Hat by lia.
      destruct (Hsqs s Hs) as (Hvs & Hcs & Hts). cbv zeta in *.
      destruct (Z.eqb_spec sq s) as [<- | Hne].
      * split; [unfold PIECE_NONE; lia |]. rewrite Hnn. cbn [negb andb]. split.
        -- intros c Hc'. rewrite Hgc by lia.
           destruct (Z.eqb_spec (get_piece_color piece) c) as [_ | Hcne].
           ++ rewrite Z.lor_spec, testbit_square, Z.eqb_refl by lia.
              apply orb_true_r.
           ++ apply Hcb. assumption.
        -- intros t Ht'. rewrite Hgt by lia.
           destruct (Z.eqb_spec (get_piece_type piece) t) as [_ | Htne].
           ++ rewrite Z.lor_spec, testbit_square, Z.eqb_refl by lia.
              apply orb_true_r.
           ++ apply Htb. assumption.
      * split; [assumption |]. split.
        -- intros c Hc'. rewrite Hgc by lia. rewrite <- Hcs by assumption.
           destruct (Z.eqb_spec (get_piece_color piece) c) as [-> | _]; [| reflexivity].
           rewrite Z.lor_spec, testbit_square by lia.
           destruct (Z.eqb_spec sq s); [contradiction |]. apply orb_false_r.
        -- intros t Ht'. rewrite Hgt by lia. rewrite <- Hts by assumption.
           destruct (Z.eqb_spec (get_piece_type piece) t) as [-> | _]; [| reflexivity].
           rewrite Z.lor_spec, testbit_square by lia.
           destruct (Z.eqb_spec sq s); [contradiction |]. apply orb_false_r.
  - rewrite Hat by lia. rewrite Z.eqb_refl. reflexivity.
  - intros s Hs Hne. rewrite Hat by lia.
    destruct (Z.eqb_spec sq s); [congruence | reflexivity].
Qed.

Lemma place_piece_occupied (pos : position) (sq piece : Z) :
  get_piece_at pos sq <> PIECE_NONE ->
  get_piece_at (remove_piece pos sq) sq = PIECE_NONE ->
  place_piece pos sq piece = place_piece (remove_piece pos sq) sq piece.
Proof.
  intros Hocc Hrem. unfold place_piece at 1 2.
  rewrite Hrem, Z.eqb_refl.
  destruct (Z.eqb_spec (get_piece_at pos sq) PIECE_NONE); [contradiction |].
  reflexivity.
Qed.

Lemma place_piece_view (pos : position) (sq piece : Z) :
  consistent_view pos -> 0 <= sq < 64 -> 0 <= piece < 12 ->
  consistent_view (place_piece pos sq piece) /\
  get_piece_at (place_piece pos sq piece) sq = piece /\
  (forall s, 0 <= s -> s <> sq ->
     get_piece_at (place_piece pos sq piece) s = get_piece_at pos s).
Proof.
  intros Hcons Hsq Hp.
  destruct (Z.eq_dec (get_piece_at pos sq) PIECE_NONE) as [Hempty | Hocc].
  - apply place_piece_empty_view; assumption.
  - destruct (remove_piece_view pos sq Hcons Hsq Hocc) as (Hcons' & Hrem & Hothers).
    rewrite (place_piece_occupied pos sq piece Hocc Hrem).
    destruct (place_piece_empty_view (remove_piece pos sq) sq piece Hcons' Hsq Hp Hrem)
      as (H1 & H2 & H3).
    split; [assumption |]. split; [assumption |].
    intros s Hs Hne. rewrite H3 by assumption. apply Hothers; assumption.
Qed.

Lemma set_nth_set_nth {A : Type} (x y : A) :
  forall (l : list A) (n : nat), set_nth n y (set_nth n x l) = set_nth n y l.
Proof.
  unfold set_nth. induction l as [| a l IH]; intros [| n]; cbn; try reflexivity.
  f_equal. apply IH.
Qed.

Lemma set_nth_same {A : Type} (d : A) :
  forall (l : list A) (n : nat), set_nth n (nth n l d) l = l.
Proof.
  unfold set_nth. induction l as [| a l IH]; intros [| n]; cbn; try reflexivity.
  f_equal. apply IH.
Qed.

Lemma land_lor_square (x sq : Z) :
  0 <= sq -> Z.testbit x sq = false ->
  Z.land (Z.lor x (Z.shiftl 1 sq)) (Z.lnot (Z.shiftl 1 sq)) = x.
Proof.
  intros Hsq Hbit. apply Z.bits_inj'. intros n Hn.
  rewrite Z.land_spec, Z.lor_spec, Z.lnot_spec, testbit_square by lia.
  destruct (Z.eqb_spec sq n) as [<- | _]; cbn.
  - rewrite Hbit. reflexivity.
  - rewrite orb_false_r, andb_true_r. reflexivity.
Qed.

Lemma piece_of_fields (p q : Z) :
  0 <= p -> 0 <= q ->
  (get_piece_color p =? get_piece_color q) && (get_piece_type p =? get_piece_type q)
  = (p =? q).
Proof.
  intros Hp Hq. unfold get_piece_color, get_piece_type.
  change 1 with (Z.ones 1) at 1 2. rewrite !Z.land_ones, !Z.shiftr_div_pow2 by lia.
  change (2 ^ 1) with 2.
  destruct (Z.eqb_spec p q) as [-> | Hne].
  - rewrite !Z.eqb_refl. reflexivity.
  - destruct (Z.eqb_spec (p mod 2) (q mod 2)), (Z.eqb_spec (p / 2) (q / 2));
      try reflexivity.
    exfalso. apply Hne.
    rewrite (Z.div_mod p 2), (Z.div_mod q 2) by lia. congruence.
Qed.

(** X1: in a position whose two board formats agree, the bitboard of a piece
    has the bit of a square set exactly when [board] holds that piece there;
    so [get_number_of_pieces] counts the squares of [board] that hold the
    piece. *)
Theorem piece_bitboard_matches_board (pos : position) (piece : Z) :
  board_consistent pos = true -> 0 <= piece < 12 ->
  (forall sq, 0 <= sq < 64 ->
     Z.testbit (get_piece_bitboard pos piece) sq = (get_piece_at pos sq =? piece)) /\
  get_number_of_pieces pos piece =
  Z.of_nat (length (filter (fun sq => get_piece_at pos sq =? piece) Bit.squares)).
Proof.
  intros Hcons Hp. apply board_consistent_view in Hcons.
  destruct Hcons as (Hb & Hc & Ht & Hcu & Htu & Hsqs).
  assert (Hbit : forall sq, 0 <= sq < 64 ->
            Z.testbit (get_piece_bitboard pos piece) sq = (get_piece_at pos sq =? piece)).
  { intros sq Hsq. destruct (Hsqs sq Hsq) as (Hv & Hcb & Htb). cbv zeta in *.
    unfold get_piece_bitboard. rewrite Z.land_spec.
    rewrite Htb by (apply piece_type_range; assumption).
    rewrite Hcb by (apply piece_color_range; lia).
    destruct (Z.eqb_spec (get_piece_at pos sq) PIECE_NONE) as [Hn | Hn]; cbn [negb andb].
    - rewrite Hn. symmetry. apply Z.eqb_neq. unfold PIECE_NONE. lia.
    - rewrite andb_comm. apply piece_of_fields; lia. }
  split; [exact Hbit |].
  unfold get_number_of_pieces, Bit.popcnt, Bit.bits_of. do 2 f_equal.
  apply filter_ext_in. intros sq Hsq. apply Hbit. apply BitFacts.in_squares. exact Hsq.
Qed.

Lemma piece_bitboard_matches_board_witness :
  board_consistent pos_start = true /\ 0 <= PIECE_WHITE_PAWN < 12 /\
  get_number_of_pieces pos_start PIECE_WHITE_PAWN =
  Z.of_nat (length (filter (fun sq => get_piece_at pos_start sq =? PIECE_WHITE_PAWN)
                           Bit.squares)).
Proof.
  assert (Hc : board_consistent pos_start = true) by (vm_compute; reflexivity).
  assert (Hp : 0 <= PIECE_WHITE_PAWN < 12) by (unfold PIECE_WHITE_PAWN; lia).
  split; [exact Hc |]. split; [exact Hp |].
  exact (proj2 (piece_bitboard_matches_board pos_start PIECE_WHITE_PAWN Hc Hp)).
Defined.

(** X2: [place_piece] keeps the two board formats in agreement, whether the
    square was empty or held another piece; afterwards [board] holds the
    piece at the square and every other square is as before. *)
Theorem place_piece_keeps_formats_agreeing (pos : position) (sq piece : Z) :
  board_consistent pos = true -> 0 <= sq < 64 -> 0 <= piece < 12 ->
  board_consistent (place_piece pos sq piece) = true /\
  get_piece_at (place_piece pos sq piece) sq = piece /\
  (forall s, 0 <= s -> s <> sq ->
     get_piece_at (place_piece pos sq piece) s = get_piece_at pos s).
Proof.
  intros Hcons Hsq Hp. apply board_consistent_view in Hcons.
  destruct (place_piece_view pos sq piece Hcons Hsq Hp) as (H1 & H2 & H3).
  split; [apply board_consistent_view; exact H1 |]. split; assumption.
Qed.

Lemma place_piece_keeps_formats_agreeing_witness :
  board_consistent (place_piece pos_start E1 PIECE_BLACK_QUEEN) = true /\
  get_piece_at (place_piece pos_start E1 PIECE_BLACK_QUEEN) E1 = PIECE_BLACK_QUEEN.
Proof.
  destruct (place_piece_keeps_formats_agreeing pos_start E1 PIECE_BLACK_QUEEN)
    as (H1 & H2 & _).
  - vm_compute. reflexivity.
  - unfold E1. lia.
  - unfold PIECE_BLACK_QUEEN. lia.
  - split; assumption.
Defined.

(** X3: [remove_piece] on an occupied square keeps the two board formats in
    agreement, empties the square and leaves the others; and it undoes a
    [place_piece] on an empty square exactly. *)
Theorem remove_piece_undoes_place_piece (pos : position) (sq : Z) :
  board_consistent pos = true -> 0 <= sq < 64 ->
  (get_piece_at pos sq <> PIECE_NONE ->
   board_consistent (remove_piece pos sq) = true /\
   get_piece_at (remove_piece pos sq) sq = PIECE_NONE /\
   (forall s, 0 <= s -> s <> sq ->
      get_piece_at (remove_piece pos sq) s = get_piece_at pos s)) /\
  (get_piece_at pos sq = PIECE_NONE ->
   forall piece, 0 <= piece < 12 ->
     remove_piece (place_piece pos sq piece) sq = pos).
Proof.
  intros Hcons Hsq. apply board_consistent_view in Hcons. split.
  - intros Hocc. destruct (remove_piece_view pos sq Hcons Hsq Hocc) as (H1 & H2 & H3).
    split; [apply board_consistent_view; exact H1 |]. split; assumption.
  - intros Hempty piece Hp.
    destruct Hcons as (Hb & Hc & Ht & Hcu & Htu & Hsqs).
    destruct (Hsqs sq Hsq) as (_ & Hcb & Htb). cbv zeta in *.
    rewrite Hempty, Z.eqb_refl in Hcb, Htb. cbn [negb andb] in Hcb, Htb.
    pose proof (piece_color_range piece (proj1 Hp)) as Hcr.
    pose proof (piece_type_range piece Hp) as Htr.
    unfold place_piece. rewrite Hempty, Z.eqb_refl. cbn [negb].
    set (c := get_piece_color piece) in *. set (t := get_piece_type piece) in *.
    set (bb := Z.shiftl 1 sq).
    set (C := upd c (Z.lor (get_color_bitboard pos c) bb) (color_bb pos)).
    set (T := upd t (Z.lor (get_type_bitboard pos t) bb) (type_bb pos)).
    set (B := upd sq piece (board pos)).
    assert (Hat : get_piece_at (with_board pos C T B) sq = piece).
    { unfold B. rewrite get_piece_at_upd by (assumption || lia).
      rewrite Z.eqb_refl. destruct (Z.ltb_spec sq 64); [reflexivity | lia]. }
    assert (HC : get_color_bitboard (with_board pos C T B) c
                 = Z.lor (get_color_bitboard pos c) bb).
    { unfold get_color_bitboard at 1, with_board. cbn [color_bb]. unfold C.
      rewrite nth_upd, Hc, Z.eqb_refl by lia.
      destruct (Z.ltb_spec c (Z.of_nat 2)); [reflexivity | lia]. }
    assert (HT : get_type_bitboard (with_board pos C T B) t
                 = Z.lor (get_type_bitboard pos t) bb).
    { unfold get_type_bitboard at 1, with_board. cbn [type_bb]. unfold T.
      rewrite nth_upd, Ht, Z.eqb_refl by lia.
      destruct (Z.ltb_spec t (Z.of_nat 6)); [reflexivity | lia]. }
    unfold remove_piece. rewrite Hat. fold c t bb. rewrite HC, HT.
    unfold bb. rewrite !land_lor_square by (lia || (apply Hcb || apply Htb); assumption).
    unfold with_board. cbn [color_bb type_bb board irr_states irr_state_cap
                            irr_state_idx side_to_move fullmove_counter].
    unfold C, T, B, upd. rewrite !set_nth_set_nth.
    unfold get_color_bitboard, get_type_bitboard. rewrite !set_nth_same.
    unfold get_piece_at in Hempty. rewrite <- Hempty. rewrite set_nth_same.
    destruct pos; reflexivity.
Qed.

Lemma remove_piece_undoes_place_piece_witness :
  remove_piece (place_piece pos_start 28 PIECE_WHITE_QUEEN) 28 = pos_start.
Proof.
  destruct (remove_piece_undoes_place_piece pos_start 28) as [_ Hundo].
  - vm_compute. reflexivity.
  - lia.
  - apply Hundo; [vm_compute; reflexivity | unfold PIECE_WHITE_QUEEN; lia].
Defined.

(** ** Castling rights and the en-passant file *)

Lemma land_pow2_eqb (x k : Z) :
  0 <= k -> (Z.land x (2 ^ k) =? 0) = negb (Z.testbit x k).
Proof.
  intros Hk. destruct (Z.testbit x k) eqn:Hb; cbn [negb].
  - apply Z.eqb_neq. intros H0.
    assert (Hbit : Z.testbit (Z.land x (2 ^ k)) k = true)
      by (rewrite Z.land_spec, Hb, Z.pow2_bits_eqb, Z.eqb_refl by lia; reflexivity).
    rewrite H0, Z.bits_0 in Hbit. discriminate.
  - apply Z.eqb_eq. apply Z.bits_inj'. intros n Hn.
    rewrite Z.land_spec, Z.bits_0, Z.pow2_bits_eqb by lia.
    destruct (Z.eqb_spec k n) as [<- | _]; [rewrite Hb |]; auto using andb_false_r.
Qed.

Lemma has_castling_right_testbit (pos : position) (c side : Z) :
  0 <= c -> 0 <= side ->
  has_castling_right pos c side =
  Z.testbit (castling_rights_and_enpassant (cur_irr pos)) (side + 2 * c).
Proof.
  intros Hc Hs. unfold has_castling_right.
  rewrite Z.shiftl_shiftl, Z.shiftl_1_l, land_pow2_eqb, negb_involutive by lia.
  reflexivity.
Qed.

Lemma irr_valid_spec (pos : position) :
  irr_valid pos = true <->
  (irr_state_idx pos < length (irr_states pos))%nat /\
  0 <= castling_rights_and_enpassant (cur_irr pos) < 2 ^ 8.
Proof.
  unfold irr_valid. rewrite !andb_true_iff, Nat.ltb_lt, Z.leb_le, Z.ltb_lt. tauto.
Qed.

Lemma with_rights_valid (pos : position) (cre : Z) :
  irr_valid pos = true -> 0 <= cre < 2 ^ 8 -> irr_valid (with_rights pos cre) = true.
Proof.
  intros Hv Hcre. apply irr_valid_spec in Hv. destruct Hv as [Hidx _].
  apply irr_valid_spec. rewrite TTFacts.cur_irr_with_rights by assumption.
  split; [| assumption].
  unfold with_rights. cbn [irr_states irr_state_idx]. rewrite length_set_nth. assumption.
Qed.

Lemma u8_of_bits (x : Z) :
  0 <= x -> (forall n, 8 <= n -> Z.testbit x n = false) -> 0 <= x < 2 ^ 8.
Proof.
  intros Hx Hhigh. split; [assumption |].
  assert (Hmod : x mod 2 ^ 8 = x).
  { apply Z.bits_inj'. intros n Hn.
    destruct (Z_lt_ge_dec n 8) as [Hlt | Hge].
    - apply Z.mod_pow2_bits_low. lia.
    - rewrite Z.mod_pow2_bits_high by lia. symmetry. apply Hhigh. lia. }
  rewrite <- Hmod. apply Z.mod_pos_bound. lia.
Qed.

Lemma u8_high_bits (x n : Z) : 0 <= x < 2 ^ 8 -> 8 <= n -> Z.testbit x n = false.
Proof.
  intros Hx Hn. rewrite <- (Z.mod_small x (2 ^ 8)) by assumption.
  apply Z.mod_pow2_bits_high. lia.
Qed.

Lemma right_index (c side c' side' : Z) :
  0 <= c < 2 -> 0 <= side < 2 -> 0 <= c' < 2 -> 0 <= side' < 2 ->
  (side + 2 * c =? side' + 2 * c') = (c' =? c) && (side' =? side).
Proof.
  intros. destruct (Z.eqb_spec (side + 2 * c) (side' + 2 * c')),
    (Z.eqb_spec c' c), (Z.eqb_spec side' side); cbn; try reflexivity; lia.
Qed.

(** X4: [add_castling] grants and [remove_castling] withdraws exactly the
    right it names: the other three rights, whether en passant is possible
    and the en-passant square stay as they were. *)
Theorem castling_right_written_alone (pos : position) (c side c' side' : Z) :
  irr_valid pos = true ->
  0 <= c < 2 -> 0 <= side < 2 -> 0 <= c' < 2 -> 0 <= side' < 2 ->
  has_castling_right (add_castling pos c side) c' side' =
    ((c' =? c) && (side' =? side)) || has_castling_right pos c' side' /\
  has_castling_right (remove_castling pos c side) c' side' =
    negb ((c' =? c) && (side' =? side)) && has_castling_right pos c' side' /\
  enpassant_possible (add_castling pos c side) = enpassant_possible pos /\
  enpassant_possible (remove_castling pos c side) = enpassant_possible pos /\
  get_enpassant_square (add_castling pos c side) = get_enpassant_square pos /\
  get_enpassant_square (remove_castling pos c side) = get_enpassant_square pos /\
  irr_valid (add_castling pos c side) = true /\
  irr_valid (remove_castling pos c side) = true.
Proof.
  intros Hv Hc Hs Hc' Hs'. pose proof Hv as Hv0.
  apply irr_valid_spec in Hv. destruct Hv as [Hidx Hu8].
  set (x := castling_rights_and_enpassant (cur_irr pos)) in *.
  set (k := side + 2 * c).
  assert (Hk : 0 <= k < 4) by (unfold k; lia).
  assert (Hbit : Z.shiftl (Z.shiftl 1 side) (2 * c) = 2 ^ k)
    by (rewrite Z.shiftl_shiftl, Z.shiftl_1_l by lia; reflexivity).
  assert (Hadd : castling_rights_and_enpassant (cur_irr (add_castling pos c side))
                 = Z.lor x (2 ^ k)).
  { unfold add_castling. rewrite TTFacts.cur_irr_with_rights by assumption.
    fold x. rewrite Hbit. reflexivity. }
  assert (Hrem : castling_rights_and_enpassant (cur_irr (remove_castling pos c side))
                 = Z.land x (Z.lnot (2 ^ k))).
  { unfold remove_castling. rewrite TTFacts.cur_irr_with_rights by assumption.
    fold x. rewrite Hbit. reflexivity. }
  assert (Hmask_add : forall m, Z.testbit m k = false ->
            Z.land (Z.lor x (2 ^ k)) m = Z.land x m).
  { intros m Hm. apply Z.bits_inj'. intros n Hn.
    rewrite !Z.land_spec, Z.lor_spec, Z.pow2_bits_eqb by lia.
    destruct (Z.eqb_spec k n) as [<- | _]; [rewrite Hm, !andb_false_r | rewrite orb_false_r];
      reflexivity. }
  assert (Hmask_rem : forall m, Z.testbit m k = false ->
            Z.land (Z.land x (Z.lnot (2 ^ k))) m = Z.land x m).
  { intros m Hm. apply Z.bits_inj'. intros n Hn.
    rewrite !Z.land_spec, Z.lnot_spec, Z.pow2_bits_eqb by lia.
    destruct (Z.eqb_spec k n) as [<- | _]; [rewrite Hm, !andb_false_r | rewrite andb_true_r];
      reflexivity. }
  assert (H80 : Z.testbit 0x80 k = false)
    by (assert (k = 0 \/ k = 1 \/ k = 2 \/ k = 3) as [-> | [-> | [-> | ->]]] by lia;
        reflexivity).
  assert (H70 : Z.testbit 0x70 k = false)
    by (assert (k = 0 \/ k = 1 \/ k = 2 \/ k = 3) as [-> | [-> | [-> | ->]]] by lia;
        reflexivity).
  split; [| split; [| split; [| split; [| split; [| split; [| split]]]]]].
  - rewrite !has_castling_right_testbit, Hadd by lia. fold x.
    rewrite Z.lor_spec, Z.pow2_bits_eqb by lia. unfold k.
    rewrite right_index by assumption. apply orb_comm.
  - rewrite !has_castling_right_testbit, Hrem by lia. fold x.
    rewrite Z.land_spec, Z.lnot_spec, Z.pow2_bits_eqb by lia. unfold k.
    rewrite right_index by assumption. apply andb_comm.
  - unfold enpassant_possible. rewrite Hadd. fold x. apply Hmask_add. exact H80.
  - unfold enpassant_possible. rewrite Hrem. fold x. apply Hmask_rem. exact H80.
  - unfold get_enpassant_square. rewrite Hadd. fold x. rewrite Hmask_add by exact H70.
    reflexivity.
  - unfold get_enpassant_square. rewrite Hrem. fold x. rewrite Hmask_rem by exact H70.
    reflexivity.
  - unfold add_castling. apply with_rights_valid; [assumption |]. fold x. rewrite Hbit.
    apply u8_of_bits.
    + apply Z.lor_nonneg. split; [lia |]. apply Z.pow_nonneg. lia.
    + intros n Hn. rewrite Z.lor_spec, (u8_high_bits x n), Z.pow2_bits_eqb by (assumption || lia).
      apply Z.eqb_neq. lia.
  - unfold remove_castling. apply with_rights_valid; [assumption |]. fold x. rewrite Hbit.
    apply u8_of_bits.
    + apply Z.land_nonneg. left. lia.
    + intros n Hn. rewrite Z.land_spec, (u8_high_bits x n) by assumption. reflexivity.
Qed.

Lemma castling_right_written_alone_witness :
  has_castling_right (remove_castling pos_start COLOR_WHITE CASTLING_SIDE_KING)
    COLOR_WHITE CASTLING_SIDE_KING = false /\
  has_castling_right (remove_castling pos_start COLOR_WHITE CASTLING_SIDE_KING)
    COLOR_BLACK CASTLING_SIDE_QUEEN = true.
Proof.
  assert (Hv : irr_valid pos_start = true) by (vm_compute; reflexivity).
  assert (H0 : 0 <= 0 < 2) by lia.
  assert (H1 : 0 <= 1 < 2) by lia.
  split.
  - pose proof (castling_right_written_alone pos_start COLOR_WHITE CASTLING_SIDE_KING
                  COLOR_WHITE CASTLING_SIDE_KING Hv H0 H1 H0 H1) as H.
    apply proj2 in H. apply proj1 in H.
    etransitivity; [exact H |]. vm_compute. reflexivity.
  - pose proof (castling_right_written_alone pos_start COLOR_WHITE CASTLING_SIDE_KING
                  COLOR_BLACK CASTLING_SIDE_QUEEN Hv H0 H1 H1 H0) as H.
    apply proj2 in H. apply proj1 in H.
    etransitivity; [exact H |]. vm_compute. reflexivity.
Defined.

Lemma forallb_zrange2 (n m : nat) (f : Z -> Z -> bool) :
  forallb (fun i => forallb (f i) (zrange m)) (zrange n) = true ->
  forall i j, 0 <= i < Z.of_nat n -> 0 <= j < Z.of_nat m -> f i j = true.
Proof.
  intros H i j Hi Hj. rewrite forallb_zrange in H.
  specialize (H i Hi). rewrite forallb_zrange in H. apply H. assumption.
Qed.

(** The en-passant arithmetic on every value of the byte and every file. *)
Lemma enpassant_byte_facts :
  forall x g, 0 <= x < 256 -> 0 <= g < 8 ->
    let y := Z.lor (Z.lor (Z.land x 0x8f) 0x80) (Z.shiftl g 4) in
    (Z.land y 0x80 =? 0x80) && (Z.shiftr (Z.land y 0x70) 4 =? g) &&
    (Z.land y 0xf =? Z.land x 0xf) && (y <? 256) && (0 <=? y) &&
    (Z.land (Z.land x 0xf) 0x80 =? 0) &&
    (Z.land (Z.land x 0xf) 0xf =? Z.land x 0xf) = true.
Proof.
  apply (forallb_zrange2 256 8
           (fun x g =>
              let y := Z.lor (Z.lor (Z.land x 0x8f) 0x80) (Z.shiftl g 4) in
              (Z.land y 0x80 =? 0x80) && (Z.shiftr (Z.land y 0x70) 4 =? g) &&
              (Z.land y 0xf =? Z.land x 0xf) && (y <? 256) && (0 <=? y) &&
              (Z.land (Z.land x 0xf) 0x80 =? 0) &&
              (Z.land (Z.land x 0xf) 0xf =? Z.land x 0xf))).
  vm_compute. reflexivity.
Qed.

Lemma has_castling_right_low_nibble (pos1 pos2 : position) (c side : Z) :
  0 <= c < 2 -> 0 <= side < 2 ->
  Z.land (castling_rights_and_enpassant (cur_irr pos1)) 0xf =
  Z.land (castling_rights_and_enpassant (cur_irr pos2)) 0xf ->
  has_castling_right pos1 c side = has_castling_right pos2 c side.
Proof.
  intros Hc Hs Heq. rewrite !has_castling_right_testbit by lia.
  assert (Hk : Z.testbit 0xf (side + 2 * c) = true).
  { assert (side + 2 * c = 0 \/ side + 2 * c = 1 \/ side + 2 * c = 2 \/ side + 2 * c = 3)
      as [-> | [-> | [-> | ->]]] by lia; reflexivity. }
  apply (f_equal (fun z => Z.testbit z (side + 2 * c))) in Heq.
  rewrite !Z.land_spec, Hk, !andb_true_r in Heq. exact Heq.
Qed.

(** X5: [set_enpassant] makes en passant possible on the file it is given,
    reduced to three bits, on rank 6 for White to move and rank 3 for Black,
    whatever file was stored before; [unset_enpassant] makes it impossible;
    neither touches a castling right. *)
Theorem enpassant_file_round_trip (pos : position) (file : Z) :
  irr_valid pos = true ->
  enpassant_possible (set_enpassant pos file) <> 0 /\
  get_file (get_enpassant_square (set_enpassant pos file)) = file mod 8 /\
  get_rank (get_enpassant_square (set_enpassant pos file)) =
    (if get_side_to_move pos =? COLOR_WHITE then RANK_6 else RANK_3) /\
  enpassant_possible (unset_enpassant pos) = 0 /\
  (forall c side, 0 <= c < 2 -> 0 <= side < 2 ->
     has_castling_right (set_enpassant pos file) c side = has_castling_right pos c side /\
     has_castling_right (unset_enpassant pos) c side = has_castling_right pos c side) /\
  irr_valid (set_enpassant pos file) = true /\
  irr_valid (unset_enpassant pos) = true.
Proof.
  intros Hv. pose proof Hv as Hv0. apply irr_valid_spec in Hv. destruct Hv as [Hidx Hu8].
  set (x := castling_rights_and_enpassant (cur_irr pos)) in *.
  assert (Hg : 0 <= Z.land file 7 < 8).
  { change 7 with (Z.ones 3). rewrite Z.land_ones by lia. apply Z.mod_pos_bound. lia. }
  assert (Hgm : Z.land file 7 = file mod 8)
    by (change 7 with (Z.ones 3); rewrite Z.land_ones by lia; reflexivity).
  pose proof (enpassant_byte_facts x (Z.land file 7) Hu8 Hg) as Hfacts.
  cbv zeta in Hfacts.
  set (y := Z.lor (Z.lor (Z.land x 0x8f) 0x80) (Z.shiftl (Z.land file 7) 4)) in *.
  rewrite !andb_true_iff in Hfacts.
  destruct Hfacts as ((((((F1 & F2) & F3) & F4) & F5) & F6) & F7).
  apply Z.eqb_eq in F1, F2, F3, F6, F7. apply Z.ltb_lt in F4. apply Z.leb_le in F5.
  assert (Hset : castling_rights_and_enpassant (cur_irr (set_enpassant pos file)) = y).
  { unfold set_enpassant. rewrite TTFacts.cur_irr_with_rights by assumption. reflexivity. }
  assert (Hunset : castling_rights_and_enpassant (cur_irr (unset_enpassant pos))
                   = Z.land x 0xf).
  { unfold unset_enpassant. rewrite TTFacts.cur_irr_with_rights by assumption.
    reflexivity. }
  assert (Hsq : get_enpassant_square (set_enpassant pos file) =
                8 * (if get_side_to_move pos =? COLOR_WHITE then RANK_6 else RANK_3)
                + file mod 8).
  { unfold get_enpassant_square. rewrite Hset, F2, Hgm. unfold file_rank_to_square.
    reflexivity. }
  split; [| split; [| split; [| split; [| split; [| split]]]]].
  - unfold enpassant_possible. rewrite Hset, F1. discriminate.
  - rewrite Hsq. unfold get_file.
    rewrite Z.add_comm, Z.mul_comm, Z.mod_add by lia. apply Z.mod_mod. lia.
  - rewrite Hsq. unfold get_rank.
    rewrite Z.add_comm, Z.mul_comm, Z.div_add by lia.
    rewrite Z.div_small by (apply Z.mod_pos_bound; lia). reflexivity.
  - unfold enpassant_possible. rewrite Hunset. exact F6.
  - intros c side Hc Hs. split; apply has_castling_right_low_nibble; try assumption.
    + rewrite Hset. exact F3.
    + rewrite Hunset. exact F7.
  - unfold set_enpassant. apply with_rights_valid; [assumption |].
    fold x. fold y. change (2 ^ 8) with 256. lia.
  - unfold unset_enpassant. apply with_rights_valid; [assumption |]. fold x.
    apply u8_of_bits; [apply Z.land_nonneg; left; lia |].
    intros n Hn. rewrite Z.land_spec, (u8_high_bits x n) by assumption. reflexivity.
Qed.

Lemma enpassant_file_round_trip_witness :
  irr_valid pos_start = true /\
  enpassant_possible (set_enpassant pos_start 4) <> 0 /\
  get_file (get_enpassant_square (set_enpassant pos_start 4)) = 4 mod 8.
Proof.
  assert (Hv : irr_valid pos_start = true) by (vm_compute; reflexivity).
  pose proof (enpassant_file_round_trip pos_start 4 Hv) as H.
  split; [exact Hv |]. split; [exact (proj1 H) | exact (proj1 (proj2 H))].
Defined.

(** ** The stack of irreversible states *)

Lemma write_state_facts (x d : irreversible_state) (l : list irreversible_state)
    (n : nat) :
  (n <= length l)%nat ->
  nth n (write_state n x l) d = x /\
  (forall j, (j < n)%nat -> nth j (write_state n x l) d = nth j l d) /\
  (n < length (write_state n x l))%nat.
Proof.
  intros Hn. unfold write_state. destruct (Nat.ltb_spec n (length l)) as [Hlt | Hge].
  - split; [| split].
    + rewrite nth_set_nth, Nat.eqb_refl. destruct (Nat.ltb_spec n (length l)); [| lia].
      reflexivity.
    + intros j Hj. rewrite nth_set_nth.
      destruct (Nat.eqb_spec n j); [lia | reflexivity].
    + rewrite length_set_nth. assumption.
  - assert (Hlen : n = length l) by lia. subst n. rewrite Nat.sub_diag. cbn [repeat app].
    split; [| split].
    + rewrite app_nth2, Nat.sub_diag by lia. reflexivity.
    + intros j Hj. apply app_nth1. assumption.
    + rewrite length_app. cbn. lia.
Qed.

Lemma do_irr_write_frame (p : position) (w : irr_write) (d : irreversible_state) :
  irr_state_idx (do_irr_write p w) = irr_state_idx p /\
  length (irr_states (do_irr_write p w)) = length (irr_states p) /\
  (forall j, j <> irr_state_idx p ->
     nth j (irr_states (do_irr_write p w)) d = nth j (irr_states p) d) /\
  side_to_move (do_irr_write p w) = side_to_move p /\
  fullmove_counter (do_irr_write p w) = fullmove_counter p /\
  color_bb (do_irr_write p w) = color_bb p /\
  type_bb (do_irr_write p w) = type_bb p /\
  board (do_irr_write p w) = board p.
Proof.
  destruct w; cbn [do_irr_write];
    unfold add_castling, remove_castling, set_enpassant, unset_enpassant,
      set_captured_piece, reset_halfmove_clock, increment_halfmove_clock,
      with_rights, with_irr;
    cbn [irr_state_idx irr_states side_to_move fullmove_counter color_bb type_bb board];
    (split; [reflexivity |]); (split; [apply length_set_nth |]);
    (split; [| repeat split]);
    intros j Hj; rewrite nth_set_nth;
    destruct (Nat.eqb_spec (irr_state_idx p) j); try congruence; reflexivity.
Qed.

Lemma irr_writes_frame (d : irreversible_state) (ws : list irr_write) :
  forall p : position,
    let p' := fold_left do_irr_write ws p in
    irr_state_idx p' = irr_state_idx p /\
    (forall j, j <> irr_state_idx p ->
       nth j (irr_states p') d = nth j (irr_states p) d) /\
    side_to_move p' = side_to_move p /\
    fullmove_counter p' = fullmove_counter p /\
    color_bb p' = color_bb p /\ type_bb p' = type_bb p /\ board p' = board p.
Proof.
  induction ws as [| w ws IH]; intros p; cbv zeta.
  - cbn [fold_left]. repeat split; reflexivity.
  - cbn [fold_left].
    destruct (do_irr_write_frame p w d) as (W1 & _ & W3 & W4 & W5 & W6 & W7 & W8).
    destruct (IH (do_irr_write p w)) as (I1 & I3 & I4 & I5 & I6 & I7 & I8).
    cbv zeta in *.
    split; [congruence |]. split.
    + intros j Hj. rewrite I3 by congruence. apply W3. assumption.
    + repeat split; congruence.
Qed.

(** X6: [start_new_irreversible_state] pushes a copy of the current
    irreversible state; whatever the functions that write that state do to
    the copy afterwards, [backtrack_irreversible_state] brings back the
    castling rights, en-passant file, halfmove clock and captured piece of
    before, and the rest of the position was not touched. *)
Theorem irreversible_state_restored (pos : position) (ws : list irr_write) :
  (irr_state_idx pos < length (irr_states pos))%nat ->
  cur_irr (start_new_irreversible_state pos) = cur_irr pos /\
  let pos' :=
    backtrack_irreversible_state
      (fold_left do_irr_write ws (start_new_irreversible_state pos)) in
  cur_irr pos' = cur_irr pos /\
  irr_state_idx pos' = irr_state_idx pos /\
  side_to_move pos' = side_to_move pos /\
  fullmove_counter pos' = fullmove_counter pos /\
  color_bb pos' = color_bb pos /\ type_bb pos' = type_bb pos /\
  board pos' = board pos.
Proof.
  intros Hidx.
  destruct (write_state_facts (nth (irr_state_idx pos) (irr_states pos) irr_zero)
              irr_zero (irr_states pos) (S (irr_state_idx pos)))
    as (Htop & Hbelow & _); [lia |].
  assert (Hstart : irr_states (start_new_irreversible_state pos) =
                   write_state (S (irr_state_idx pos))
                     (nth (irr_state_idx pos) (irr_states pos) irr_zero)
                     (irr_states pos)).
  { unfold start_new_irreversible_state. cbn [irr_states].
    rewrite Nat.sub_1_r. reflexivity. }
  split.
  - unfold cur_irr at 1. rewrite Hstart.
    unfold start_new_irreversible_state at 1. cbn [irr_state_idx].
    exact Htop.
  - destruct (irr_writes_frame irr_zero ws (start_new_irreversible_state pos))
      as (I1 & I3 & I4 & I5 & I6 & I7 & I8).
    cbv zeta in *.
    unfold backtrack_irreversible_state, cur_irr.
    cbn [irr_states irr_state_idx side_to_move fullmove_counter color_bb type_bb board].
    rewrite I1, I4, I5, I6, I7, I8.
    unfold start_new_irreversible_state.
    cbn [irr_states irr_state_idx side_to_move fullmove_counter color_bb type_bb board
         Nat.pred].
    split; [| repeat split].
    rewrite I3 by (unfold start_new_irreversible_state; cbn [irr_state_idx]; lia).
    rewrite Hstart. apply Hbelow. lia.
Qed.

Lemma irreversible_state_restored_witness :
  has_castling_right
    (backtrack_irreversible_state
       (fold_left do_irr_write
          [RemoveCastling COLOR_WHITE CASTLING_SIDE_KING; SetEnpassant 4;
           ResetHalfmoveClock]
          (start_new_irreversible_state pos_start)))
    COLOR_WHITE CASTLING_SIDE_KING = true.
Proof.
  assert (Hidx : (irr_state_idx pos_start < length (irr_states pos_start))%nat)
    by (vm_compute; lia).
  pose proof (irreversible_state_restored pos_start
                [RemoveCastling COLOR_WHITE CASTLING_SIDE_KING; SetEnpassant 4;
                 ResetHalfmoveClock] Hidx) as H.
  apply proj2 in H. cbv zeta in H. apply proj1 in H.
  unfold has_castling_right. rewrite H. vm_compute. reflexivity.
Defined.

(** ** The game phase *)

Lemma number_of_pieces_nonneg (pos : position) (piece : Z) :
  0 <= get_number_of_pieces pos piece.
Proof. unfold get_number_of_pieces, Bit.popcnt. lia. Qed.

Lemma rem_neg_bound (a b : Z) : a <= 0 -> 0 < b -> - b < Z.rem a b <= 0.
Proof.
  intros Ha Hb. pose proof (Z.rem_bound_pos (- a) b) as H.
  rewrite Z.rem_opp_l in H by lia. lia.
Qed.

Lemma get_phase_formula (pos : position) :
  get_phase pos = Z.quot (256 * (24 - phase_material pos) + 12) 24.
Proof.
  unfold get_phase, phase_material. cbn [fold_left].
  change phase_neutral with 24. change (Z.quot 24 2) with 12.
  change (phase_weight PIECE_TYPE_PAWN) with 0.
  change (phase_weight PIECE_TYPE_KNIGHT) with 1.
  change (phase_weight PIECE_TYPE_BISHOP) with 1.
  change (phase_weight PIECE_TYPE_ROOK) with 2.
  change (phase_weight PIECE_TYPE_QUEEN) with 4.
  f_equal. lia.
Qed.

(** X7: [get_phase] never exceeds 256, which it returns when neither side
    has a knight, bishop, rook or queen; it returns 0 for the material of
    the starting position, and it is negative, against its comment, exactly
    when the board holds more of that material than the starting position
    has (a promoted queen beside the full set, for one). *)
Theorem get_phase_range (pos : position) :
  get_phase pos <= 256 /\
  (0 <= get_phase pos <-> phase_material pos <= 24) /\
  (phase_material pos = 0 -> get_phase pos = 256) /\
  (phase_material pos = 24 -> get_phase pos = 0).
Proof.
  rewrite get_phase_formula.
  assert (Hm : 0 <= phase_material pos).
  { unfold phase_material.
    pose proof (number_of_pieces_nonneg pos). cbv zeta.
    repeat match goal with
           | |- context [get_number_of_pieces pos ?p] =>
               let H := fresh in
               pose proof (number_of_pieces_nonneg pos p) as H;
               generalize dependent (get_number_of_pieces pos p); intros
           end.
    lia. }
  set (m := phase_material pos) in *.
  pose proof (Z.quot_rem' (256 * (24 - m) + 12) 24) as Hqr.
  set (q := Z.quot (256 * (24 - m) + 12) 24) in *.
  set (r := Z.rem (256 * (24 - m) + 12) 24) in *.
  split; [| split; [| split]].
  - destruct (Z_le_gt_dec (256 * (24 - m) + 12) 0) as [Hneg | Hpos].
    + pose proof (rem_neg_bound (256 * (24 - m) + 12) 24) as Hr. fold r in Hr. lia.
    + assert (0 <= r < 24) by (apply Z.rem_bound_pos; lia). lia.
  - split.
    + intros Hq. destruct (Z_le_gt_dec m 24); [assumption |]. exfalso.
      pose proof (rem_neg_bound (256 * (24 - m) + 12) 24) as Hr. fold r in Hr. lia.
    + intros Hle. assert (0 <= r < 24) by (apply Z.rem_bound_pos; lia). lia.
  - intros ->. reflexivity.
  - intros ->. reflexivity.
Qed.

(** ** [pos_equal] *)

(** X8: [pos_equal] is an equivalence: every position equals itself, and
    the answer neither depends on the order of the two arguments nor breaks
    along a chain of equal positions. *)
Theorem pos_equal_equivalence :
  (forall p, pos_equal p p = true) /\
  (forall p q, pos_equal p q = pos_equal q p) /\
  (forall p q r, pos_equal p q = true -> pos_equal q r = true -> pos_equal p r = true).
Proof.
  assert (Hsym : forall p q, pos_equal p q = true -> pos_equal q p = true).
  { intros p q H. apply PosFacts.pos_equal_spec in H. apply PosFacts.pos_equal_spec.
    destruct H as (H1 & H2 & H3 & H4 & H5 & H6 & H7).
    split; [symmetry; exact H1 |].
    split; [intros c sd Hc Hs; symmetry; apply H2; assumption |].
    split; [tauto |].
    split; [intros Hq Hp; symmetry; apply H4; assumption |].
    split; [symmetry; exact H5 |]. split; [symmetry; exact H6 |].
    intros pt Hin. symmetry. apply H7. assumption. }
  split; [| split].
  - intros p. apply PosFacts.pos_equal_spec. unfold same_for_repetition.
    split; [reflexivity |]. split; [reflexivity |]. split; [tauto |].
    split; [reflexivity |]. split; [reflexivity |]. split; reflexivity.
  - intros p q. destruct (pos_equal p q) eqn:Hpq.
    + symmetry. apply Hsym. assumption.
    + destruct (pos_equal q p) eqn:Hqp; [| reflexivity].
      apply Hsym in Hqp. congruence.
  - intros p q r Hpq Hqr.
    apply PosFacts.pos_equal_spec in Hpq, Hqr. apply PosFacts.pos_equal_spec.
    destruct Hpq as (A1 & A2 & A3 & A4 & A5 & A6 & A7).
    destruct Hqr as (B1 & B2 & B3 & B4 & B5 & B6 & B7).
    split; [congruence |].
    split; [intros c sd Hc Hs; rewrite A2 by assumption; apply B2; assumption |].
    split; [tauto |].
    split; [intros Hp Hr; rewrite A4 by tauto; apply B4; tauto |].
    split; [congruence |]. split; [congruence |].
    intros pt Hin. rewrite A7 by assumption. apply B7. assumption.
Qed.

(** ** Squares and pieces *)

Lemma piece_of_type_and_color (p : Z) :
  0 <= p -> create_piece (get_piece_type p) (get_piece_color p) = p.
Proof.
  intros Hp. unfold create_piece, get_piece_type, get_piece_color.
  apply Z.bits_inj'. intros n Hn.
  rewrite Z.lor_spec, Z.land_spec.
  destruct (Z.eq_dec n 0) as [-> | Hn0].
  - rewrite Z.shiftl_spec_low by lia. cbn. apply andb_true_r.
  - rewrite Z.shiftl_spec, Z.shiftr_spec by lia.
    replace (n - 1 + 1) with n by lia.
    rewrite (Z.bits_above_log2 1 n) by (cbn; lia).
    rewrite andb_false_r, orb_false_r. reflexivity.
Qed.

Lemma create_piece_fields (pt c : Z) :
  0 <= pt -> 0 <= c < 2 ->
  get_piece_type (create_piece pt c) = pt /\
  get_piece_color (create_piece pt c) = c.
Proof.
  intros Hpt Hc. unfold create_piece, get_piece_type, get_piece_color. split.
  - apply Z.bits_inj'. intros n Hn.
    rewrite Z.shiftr_spec, Z.lor_spec, Z.shiftl_spec by lia.
    replace (n + 1 - 1) with n by lia.
    assert (Hcb : Z.testbit c (n + 1) = false).
    { assert (c = 0 \/ c = 1) as [-> | ->] by lia;
        [apply Z.bits_0 | apply Z.bits_above_log2; cbn; lia]. }
    rewrite Hcb. apply orb_false_r.
  - apply Z.bits_inj'. intros n Hn.
    rewrite Z.land_spec, Z.lor_spec.
    destruct (Z.eq_dec n 0) as [-> | Hn0].
    + rewrite Z.shiftl_spec_low by lia. cbn. apply andb_true_r.
    + rewrite (Z.bits_above_log2 1 n) by (cbn; lia). rewrite andb_false_r.
      assert (c = 0 \/ c = 1) as [-> | ->] by lia;
        [symmetry; apply Z.bits_0 | symmetry; apply Z.bits_above_log2; cbn; lia].
Qed.

(** X9: a square is its file and rank put together again, a file below 8
    and a rank come back out of the square they make, and a piece is its
    type and colour put together again. *)
Theorem square_and_piece_codes_round_trip :
  (forall sq, file_rank_to_square (get_file sq) (get_rank sq) = sq) /\
  (forall f r, 0 <= f < 8 ->
     get_file (file_rank_to_square f r) = f /\
     get_rank (file_rank_to_square f r) = r) /\
  (forall p, 0 <= p -> create_piece (get_piece_type p) (get_piece_color p) = p) /\
  (forall pt c, 0 <= pt -> 0 <= c < 2 ->
     get_piece_type (create_piece pt c) = pt /\
     get_piece_color (create_piece pt c) = c).
Proof.
  split; [| split; [| split]].
  - intros sq. unfold file_rank_to_square, get_file, get_rank.
    symmetry. apply Z.div_mod. lia.
  - intros f r Hf. unfold file_rank_to_square, get_file, get_rank. split.
    + rewrite Z.add_comm, Z.mul_comm, Z.mod_add by lia. apply Z.mod_small. assumption.
    + rewrite Z.add_comm, Z.mul_comm, Z.div_add by lia.
      rewrite Z.div_small by assumption. reflexivity.
  - exact piece_of_type_and_color.
  - exact create_piece_fields.
Qed.

Lemma square_and_piece_codes_round_trip_witness :
  get_file (file_rank_to_square 4 1) = 4 /\
  get_piece_type (create_piece PIECE_TYPE_QUEEN COLOR_BLACK) = PIECE_TYPE_QUEEN.
Proof.
  pose proof square_and_piece_codes_round_trip as (_ & Hsq & _ & Hpc).
  split.
  - apply (Hsq 4 1). lia.
  - apply (Hpc PIECE_TYPE_QUEEN COLOR_BLACK); unfold PIECE_TYPE_QUEEN, COLOR_BLACK; lia.
Defined.

End PosProps.

Module TTProps.
Import Pos TT.

(** ** [is_prime] and [find_prime] *)

Lemma wrap64_small (z : Z) : 0 <= z < 2 ^ 64 -> Bit.wrap64 z = z.
Proof. intros Hz. unfold Bit.wrap64. apply Z.mod_small. assumption. Qed.

Lemma square_below_2_64 (m : Z) : 0 <= m < 2 ^ 32 -> 0 <= m * m < 2 ^ 64.
Proof. intros Hm. change (2 ^ 64) with (2 ^ 32 * 2 ^ 32). nia. Qed.

Lemma is_prime_loop_correct (n : Z) :
  2 <= n <= 2 ^ 32 ->
  forall (fuel : nat) (m : Z),
    0 <= m <= n - 1 -> (Z.to_nat m < fuel)%nat ->
    (forall d, m < d < n -> ~ (d | n)) ->
    (prime n -> is_prime_loop fuel n m = Some true) /\
    (~ prime n -> is_prime_loop fuel n m = Some false).
Proof.
  intros Hn. induction fuel as [| fuel IH]; intros m Hm Hfuel Hinv; [lia |].
  cbn [is_prime_loop].
  rewrite wrap64_small by (apply square_below_2_64; lia).
  destruct (Z.geb_spec (m * m) n) as [Hge | Hlt].
  - assert (Hm2 : 2 <= m) by nia.
    destruct (Z.eqb_spec m 0) as [Hz | _]; [lia |].
    destruct (Z.eqb_spec (n mod m) 0) as [Hdiv | Hndiv].
    + assert (Hmn : (m | n)) by (apply Z.mod_divide; lia).
      split; [| reflexivity].
      intros Hp. exfalso.
      apply prime_alt in Hp. destruct Hp as [_ Hp]. apply (Hp m); [lia | assumption].
    + rewrite wrap64_small by lia. apply IH; [lia | lia |].
      intros d Hd Hdn. destruct (Z.eq_dec d m) as [-> | Hne].
      * apply Hndiv. apply Z.mod_divide; [lia | assumption].
      * apply (Hinv d); [lia | assumption].
  - assert (Hp : prime n).
    { apply prime_alt. split; [lia |]. intros d Hd Hdn.
      destruct (Z_le_gt_dec d m) as [Hdm | Hdm]; [| apply (Hinv d); [lia | assumption]].
      destruct Hdn as [e He].
      assert (He1 : 1 < e < n) by nia.
      destruct (Z_le_gt_dec e m) as [Hem | Hem]; [nia |].
      apply (Hinv e); [lia |]. exists d. lia. }
    split; [reflexivity |]. intros Hnp. contradiction.
Qed.

Lemma is_prime_correct (fuel : nat) (n : Z) :
  2 <= n <= 2 ^ 32 -> (Z.to_nat n <= fuel)%nat ->
  (prime n -> is_prime fuel n = Some true) /\
  (~ prime n -> is_prime fuel n = Some false).
Proof.
  intros Hn Hfuel. unfold is_prime. rewrite wrap64_small by lia.
  apply is_prime_loop_correct; [assumption | lia | lia |].
  intros d Hd. lia.
Qed.

(** X10: for 2 <= n <= 2^32 and fuel for n rounds, [is_prime] returns, true
    on the primes and false on the others; it calls 1 a prime and 0 not; and
    above 2^32 the product [m * m] wraps around, so that 2^32 + 2, an even
    number, is called a prime after two rounds. *)
Theorem is_prime_decides_primality_to_2_32 :
  (forall (fuel : nat) (n : Z),
     2 <= n <= 2 ^ 32 -> (Z.to_nat n <= fuel)%nat ->
     (prime n -> is_prime fuel n = Some true) /\
     (~ prime n -> is_prime fuel n = Some false)) /\
  (forall fuel : nat, (1 <= fuel)%nat ->
     is_prime fuel 1 = Some true /\ is_prime fuel 0 = Some false) /\
  (forall fuel : nat, (2 <= fuel)%nat ->
     is_prime fuel (2 ^ 32 + 2) = Some true /\ ~ prime (2 ^ 32 + 2)).
Proof.
  split; [intros fuel n; apply is_prime_correct |]. split.
  - intros [| fuel] Hfuel; [lia |]. split; reflexivity.
  - intros [| [| fuel]] Hfuel; try lia. split.
    + unfold is_prime. cbn [is_prime_loop].
      change (Bit.wrap64 (2 ^ 32 + 2 - 1)) with (2 ^ 32 + 1).
      change (Bit.wrap64 ((2 ^ 32 + 1) * (2 ^ 32 + 1)) >=? 2 ^ 32 + 2) with true.
      change (2 ^ 32 + 1 =? 0) with false.
      change ((2 ^ 32 + 2) mod (2 ^ 32 + 1) =? 0) with false.
      cbv iota.
      change (Bit.wrap64 (2 ^ 32 + 1 - 1)) with (2 ^ 32).
      change (Bit.wrap64 (2 ^ 32 * 2 ^ 32) >=? 2 ^ 32 + 2) with false.
      reflexivity.
    + intros Hp. apply prime_alt in Hp. destruct Hp as [_ Hp].
      apply (Hp 2); [lia |]. exists (2 ^ 31 + 1). reflexivity.
Qed.

Lemma is_prime_decides_primality_to_2_32_witness :
  is_prime 13 13 = Some true /\ is_prime 15 15 = Some false.
Proof.
  pose proof is_prime_decides_primality_to_2_32 as [H _].
  split.
  - apply (H 13%nat 13); [lia | lia |].
    apply prime_alt. split; [lia |]. intros d Hd [e He].
    assert (d = 2 \/ d = 3 \/ d = 4 \/ d = 5 \/ d = 6 \/ d = 7 \/ d = 8 \/ d = 9 \/
            d = 10 \/ d = 11 \/ d = 12) by lia.
    intuition (subst; lia).
  - apply (H 15%nat 15); [lia | lia |].
    intros Hp. apply prime_alt in Hp. destruct Hp as [_ Hp].
    apply (Hp 3); [lia |]. exists 5. reflexivity.
Defined.

Lemma find_prime_correct :
  forall (fuel : nat) (n : Z),
    2 <= n <= 2 ^ 32 -> (Z.to_nat n + 2 <= fuel)%nat ->
    exists p, find_prime fuel n = Some (Prime p) /\ prime p /\ p <= n /\
              forall q, prime q -> q <= n -> q <= p.
Proof.
  induction fuel as [| fuel IH]; intros n Hn Hfuel; [lia |].
  cbn [find_prime]. destruct (Z.gtb_spec n 0) as [_ | Hle]; [| lia].
  destruct (is_prime_correct fuel n Hn) as [Hyes Hno]; [lia |].
  destruct (prime_dec n) as [Hp | Hnp].
  - rewrite (Hyes Hp). exists n. split; [reflexivity |]. split; [assumption |].
    split; [lia |]. intros q _ Hq. exact Hq.
  - rewrite (Hno Hnp).
    assert (Hn3 : 3 <= n).
    { destruct (Z.eq_dec n 2) as [-> | Hne]; [exfalso; apply Hnp; apply prime_alt; split; [lia | intros d Hd; lia] | lia]. }
    rewrite wrap64_small by lia.
    destruct (IH (n - 1)) as (p & Hfind & Hprime & Hle & Hmax); [lia | lia |].
    exists p. split; [exact Hfind |]. split; [assumption |]. split; [lia |].
    intros q Hq Hqn. apply Hmax; [assumption |].
    destruct (Z.eq_dec q n) as [-> | Hne]; [contradiction | lia].
Qed.

(** X11: for 2 <= n <= 2^32 [find_prime] returns the greatest prime that is
    at most n; [find_prime(1)] returns 1, and [find_prime(0)] ends the
    program with "Internal error.". *)
Theorem find_prime_greatest_prime_below :
  (forall (fuel : nat) (n : Z),
     2 <= n <= 2 ^ 32 -> (Z.to_nat n + 2 <= fuel)%nat ->
     exists p, find_prime fuel n = Some (Prime p) /\ prime p /\ p <= n /\
               forall q, prime q -> q <= n -> q <= p) /\
  (forall fuel : nat, (2 <= fuel)%nat -> find_prime fuel 1 = Some (Prime 1)) /\
  (forall fuel : nat, (1 <= fuel)%nat -> find_prime fuel 0 = Some InternalError).
Proof.
  split; [exact find_prime_correct |]. split.
  - intros [| [| fuel]] Hfuel; try lia. reflexivity.
  - intros [| fuel] Hfuel; [lia |]. reflexivity.
Qed.

Lemma find_prime_greatest_prime_below_witness :
  exists p, find_prime 12 10 = Some (Prime p) /\ prime p /\ p <= 10 /\
            forall q, prime q -> q <= 10 -> q <= p.
Proof.
  pose proof find_prime_greatest_prime_below as [H _].
  apply (H 12%nat 10); lia.
Defined.

(** ** The table *)

Section Table.

Variable zobrist_numbers : Z -> Z.
Variable tt_capacity : Z.

Notation hash_pos := (hash_pos zobrist_numbers).
Notation get_tt_entry := (Search.get_tt_entry zobrist_numbers tt_capacity).
Notation store_tt_entry := (Search.store_tt_entry tt_capacity).
Notation init_tt_entry := (Search.init_tt_entry zobrist_numbers).

(** X12: an entry stored for a position is what the next probe of that
    position returns, and of any position with the same hash; a probe of a
    position that falls into another slot is not affected; a position that
    falls into the same slot with another hash loses its entry and misses.
    The table always replaces. *)
Theorem tt_store_then_probe (table : Z -> Search.node_data)
    (score depth type best_move : Z) (p : position) :
  0 < tt_capacity ->
  let data := init_tt_entry score depth type best_move p in
  let table' := store_tt_entry table data in
  (forall q, hash_pos q = hash_pos p -> get_tt_entry table' q = Some data) /\
  (forall q, hash_pos q mod tt_capacity <> hash_pos p mod tt_capacity ->
             get_tt_entry table' q = get_tt_entry table q) /\
  (forall q, hash_pos q mod tt_capacity = hash_pos p mod tt_capacity ->
             hash_pos q <> hash_pos p -> get_tt_entry table' q = None).
Proof.
  intros _. cbv zeta.
  unfold Search.get_tt_entry, Search.store_tt_entry, Search.init_tt_entry,
    Search.fupd, Search.hash_pos.
  cbn [Search.nd_hash].
  split; [| split].
  - intros q Hq. rewrite Hq, Z.eqb_refl. cbn [Search.nd_hash].
    rewrite Z.eqb_refl. reflexivity.
  - intros q Hq. destruct (Z.eqb_spec (hash_pos q mod tt_capacity)
                                      (hash_pos p mod tt_capacity)); [contradiction |].
    reflexivity.
  - intros q Hslot Hne. rewrite Hslot, Z.eqb_refl. cbn [Search.nd_hash].
    destruct (Z.eqb_spec (hash_pos q) (hash_pos p)); [contradiction | reflexivity].
Qed.

(** ** The hash and [pos_equal] *)

Lemma same_board_of_same_bitboards (p q : position) :
  consistent_view p -> consistent_view q ->
  (forall c, 0 <= c < 2 -> get_color_bitboard p c = get_color_bitboard q c) ->
  (forall t, 0 <= t < 6 -> get_type_bitboard p t = get_type_bitboard q t) ->
  forall sq, 0 <= sq < 64 -> get_piece_at p sq = get_piece_at q sq.
Proof.
  intros (_ & _ & _ & _ & _ & Hp) (_ & _ & _ & _ & _ & Hq) Hcol Htyp sq Hsq.
  destruct (Hp sq Hsq) as (Hvp & Hcp & Htp). destruct (Hq sq Hsq) as (Hvq & Hcq & Htq).
  cbv zeta in *.
  set (a := get_piece_at p sq) in *. set (b := get_piece_at q sq) in *.
  assert (Hc : forall c, 0 <= c < 2 ->
            negb (a =? PIECE_NONE) && (get_piece_color a =? c) =
            negb (b =? PIECE_NONE) && (get_piece_color b =? c)).
  { intros c Hc. rewrite <- Hcp, <- Hcq, Hcol by assumption. reflexivity. }
  assert (Ht : forall t, 0 <= t < 6 ->
            negb (a =? PIECE_NONE) && (get_piece_type a =? t) =
            negb (b =? PIECE_NONE) && (get_piece_type b =? t)).
  { intros t Ht. rewrite <- Htp, <- Htq, Htyp by assumption. reflexivity. }
  pose proof (PosProps.piece_color_range a (proj1 Hvp)) as Hca.
  pose proof (PosProps.piece_color_range b (proj1 Hvq)) as Hcb.
  destruct (Z.eqb_spec a PIECE_NONE) as [Ha | Ha], (Z.eqb_spec b PIECE_NONE) as [Hb | Hb];
    cbn [negb andb] in Hc, Ht.
  - congruence.
  - specialize (Hc (get_piece_color b) Hcb). rewrite Z.eqb_refl in Hc. discriminate.
  - specialize (Hc (get_piece_color a) Hca). rewrite Z.eqb_refl in Hc. discriminate.
  - assert (Ha12 : 0 <= a < 12) by (unfold PIECE_NONE in *; lia).
    assert (Hb12 : 0 <= b < 12) by (unfold PIECE_NONE in *; lia).
    pose proof (Hc (get_piece_color a) Hca) as Hc1. rewrite Z.eqb_refl in Hc1.
    pose proof (Ht (get_piece_type a) (PosProps.piece_type_range a Ha12)) as Ht1.
    rewrite Z.eqb_refl in Ht1.
    apply Z.eqb_eq. rewrite <- (PosProps.piece_of_fields a b) by lia.
    rewrite (Z.eqb_sym (get_piece_color a)), (Z.eqb_sym (get_piece_type a)).
    rewrite <- Hc1, <- Ht1. reflexivity.
Qed.

Lemma fold_left_ext_in {A B : Type} (f g : A -> B -> A) (l : list B) :
  (forall x y, In y l -> f x y = g x y) ->
  forall a, fold_left f l a = fold_left g l a.
Proof.
  induction l as [| b l IH]; intros Hfg a; [reflexivity |].
  cbn [fold_left]. rewrite Hfg by (left; reflexivity).
  apply IH. intros x y Hy. apply Hfg. right. assumption.
Qed.

(** X13: two positions that [pos_equal] takes for the same, each with its
    board array and bitboards in agreement, have the same hash, whatever the
    Zobrist numbers: the repetition counters keyed by the hash count what
    [pos_equal] compares. *)
Theorem pos_equal_positions_hash_alike (p q : position) :
  board_consistent p = true -> board_consistent q = true ->
  pos_equal p q = true ->
  hash_pos p = hash_pos q.
Proof.
  intros Hp Hq Heq. apply PosProps.board_consistent_view in Hp, Hq.
  apply PosFacts.pos_equal_spec in Heq.
  destruct Heq as (Hside & Hrights & Hep & Hepsq & Hw & Hb & Htypes).
  assert (Hboard : forall sq, 0 <= sq < 64 -> get_piece_at p sq = get_piece_at q sq).
  { apply same_board_of_same_bitboards; try assumption.
    - intros c Hc. assert (c = 0 \/ c = 1) as [-> | ->] by lia; assumption.
    - intros t Ht. apply Htypes.
      assert (t = 0 \/ t = 1 \/ t = 2 \/ t = 3 \/ t = 4 \/ t = 5)
        as [-> | [-> | [-> | [-> | [-> | ->]]]]] by lia; cbn; auto 10. }
  assert (Hpossible : enpassant_possible p = enpassant_possible q).
  { unfold enpassant_possible in *.
    destruct (PosFacts.land_bit7_cases (castling_rights_and_enpassant (cur_irr p)))
      as [H1 | H1],
      (PosFacts.land_bit7_cases (castling_rights_and_enpassant (cur_irr q)))
      as [H2 | H2]; rewrite H1, H2 in *; try reflexivity; exfalso;
      [apply (proj2 Hep) | apply (proj1 Hep)]; try discriminate; reflexivity. }
  unfold TT.hash_pos.
  assert (Hpieces : hash_pieces zobrist_numbers p = hash_pieces zobrist_numbers q).
  { unfold hash_pieces. apply fold_left_ext_in. intros key sq Hin.
    apply BitFacts.in_squares in Hin. rewrite (Hboard sq Hin). reflexivity. }
  assert (Hindex : castling_index p = castling_index q).
  { rewrite !TTFacts.castling_index_black.
    rewrite !(Hrights COLOR_BLACK) by (cbn; auto). reflexivity. }
  rewrite Hpieces, Hindex, Hpossible, Hside.
  destruct (Z.eqb_spec (enpassant_possible q) 0) as [Hz | Hnz]; cbn [negb].
  - reflexivity.
  - rewrite Hepsq by congruence. reflexivity.
Qed.

End Table.

Lemma tt_store_then_probe_witness :
  Search.get_tt_entry Search.ex_zobrist Search.ex_capacity
    (Search.store_tt_entry Search.ex_capacity
       (Search.tt (Search.ex_state pos_start 0))
       (Search.init_tt_entry Search.ex_zobrist 25 3 Search.NODE_TYPE_EXACT 0 pos_start))
    pos_start
  = Some (Search.init_tt_entry Search.ex_zobrist 25 3 Search.NODE_TYPE_EXACT 0 pos_start).
Proof.
  assert (Hcap : 0 < Search.ex_capacity) by reflexivity.
  apply (proj1 (tt_store_then_probe Search.ex_zobrist Search.ex_capacity
                  (Search.tt (Search.ex_state pos_start 0)) 25 3
                  Search.NODE_TYPE_EXACT 0 pos_start Hcap)).
  reflexivity.
Defined.

Lemma pos_equal_positions_hash_alike_witness :
  hash_pos (fun i => i + 1) pos_start =
  hash_pos (fun i => i + 1) (with_clocks pos_start 7 12).
Proof.
  apply pos_equal_positions_hash_alike; vm_compute; reflexivity.
Defined.

End TTProps.

Module MovegenProps.
Import Pos Move Movegen.

(** ** Knights, kings and pawns *)

Lemma leaper_tables_checked :
  forallb
    (fun sq =>
       forallb
         (fun t =>
            Bool.eqb (Z.testbit (get_knight_attacks sq) t) (knight_jump sq t) &&
            Bool.eqb (Z.testbit (get_king_attacks sq) t) (king_step sq t) &&
            Bool.eqb (Z.testbit (get_pawn_attacks sq COLOR_WHITE) t)
                     (pawn_capture_step COLOR_WHITE sq t) &&
            Bool.eqb (Z.testbit (get_pawn_attacks sq COLOR_BLACK) t)
                     (pawn_capture_step COLOR_BLACK sq t) &&
            u64b (get_knight_attacks sq) && u64b (get_king_attacks sq) &&
            u64b (get_pawn_attacks sq COLOR_WHITE) &&
            u64b (get_pawn_attacks sq COLOR_BLACK))
         (zrange 64))
    (zrange 64) = true.
Proof. vm_compute. reflexivity. Qed.

(** X14: the attack sets of the knight, the king and the pawn are the
    geometry of the board: from a square the knight attacks exactly the
    squares one file and two ranks, or two files and one rank away, the king
    exactly the neighbouring squares, a pawn exactly the squares one file
    aside on the next rank in its direction; no set has a bit beyond the 64
    squares, so nothing wraps around an edge of the board. *)
Theorem leaper_attacks_are_board_geometry (sq t : Z) :
  0 <= sq < 64 -> 0 <= t < 64 ->
  Z.testbit (get_knight_attacks sq) t = knight_jump sq t /\
  Z.testbit (get_king_attacks sq) t = king_step sq t /\
  Z.testbit (get_pawn_attacks sq COLOR_WHITE) t = pawn_capture_step COLOR_WHITE sq t /\
  Z.testbit (get_pawn_attacks sq COLOR_BLACK) t = pawn_capture_step COLOR_BLACK sq t /\
  is_u64 (get_knight_attacks sq) /\ is_u64 (get_king_attacks sq) /\
  is_u64 (get_pawn_attacks sq COLOR_WHITE) /\ is_u64 (get_pawn_attacks sq COLOR_BLACK).
Proof.
  intros Hsq Ht.
  pose proof (PosProps.forallb_zrange2 64 64 _ leaper_tables_checked sq t Hsq Ht) as H.
  cbv beta in H. rewrite !andb_true_iff in H.
  destruct H as (((((((H1 & H2) & H3) & H4) & H5) & H6) & H7) & H8).
  apply Bool.eqb_prop in H1, H2, H3, H4.
  apply PosProps.u64b_spec in H5, H6, H7, H8.
  tauto.
Qed.

Lemma leaper_attacks_are_board_geometry_witness :
  Z.testbit (get_knight_attacks G1) 21 = knight_jump G1 21 /\
  Z.testbit (get_king_attacks H1) 8 = king_step H1 8.
Proof.
  assert (H7 : 0 <= 7 < 64) by lia. assert (H6 : 0 <= 6 < 64) by lia.
  assert (H21 : 0 <= 21 < 64) by lia. assert (H8 : 0 <= 8 < 64) by lia.
  split.
  - exact (proj1 (leaper_attacks_are_board_geometry G1 21 H6 H21)).
  - exact (proj1 (proj2 (leaper_attacks_are_board_geometry H1 8 H7 H8))).
Defined.

(** ** Pawn pushes *)

Lemma land_pow2_lnot (k occ : Z) :
  0 <= k -> Z.land (2 ^ k) (Z.lnot occ) = if Z.testbit occ k then 0 else 2 ^ k.
Proof.
  intros Hk. apply Z.bits_inj'. intros n Hn.
  rewrite Z.land_spec, Z.lnot_spec, Z.pow2_bits_eqb by lia.
  destruct (Z.eqb_spec k n) as [<- | Hne].
  - destruct (Z.testbit occ k); [rewrite Z.bits_0 | rewrite Z.pow2_bits_eqb, Z.eqb_refl by lia];
      reflexivity.
  - destruct (Z.testbit occ k); [rewrite Z.bits_0 | rewrite Z.pow2_bits_eqb by lia];
      [reflexivity |]. destruct (Z.eqb_spec k n); [contradiction | reflexivity].
Qed.

Lemma land_pow2_mask (k m : Z) :
  0 <= k -> Z.land (2 ^ k) m = if Z.testbit m k then 2 ^ k else 0.
Proof.
  intros Hk. apply Z.bits_inj'. intros n Hn.
  rewrite Z.land_spec, Z.pow2_bits_eqb by lia.
  destruct (Z.eqb_spec k n) as [<- | Hne].
  - destruct (Z.testbit m k); [rewrite Z.pow2_bits_eqb, Z.eqb_refl by lia | rewrite Z.bits_0];
      reflexivity.
  - destruct (Z.testbit m k); [rewrite Z.pow2_bits_eqb by lia | rewrite Z.bits_0];
      [| reflexivity]. destruct (Z.eqb_spec k n); [contradiction | reflexivity].
Qed.

Lemma move_north_square (k : Z) :
  0 <= k < 64 ->
  move_north (2 ^ k) 1 = if k + 8 <? 64 then 2 ^ (k + 8) else 0.
Proof.
  intros Hk. unfold move_north, Bit.wrap64. change (8 * 1) with 8.
  rewrite Z.shiftl_mul_pow2, <- Z.pow_add_r by lia.
  destruct (Z.ltb_spec (k + 8) 64) as [Hlt | Hge].
  - apply Z.mod_small. split; [apply Z.pow_nonneg; lia |].
    apply Z.pow_lt_mono_r; lia.
  - replace (k + 8) with (64 + (k + 8 - 64)) by lia.
    rewrite Z.pow_add_r by lia. rewrite Z.mul_comm. apply Z.mod_mul. lia.
Qed.

Lemma move_south_square (k : Z) :
  0 <= k < 64 ->
  move_south (2 ^ k) 1 = if 8 <=? k then 2 ^ (k - 8) else 0.
Proof.
  intros Hk. unfold move_south. change (8 * 1) with 8.
  destruct (Z.leb_spec 8 k) as [Hge | Hlt].
  - rewrite Z.shiftr_div_pow2 by lia.
    rewrite <- Z.pow_sub_r by lia. reflexivity.
  - rewrite Z.shiftr_div_pow2 by lia. apply Z.div_small.
    split; [apply Z.pow_nonneg; lia |]. apply Z.pow_lt_mono_r; lia.
Qed.

Lemma move_north_0 : move_north 0 1 = 0.
Proof. reflexivity. Qed.

Lemma move_south_0 : move_south 0 1 = 0.
Proof. reflexivity. Qed.

Lemma rank4_bit (k : Z) :
  0 <= k < 64 -> Z.testbit (rank_bitboards RANK_4) k = (24 <=? k) && (k <? 32).
Proof.
  intros Hk.
  assert (H : forallb (fun k => Bool.eqb (Z.testbit (rank_bitboards RANK_4) k)
                                         ((24 <=? k) && (k <? 32))) (zrange 64) = true)
    by (vm_compute; reflexivity).
  rewrite PosProps.forallb_zrange in H. apply Bool.eqb_prop. apply H. assumption.
Qed.

Lemma rank5_bit (k : Z) :
  0 <= k < 64 -> Z.testbit (rank_bitboards RANK_5) k = (32 <=? k) && (k <? 40).
Proof.
  intros Hk.
  assert (H : forallb (fun k => Bool.eqb (Z.testbit (rank_bitboards RANK_5) k)
                                         ((32 <=? k) && (k <? 40))) (zrange 64) = true)
    by (vm_compute; reflexivity).
  rewrite PosProps.forallb_zrange in H. apply Bool.eqb_prop. apply H. assumption.
Qed.

(** X15: a single push goes to the square straight ahead when that square
    is on the board and empty, and nowhere otherwise; a double push exists
    only for a pawn on its starting rank (rank 2 for White, rank 7 for
    Black) with both squares ahead empty, and goes two squares ahead. *)
Theorem pawn_pushes_need_empty_squares (sq occ : Z) :
  0 <= sq < 64 ->
  get_single_push sq occ COLOR_WHITE =
    (if (sq + 8 <? 64) && negb (Z.testbit occ (sq + 8)) then Z.shiftl 1 (sq + 8) else 0) /\
  get_single_push sq occ COLOR_BLACK =
    (if (8 <=? sq) && negb (Z.testbit occ (sq - 8)) then Z.shiftl 1 (sq - 8) else 0) /\
  get_double_push sq occ COLOR_WHITE =
    (if (get_rank sq =? 1) && negb (Z.testbit occ (sq + 8)) &&
        negb (Z.testbit occ (sq + 16))
     then Z.shiftl 1 (sq + 16) else 0) /\
  get_double_push sq occ COLOR_BLACK =
    (if (get_rank sq =? 6) && negb (Z.testbit occ (sq - 8)) &&
        negb (Z.testbit occ (sq - 16))
     then Z.shiftl 1 (sq - 16) else 0).
Proof.
  intros Hsq.
  assert (Hranks : forallb
                     (fun sq => Bool.eqb (get_rank sq =? 1) ((8 <=? sq) && (sq <? 16)) &&
                                Bool.eqb (get_rank sq =? 6) ((48 <=? sq) && (sq <? 56)))
                     (zrange 64) = true) by (vm_compute; reflexivity).
  rewrite PosProps.forallb_zrange in Hranks. specialize (Hranks sq Hsq).
  apply andb_true_iff in Hranks. destruct Hranks as [Hr1 Hr6].
  apply Bool.eqb_prop in Hr1, Hr6.
  assert (Hw : get_single_push sq occ COLOR_WHITE =
               if (sq + 8 <? 64) && negb (Z.testbit occ (sq + 8))
               then 2 ^ (sq + 8) else 0).
  { unfold get_single_push. change (COLOR_WHITE =? COLOR_WHITE) with true. cbv iota.
    rewrite Z.shiftl_1_l, move_north_square by assumption.
    destruct (Z.ltb_spec (sq + 8) 64); cbn [andb]; [| reflexivity].
    rewrite land_pow2_lnot by lia. destruct (Z.testbit occ (sq + 8)); reflexivity. }
  assert (Hb : get_single_push sq occ COLOR_BLACK =
               if (8 <=? sq) && negb (Z.testbit occ (sq - 8))
               then 2 ^ (sq - 8) else 0).
  { unfold get_single_push. change (COLOR_BLACK =? COLOR_WHITE) with false. cbv iota.
    rewrite Z.shiftl_1_l, move_south_square by assumption.
    destruct (Z.leb_spec 8 sq); cbn [andb]; [| reflexivity].
    rewrite land_pow2_lnot by lia. destruct (Z.testbit occ (sq - 8)); reflexivity. }
  split; [| split; [| split]].
  - rewrite Hw, Z.shiftl_1_l. reflexivity.
  - rewrite Hb, Z.shiftl_1_l. reflexivity.
  - unfold get_double_push. change (COLOR_WHITE =? COLOR_WHITE) with true. cbv iota.
    rewrite Hw, Hr1, Z.shiftl_1_l.
    destruct (Z.ltb_spec (sq + 8) 64) as [H8 | H8]; cbn [andb].
    + destruct (Z.testbit occ (sq + 8)); cbn [negb andb].
      * rewrite move_north_0. rewrite !andb_false_r. reflexivity.
      * rewrite move_north_square by lia. replace (sq + 8 + 8) with (sq + 16) by lia.
        destruct (Z.ltb_spec (sq + 16) 64) as [H16 | H16].
        -- rewrite land_pow2_lnot by lia.
           destruct (Z.testbit occ (sq + 16)); cbn [negb];
             rewrite ?andb_false_r, ?andb_true_r; [reflexivity |].
           rewrite land_pow2_mask, rank4_bit by lia.
           destruct (Z.leb_spec 24 (sq + 16)), (Z.ltb_spec (sq + 16) 32),
             (Z.leb_spec 8 sq), (Z.ltb_spec sq 16); cbn; try reflexivity; lia.
        -- destruct (Z.leb_spec 8 sq), (Z.ltb_spec sq 16); cbn; try reflexivity; lia.
    + rewrite move_north_0.
      destruct (Z.leb_spec 8 sq), (Z.ltb_spec sq 16); cbn; try reflexivity; lia.
  - unfold get_double_push. change (COLOR_BLACK =? COLOR_WHITE) with false. cbv iota.
    rewrite Hb, Hr6, Z.shiftl_1_l.
    destruct (Z.leb_spec 8 sq) as [H8 | H8]; cbn [andb].
    + destruct (Z.testbit occ (sq - 8)); cbn [negb andb].
      * rewrite move_south_0. rewrite !andb_false_r. reflexivity.
      * rewrite move_south_square by lia. replace (sq - 8 - 8) with (sq - 16) by lia.
        replace (8 <=? sq - 8) with (16 <=? sq) by (destruct (Z.leb_spec 16 sq), (Z.leb_spec 8 (sq - 8)); try reflexivity; lia).
        destruct (Z.leb_spec 16 sq) as [H16 | H16].
        -- rewrite land_pow2_lnot by lia.
           destruct (Z.testbit occ (sq - 16)); cbn [negb];
             rewrite ?andb_false_r, ?andb_true_r; [reflexivity |].
           rewrite land_pow2_mask, rank5_bit by lia.
           destruct (Z.leb_spec 32 (sq - 16)), (Z.ltb_spec (sq - 16) 40),
             (Z.leb_spec 48 sq), (Z.ltb_spec sq 56); cbn; try reflexivity; lia.
        -- destruct (Z.leb_spec 48 sq), (Z.ltb_spec sq 56); cbn; try reflexivity; lia.
    + rewrite move_south_0.
      destruct (Z.leb_spec 48 sq), (Z.ltb_spec sq 56); cbn; try reflexivity; lia.
Qed.

Lemma pawn_pushes_need_empty_squares_witness :
  get_double_push 12 0 COLOR_WHITE = Z.shiftl 1 28 /\
  get_double_push 20 0 COLOR_WHITE = 0.
Proof.
  assert (H12 : 0 <= 12 < 64) by lia. assert (H20 : 0 <= 20 < 64) by lia.
  split.
  - exact (proj1 (proj2 (proj2 (pawn_pushes_need_empty_squares 12 0 H12)))).
  - exact (proj1 (proj2 (proj2 (pawn_pushes_need_empty_squares 20 0 H20)))).
Defined.

(** ** Sliding attacks *)

Lemma testbit_shiftl_1 (s n : Z) : 0 <= s -> Z.testbit (Z.shiftl 1 s) n = (s =? n).
Proof. intros Hs. rewrite Z.shiftl_1_l. apply Z.pow2_bits_eqb. assumption. Qed.

Lemma testbit_bb_of_squares (l : list Z) (t : Z) :
  (forall s, In s l -> 0 <= s) ->
  Z.testbit (bb_of_squares l) t = existsb (fun s => s =? t) l.
Proof.
  induction l as [| a l IH]; intros Hpos; cbn [bb_of_squares fold_right existsb].
  - apply Z.bits_0.
  - rewrite Z.lor_spec, testbit_shiftl_1 by (apply Hpos; left; reflexivity).
    f_equal. apply IH. intros s Hs. apply Hpos. right. assumption.
Qed.

Lemma bb_of_squares_app (l1 l2 : list Z) :
  bb_of_squares (l1 ++ l2) = Z.lor (bb_of_squares l1) (bb_of_squares l2).
Proof.
  induction l1 as [| a l1 IH]; cbn [bb_of_squares fold_right app]; [reflexivity |].
  fold (bb_of_squares (l1 ++ l2)). fold (bb_of_squares l1).
  rewrite IH. apply Z.lor_assoc.
Qed.

Lemma land_bb_of_squares (l : list Z) (occ : Z) :
  (forall s, In s l -> 0 <= s) ->
  Z.land (bb_of_squares l) occ = bb_of_squares (filter (Z.testbit occ) l).
Proof.
  induction l as [| a l IH]; intros Hpos; cbn [bb_of_squares fold_right filter].
  - reflexivity.
  - fold (bb_of_squares l). rewrite Z.land_lor_distr_l, IH
      by (intros s Hs; apply Hpos; right; assumption).
    rewrite Z.shiftl_1_l, land_pow2_mask by (apply Hpos; left; reflexivity).
    destruct (Z.testbit occ a); cbn [bb_of_squares fold_right].
    + rewrite Z.shiftl_1_l. reflexivity.
    + reflexivity.
Qed.

Lemma filter_in_sublists {A : Type} (f : A -> bool) (l : list A) :
  In (filter f l) (sublists l).
Proof.
  induction l as [| a l IH]; cbn [filter sublists]; [left; reflexivity |].
  apply in_or_app. destruct (f a).
  - left. apply in_map. assumption.
  - right. assumption.
Qed.

Lemma reach_ext (occ1 occ2 : Z) (l : list Z) :
  (forall s, In s l -> Z.testbit occ1 s = Z.testbit occ2 s) ->
  reach occ1 l = reach occ2 l.
Proof.
  induction l as [| a l IH]; intros H; cbn [reach]; [reflexivity |].
  rewrite (H a) by (left; reflexivity).
  rewrite IH by (intros s Hs; apply H; right; assumption). reflexivity.
Qed.

Lemma walk_range (n : nat) (df dr : Z) :
  forall f r s, In s (walk n df dr f r) -> 0 <= s < 64.
Proof.
  induction n as [| n IH]; intros f r s Hin; [destruct Hin |].
  cbn [walk] in Hin.
  destruct ((0 <=? f + df) && (f + df <? 8) && (0 <=? r + dr) && (r + dr <? 8)) eqn:Hb;
    [| destruct Hin].
  rewrite !andb_true_iff, !Z.leb_le, !Z.ltb_lt in Hb.
  destruct Hin as [<- | Hin]; [unfold file_rank_to_square; lia | eapply IH; eassumption].
Qed.

Lemma ray_squares_range (dir : Direction) (sq s : Z) :
  In s (ray_squares dir sq) -> 0 <= s < 64.
Proof. apply walk_range. Qed.

Lemma gen_ray_attacks_land (occ : Z) (dir : Direction) (sq : Z) :
  gen_ray_attacks (Z.land (ray_bitboards dir sq) occ) dir sq = gen_ray_attacks occ dir sq.
Proof.
  unfold gen_ray_attacks. rewrite Z.land_assoc, Z.land_diag. reflexivity.
Qed.

Lemma gen_ray_attacks_same (a b : Z) (dir : Direction) (sq : Z) :
  Z.land (ray_bitboards dir sq) a = Z.land (ray_bitboards dir sq) b ->
  gen_ray_attacks a dir sq = gen_ray_attacks b dir sq.
Proof. intros H. unfold gen_ray_attacks. rewrite H. reflexivity. Qed.

(** Every ray, against every way of occupying its squares: the ray table,
    the attack set, and the attack set under the mask of the magic lookup. *)
Lemma rays_checked :
  forallb
    (fun dir =>
       forallb
         (fun sq =>
            let squares := ray_squares dir sq in
            let mask :=
              if existsb (fun d => match d, dir with
                                   | NORTH, NORTH | EAST, EAST | SOUTH, SOUTH
                                   | WEST, WEST => true
                                   | _, _ => false
                                   end) rook_directions
              then magic_mask slow_gen_rook_attacks sq
              else magic_mask slow_gen_bishop_attacks sq in
            (ray_bitboards dir sq =? bb_of_squares squares) &&
            forallb
              (fun sub =>
                 let occ := bb_of_squares sub in
                 (gen_ray_attacks occ dir sq =? bb_of_squares (reach occ squares)) &&
                 (gen_ray_attacks (Z.land occ mask) dir sq =? gen_ray_attacks occ dir sq))
              (sublists squares))
         (zrange 64))
    all_directions = true.
Proof. vm_compute. reflexivity. Qed.

Lemma in_all_directions (dir : Direction) : In dir all_directions.
Proof. destruct dir; cbn; auto 10. Qed.

Lemma ray_facts (dir : Direction) (sq occ : Z) :
  0 <= sq < 64 ->
  let squares := ray_squares dir sq in
  let mask :=
    match dir with
    | NORTH | EAST | SOUTH | WEST => magic_mask slow_gen_rook_attacks sq
    | _ => magic_mask slow_gen_bishop_attacks sq
    end in
  ray_bitboards dir sq = bb_of_squares squares /\
  gen_ray_attacks occ dir sq = bb_of_squares (reach occ squares) /\
  gen_ray_attacks (Z.land occ mask) dir sq = gen_ray_attacks occ dir sq.
Proof.
  intros Hsq. cbv zeta.
  pose proof rays_checked as H. rewrite forallb_forall in H.
  specialize (H dir (in_all_directions dir)).
  rewrite PosProps.forallb_zrange in H. specialize (H sq Hsq). cbv zeta in H.
  apply andb_true_iff in H. destruct H as [Hray Hsubs].
  apply Z.eqb_eq in Hray. rewrite forallb_forall in Hsubs.
  set (squares := ray_squares dir sq) in *.
  assert (Hpos : forall s, In s squares -> 0 <= s)
    by (intros s Hs; apply (ray_squares_range dir sq s Hs)).
  set (sub := filter (Z.testbit occ) squares).
  assert (Hocc : Z.land (ray_bitboards dir sq) occ = bb_of_squares sub)
    by (rewrite Hray; apply land_bb_of_squares; assumption).
  specialize (Hsubs sub (filter_in_sublists _ _)). cbv zeta in Hsubs.
  apply andb_true_iff in Hsubs. destruct Hsubs as [Hreach Hmask].
  apply Z.eqb_eq in Hreach, Hmask.
  split; [exact Hray |]. split.
  - rewrite <- gen_ray_attacks_land, Hocc, Hreach. f_equal.
    apply reach_ext. intros s Hs. rewrite <- Hocc, Z.land_spec, Hray.
    rewrite testbit_bb_of_squares by assumption.
    assert (Hex : existsb (fun s0 => s0 =? s) squares = true)
      by (apply existsb_exists; exists s; split; [assumption | apply Z.eqb_refl]).
    rewrite Hex. reflexivity.
  - match goal with |- gen_ray_attacks (Z.land occ ?m) dir sq = _ => set (mask := m) end.
    assert (Hmask' : gen_ray_attacks (Z.land (bb_of_squares sub) mask) dir sq
                     = gen_ray_attacks (bb_of_squares sub) dir sq).
    { rewrite <- Hmask. f_equal. f_equal. unfold mask. destruct dir; reflexivity. }
    transitivity (gen_ray_attacks (Z.land (bb_of_squares sub) mask) dir sq).
    + apply gen_ray_attacks_same. rewrite <- Hocc.
      apply Z.bits_inj'. intros n Hn. rewrite !Z.land_spec.
      destruct (Z.testbit (ray_bitboards dir sq) n), (Z.testbit occ n),
        (Z.testbit mask n); reflexivity.
    + rewrite Hmask'. apply gen_ray_attacks_same. rewrite <- Hocc.
      rewrite Z.land_assoc, Z.land_diag. reflexivity.
Qed.

Lemma reach_incl (occ : Z) (l : list Z) (s : Z) : In s (reach occ l) -> In s l.
Proof.
  induction l as [| a l IH]; cbn [reach]; [auto |].
  destruct (Z.testbit occ a); intros [-> | H]; cbn; auto. destruct H.
Qed.

Lemma slider_reach_range (dirs : list Direction) (sq occ s : Z) :
  In s (slider_reach dirs sq occ) -> 0 <= s < 64.
Proof.
  unfold slider_reach. rewrite in_flat_map. intros (dir & _ & Hs).
  apply reach_incl in Hs. apply (ray_squares_range dir sq s Hs).
Qed.

Lemma testbit_slider_reach (dirs : list Direction) (sq occ t : Z) :
  Z.testbit (bb_of_squares (slider_reach dirs sq occ)) t = true <->
  In t (slider_reach dirs sq occ).
Proof.
  rewrite testbit_bb_of_squares
    by (intros s Hs; apply (slider_reach_range dirs sq occ s Hs)).
  rewrite existsb_exists. split.
  - intros (s & Hs & Heq). apply Z.eqb_eq in Heq. subst. assumption.
  - intros Hin. exists t. split; [assumption | apply Z.eqb_refl].
Qed.

(** X16: a sliding attack runs along each ray from the square to the first
    occupied square, which it includes, or to the edge of the board: for
    every occupancy [gen_ray_attacks] is the bitboard of those squares, and
    the rook and bishop sets are the union over their four directions. *)
Theorem sliding_attacks_stop_at_first_blocker (sq occ : Z) :
  0 <= sq < 64 ->
  (forall dir, gen_ray_attacks occ dir sq
               = bb_of_squares (reach occ (ray_squares dir sq))) /\
  slow_gen_rook_attacks sq occ = bb_of_squares (slider_reach rook_directions sq occ) /\
  slow_gen_bishop_attacks sq occ
    = bb_of_squares (slider_reach bishop_directions sq occ) /\
  (forall t, Z.testbit (slow_gen_rook_attacks sq occ) t = true <->
             In t (slider_reach rook_directions sq occ)) /\
  (forall t, Z.testbit (slow_gen_bishop_attacks sq occ) t = true <->
             In t (slider_reach bishop_directions sq occ)).
Proof.
  intros Hsq.
  assert (Hray : forall dir, gen_ray_attacks occ dir sq
                             = bb_of_squares (reach occ (ray_squares dir sq)))
    by (intros dir; apply (ray_facts dir sq occ Hsq)).
  assert (Hrook : slow_gen_rook_attacks sq occ
                  = bb_of_squares (slider_reach rook_directions sq occ)).
  { unfold slow_gen_rook_attacks, slider_reach, rook_directions. cbn [flat_map].
    rewrite !bb_of_squares_app, !Hray. cbn [bb_of_squares fold_right].
    rewrite Z.lor_0_r, !Z.lor_assoc. reflexivity. }
  assert (Hbishop : slow_gen_bishop_attacks sq occ
                    = bb_of_squares (slider_reach bishop_directions sq occ)).
  { unfold slow_gen_bishop_attacks, slider_reach, bishop_directions. cbn [flat_map].
    rewrite !bb_of_squares_app, !Hray. cbn [bb_of_squares fold_right].
    rewrite Z.lor_0_r, !Z.lor_assoc. reflexivity. }
  split; [exact Hray |]. split; [exact Hrook |]. split; [exact Hbishop |]. split.
  - intros t. rewrite Hrook. apply testbit_slider_reach.
  - intros t. rewrite Hbishop. apply testbit_slider_reach.
Qed.

Lemma sliding_attacks_stop_at_first_blocker_witness :
  slow_gen_rook_attacks A1 (Z.shiftl 1 24) =
  bb_of_squares (slider_reach rook_directions A1 (Z.shiftl 1 24)).
Proof.
  assert (H0 : 0 <= A1 < 64) by (unfold A1; lia).
  exact (proj1 (proj2 (sliding_attacks_stop_at_first_blocker A1 (Z.shiftl 1 24) H0))).
Defined.

(** X17: the magic lookup loses nothing: the attack set kept for an
    occupancy cut down to the mask of the square (the ray squares without
    the far edge of the board) is the attack set of the whole occupancy,
    for rooks and for bishops. *)
Theorem masked_occupancy_gives_same_attacks (sq occ : Z) :
  0 <= sq < 64 ->
  table_rook_attacks sq occ = slow_gen_rook_attacks sq occ /\
  table_bishop_attacks sq occ = slow_gen_bishop_attacks sq occ.
Proof.
  intros Hsq. unfold table_rook_attacks, table_bishop_attacks,
    slow_gen_rook_attacks, slow_gen_bishop_attacks.
  pose proof (ray_facts NORTH sq occ Hsq) as (_ & _ & HN).
  pose proof (ray_facts EAST sq occ Hsq) as (_ & _ & HE).
  pose proof (ray_facts SOUTH sq occ Hsq) as (_ & _ & HS).
  pose proof (ray_facts WEST sq occ Hsq) as (_ & _ & HW).
  pose proof (ray_facts NORTHEAST sq occ Hsq) as (_ & _ & HNE).
  pose proof (ray_facts SOUTHEAST sq occ Hsq) as (_ & _ & HSE).
  pose proof (ray_facts SOUTHWEST sq occ Hsq) as (_ & _ & HSW).
  pose proof (ray_facts NORTHWEST sq occ Hsq) as (_ & _ & HNW).
  cbv zeta iota in *.
  unfold slow_gen_rook_attacks, slow_gen_bishop_attacks in *.
  split.
  - rewrite HN, HE, HS, HW. reflexivity.
  - rewrite HNE, HSE, HSW, HNW. reflexivity.
Qed.

Lemma masked_occupancy_gives_same_attacks_witness :
  table_rook_attacks D1 0xffff00000000ffff = slow_gen_rook_attacks D1 0xffff00000000ffff.
Proof.
  assert (H0 : 0 <= D1 < 64) by (unfold D1; lia).
  exact (proj1 (masked_occupancy_gives_same_attacks D1 0xffff00000000ffff H0)).
Defined.

(** ** Attackers of a square *)

Lemma color_bitboards_disjoint (pos : position) :
  consistent_view pos ->
  Z.land (get_color_bitboard pos COLOR_WHITE) (get_color_bitboard pos COLOR_BLACK) = 0.
Proof.
  intros (_ & _ & _ & Hcu & _ & Hsqs).
  apply Z.bits_inj'. intros n Hn. rewrite Z.land_spec, Z.bits_0.
  destruct (Z_lt_ge_dec n 64) as [Hlt | Hge].
  - destruct (Hsqs n (conj Hn Hlt)) as (_ & Hc & _). cbv zeta in Hc.
    rewrite (Hc COLOR_WHITE), (Hc COLOR_BLACK) by (unfold COLOR_WHITE, COLOR_BLACK; lia).
    destruct (negb (get_piece_at pos n =? PIECE_NONE)); [| reflexivity].
    cbn [andb]. unfold COLOR_WHITE, COLOR_BLACK.
    destruct (Z.eqb_spec (get_piece_color (get_piece_at pos n)) 0) as [-> | _];
      reflexivity.
  - rewrite (BitFacts.u64_high_bits (get_color_bitboard pos COLOR_WHITE) n);
      [reflexivity | | lia].
    apply Hcu. unfold COLOR_WHITE. lia.
Qed.

Lemma piece_bitboard_of_color (pos : position) (pt c by_side : Z) :
  consistent_view pos -> 0 <= c < 2 -> 0 <= by_side < 2 -> 0 <= pt ->
  Z.land (get_piece_bitboard pos (create_piece pt c)) (get_color_bitboard pos by_side) =
  if c =? by_side then get_piece_bitboard pos (create_piece pt c) else 0.
Proof.
  intros Hcons Hc Hs Hpt. unfold get_piece_bitboard.
  destruct (PosProps.create_piece_fields pt c Hpt Hc) as [-> ->].
  destruct (Z.eqb_spec c by_side) as [-> | Hne].
  - rewrite <- Z.land_assoc, Z.land_diag. reflexivity.
  - rewrite <- Z.land_assoc.
    assert (Hdis : Z.land (get_color_bitboard pos c) (get_color_bitboard pos by_side) = 0).
    { pose proof (color_bitboards_disjoint pos Hcons) as H.
      assert (c = 0 /\ by_side = 1 \/ c = 1 /\ by_side = 0) as [[-> ->] | [-> ->]] by lia;
        [exact H | rewrite Z.land_comm; exact H]. }
    rewrite Hdis. apply Z.land_0_r.
Qed.

Lemma nonzero_lor (a b : Z) :
  negb (Z.lor a b =? 0) = negb (a =? 0) || negb (b =? 0).
Proof.
  destruct (Z.eqb_spec (Z.lor a b) 0) as [H | H], (Z.eqb_spec a 0) as [Ha | Ha],
    (Z.eqb_spec b 0) as [Hb | Hb]; cbn; try reflexivity; exfalso.
  - apply Z.lor_eq_0_iff in H. tauto.
  - apply Z.lor_eq_0_iff in H. tauto.
  - apply Z.lor_eq_0_iff in H. tauto.
  - apply H. subst. reflexivity.
Qed.

Lemma land_lor_of_color (pos : position) (a pt by_side : Z) :
  consistent_view pos -> 0 <= by_side < 2 -> 0 <= pt ->
  Z.land (Z.land a (Z.lor (get_piece_bitboard pos (create_piece pt COLOR_WHITE))
                          (get_piece_bitboard pos (create_piece pt COLOR_BLACK))))
         (get_color_bitboard pos by_side)
  = Z.land a (get_piece_bitboard pos (create_piece pt by_side)).
Proof.
  intros Hcons Hs Hpt.
  rewrite <- Z.land_assoc, Z.land_lor_distr_l.
  rewrite !piece_bitboard_of_color
    by (assumption || (unfold COLOR_WHITE, COLOR_BLACK; lia)).
  assert (by_side = 0 \/ by_side = 1) as [-> | ->] by lia;
    unfold COLOR_WHITE, COLOR_BLACK; cbn [Z.eqb];
    rewrite ?Z.lor_0_r, ?Z.lor_0_l; reflexivity.
Qed.

Section Attackers.

Variable get_rook_attacks : Z -> Z -> Z.
Variable get_bishop_attacks : Z -> Z -> Z.

Notation is_square_attacked :=
  (Movegen.is_square_attacked get_rook_attacks get_bishop_attacks).
Notation get_attackers := (Movegen.get_attackers get_rook_attacks get_bishop_attacks).

(** X18: in a position whose board array and bitboards agree,
    [is_square_attacked] says that a side attacks a square exactly when
    [get_attackers] finds a piece of that side among the attackers of the
    square, whatever the sliding-attack tables hold. *)
Theorem attacked_iff_attacker_of_that_side (pos : position) (sq by_side : Z) :
  board_consistent pos = true -> 0 <= by_side < 2 ->
  is_square_attacked sq by_side pos =
  negb (Z.land (get_attackers sq pos) (get_color_bitboard pos by_side) =? 0).
Proof.
  intros Hcons Hs. apply PosProps.board_consistent_view in Hcons.
  assert (Hocc : Z.lor (get_color_bitboard pos by_side)
                       (get_color_bitboard pos (opp by_side))
                 = Z.lor (get_color_bitboard pos COLOR_WHITE)
                         (get_color_bitboard pos COLOR_BLACK)).
  { assert (by_side = 0 \/ by_side = 1) as [-> | ->] by lia;
      [reflexivity | apply Z.lor_comm]. }
  unfold Movegen.is_square_attacked, Movegen.get_attackers. cbv zeta.
  rewrite Hocc.
  set (occ := Z.lor (get_color_bitboard pos COLOR_WHITE)
                    (get_color_bitboard pos COLOR_BLACK)).
  set (R := get_rook_attacks sq occ). set (B := get_bishop_attacks sq occ).
  set (N := get_knight_attacks sq). set (K := get_king_attacks sq).
  set (C := get_color_bitboard pos by_side).
  change PIECE_BLACK_PAWN with (create_piece PIECE_TYPE_PAWN COLOR_BLACK).
  change PIECE_WHITE_PAWN with (create_piece PIECE_TYPE_PAWN COLOR_WHITE).
  change PIECE_WHITE_KNIGHT with (create_piece PIECE_TYPE_KNIGHT COLOR_WHITE).
  change PIECE_BLACK_KNIGHT with (create_piece PIECE_TYPE_KNIGHT COLOR_BLACK).
  change PIECE_WHITE_KING with (create_piece PIECE_TYPE_KING COLOR_WHITE).
  change PIECE_BLACK_KING with (create_piece PIECE_TYPE_KING COLOR_BLACK).
  change PIECE_WHITE_QUEEN with (create_piece PIECE_TYPE_QUEEN COLOR_WHITE).
  change PIECE_BLACK_QUEEN with (create_piece PIECE_TYPE_QUEEN COLOR_BLACK).
  change PIECE_WHITE_BISHOP with (create_piece PIECE_TYPE_BISHOP COLOR_WHITE).
  change PIECE_BLACK_BISHOP with (create_piece PIECE_TYPE_BISHOP COLOR_BLACK).
  change PIECE_WHITE_ROOK with (create_piece PIECE_TYPE_ROOK COLOR_WHITE).
  change PIECE_BLACK_ROOK with (create_piece PIECE_TYPE_ROOK COLOR_BLACK).
  set (gb := fun pt c => get_piece_bitboard pos (create_piece pt c)).
  change (get_piece_bitboard pos) with (fun piece => get_piece_bitboard pos piece).
  cbv beta.
  repeat match goal with
         | |- context [get_piece_bitboard pos (create_piece ?pt ?c)] =>
             change (get_piece_bitboard pos (create_piece pt c)) with (gb pt c)
         end.
  assert (Hone : forall a pt c, 0 <= c < 2 -> 0 <= pt ->
            Z.land (Z.land a (gb pt c)) C = if c =? by_side then Z.land a (gb pt c) else 0).
  { intros a pt c Hc Hpt. unfold gb, C.
    rewrite <- Z.land_assoc, piece_bitboard_of_color by assumption.
    destruct (c =? by_side); [reflexivity | apply Z.land_0_r]. }
  assert (Hpair : forall a pt, 0 <= pt ->
            Z.land (Z.land a (Z.lor (gb pt COLOR_WHITE) (gb pt COLOR_BLACK))) C
            = Z.land a (gb pt by_side)).
  { intros a pt Hpt. unfold gb, C. apply land_lor_of_color; assumption. }
  assert (Hfour : forall a pt1 pt2, 0 <= pt1 -> 0 <= pt2 ->
            Z.land (Z.land a (Z.lor (Z.lor (Z.lor (gb pt1 COLOR_WHITE) (gb pt1 COLOR_BLACK))
                                           (gb pt2 COLOR_WHITE))
                                    (gb pt2 COLOR_BLACK))) C
            = Z.land a (Z.lor (gb pt1 by_side) (gb pt2 by_side))).
  { intros a pt1 pt2 H1 H2.
    rewrite <- (Z.lor_assoc (Z.lor (gb pt1 COLOR_WHITE) (gb pt1 COLOR_BLACK))).
    rewrite (Z.land_lor_distr_r a), (Z.land_lor_distr_l _ _ C), !Hpair by assumption.
    rewrite <- Z.land_lor_distr_r. reflexivity. }
  rewrite !Z.land_lor_distr_l.
  rewrite (Hpair N), (Hpair K), (Hfour B), (Hfour R)
    by (unfold PIECE_TYPE_KNIGHT, PIECE_TYPE_KING, PIECE_TYPE_QUEEN, PIECE_TYPE_BISHOP,
          PIECE_TYPE_ROOK; lia).
  rewrite !Hone by (unfold COLOR_WHITE, COLOR_BLACK, PIECE_TYPE_PAWN; lia).
  rewrite !nonzero_lor.
  rewrite (Z.lor_comm (gb PIECE_TYPE_ROOK by_side) (gb PIECE_TYPE_QUEEN by_side)).
  assert (by_side = 0 \/ by_side = 1) as [Hb | Hb] by lia; subst by_side;
    unfold COLOR_WHITE, COLOR_BLACK;
    change (opp 0) with 1; change (opp 1) with 0;
    change (0 =? 1) with false; change (1 =? 0) with false;
    change (1 =? 1) with true; change (0 =? 0) with true; cbv iota;
    change (0 =? 0) with true; cbn [negb orb];
    repeat match goal with
           | |- context [negb (?x =? 0)] =>
               destruct (negb (x =? 0))
           end; reflexivity.
Qed.

End Attackers.

Lemma attacked_iff_attacker_of_that_side_witness :
  is_square_attacked table_rook_attacks table_bishop_attacks 20 COLOR_WHITE pos_start =
  negb (Z.land (get_attackers table_rook_attacks table_bishop_attacks 20 pos_start)
               (get_color_bitboard pos_start COLOR_WHITE) =? 0).
Proof.
  apply attacked_iff_attacker_of_that_side;
    [vm_compute; reflexivity | unfold COLOR_WHITE; lia].
Defined.

End MovegenProps.

Module PosSame.
Import Pos Move Movegen.

Lemma pos_same_refl (p : position) : pos_same p p.
Proof. unfold pos_same. repeat split. Qed.

Lemma pos_same_sym (p q : position) : pos_same p q -> pos_same q p.
Proof.
  intros (H1 & H2 & H3 & H4 & H5 & H6 & H7). unfold pos_same.
  repeat split; try congruence. intros i Hi. symmetry. apply H7. lia.
Qed.

Lemma pos_same_trans (p q r : position) :
  pos_same p q -> pos_same q r -> pos_same p r.
Proof.
  intros (H1 & H2 & H3 & H4 & H5 & H6 & H7) (K1 & K2 & K3 & K4 & K5 & K6 & K7).
  unfold pos_same. repeat split; try congruence.
  intros i Hi. rewrite H7 by assumption. apply K7. lia.
Qed.

Lemma rebase_same (p q : position) : pos_same p q -> rebase p = rebase q.
Proof.
  intros (H1 & H2 & H3 & H4 & H5 & H6 & H7). unfold rebase, cur_irr.
  rewrite H1, H2, H3, H4, H5, <- H6, (H7 (irr_state_idx p) (le_n _)). reflexivity.
Qed.

Lemma cur_irr_rebase (p : position) : cur_irr (rebase p) = cur_irr p.
Proof. unfold cur_irr at 1. unfold rebase. cbn [irr_state_idx irr_states nth]. reflexivity. Qed.

Lemma accessors_rebase (p : position) :
  get_side_to_move (rebase p) = get_side_to_move p /\
  side_to_move (rebase p) = side_to_move p /\
  get_color_bitboard (rebase p) = get_color_bitboard p /\
  get_type_bitboard (rebase p) = get_type_bitboard p /\
  get_piece_bitboard (rebase p) = get_piece_bitboard p /\
  get_piece_at (rebase p) = get_piece_at p /\
  get_king_square (rebase p) = get_king_square p /\
  has_castling_right (rebase p) = has_castling_right p /\
  enpassant_possible (rebase p) = enpassant_possible p /\
  get_enpassant_square (rebase p) = get_enpassant_square p /\
  cur_irr (rebase p) = cur_irr p.
Proof.
  assert (H1 : side_to_move (rebase p) = side_to_move p)
    by (unfold rebase; cbn [side_to_move]; reflexivity).
  assert (H3 : get_color_bitboard (rebase p) = get_color_bitboard p)
    by (unfold get_color_bitboard, rebase; cbn [color_bb]; reflexivity).
  assert (H4 : get_type_bitboard (rebase p) = get_type_bitboard p)
    by (unfold get_type_bitboard, rebase; cbn [type_bb]; reflexivity).
  assert (H5 : get_piece_bitboard (rebase p) = get_piece_bitboard p)
    by (unfold get_piece_bitboard; rewrite H3, H4; reflexivity).
  assert (H6 : get_piece_at (rebase p) = get_piece_at p)
    by (unfold get_piece_at, rebase; cbn [board]; reflexivity).
  split; [unfold get_side_to_move; exact H1 |].
  split; [exact H1 |]. split; [exact H3 |]. split; [exact H4 |]. split; [exact H5 |].
  split; [exact H6 |].
  split; [unfold get_king_square; rewrite H5; reflexivity |].
  split; [unfold has_castling_right; rewrite cur_irr_rebase; reflexivity |].
  split; [unfold enpassant_possible; rewrite cur_irr_rebase; reflexivity |].
  split; [unfold get_enpassant_square; rewrite cur_irr_rebase, H1; reflexivity |].
  apply cur_irr_rebase.
Qed.

Ltac rebase_accessors p :=
  destruct (accessors_rebase p)
    as (Ha1 & Ha2 & Ha3 & Ha4 & Ha5 & Ha6 & Ha7 & Ha8 & Ha9 & Ha10 & Ha11);
  rewrite ?Ha1, ?Ha2, ?Ha3, ?Ha4, ?Ha5, ?Ha6, ?Ha7, ?Ha8, ?Ha9, ?Ha10, ?Ha11;
  lazymatch goal with
  | |- context [rebase p] => fail "an accessor of the rebased position is left"
  | _ => reflexivity
  end.

Lemma is_square_attacked_rebase (gr gb : Z -> Z -> Z) (sq c : Z) (p : position) :
  is_square_attacked gr gb sq c (rebase p) = is_square_attacked gr gb sq c p.
Proof. unfold is_square_attacked. rebase_accessors p. Qed.

Lemma add_pawn_moves_rebase (lst : list Z) (p : position) :
  add_pawn_moves lst (rebase p) = add_pawn_moves lst p.
Proof. unfold add_pawn_moves. rebase_accessors p. Qed.

Lemma add_king_moves_rebase (gr gb : Z -> Z -> Z) (lst : list Z) (p : position) :
  add_king_moves gr gb lst (rebase p) = add_king_moves gr gb lst p.
Proof.
  unfold add_king_moves, add_king_castling, add_queen_castling, add_targets.
  rewrite !is_square_attacked_rebase. rebase_accessors p.
Qed.

Lemma add_moves_rebase (gr gb : Z -> Z -> Z) (lst : list Z) (pt : Z) (p : position) :
  add_moves gr gb lst pt (rebase p) = add_moves gr gb lst pt p.
Proof.
  unfold add_moves, add_targets.
  rewrite add_pawn_moves_rebase, add_king_moves_rebase. rebase_accessors p.
Qed.

Lemma generate_rebase (gr gb : Z -> Z -> Z) (p : position) :
  generate gr gb (rebase p) = generate gr gb p.
Proof. unfold generate. rewrite !add_moves_rebase. reflexivity. Qed.

Lemma generate_same (gr gb : Z -> Z -> Z) (p q : position) :
  pos_same p q -> generate gr gb p = generate gr gb q.
Proof.
  intros H. rewrite <- (generate_rebase gr gb p), <- (generate_rebase gr gb q).
  rewrite (rebase_same p q H). reflexivity.
Qed.

Lemma is_in_check_same (gr gb : Z -> Z -> Z) (p q : position) :
  pos_same p q -> Search.is_in_check gr gb p = Search.is_in_check gr gb q.
Proof.
  intros H.
  assert (Hr : forall r, Search.is_in_check gr gb (rebase r) = Search.is_in_check gr gb r).
  { intros r. unfold Search.is_in_check, Search.is_square_attacked.
    rewrite is_square_attacked_rebase. rebase_accessors r. }
  rewrite <- (Hr p), <- (Hr q), (rebase_same p q H). reflexivity.
Qed.

Lemma hash_pos_same (zobrist_numbers : Z -> Z) (p q : position) :
  pos_same p q -> TT.hash_pos zobrist_numbers p = TT.hash_pos zobrist_numbers q.
Proof.
  intros H.
  assert (Hr : forall r, TT.hash_pos zobrist_numbers (rebase r)
                         = TT.hash_pos zobrist_numbers r).
  { intros r. unfold TT.hash_pos, TT.hash_pieces, TT.castling_index.
    rebase_accessors r. }
  rewrite <- (Hr p), <- (Hr q), (rebase_same p q H). reflexivity.
Qed.

(** ** The stack of irreversible states *)

Lemma nth_write_state_below (n i : nat) (x : irreversible_state)
    (l : list irreversible_state) :
  (i < n)%nat -> nth i (write_state n x l) irr_zero = nth i l irr_zero.
Proof.
  intros Hi. unfold write_state. destruct (Nat.ltb_spec n (length l)) as [Hn | Hn].
  - rewrite PosProps.nth_set_nth.
    destruct (Nat.eqb_spec n i) as [-> | _]; [lia | reflexivity].
  - destruct (Nat.lt_ge_cases i (length l)) as [Hil | Hil].
    + apply app_nth1. assumption.
    + rewrite app_nth2 by assumption. rewrite (nth_overflow l) by assumption.
      rewrite app_nth1 by (rewrite repeat_length; lia).
      apply nth_repeat.
Qed.

Lemma nth_write_state_top (n : nat) (x : irreversible_state)
    (l : list irreversible_state) :
  nth n (write_state n x l) irr_zero = x.
Proof.
  unfold write_state. destruct (Nat.ltb_spec n (length l)) as [Hn | Hn].
  - rewrite PosProps.nth_set_nth. rewrite Nat.eqb_refl.
    destruct (Nat.ltb_spec n (length l)); [reflexivity | lia].
  - rewrite app_nth2 by assumption.
    rewrite app_nth2 by (rewrite repeat_length; lia).
    rewrite repeat_length. replace (n - length l - (n - length l))%nat with 0%nat by lia.
    reflexivity.
Qed.

Lemma backtrack_start_new_same (p : position) :
  pos_same (backtrack_irreversible_state (start_new_irreversible_state p)) p.
Proof.
  unfold pos_same, backtrack_irreversible_state, start_new_irreversible_state.
  cbn [side_to_move fullmove_counter color_bb type_bb board irr_state_idx irr_states
       Nat.pred].
  repeat split. intros i Hi. apply nth_write_state_below. lia.
Qed.

Lemma start_new_same (p q : position) :
  pos_same p q ->
  pos_same (start_new_irreversible_state p) (start_new_irreversible_state q).
Proof.
  intros (H1 & H2 & H3 & H4 & H5 & H6 & H7).
  unfold pos_same, start_new_irreversible_state.
  cbn [side_to_move fullmove_counter color_bb type_bb board irr_state_idx irr_states].
  repeat split; try congruence.
  intros i Hi. rewrite <- H6.
  replace (S (irr_state_idx p) - 1)%nat with (irr_state_idx p) by lia.
  destruct (Nat.eq_dec i (S (irr_state_idx p))) as [-> | Hne].
  - rewrite !nth_write_state_top. apply H7. lia.
  - rewrite !nth_write_state_below by lia. apply H7. lia.
Qed.

Lemma backtrack_same (p q : position) :
  pos_same p q ->
  pos_same (backtrack_irreversible_state p) (backtrack_irreversible_state q).
Proof.
  intros (H1 & H2 & H3 & H4 & H5 & H6 & H7).
  unfold pos_same, backtrack_irreversible_state.
  cbn [side_to_move fullmove_counter color_bb type_bb board irr_state_idx irr_states].
  repeat split; try congruence. intros i Hi. apply H7. lia.
Qed.

Lemma flip_side_same (p q : position) :
  pos_same p q -> pos_same (flip_side_to_move p) (flip_side_to_move q).
Proof.
  intros (H1 & H2 & H3 & H4 & H5 & H6 & H7).
  unfold pos_same, flip_side_to_move. rewrite H1.
  destruct (side_to_move q =? COLOR_WHITE); unfold with_side;
    cbn [side_to_move fullmove_counter color_bb type_bb board irr_state_idx irr_states];
    repeat split; assumption.
Qed.

Lemma flip_flip_same (p : position) :
  side_to_move p = COLOR_WHITE \/ side_to_move p = COLOR_BLACK ->
  pos_same (flip_side_to_move (flip_side_to_move p)) p.
Proof.
  intros Hs. unfold pos_same, flip_side_to_move.
  destruct Hs as [Hs | Hs]; rewrite Hs; cbn [Z.eqb COLOR_WHITE COLOR_BLACK];
    unfold with_side;
    cbn [side_to_move fullmove_counter color_bb type_bb board irr_state_idx irr_states
         Z.eqb COLOR_WHITE COLOR_BLACK];
    repeat split; symmetry; assumption.
Qed.

Lemma remove_piece_same (p q : position) (sq : Z) :
  pos_same p q -> pos_same (remove_piece p sq) (remove_piece q sq).
Proof.
  intros (H1 & H2 & H3 & H4 & H5 & H6 & H7).
  unfold pos_same, remove_piece, with_board, get_piece_at, get_color_bitboard,
    get_type_bitboard.
  cbn [side_to_move fullmove_counter color_bb type_bb board irr_state_idx irr_states].
  rewrite H3, H4, H5. repeat split; assumption.
Qed.

Lemma place_piece_same (p q : position) (sq piece : Z) :
  pos_same p q -> pos_same (place_piece p sq piece) (place_piece q sq piece).
Proof.
  intros H. unfold place_piece.
  assert (Hat : get_piece_at p sq = get_piece_at q sq).
  { destruct H as (_ & _ & _ & _ & H5 & _). unfold get_piece_at. rewrite H5.
    reflexivity. }
  rewrite Hat.
  assert (H' : pos_same (if negb (get_piece_at q sq =? PIECE_NONE)
                         then remove_piece p sq else p)
                        (if negb (get_piece_at q sq =? PIECE_NONE)
                         then remove_piece q sq else q)).
  { destruct (negb _); [apply remove_piece_same |]; assumption. }
  destruct H' as (H1 & H2 & H3 & H4 & H5 & H6 & H7).
  unfold pos_same, with_board, get_color_bitboard, get_type_bitboard.
  cbn [side_to_move fullmove_counter color_bb type_bb board irr_state_idx irr_states].
  rewrite H3, H4, H5. repeat split; assumption.
Qed.

Lemma get_piece_at_same (p q : position) :
  pos_same p q -> get_piece_at p = get_piece_at q.
Proof.
  intros (_ & _ & _ & _ & H5 & _). unfold get_piece_at. rewrite H5. reflexivity.
Qed.

Lemma consistent_view_same (p q : position) :
  pos_same p q -> consistent_view p -> consistent_view q.
Proof.
  intros (H1 & H2 & H3 & H4 & H5 & H6 & H7).
  unfold consistent_view, get_piece_at, get_color_bitboard, get_type_bitboard.
  rewrite H3, H4, H5. tauto.
Qed.

(** ** A piece lifted and set down again *)

Lemma lor_land_square (x sq : Z) :
  0 <= sq -> Z.testbit x sq = true ->
  Z.lor (Z.land x (Z.lnot (Z.shiftl 1 sq))) (Z.shiftl 1 sq) = x.
Proof.
  intros Hsq Hbit. apply Z.bits_inj'. intros n Hn.
  rewrite Z.lor_spec, Z.land_spec, Z.lnot_spec, PosProps.testbit_square by assumption.
  destruct (Z.eqb_spec sq n) as [<- | _].
  - rewrite Hbit. reflexivity.
  - cbn [negb]. rewrite andb_true_r, orb_false_r. reflexivity.
Qed.

Lemma remove_place_piece_id (pos : position) (sq piece : Z) :
  consistent_view pos -> 0 <= sq < 64 -> get_piece_at pos sq = PIECE_NONE ->
  0 <= piece < 12 ->
  remove_piece (place_piece pos sq piece) sq = pos.
Proof.
  intros Hcons Hsq Hempty Hp.
  destruct Hcons as (Hb & Hc & Ht & Hcu & Htu & Hsqs).
  destruct (Hsqs sq Hsq) as (_ & Hcb & Htb). cbv zeta in *.
  rewrite Hempty, Z.eqb_refl in Hcb, Htb. cbn [negb andb] in Hcb, Htb.
  pose proof (PosProps.piece_color_range piece (proj1 Hp)) as Hcr.
  pose proof (PosProps.piece_type_range piece Hp) as Htr.
  unfold place_piece. rewrite Hempty, Z.eqb_refl. cbn [negb].
  set (c := get_piece_color piece) in *. set (t := get_piece_type piece) in *.
  set (bb := Z.shiftl 1 sq).
  set (C := upd c (Z.lor (get_color_bitboard pos c) bb) (color_bb pos)).
  set (T := upd t (Z.lor (get_type_bitboard pos t) bb) (type_bb pos)).
  set (B := upd sq piece (board pos)).
  assert (Hat : get_piece_at (with_board pos C T B) sq = piece).
  { unfold B. rewrite PosProps.get_piece_at_upd by (assumption || lia).
    rewrite Z.eqb_refl. destruct (Z.ltb_spec sq 64); [reflexivity | lia]. }
  assert (HC : get_color_bitboard (with_board pos C T B) c
               = Z.lor (get_color_bitboard pos c) bb).
  { unfold get_color_bitboard at 1, with_board. cbn [color_bb]. unfold C.
    rewrite PosProps.nth_upd, Hc, Z.eqb_refl by lia.
    destruct (Z.ltb_spec c (Z.of_nat 2)); [reflexivity | lia]. }
  assert (HT : get_type_bitboard (with_board pos C T B) t
               = Z.lor (get_type_bitboard pos t) bb).
  { unfold get_type_bitboard at 1, with_board. cbn [type_bb]. unfold T.
    rewrite PosProps.nth_upd, Ht, Z.eqb_refl by lia.
    destruct (Z.ltb_spec t (Z.of_nat 6)); [reflexivity | lia]. }
  unfold remove_piece. rewrite Hat. fold c t bb. rewrite HC, HT.
  unfold bb.
  rewrite !PosProps.land_lor_square by (lia || (apply Hcb || apply Htb); assumption).
  unfold with_board. cbn [color_bb type_bb board irr_states irr_state_cap
                          irr_state_idx side_to_move fullmove_counter].
  unfold C, T, B, upd. rewrite !PosProps.set_nth_set_nth.
  unfold get_color_bitboard, get_type_bitboard. rewrite !PosProps.set_nth_same.
  unfold get_piece_at in Hempty. rewrite <- Hempty. rewrite PosProps.set_nth_same.
  destruct pos; reflexivity.
Qed.

Lemma place_remove_piece_id (pos : position) (sq : Z) :
  consistent_view pos -> 0 <= sq < 64 -> get_piece_at pos sq <> PIECE_NONE ->
  place_piece (remove_piece pos sq) sq (get_piece_at pos sq) = pos.
Proof.
  intros Hcons Hsq Hocc.
  destruct Hcons as (Hb & Hc & Ht & Hcu & Htu & Hsqs).
  destruct (Hsqs sq Hsq) as (Hv & Hcb & Htb). cbv zeta in *.
  set (piece := get_piece_at pos sq) in *.
  assert (Hp : 0 <= piece < 12) by (unfold PIECE_NONE in *; lia).
  pose proof (PosProps.piece_color_range piece (proj1 Hp)) as Hcr.
  pose proof (PosProps.piece_type_range piece Hp) as Htr.
  destruct (Z.eqb_spec piece PIECE_NONE) as [| _]; [contradiction |].
  cbn [negb andb] in Hcb, Htb.
  set (c := get_piece_color piece) in *. set (t := get_piece_type piece) in *.
  specialize (Hcb c Hcr). specialize (Htb t Htr). rewrite Z.eqb_refl in Hcb, Htb.
  unfold remove_piece. fold piece c t.
  set (bb := Z.shiftl 1 sq).
  set (C := upd c (Z.land (get_color_bitboard pos c) (Z.lnot bb)) (color_bb pos)).
  set (T := upd t (Z.land (get_type_bitboard pos t) (Z.lnot bb)) (type_bb pos)).
  set (B := upd sq PIECE_NONE (board pos)).
  assert (Hat : get_piece_at (with_board pos C T B) sq = PIECE_NONE).
  { unfold B. rewrite PosProps.get_piece_at_upd by (assumption || lia).
    rewrite Z.eqb_refl. destruct (Z.ltb_spec sq 64); [reflexivity | lia]. }
  assert (HC : get_color_bitboard (with_board pos C T B) c
               = Z.land (get_color_bitboard pos c) (Z.lnot bb)).
  { unfold get_color_bitboard at 1, with_board. cbn [color_bb]. unfold C.
    rewrite PosProps.nth_upd, Hc, Z.eqb_refl by lia.
    destruct (Z.ltb_spec c (Z.of_nat 2)); [reflexivity | lia]. }
  assert (HT : get_type_bitboard (with_board pos C T B) t
               = Z.land (get_type_bitboard pos t) (Z.lnot bb)).
  { unfold get_type_bitboard at 1, with_board. cbn [type_bb]. unfold T.
    rewrite PosProps.nth_upd, Ht, Z.eqb_refl by lia.
    destruct (Z.ltb_spec t (Z.of_nat 6)); [reflexivity | lia]. }
  unfold place_piece. rewrite Hat, Z.eqb_refl. cbn [negb]. fold c t bb.
  rewrite HC, HT. unfold bb.
  rewrite !lor_land_square by (lia || assumption).
  unfold with_board. cbn [color_bb type_bb board irr_states irr_state_cap
                          irr_state_idx side_to_move fullmove_counter].
  unfold C, T, B, upd. rewrite !PosProps.set_nth_set_nth.
  unfold get_color_bitboard, get_type_bitboard. rewrite !PosProps.set_nth_same.
  unfold piece, get_piece_at. rewrite PosProps.set_nth_same.
  destruct pos; reflexivity.
Qed.

(** ** The make and unmake of the examples *)

Import Search.

Lemma consistent_view_start_new (p : position) :
  consistent_view p -> consistent_view (start_new_irreversible_state p).
Proof.
  unfold consistent_view, get_piece_at, get_color_bitboard, get_type_bitboard,
    start_new_irreversible_state.
  cbn [color_bb type_bb board]. tauto.
Qed.

Lemma consistent_view_flip (p : position) :
  consistent_view p -> consistent_view (flip_side_to_move p).
Proof.
  unfold flip_side_to_move. destruct (side_to_move p =? COLOR_WHITE);
    unfold consistent_view, get_piece_at, get_color_bitboard, get_type_bitboard,
      with_side; cbn [color_bb type_bb board]; tauto.
Qed.

Lemma side_remove_piece (p : position) (sq : Z) :
  side_to_move (remove_piece p sq) = side_to_move p.
Proof. reflexivity. Qed.

Lemma side_place_piece (p : position) (sq piece : Z) :
  side_to_move (place_piece p sq piece) = side_to_move p.
Proof.
  unfold place_piece, with_board. cbn [side_to_move].
  destruct (negb _); reflexivity.
Qed.

Lemma side_flip (p : position) :
  side_to_move (flip_side_to_move p) = COLOR_WHITE \/
  side_to_move (flip_side_to_move p) = COLOR_BLACK.
Proof.
  unfold flip_side_to_move. destruct (side_to_move p =? COLOR_WHITE);
    cbn [with_side side_to_move]; auto.
Qed.

Lemma ex_valid_same (p q : position) : pos_same p q -> ex_valid p -> ex_valid q.
Proof.
  intros H [Hc Hs]. split.
  - apply PosProps.board_consistent_view. apply (consistent_view_same p q H).
    apply PosProps.board_consistent_view. assumption.
  - destruct H as (H1 & _). rewrite <- H1. assumption.
Qed.

Lemma ex_quiet_move_same (p q : position) (move : Z) :
  pos_same p q -> ex_quiet_move p move = ex_quiet_move q move.
Proof.
  intros H. unfold ex_quiet_move. rewrite (get_piece_at_same p q H). reflexivity.
Qed.

Lemma ex_make_move_same (p q : position) (move : Z) :
  pos_same p q -> pos_same (ex_make_move p move) (ex_make_move q move).
Proof.
  intros H. unfold ex_make_move. rewrite (get_piece_at_same p q H).
  apply flip_side_same, place_piece_same, remove_piece_same, start_new_same.
  assumption.
Qed.

Lemma ex_unmake_move_same (p q : position) (move : Z) :
  pos_same p q -> pos_same (ex_unmake_move p move) (ex_unmake_move q move).
Proof.
  intros H. unfold ex_unmake_move.
  pose proof (flip_side_same p q H) as Hf.
  rewrite (get_piece_at_same _ _ Hf).
  apply backtrack_same, place_piece_same, remove_piece_same. assumption.
Qed.

Lemma ex_make_null_same (p q : position) :
  pos_same p q -> pos_same (ex_make_null p) (ex_make_null q).
Proof. intros H. apply flip_side_same, start_new_same. assumption. Qed.

Lemma ex_unmake_null_same (p q : position) :
  pos_same p q -> pos_same (ex_unmake_null p) (ex_unmake_null q).
Proof. intros H. apply backtrack_same, flip_side_same. assumption. Qed.

Lemma move_squares_range (move : Z) :
  0 <= get_move_origin move < 64 /\ 0 <= get_move_target move < 64.
Proof.
  unfold get_move_origin, get_move_target. change 0x3f with (Z.ones 6).
  rewrite !Z.land_ones by lia.
  split; apply Z.mod_pos_bound; lia.
Qed.

Lemma ex_make_unmake (p : position) (move : Z) :
  ex_valid p -> ex_quiet_move p move = true ->
  ex_valid (ex_make_move p move) /\
  pos_same (ex_unmake_move (ex_make_move p move) move) p.
Proof.
  intros [Hc Hs] Hq. apply PosProps.board_consistent_view in Hc.
  unfold ex_quiet_move in Hq. rewrite !andb_true_iff in Hq.
  destruct Hq as [[_ Hocc] Hempty].
  apply negb_true_iff, Z.eqb_neq in Hocc. apply Z.eqb_eq in Hempty.
  destruct (move_squares_range move) as [Hfrom Hto].
  set (from := get_move_origin move) in *. set (to := get_move_target move) in *.
  assert (Hne : to <> from) by (intros E; rewrite E in Hempty; contradiction).
  set (P' := start_new_irreversible_state p).
  assert (Hc' : consistent_view P') by (apply consistent_view_start_new; assumption).
  assert (Hat' : get_piece_at P' = get_piece_at p) by reflexivity.
  set (piece := get_piece_at p from) in *.
  assert (Hp : 0 <= piece < 12).
  { destruct Hc as (_ & _ & _ & _ & _ & Hsqs). destruct (Hsqs from Hfrom) as (Hv & _).
    cbv zeta in Hv. fold piece in Hv. unfold PIECE_NONE in *. lia. }
  destruct (PosProps.remove_piece_view P' from Hc' Hfrom) as (Hc1 & Hf1 & Ho1).
  { rewrite Hat'. exact Hocc. }
  set (P1 := remove_piece P' from) in *.
  assert (He1 : get_piece_at P1 to = PIECE_NONE).
  { rewrite Ho1 by (lia || assumption). rewrite Hat'. exact Hempty. }
  destruct (PosProps.place_piece_view P1 to piece Hc1 Hto Hp) as (Hc2 & Ht2 & _).
  set (P2 := place_piece P1 to piece) in *.
  assert (Hs2 : side_to_move P2 = side_to_move p).
  { unfold P2. rewrite side_place_piece. reflexivity. }
  assert (Hmake : ex_make_move p move = flip_side_to_move P2) by reflexivity.
  rewrite Hmake. split.
  - split; [| apply side_flip].
    apply PosProps.board_consistent_view, consistent_view_flip. assumption.
  - unfold ex_unmake_move. fold from to.
    assert (HF : pos_same (flip_side_to_move (flip_side_to_move P2)) P2)
      by (apply flip_flip_same; rewrite Hs2; assumption).
    rewrite (get_piece_at_same _ _ HF), Ht2.
    apply pos_same_trans with (q := backtrack_irreversible_state P');
      [| apply backtrack_start_new_same].
    apply backtrack_same.
    apply pos_same_trans with (q := place_piece P1 from piece).
    + apply place_piece_same.
      apply pos_same_trans with (q := remove_piece P2 to);
        [apply remove_piece_same; assumption |].
      unfold P2. rewrite remove_place_piece_id by assumption. apply pos_same_refl.
    + unfold P1. replace piece with (get_piece_at P' from) by (rewrite Hat'; reflexivity).
      rewrite place_remove_piece_id; [apply pos_same_refl | assumption | assumption |].
      rewrite Hat'. exact Hocc.
Qed.

Lemma ex_null_unnull (p : position) :
  ex_valid p ->
  ex_valid (ex_make_null p) /\ pos_same (ex_unmake_null (ex_make_null p)) p.
Proof.
  intros [Hc Hs]. apply PosProps.board_consistent_view in Hc. unfold ex_make_null.
  split.
  - split; [| apply side_flip].
    apply PosProps.board_consistent_view, consistent_view_flip,
      consistent_view_start_new. assumption.
  - unfold ex_unmake_null.
    apply pos_same_trans
      with (q := backtrack_irreversible_state (start_new_irreversible_state p));
      [| apply backtrack_start_new_same].
    apply backtrack_same, flip_flip_same. exact Hs.
Qed.

End PosSame.

Module GenProps.
Import Pos Move Movegen.

Lemma get_ls1b_testbit (bb : Z) :
  0 <= bb < 2 ^ 64 -> bb <> 0 -> Z.testbit bb (Bit.get_ls1b bb) = true.
Proof.
  intros Hbb Hnz. destruct (BitFacts.find_bits_of bb Hbb Hnz) as [i Hi].
  unfold Bit.get_ls1b. rewrite Hi. apply find_some in Hi. tauto.
Qed.

Lemma fold_left_Forall {A : Type} (P : A -> Prop) (body : Z -> list A -> list A)
    (l : list Z) :
  (forall sq acc, In sq l -> Forall P acc -> Forall P (body sq acc)) ->
  forall acc, Forall P acc -> Forall P (fold_left (fun a sq => body sq a) l acc).
Proof.
  induction l as [| s l IH]; intros Hbody acc Hacc; [exact Hacc |].
  cbn [fold_left]. apply IH.
  - intros sq a Hin. apply Hbody. right. assumption.
  - apply Hbody; [left; reflexivity | assumption].
Qed.

Lemma bb_loop_Forall {A : Type} (P : A -> Prop) (body : Z -> list A -> list A)
    (bb : Z) :
  0 <= bb < 2 ^ 64 ->
  (forall sq acc, 0 <= sq < 64 -> Z.testbit bb sq = true ->
                  Forall P acc -> Forall P (body sq acc)) ->
  forall acc, Forall P acc -> Forall P (Bit.bb_loop 64 body bb acc).
Proof.
  intros Hbb Hbody acc Hacc. rewrite BitFacts.bb_loop_64 by assumption.
  apply fold_left_Forall; [| assumption].
  intros sq a Hin. apply BitFacts.in_bits_of in Hin. apply Hbody; tauto.
Qed.

Lemma Forall_add_move (P : Z -> Prop) (lst : list Z) (m : Z) :
  Forall P lst -> P m -> Forall P (add_move lst m).
Proof.
  intros Hl Hm. unfold add_move. apply Forall_app. split; [assumption |].
  constructor; [assumption | constructor].
Qed.

Lemma shiftr_u64 (x n : Z) : is_u64 x -> 0 <= n -> is_u64 (Z.shiftr x n).
Proof.
  intros [Hx0 Hx1] Hn. unfold is_u64. rewrite Z.shiftr_div_pow2 by assumption.
  assert (Hp : 0 < 2 ^ n) by (apply Z.pow_pos_nonneg; lia).
  split; [apply Z.div_pos; lia |].
  apply Z.div_lt_upper_bound; [assumption |]. nia.
Qed.

Lemma wrap64_u64 (z : Z) : is_u64 (Bit.wrap64 z).
Proof. unfold is_u64, Bit.wrap64. apply Z.mod_pos_bound. lia. Qed.

Lemma pow2_u64 (k : Z) : 0 <= k < 64 -> is_u64 (Z.shiftl 1 k).
Proof.
  intros Hk. rewrite Z.shiftl_1_l. split; [apply Z.pow_nonneg; lia |].
  apply Z.pow_lt_mono_r; lia.
Qed.

Lemma enpassant_square_range (pos : position) :
  0 <= get_side_to_move pos < 2 -> 0 <= get_enpassant_square pos < 64.
Proof.
  intros Hs. unfold get_enpassant_square, file_rank_to_square.
  rewrite Z.shiftr_land. change (Z.shiftr 0x70 4) with (Z.ones 3).
  rewrite Z.land_ones by lia.
  pose proof (Z.mod_pos_bound (Z.shiftr (castling_rights_and_enpassant (cur_irr pos)) 4)
                (2 ^ 3) ltac:(lia)) as Hf.
  change (2 ^ 3) with 8 in *.
  destruct (side_to_move pos =? COLOR_WHITE); unfold RANK_6, RANK_3; lia.
Qed.

Section Sound.

Variable get_rook_attacks : Z -> Z -> Z.
Variable get_bishop_attacks : Z -> Z -> Z.
Variable pos : position.

Hypothesis Hcons : consistent_view pos.
Hypothesis Hside : 0 <= get_side_to_move pos < 2.
Hypothesis Hrook : forall sq occ, 0 <= sq < 64 -> is_u64 (get_rook_attacks sq occ).
Hypothesis Hbishop : forall sq occ, 0 <= sq < 64 -> is_u64 (get_bishop_attacks sq occ).
Hypothesis Hking :
  get_piece_bitboard pos (create_piece PIECE_TYPE_KING (get_side_to_move pos)) <> 0.

Notation side := (get_side_to_move pos).
Notation own_bb := (get_color_bitboard pos (get_side_to_move pos)).
Notation enemy_bb := (get_color_bitboard pos (opp (get_side_to_move pos))).

Lemma opp_range : 0 <= opp side < 2.
Proof. unfold opp. destruct (side =? 0); lia. Qed.

Lemma opp_differs : opp side <> side.
Proof. unfold opp. destruct (Z.eqb_spec side 0); lia. Qed.

Lemma own_bb_u64 : is_u64 own_bb.
Proof. destruct Hcons as (_ & _ & _ & Hcu & _). apply Hcu. exact Hside. Qed.

Lemma enemy_bb_u64 : is_u64 enemy_bb.
Proof. destruct Hcons as (_ & _ & _ & Hcu & _). apply Hcu. exact opp_range. Qed.

Lemma own_of_bit (sq : Z) :
  0 <= sq < 64 -> Z.testbit own_bb sq = true -> own_piece pos sq.
Proof.
  intros Hsq Hbit. destruct Hcons as (_ & _ & _ & _ & _ & Hsqs).
  destruct (Hsqs sq Hsq) as (_ & Hc & _). cbv zeta in Hc.
  rewrite (Hc side Hside) in Hbit. apply andb_true_iff in Hbit.
  destruct Hbit as [Hn Hcol]. apply negb_true_iff, Z.eqb_neq in Hn.
  apply Z.eqb_eq in Hcol. split; assumption.
Qed.

Lemma enemy_of_bit (sq : Z) :
  0 <= sq < 64 -> Z.testbit enemy_bb sq = true -> enemy_piece pos sq.
Proof.
  intros Hsq Hbit. destruct Hcons as (_ & _ & _ & _ & _ & Hsqs).
  destruct (Hsqs sq Hsq) as (_ & Hc & _). cbv zeta in Hc.
  rewrite (Hc (opp side) opp_range) in Hbit. apply andb_true_iff in Hbit.
  destruct Hbit as [Hn Hcol]. apply negb_true_iff, Z.eqb_neq in Hn.
  apply Z.eqb_eq in Hcol. split; assumption.
Qed.

Lemma empty_of_bits (sq : Z) :
  0 <= sq < 64 -> Z.testbit own_bb sq = false -> Z.testbit enemy_bb sq = false ->
  get_piece_at pos sq = PIECE_NONE.
Proof.
  intros Hsq Hown Henemy. destruct Hcons as (_ & _ & _ & _ & _ & Hsqs).
  destruct (Hsqs sq Hsq) as (Hv & Hc & _). cbv zeta in *.
  rewrite (Hc side Hside) in Hown. rewrite (Hc (opp side) opp_range) in Henemy.
  destruct (Z.eqb_spec (get_piece_at pos sq) PIECE_NONE) as [H | H]; [exact H |].
  exfalso. cbn [negb andb] in *.
  apply Z.eqb_neq in Hown, Henemy.
  pose proof (PosProps.piece_color_range (get_piece_at pos sq) (proj1 Hv)) as Hr.
  unfold opp in *. destruct (Z.eqb_spec side 0); lia.
Qed.

Lemma enemy_of_occupied (sq : Z) :
  0 <= sq < 64 -> Z.testbit own_bb sq = false -> get_piece_at pos sq <> PIECE_NONE ->
  enemy_piece pos sq.
Proof.
  intros Hsq Hown Hocc. destruct Hcons as (_ & _ & _ & _ & _ & Hsqs).
  destruct (Hsqs sq Hsq) as (Hv & Hc & _). cbv zeta in *.
  rewrite (Hc side Hside) in Hown.
  destruct (Z.eqb_spec (get_piece_at pos sq) PIECE_NONE) as [H | _]; [contradiction |].
  cbn [negb andb] in Hown. apply Z.eqb_neq in Hown.
  pose proof (PosProps.piece_color_range (get_piece_at pos sq) (proj1 Hv)) as Hr.
  split; [assumption |]. unfold opp. destruct (Z.eqb_spec side 0); lia.
Qed.

Lemma piece_bb_facts (pt : Z) :
  0 <= pt ->
  is_u64 (get_piece_bitboard pos (create_piece pt side)) /\
  forall sq, Z.testbit (get_piece_bitboard pos (create_piece pt side)) sq = true ->
             Z.testbit own_bb sq = true.
Proof.
  intros Hpt. unfold get_piece_bitboard.
  destruct (PosProps.create_piece_fields pt side Hpt Hside) as [-> ->].
  split.
  - apply BitFacts.land_u64_r. apply own_bb_u64.
  - intros sq Hbit. rewrite Z.land_spec in Hbit. apply andb_true_iff in Hbit. tauto.
Qed.

Lemma sound_intro (from to t : Z) :
  0 <= from < 64 -> 0 <= to < 64 -> 0 <= t < 16 -> own_piece pos from ->
  (t = MOVE_EP_CAPTURE /\ enpassant_possible pos <> 0 /\
   to = get_enpassant_square pos) \/
  ((t =? MOVE_EP_CAPTURE) = false /\
   (if takes_on_target t then enemy_piece pos to
    else get_piece_at pos to = PIECE_NONE)) ->
  sound_move pos (create_move from to t).
Proof.
  intros Hfrom Hto Ht Hown Hcases. exists from, to, t.
  repeat (split; [first [reflexivity | assumption] |]).
  destruct Hcases as [(-> & Hep & Hsq) | (Hne & Htarget)].
  - rewrite Z.eqb_refl. split; assumption.
  - rewrite Hne. exact Htarget.
Qed.

(** The friendly pieces are left out of every target set. *)
Lemma targets_facts (x : Z) :
  is_u64 x ->
  let occ := Z.lor own_bb enemy_bb in
  let friendly_pieces := Z.land occ own_bb in
  is_u64 (Z.land x (Z.lnot friendly_pieces)) /\
  forall to, 0 <= to -> Z.testbit (Z.land x (Z.lnot friendly_pieces)) to = true ->
             Z.testbit own_bb to = false.
Proof.
  intros Hx. cbv zeta. split; [apply PosProps.land_u64_l; assumption |].
  intros to Hto Hbit.
  rewrite Z.land_spec, Z.lnot_spec, Z.land_spec, Z.lor_spec in Hbit by assumption.
  destruct (Z.testbit own_bb to); [| reflexivity].
  cbn in Hbit. rewrite andb_false_r in Hbit. discriminate.
Qed.

Lemma add_targets_sound (lst : list Z) (from targets : Z) :
  Forall (sound_move pos) lst -> 0 <= from < 64 -> own_piece pos from ->
  is_u64 targets ->
  (forall to, 0 <= to -> Z.testbit targets to = true -> Z.testbit own_bb to = false) ->
  Forall (sound_move pos) (add_targets lst pos from targets).
Proof.
  intros Hlst Hfrom Hown Hu Hnot. unfold add_targets.
  apply bb_loop_Forall; [exact Hu | | exact Hlst].
  intros to acc Hto Hbit Hacc. apply Forall_add_move; [assumption |].
  destruct (Z.eqb_spec (get_piece_at pos to) PIECE_NONE) as [He | Hne].
  - apply sound_intro; try assumption; [unfold MOVE_OTHER; lia |]. right.
    split; [reflexivity | exact He].
  - apply sound_intro; try assumption; [unfold MOVE_CAPTURE; lia |]. right.
    split; [reflexivity |].
    change (takes_on_target MOVE_CAPTURE) with true. cbv iota.
    apply enemy_of_occupied; [assumption | | assumption]. apply Hnot; [lia | assumption].
Qed.

Lemma leaper_u64 (sq : Z) :
  0 <= sq < 64 ->
  is_u64 (get_knight_attacks sq) /\ is_u64 (get_king_attacks sq) /\
  is_u64 (get_pawn_attacks sq COLOR_WHITE) /\ is_u64 (get_pawn_attacks sq COLOR_BLACK).
Proof.
  intros Hsq.
  pose proof (PosProps.forallb_zrange2 64 64 _ MovegenProps.leaper_tables_checked
                sq 0 Hsq ltac:(lia)) as H.
  cbv beta in H. rewrite !andb_true_iff in H.
  destruct H as (((((((_ & _) & _) & _) & H5) & H6) & H7) & H8).
  apply PosProps.u64b_spec in H5, H6, H7, H8. tauto.
Qed.

Lemma add_moves_piece_sound (lst : list Z) (piece_type : Z) :
  0 <= piece_type -> piece_type <> PIECE_TYPE_PAWN -> piece_type <> PIECE_TYPE_KING ->
  Forall (sound_move pos) lst ->
  Forall (sound_move pos)
         (add_moves get_rook_attacks get_bishop_attacks lst piece_type pos).
Proof.
  intros Hpt Hnp Hnk Hlst. unfold add_moves.
  destruct (Z.eqb_spec piece_type PIECE_TYPE_PAWN); [contradiction |].
  destruct (Z.eqb_spec piece_type PIECE_TYPE_KING); [contradiction |].
  destruct (piece_bb_facts piece_type Hpt) as [Hu Hbits].
  apply bb_loop_Forall; [exact Hu | | exact Hlst].
  intros from acc Hfrom Hbit Hacc.
  match goal with
  | |- Forall _ (add_targets _ _ _ (Z.land ?x _)) =>
      assert (Hx : is_u64 x)
  end.
  { destruct (piece_type =? PIECE_TYPE_KNIGHT); [apply leaper_u64; assumption |].
    destruct (piece_type =? PIECE_TYPE_ROOK); [apply Hrook; assumption |].
    destruct (piece_type =? PIECE_TYPE_BISHOP); [apply Hbishop; assumption |].
    destruct (piece_type =? PIECE_TYPE_QUEEN); [| unfold is_u64; lia].
    unfold get_queen_attacks.
    destruct (Hrook from (Z.lor own_bb enemy_bb) Hfrom) as [Hr0 Hr1].
    destruct (Hbishop from (Z.lor own_bb enemy_bb) Hfrom) as [Hb0 Hb1].
    apply BitFacts.u64_of_high_bits; [apply Z.lor_nonneg; lia |].
    intros k Hk. rewrite Z.lor_spec, !BitFacts.u64_high_bits by (unfold is_u64 in *; lia).
    reflexivity. }
  destruct (targets_facts _ Hx) as [Htu Hnot]. cbv zeta in Htu, Hnot.
  apply add_targets_sound; try assumption.
  apply own_of_bit; [assumption |]. apply Hbits. assumption.
Qed.

Lemma promotions_sound (lst : list Z) (from to : Z) (types : list Z) :
  Forall (sound_move pos) lst ->
  (forall t, In t types -> sound_move pos (create_move from to t)) ->
  Forall (sound_move pos)
    (fold_left (fun lst move_type => add_move lst (create_move from to move_type))
               types lst).
Proof.
  revert lst. induction types as [| t types IH]; intros lst Hlst Ht; [exact Hlst |].
  cbn [fold_left]. apply IH.
  - apply Forall_add_move; [assumption |]. apply Ht. left. reflexivity.
  - intros t' Hin. apply Ht. right. assumption.
Qed.

Lemma occ_clear (to : Z) :
  0 <= to < 64 -> Z.testbit (Z.lnot (Z.lor enemy_bb own_bb)) to = true ->
  get_piece_at pos to = PIECE_NONE.
Proof.
  intros Hto Hbit. rewrite Z.lnot_spec, Z.lor_spec in Hbit by lia.
  apply negb_true_iff, orb_false_iff in Hbit.
  apply empty_of_bits; tauto.
Qed.

Lemma single_push_u64 (from occ : Z) :
  0 <= from < 64 -> is_u64 (get_single_push from occ side).
Proof.
  intros Hfrom. unfold get_single_push.
  destruct (side =? COLOR_WHITE); apply PosProps.land_u64_l.
  - apply wrap64_u64.
  - unfold move_south. apply shiftr_u64; [apply pow2_u64; assumption | lia].
Qed.

Lemma add_pushes_sound (lst : list Z) (from : Z) :
  Forall (sound_move pos) lst -> 0 <= from < 64 -> own_piece pos from ->
  Forall (sound_move pos) (add_pushes lst from (Z.lor enemy_bb own_bb) side).
Proof.
  intros Hlst Hfrom Hown. unfold add_pushes.
  set (targets := get_single_push from (Z.lor enemy_bb own_bb) side).
  destruct (Z.eqb_spec targets 0) as [Hz | Hnz]; [exact Hlst |]. cbn [negb].
  assert (Hu : is_u64 targets) by (apply single_push_u64; assumption).
  pose proof (get_ls1b_testbit targets Hu Hnz) as Hbit.
  pose proof (BitFacts.get_ls1b_range targets) as Hto.
  set (to := Bit.get_ls1b targets) in *.
  assert (Hempty : get_piece_at pos to = PIECE_NONE).
  { apply occ_clear; [assumption |]. unfold targets, get_single_push in Hbit.
    destruct (side =? COLOR_WHITE); rewrite Z.land_spec in Hbit;
      apply andb_true_iff in Hbit; tauto. }
  destruct (promotion_rank side to).
  - apply promotions_sound; [assumption |].
    intros t Hin. apply sound_intro; try assumption.
    + cbn in Hin. unfold MOVE_KNIGHT_PROMOTION, MOVE_BISHOP_PROMOTION,
        MOVE_ROOK_PROMOTION, MOVE_QUEEN_PROMOTION in Hin. lia.
    + right. cbn in Hin.
      destruct Hin as [<- | [<- | [<- | [<- | []]]]];
        (split; [reflexivity | exact Hempty]).
  - apply Forall_add_move; [assumption |].
    apply sound_intro; try assumption; [unfold MOVE_OTHER; lia |]. right.
    split; [reflexivity | exact Hempty].
Qed.

Lemma add_double_pushes_sound (lst : list Z) (from : Z) :
  Forall (sound_move pos) lst -> 0 <= from < 64 -> own_piece pos from ->
  Forall (sound_move pos) (add_double_pushes lst from (Z.lor enemy_bb own_bb) side).
Proof.
  intros Hlst Hfrom Hown. unfold add_double_pushes.
  set (targets := get_double_push from (Z.lor enemy_bb own_bb) side).
  destruct (Z.eqb_spec targets 0) as [Hz | Hnz]; [exact Hlst |]. cbn [negb].
  assert (Hfacts : is_u64 targets /\
                   forall to, Z.testbit targets to = true ->
                              Z.testbit (Z.lnot (Z.lor enemy_bb own_bb)) to = true).
  { unfold targets, get_double_push. destruct (side =? COLOR_WHITE); split.
    - apply PosProps.land_u64_l, PosProps.land_u64_l, wrap64_u64.
    - intros to Hb. rewrite !Z.land_spec in Hb. rewrite !andb_true_iff in Hb. tauto.
    - apply PosProps.land_u64_l, PosProps.land_u64_l. unfold move_south.
      apply shiftr_u64; [| lia].
      pose proof (single_push_u64 from (Z.lor enemy_bb own_bb) Hfrom) as Hs.
      unfold get_single_push in *. exact Hs.
    - intros to Hb. rewrite !Z.land_spec in Hb. rewrite !andb_true_iff in Hb. tauto. }
  destruct Hfacts as [Hu Hclear].
  pose proof (get_ls1b_testbit targets Hu Hnz) as Hbit.
  pose proof (BitFacts.get_ls1b_range targets) as Hto.
  apply Forall_add_move; [assumption |].
  apply sound_intro; try assumption; [unfold MOVE_DOUBLE_PAWN_PUSH; lia |]. right.
  split; [reflexivity |].
  change (takes_on_target MOVE_DOUBLE_PAWN_PUSH) with false. cbv iota.
  apply occ_clear; [assumption |]. apply Hclear. assumption.
Qed.

Lemma add_pawn_attacks_sound (lst : list Z) (from : Z) :
  Forall (sound_move pos) lst -> 0 <= from < 64 -> own_piece pos from ->
  Forall (sound_move pos) (add_pawn_attacks lst from enemy_bb side).
Proof.
  intros Hlst Hfrom Hown. unfold add_pawn_attacks.
  apply bb_loop_Forall;
    [apply BitFacts.land_u64_r; apply enemy_bb_u64 | | exact Hlst].
  intros to acc Hto Hbit Hacc.
  rewrite Z.land_spec in Hbit. apply andb_true_iff in Hbit. destruct Hbit as [_ Hbit].
  pose proof (enemy_of_bit to Hto Hbit) as Henemy.
  destruct (promotion_rank side to).
  - apply promotions_sound; [assumption |].
    intros t Hin. apply sound_intro; try assumption.
    + cbn in Hin. unfold MOVE_KNIGHT_PROMOTION_CAPTURE, MOVE_BISHOP_PROMOTION_CAPTURE,
        MOVE_ROOK_PROMOTION_CAPTURE, MOVE_QUEEN_PROMOTION_CAPTURE in Hin. lia.
    + right. cbn in Hin.
      destruct Hin as [<- | [<- | [<- | [<- | []]]]];
        (split; [reflexivity | exact Henemy]).
  - apply Forall_add_move; [assumption |].
    apply sound_intro; try assumption; [unfold MOVE_CAPTURE; lia |]. right.
    split; [reflexivity | exact Henemy].
Qed.

Lemma add_pawn_moves_sound (lst : list Z) :
  Forall (sound_move pos) lst -> Forall (sound_move pos) (add_pawn_moves lst pos).
Proof.
  intros Hlst. unfold add_pawn_moves.
  destruct (piece_bb_facts PIECE_TYPE_PAWN ltac:(unfold PIECE_TYPE_PAWN; lia))
    as [Hu Hbits].
  apply bb_loop_Forall; [exact Hu | |].
  - intros from acc Hfrom Hbit Hacc.
    assert (Hown : own_piece pos from) by (apply own_of_bit; auto).
    apply add_pawn_attacks_sound; try assumption.
    apply add_double_pushes_sound; try assumption.
    apply add_pushes_sound; assumption.
  - destruct (Z.eqb_spec (enpassant_possible pos) 0) as [| Hep]; cbn [negb];
      [exact Hlst |].
    apply bb_loop_Forall; [apply BitFacts.land_u64_r; exact Hu | | exact Hlst].
    intros from acc Hfrom Hbit Hacc.
    rewrite Z.land_spec in Hbit. apply andb_true_iff in Hbit. destruct Hbit as [_ Hbit].
    apply Forall_add_move; [assumption |].
    apply sound_intro; try assumption.
    + apply enpassant_square_range. exact Hside.
    + unfold MOVE_EP_CAPTURE. lia.
    + apply own_of_bit; auto.
    + left. split; [reflexivity | split; [exact Hep | reflexivity]].
Qed.

Lemma king_square_facts :
  0 <= get_king_square pos side < 64 /\ own_piece pos (get_king_square pos side).
Proof.
  destruct (piece_bb_facts PIECE_TYPE_KING ltac:(unfold PIECE_TYPE_KING; lia))
    as [Hu Hbits].
  unfold get_king_square. split; [apply BitFacts.get_ls1b_range |].
  apply own_of_bit; [apply BitFacts.get_ls1b_range |].
  apply Hbits. apply get_ls1b_testbit; assumption.
Qed.

Lemma add_king_moves_sound (lst : list Z) :
  Forall (sound_move pos) lst ->
  Forall (sound_move pos)
         (add_king_moves get_rook_attacks get_bishop_attacks lst pos).
Proof.
  intros Hlst. destruct king_square_facts as [Hfrom Hown].
  unfold add_king_moves.
  destruct (leaper_u64 (get_king_square pos side) Hfrom) as (_ & Hk & _).
  destruct (targets_facts _ Hk) as [Htu Hnot]. cbv zeta in Htu, Hnot.
  apply add_targets_sound; try assumption.
  assert (Hkc : Forall (sound_move pos)
                  (add_king_castling get_rook_attacks get_bishop_attacks lst pos)).
  { unfold add_king_castling.
    destruct (has_castling_right pos side CASTLING_SIDE_KING); [| exact Hlst].
    match goal with |- Forall _ (if ?c then _ else _) => destruct c eqn:Hc end;
      [| exact Hlst].
    rewrite !andb_true_iff in Hc. destruct Hc as ((((_ & He) & _) & _) & _).
    apply Z.eqb_eq in He.
    apply Forall_add_move; [assumption |].
    apply sound_intro; try assumption.
    - destruct (side =? COLOR_WHITE); unfold G1, G8; lia.
    - unfold MOVE_KING_CASTLE. lia.
    - right. split; [reflexivity | exact He]. }
  unfold add_queen_castling.
  destruct (has_castling_right pos side CASTLING_SIDE_QUEEN); [| exact Hkc].
  match goal with |- Forall _ (if ?c then _ else _) => destruct c eqn:Hc end;
    [| exact Hkc].
  rewrite !andb_true_iff in Hc. destruct Hc as (((((_ & He) & _) & _) & _) & _).
  apply Z.eqb_eq in He.
  apply Forall_add_move; [assumption |].
  apply sound_intro; try assumption.
  - destruct (side =? COLOR_WHITE); unfold C1, C8; lia.
  - unfold MOVE_QUEEN_CASTLE. lia.
  - right. split; [reflexivity | exact He].
Qed.

Lemma generate_sound :
  Forall (sound_move pos) (generate get_rook_attacks get_bishop_attacks pos).
Proof.
  unfold generate. cbv zeta.
  assert (Hking' : Forall (sound_move pos)
            (add_moves get_rook_attacks get_bishop_attacks [] PIECE_TYPE_PAWN pos)).
  { unfold add_moves. change (PIECE_TYPE_PAWN =? PIECE_TYPE_PAWN) with true. cbv iota.
    apply add_pawn_moves_sound. constructor. }
  match goal with
  | |- Forall _ (add_moves _ _ ?l PIECE_TYPE_KING pos) =>
      assert (Hrest : Forall (sound_move pos) l)
  end.
  { repeat (apply add_moves_piece_sound;
            [unfold PIECE_TYPE_KNIGHT, PIECE_TYPE_ROOK, PIECE_TYPE_BISHOP,
               PIECE_TYPE_QUEEN; lia
            | unfold PIECE_TYPE_KNIGHT, PIECE_TYPE_ROOK, PIECE_TYPE_BISHOP,
               PIECE_TYPE_QUEEN, PIECE_TYPE_PAWN; lia
            | unfold PIECE_TYPE_KNIGHT, PIECE_TYPE_ROOK, PIECE_TYPE_BISHOP,
               PIECE_TYPE_QUEEN, PIECE_TYPE_KING; lia
            | ]).
    exact Hking'. }
  unfold add_moves at 1. change (PIECE_TYPE_KING =? PIECE_TYPE_PAWN) with false.
  change (PIECE_TYPE_KING =? PIECE_TYPE_KING) with true. cbv iota.
  apply add_king_moves_sound. exact Hrest.
Qed.

End Sound.

Lemma bb_of_squares_u64 (l : list Z) :
  (forall s, In s l -> 0 <= s < 64) -> is_u64 (bb_of_squares l).
Proof.
  induction l as [| a l IH]; intros Hl; cbn [bb_of_squares fold_right].
  - unfold is_u64. lia.
  - assert (Ha : is_u64 (Z.shiftl 1 a)) by (apply pow2_u64, Hl; left; reflexivity).
    assert (Hr : is_u64 (bb_of_squares l))
      by (apply IH; intros s Hs; apply Hl; right; assumption).
    unfold bb_of_squares in Hr.
    apply BitFacts.u64_of_high_bits; [apply Z.lor_nonneg; unfold is_u64 in *; lia |].
    intros k Hk. rewrite Z.lor_spec, !BitFacts.u64_high_bits by (unfold is_u64 in *; lia).
    reflexivity.
Qed.

Lemma lor_u64 (a b : Z) : is_u64 a -> is_u64 b -> is_u64 (Z.lor a b).
Proof.
  intros Ha Hb.
  apply BitFacts.u64_of_high_bits; [apply Z.lor_nonneg; unfold is_u64 in *; lia |].
  intros k Hk. rewrite Z.lor_spec, !BitFacts.u64_high_bits by (unfold is_u64 in *; lia).
  reflexivity.
Qed.

Lemma gen_ray_attacks_u64 (occ : Z) (dir : Direction) (sq : Z) :
  0 <= sq < 64 -> is_u64 (gen_ray_attacks occ dir sq).
Proof.
  intros Hsq. destruct (MovegenProps.ray_facts dir sq occ Hsq) as (_ & -> & _).
  apply bb_of_squares_u64. intros s Hs. apply MovegenProps.reach_incl in Hs.
  apply (MovegenProps.ray_squares_range dir sq s Hs).
Qed.

Lemma table_attacks_u64 (sq occ : Z) :
  0 <= sq < 64 ->
  is_u64 (table_rook_attacks sq occ) /\ is_u64 (table_bishop_attacks sq occ).
Proof.
  intros Hsq. unfold table_rook_attacks, table_bishop_attacks,
    slow_gen_rook_attacks, slow_gen_bishop_attacks.
  split; repeat apply lor_u64; apply gen_ray_attacks_u64; assumption.
Qed.

(** X19: on a board whose two formats agree and that holds the king of the
    side to move, every move the generator lists starts on a square that
    holds a piece of the side to move; a move of a capturing type other than
    en passant ends on a square that holds an enemy piece; an en-passant
    capture is listed only when the position has an en-passant square, and
    ends on that square, whatever stands there; and a move of any other
    type ends on an empty square.  The attack tables may hold any 64-bit
    values. *)
Theorem generated_moves_are_sound
    (get_rook_attacks get_bishop_attacks : Z -> Z -> Z) (pos : position) :
  board_consistent pos = true ->
  0 <= get_side_to_move pos < 2 ->
  (forall sq occ, 0 <= sq < 64 -> is_u64 (get_rook_attacks sq occ)) ->
  (forall sq occ, 0 <= sq < 64 -> is_u64 (get_bishop_attacks sq occ)) ->
  get_piece_bitboard pos (create_piece PIECE_TYPE_KING (get_side_to_move pos)) <> 0 ->
  forall move,
    In move (generate get_rook_attacks get_bishop_attacks pos) ->
    sound_move pos move.
Proof.
  intros Hcons Hside Hrook Hbishop Hking move Hin.
  apply PosProps.board_consistent_view in Hcons.
  pose proof (generate_sound get_rook_attacks get_bishop_attacks pos
                Hcons Hside Hrook Hbishop Hking) as H.
  rewrite Forall_forall in H. apply H. exact Hin.
Qed.

Lemma generated_moves_are_sound_witness :
  sound_move pos_start (create_move 12 28 MOVE_DOUBLE_PAWN_PUSH) /\
  sound_move pos_enpassant_occupied (create_move 35 44 MOVE_EP_CAPTURE).
Proof.
  split.
  - apply (generated_moves_are_sound table_rook_attacks table_bishop_attacks
             pos_start).
    + vm_compute. reflexivity.
    + vm_compute. split; [discriminate | reflexivity].
    + intros sq occ Hsq. apply (table_attacks_u64 sq occ Hsq).
    + intros sq occ Hsq. apply (table_attacks_u64 sq occ Hsq).
    + vm_compute. discriminate.
    + vm_compute. repeat (first [left; reflexivity | right]).
  - apply (generated_moves_are_sound table_rook_attacks table_bishop_attacks
             pos_enpassant_occupied).
    + vm_compute. reflexivity.
    + vm_compute. split; [discriminate | reflexivity].
    + intros sq occ Hsq. apply (table_attacks_u64 sq occ Hsq).
    + intros sq occ Hsq. apply (table_attacks_u64 sq occ Hsq).
    + vm_compute. discriminate.
    + vm_compute. repeat (first [left; reflexivity | right]).
Defined.

(** On that position the en-passant capture d5xe6 lands on the pawn that
    stands on e6. *)
Lemma enpassant_target_may_be_occupied :
  In (create_move 35 44 MOVE_EP_CAPTURE)
     (generate table_rook_attacks table_bishop_attacks pos_enpassant_occupied) /\
  get_piece_at pos_enpassant_occupied 44 = PIECE_BLACK_PAWN.
Proof.
  split; [| vm_compute; reflexivity].
  vm_compute. repeat (first [left; reflexivity | right]).
Qed.

End GenProps.

Module SearchProps.
Import Pos Move Search.

(** ** Scores in the transposition table *)

(** X20: a mate score stored at ply [p] and probed at ply [q] comes back
    moved by the difference of the two plies, towards the root for a win
    and for a loss alike; probed at the ply it was stored at, it comes back
    as it was. *)
Theorem mate_score_rebased_by_table (score p q : Z) :
  0 <= p ->
  (INF - MAX_PLY <= score ->
   ttscore_to_score (score_to_ttscore score p) q = score + p - q) /\
  (score <= - INF + MAX_PLY ->
   ttscore_to_score (score_to_ttscore score p) q = score - p + q) /\
  (INF - MAX_PLY <= score \/ score <= - INF + MAX_PLY ->
   ttscore_to_score (score_to_ttscore score p) p = score).
Proof.
  intros Hp. unfold ttscore_to_score, score_to_ttscore, INF, MAX_PLY, MAX_DEPTH.
  repeat split; intros H;
    repeat match goal with
           | |- context [?a >=? ?b] => destruct (Z.geb_spec a b); try lia
           | |- context [?a <=? ?b] => destruct (Z.leb_spec a b); try lia
           end.
Qed.

Lemma mate_score_rebased_by_table_witness :
  ttscore_to_score (score_to_ttscore (INF - 3) 5) 2 = INF - 3 + 5 - 2.
Proof.
  apply (proj1 (mate_score_rebased_by_table (INF - 3) 5 2 ltac:(lia))).
  unfold INF, MAX_PLY, MAX_DEPTH. lia.
Defined.

(** ** Killer moves *)

(** X21: after [store_killer] the move is a killer (unless it is the move
    0, which never is one), the killer stored last before it still is one,
    and no other move has become one; two slots that held different moves
    still do. *)
Theorem stored_killer_is_killer (killers : Z * Z) (move : Z) :
  (move <> 0 -> is_killer move (store_killer killers move) = true) /\
  (fst killers <> 0 -> is_killer (fst killers) (store_killer killers move) = true) /\
  (forall m, is_killer m (store_killer killers move) = true ->
             m = move \/ is_killer m killers = true) /\
  is_killer 0 killers = false /\
  (fst killers <> snd killers ->
   fst (store_killer killers move) <> snd (store_killer killers move)).
Proof.
  destruct killers as [k0 k1]. unfold is_killer, store_killer. cbn [fst snd].
  assert (Hcases : forall m k0' k1', 
             (negb (k0' =? 0) && (m =? k0')) || (negb (k1' =? 0) && (m =? k1')) = true <->
             (k0' <> 0 /\ m = k0') \/ (k1' <> 0 /\ m = k1')).
  { intros m a b. rewrite orb_true_iff, !andb_true_iff, !negb_true_iff, !Z.eqb_eq,
      !Z.eqb_neq. tauto. }
  repeat split.
  - intros Hm. destruct ((move =? k0) || (move =? k1)) eqn:He; cbn [fst snd].
    + apply Hcases. apply orb_true_iff in He. rewrite !Z.eqb_eq in He. 
      destruct He as [He | He]; [left | right]; split; congruence.
    + apply Hcases. left. split; [assumption | reflexivity].
  - intros Hk. destruct ((move =? k0) || (move =? k1)) eqn:He; cbn [fst snd];
      apply Hcases; [left | right]; split; (assumption || reflexivity).
  - intros m H. destruct ((move =? k0) || (move =? k1)) eqn:He; cbn [fst snd] in H.
    + right. exact H.
    + apply Hcases in H. destruct H as [[_ H] | [Hk H]]; [left; assumption |].
      right. apply Hcases. left. split; assumption.
  - destruct (Hcases 0 k0 k1) as [H _].
    destruct ((negb (k0 =? 0) && (0 =? k0)) || (negb (k1 =? 0) && (0 =? k1)));
      [| reflexivity].
    destruct (H eq_refl) as [[H1 H2] | [H1 H2]]; congruence.
  - intros Hd. destruct ((move =? k0) || (move =? k1)) eqn:He; cbn [fst snd];
      [assumption |].
    apply orb_false_iff in He. rewrite !Z.eqb_neq in He. tauto.
Qed.

(** ** The repetition counters along the tree *)

Lemma wrap_i8_range (z : Z) : -128 <= wrap_i8 z <= 127.
Proof. unfold wrap_i8. pose proof (Z.mod_pos_bound (z + 128) 256 ltac:(lia)). lia. Qed.

Lemma wrap_i8_inc_dec (c : Z) :
  -128 <= c <= 127 ->
  wrap_i8 (wrap_i8 (c + 1) - 1) = c /\ wrap_i8 (wrap_i8 (c - 1) + 1) = c.
Proof.
  intros Hc. unfold wrap_i8.
  destruct (Z.eq_dec c 127) as [-> | Hne]; [split; reflexivity |].
  destruct (Z.eq_dec c (-128)) as [-> | Hne']; [split; reflexivity |].
  rewrite (Z.mod_small (c + 1 + 128)), (Z.mod_small (c - 1 + 128)) by lia.
  rewrite !Z.mod_small by lia. lia.
Qed.

Lemma node_kept_refl (s : state) : node_kept s s.
Proof. unfold node_kept. split; [apply PosSame.pos_same_refl | auto]. Qed.

Lemma node_kept_trans (s1 s2 s3 : state) :
  node_kept s1 s2 -> node_kept s2 s3 -> node_kept s1 s3.
Proof.
  intros (Ha & Hb & Hc & Hd) (Ha' & Hb' & Hc' & Hd'). unfold node_kept.
  split; [apply (PosSame.pos_same_trans _ _ _ Ha' Ha) |].
  repeat split; try congruence.
Qed.

Lemma node_kept_fields (s s' : state) :
  pos s' = pos s -> ply s' = ply s -> pos_cnt s' = pos_cnt s -> trace s' = trace s ->
  node_kept s s'.
Proof.
  intros H1 H2 H3 H4. unfold node_kept. rewrite H1, H3.
  split; [apply PosSame.pos_same_refl | auto].
Qed.

Lemma i8_table_kept (s s' : state) :
  node_kept s s' -> i8_table (pos_cnt s) -> i8_table (pos_cnt s').
Proof. intros (_ & _ & Hc & _) H k. rewrite Hc. apply H. Qed.

Section Tree.

Variable zobrist_numbers : Z -> Z.
Variable tt_capacity : Z.
Variable get_rook_attacks : Z -> Z -> Z.
Variable get_bishop_attacks : Z -> Z -> Z.
Variable do_move : position -> Z -> position.
Variable undo_move : position -> Z -> position.
Variable do_null_move : position -> position.
Variable undo_null_move : position -> position.
Variable move_is_legal : position -> Z -> bool.
Variable evaluate_move : Z -> position -> Z.
Variable timespec_get : nat -> Z * Z.

Notation qsearch_loop :=
  (qsearch_loop zobrist_numbers tt_capacity do_move undo_move move_is_legal
     evaluate_move).
Notation negamax_loop :=
  (negamax_loop zobrist_numbers tt_capacity do_move undo_move move_is_legal
     evaluate_move).
Notation qsearch :=
  (qsearch zobrist_numbers tt_capacity get_rook_attacks get_bishop_attacks
     do_move undo_move move_is_legal evaluate_move).
Notation negamax :=
  (negamax zobrist_numbers tt_capacity get_rook_attacks get_bishop_attacks
     do_move undo_move do_null_move undo_null_move move_is_legal evaluate_move
     timespec_get).
Notation enter_child := (enter_child zobrist_numbers do_move).
Notation leave_child := (leave_child zobrist_numbers undo_move).
Notation finish_node :=
  (finish_node zobrist_numbers tt_capacity get_rook_attacks get_bishop_attacks).
Notation inc_pos_cnt := (inc_pos_cnt zobrist_numbers).
Notation dec_pos_cnt := (dec_pos_cnt zobrist_numbers).

Lemma inc_pos_cnt_i8 (cnt : Z -> Z) (p : position) :
  i8_table cnt -> i8_table (inc_pos_cnt cnt p).
Proof.
  intros H k. unfold Search.inc_pos_cnt, fupd.
  destruct (k =? _); [apply wrap_i8_range | apply H].
Qed.

Lemma dec_pos_cnt_i8 (cnt : Z -> Z) (p : position) :
  i8_table cnt -> i8_table (dec_pos_cnt cnt p).
Proof.
  intros H k. unfold Search.dec_pos_cnt, fupd.
  destruct (k =? _); [apply wrap_i8_range | apply H].
Qed.

Lemma dec_inc_pos_cnt (cnt cnt' : Z -> Z) (p p' : position) :
  i8_table cnt -> pos_same p' p -> (forall k, cnt' k = inc_pos_cnt cnt p k) ->
  forall k, dec_pos_cnt cnt' p' k = cnt k.
Proof.
  intros H Hp Hc k. unfold Search.dec_pos_cnt, fupd, Search.hash_pos.
  rewrite (PosSame.hash_pos_same zobrist_numbers p' p Hp). rewrite !Hc.
  unfold Search.inc_pos_cnt, fupd, Search.hash_pos. rewrite Z.eqb_refl.
  destruct (Z.eqb_spec k (TT.hash_pos zobrist_numbers p mod POS_CNT_TABLE_LEN));
    [| reflexivity].
  subst k. apply (wrap_i8_inc_dec _ (H _)).
Qed.

Lemma leave_child_kept (st s' : state) (move : Z) :
  i8_table (pos_cnt st) ->
  pos_same (undo_move (do_move (pos st) move) move) (pos st) ->
  (forall p q, pos_same p q -> pos_same (undo_move p move) (undo_move q move)) ->
  node_kept (enter_child st move) s' ->
  node_kept st (leave_child s' move).
Proof.
  intros Hi8 Hundo Hcongr (Hpos & Hply & Hcnt & Htrace).
  unfold node_kept, Search.leave_child. cbn [pos ply pos_cnt trace set_pos set_ply
    set_pos_cnt].
  cbn in Hpos, Hply, Hcnt, Htrace.
  split; [| split; [| split]].
  - apply (PosSame.pos_same_trans _ _ _ (Hcongr _ _ Hpos) Hundo).
  - lia.
  - intros k. apply (dec_inc_pos_cnt (pos_cnt st) (pos_cnt s')
                       (do_move (pos st) move) (pos s') Hi8 Hpos Hcnt).
  - assumption.
Qed.

Lemma enter_child_i8 (st : state) (move : Z) :
  i8_table (pos_cnt st) -> i8_table (pos_cnt (enter_child st move)).
Proof. intros H. cbn. apply inc_pos_cnt_i8. assumption. Qed.

(** X22: the repetition counters are kept with the tree: counting a
    position and uncounting it again leaves every counter as it was, also
    when the [i8] counter wraps around in between.  So when the child node
    hands back what it got, and [undo_move] takes the move back up to what
    lies above the top of the stack of irreversible states, [dec_pos_cnt],
    [undo_move] and [--ply] hand back the parent node. *)
Theorem leave_child_undoes_enter_child (st s' : state) (move : Z) :
  i8_table (pos_cnt st) ->
  (forall k, dec_pos_cnt (inc_pos_cnt (pos_cnt st) (pos st)) (pos st) k = pos_cnt st k) /\
  (forall k, inc_pos_cnt (dec_pos_cnt (pos_cnt st) (pos st)) (pos st) k = pos_cnt st k) /\
  i8_table (pos_cnt (enter_child st move)) /\
  (pos_same (undo_move (do_move (pos st) move) move) (pos st) ->
   (forall p q, pos_same p q -> pos_same (undo_move p move) (undo_move q move)) ->
   node_kept (enter_child st move) s' ->
   node_kept st (leave_child s' move)).
Proof.
  intros Hi8.
  split.
  { apply (dec_inc_pos_cnt (pos_cnt st) (inc_pos_cnt (pos_cnt st) (pos st))
             (pos st) (pos st) Hi8 (PosSame.pos_same_refl _)).
    reflexivity. }
  split.
  { intros k. unfold Search.dec_pos_cnt, Search.inc_pos_cnt, fupd.
    rewrite Z.eqb_refl.
    destruct (Z.eqb_spec k (hash_pos zobrist_numbers (pos st) mod POS_CNT_TABLE_LEN));
      [| reflexivity].
    subst k. apply (wrap_i8_inc_dec _ (Hi8 _)). }
  split; [apply enter_child_i8; assumption |].
  intros Hundo Hcongr Hkept. apply leave_child_kept; assumption.
Qed.

Lemma time_check_kept (st : state) (params : parameters) :
  node_kept st (time_check timespec_get st params).
Proof.
  unfold time_check.
  destruct (Z.rem (nodes st) 8192 =? 0); [| apply node_kept_refl].
  destruct (params_limited_time params); [| apply node_kept_fields; reflexivity].
  destruct (_ || _); apply node_kept_fields; reflexivity.
Qed.

Lemma limit_check_kept (st : state) (params : parameters) :
  node_kept st (limit_check st params).
Proof.
  unfold limit_check. destruct (_ || _); apply node_kept_fields; reflexivity.
Qed.

Lemma finish_node_kept (depth : Z) (loc : locals) (st : state) :
  node_kept st (snd (finish_node depth loc st)).
Proof.
  unfold Search.finish_node. cbn [snd].
  destruct (running st); apply node_kept_fields; reflexivity.
Qed.

Lemma count_node_kept (st : state) : node_kept st (count_node st).
Proof. apply node_kept_fields; reflexivity. Qed.

Lemma uncount_node_kept (st : state) : node_kept st (uncount_node st).
Proof. apply node_kept_fields; reflexivity. Qed.

(** What the search asks of the functions that make and unmake moves,
    which are not among the sources at hand: on the positions of some
    invariant [valid], a legal move that is made and taken back, and a null
    move likewise, gives the position back up to what lies above the top of
    its stack; and unmaking, like the legality test, does not depend on what
    lies there. *)
Variable valid : position -> Prop.

Hypothesis Hvalid_same : forall p q, pos_same p q -> valid p -> valid q.
Hypothesis Hundo :
  forall p m, valid p -> move_is_legal p m = true ->
              valid (do_move p m) /\ pos_same (undo_move (do_move p m) m) p.
Hypothesis Hundo_same :
  forall p q m, pos_same p q -> pos_same (undo_move p m) (undo_move q m).
Hypothesis Hnull :
  forall p, valid p ->
            valid (do_null_move p) /\ pos_same (undo_null_move (do_null_move p)) p.
Hypothesis Hnull_same :
  forall p q, pos_same p q -> pos_same (undo_null_move p) (undo_null_move q).
Hypothesis Hlegal_same :
  forall p q m, pos_same p q -> move_is_legal p m = move_is_legal q m.

Notation restores_at := (restores_at valid).

Lemma valid_kept (s s' : state) :
  node_kept s s' -> valid (pos s) -> valid (pos s').
Proof.
  intros (Hp & _) Hv. apply (Hvalid_same (pos s) (pos s')); [| assumption].
  apply PosSame.pos_same_sym. assumption.
Qed.

Lemma child_restores (rec : Z -> Z -> Z -> state -> option (Z * state))
    (depth p a b : Z) (st : state) (move : Z) :
  restores_at rec depth (p + 1) -> ply st = p -> i8_table (pos_cnt st) ->
  valid (pos st) -> move_is_legal (pos st) move = true ->
  exists v s', rec depth a b (enter_child st move) = Some (v, s') /\
               node_kept st (leave_child s' move).
Proof.
  intros Hrec Hply Hi8 Hv Hlegal.
  destruct (Hundo (pos st) move Hv Hlegal) as [Hv' Hback].
  destruct (Hrec a b (enter_child st move)) as (v & s' & Heq & Hkept).
  - cbn. lia.
  - apply enter_child_i8. assumption.
  - cbn. exact Hv'.
  - exists v, s'. split; [assumption |].
    apply leave_child_kept; try assumption.
    intros x y. apply Hundo_same.
Qed.

Lemma qsearch_loop_restores (rec : Z -> Z -> Z -> state -> option (Z * state))
    (depth beta p : Z) :
  restores_at rec (depth - 1) (p + 1) ->
  forall (n i : nat) (loc : locals) (st : state),
    ply st = p -> i8_table (pos_cnt st) -> valid (pos st) ->
    exists loc' st',
      qsearch_loop rec depth beta n i loc st = Some (loc', st') /\ node_kept st st'.
Proof.
  intros Hrec. induction n as [| n IH]; intros i loc st Hply Hi8 Hv.
  { do 2 eexists. split; [reflexivity | apply node_kept_refl]. }
  cbn [Search.qsearch_loop].
  destruct (get_next_qmove zobrist_numbers tt_capacity evaluate_move
              (skipn i (l_moves loc)) st) as [k ended].
  match goal with |- exists _ _, (if ?c then _ else _) = _ /\ _ => destruct c end.
  { do 2 eexists. split; [reflexivity | apply node_kept_refl]. }
  destruct ended.
  { do 2 eexists. split; [reflexivity | apply node_kept_refl]. }
  set (move := nth (i + k) (l_moves loc) 0).
  destruct (move_is_legal (pos st) move) eqn:Hlegal; cbn [negb orb];
    [| apply IH; assumption].
  destruct (negb (move_is_capture move)); [apply IH; assumption |].
  match goal with
  | |- context [rec (depth - 1) ?a ?b (enter_child st move)] =>
      destruct (child_restores rec (depth - 1) p a b st move Hrec Hply Hi8 Hv Hlegal)
        as (v & s' & -> & Hkept)
  end.
  match goal with |- exists _ _, (if ?c then _ else _) = _ /\ _ => destruct c end.
  - do 2 eexists. split; [reflexivity | assumption].
  - match goal with
    | |- context [qsearch_loop rec depth beta n (S i) ?l ?s] =>
        destruct (IH (S i) l s) as (loc' & st' & -> & Hkept')
    end.
    + destruct Hkept as (_ & Hp & _). lia.
    + apply (i8_table_kept _ _ Hkept Hi8).
    + apply (valid_kept _ _ Hkept Hv).
    + do 2 eexists. split; [reflexivity |].
      apply (node_kept_trans _ _ _ Hkept Hkept').
Qed.

Lemma negamax_loop_restores (rec : Z -> Z -> Z -> state -> option (Z * state))
    (depth beta static_eval p : Z) (in_check : bool) :
  restores_at rec (depth - 1) (p + 1) ->
  forall (n i : nat) (loc : locals) (st : state),
    ply st = p -> i8_table (pos_cnt st) -> valid (pos st) ->
    exists e,
      negamax_loop rec depth beta static_eval in_check n i loc st = Some e /\
      match e with
      | Fallthrough _ st' | Returned _ st' => node_kept st st'
      end.
Proof.
  intros Hrec. induction n as [| n IH]; intros i loc st Hply Hi8 Hv.
  { eexists. split; [reflexivity | apply node_kept_refl]. }
  cbn [Search.negamax_loop].
  set (k := get_next_move _ _ _ _ _ _ _).
  set (move := nth (i + k) (l_moves loc) 0).
  destruct (move_is_legal (pos st) move) eqn:Hlegal; cbn [negb];
    [| apply IH; assumption].
  match goal with |- exists _, (if ?c then _ else _) = _ /\ _ => destruct c end.
  { eexists. split; [reflexivity | apply node_kept_refl]. }
  match goal with |- exists _, (if ?c then _ else _) = _ /\ _ => destruct c end.
  { eexists. split; [reflexivity | apply node_kept_refl]. }
  match goal with
  | |- context [rec (depth - 1) ?a ?b (enter_child st move)] =>
      destruct (child_restores rec (depth - 1) p a b st move Hrec Hply Hi8 Hv Hlegal)
        as (v & s' & -> & Hkept)
  end.
  match goal with |- exists _, (if ?c then _ else _) = _ /\ _ => destruct c end.
  - eexists. split; [reflexivity |].
    destruct (negb (move_is_capture move)); [| assumption].
    apply (node_kept_trans _ _ _ Hkept). apply node_kept_fields; reflexivity.
  - match goal with
    | |- context [negamax_loop rec depth beta static_eval in_check n (S i) ?l ?s] =>
        destruct (IH (S i) l s) as (e & -> & He)
    end.
    + destruct Hkept as (_ & Hp & _). lia.
    + apply (i8_table_kept _ _ Hkept Hi8).
    + apply (valid_kept _ _ Hkept Hv).
    + eexists. split; [reflexivity |].
      destruct e; apply (node_kept_trans _ _ _ Hkept He).
Qed.

Lemma qsearch_restores (params : parameters) :
  forall (fuel : nat) (depth p : Z),
    (qfuel_for p <= fuel)%nat -> restores_at (qsearch fuel params) depth p.
Proof.
  induction fuel as [| fuel IH]; intros depth p Hfuel alpha beta st Hply Hi8 Hv;
    [unfold qfuel_for in Hfuel; lia |].
  cbn [Search.qsearch].
  pose proof (limit_check_kept st params) as Hl.
  destruct (negb (running (limit_check st params)) ||
            (nodes (limit_check st params) >=? params_nodes params)) eqn:Hstop.
  { do 2 eexists. split; [reflexivity | assumption]. }
  apply orb_false_elim in Hstop. destruct Hstop as [Hrun _].
  apply negb_false_iff in Hrun.
  destruct (SearchFacts.limit_check_running st params Hrun) as (Heq & _ & _ & Hmax).
  rewrite Heq. clear Hl.
  pose proof (count_node_kept st) as Hc.
  destruct (repeated _ _ _ _).
  { do 2 eexists. split; [reflexivity | assumption]. }
  destruct (tt_probe _ _ _ _ _ _).
  { do 2 eexists. split; [reflexivity | assumption]. }
  match goal with |- exists _ _, (if ?c then _ else _) = _ /\ _ => destruct c end.
  { do 2 eexists. split; [reflexivity | assumption]. }
  destruct (Search.get_pseudo_legal_moves get_rook_attacks get_bishop_attacks
              (pos (count_node st))) as [moves len].
  match goal with
  | |- context [qsearch_loop ?rec depth beta ?n 0%nat ?l ?s] =>
      destruct (qsearch_loop_restores rec depth beta p
                  (IH (depth - 1) (p + 1)
                      ltac:(apply SearchFacts.qfuel_step; (assumption || lia)))
                  n 0%nat l s) as (loc' & st' & -> & Hk')
  end.
  { cbn. assumption. }
  { cbn. assumption. }
  { cbn. assumption. }
  pose proof (finish_node_kept depth loc' st') as Hf.
  destruct (finish_node depth loc' st') as [v st'']. cbn [snd] in Hf.
  do 2 eexists. split; [reflexivity |].
  apply (node_kept_trans _ _ _ Hc). apply (node_kept_trans _ _ _ Hk' Hf).
Qed.

Lemma null_move_kept (st s' : state) :
  valid (pos st) ->
  node_kept (set_pos st (do_null_move (pos st))) s' ->
  node_kept st (set_pos s' (undo_null_move (pos s'))).
Proof.
  intros Hv (H1 & H2 & H3 & H4). cbn in H1, H2, H3, H4.
  unfold node_kept. cbn [pos ply pos_cnt trace set_pos].
  split; [| auto].
  apply (PosSame.pos_same_trans _ _ _ (Hnull_same _ _ H1)).
  apply Hnull. assumption.
Qed.

Lemma negamax_restores (params : parameters) :
  forall (fuel : nat) (depth p : Z),
    (fuel_for depth p <= fuel)%nat -> restores_at (negamax fuel params) depth p.
Proof.
  induction fuel as [| fuel IH]; intros depth p Hfuel alpha beta st Hply Hi8 Hv;
    [unfold fuel_for in Hfuel; lia |].
  cbn [Search.negamax].
  pose proof (time_check_kept st params) as Ht.
  set (st0 := time_check timespec_get st params) in *.
  pose proof (limit_check_kept st0 params) as Hl.
  destruct (negb (running (limit_check st0 params))) eqn:Hstop.
  { do 2 eexists. split; [reflexivity |]. apply (node_kept_trans _ _ _ Ht Hl). }
  apply negb_false_iff in Hstop.
  destruct (SearchFacts.limit_check_running st0 params Hstop) as (Heq & _ & _ & Hmax).
  rewrite Heq. clear Hl.
  assert (Hp0 : ply st0 = p) by (destruct Ht as (_ & Hp & _); lia).
  rewrite Hp0 in Hmax.
  assert (Hi0 : i8_table (pos_cnt st0)) by (apply (i8_table_kept _ _ Ht Hi8)).
  assert (Hv0 : valid (pos st0)) by (apply (valid_kept _ _ Ht Hv)).
  pose proof (node_kept_trans _ _ _ Ht (count_node_kept st0)) as Hc.
  destruct (repeated _ _ _ _).
  { do 2 eexists. split; [reflexivity | assumption]. }
  destruct (tt_probe _ _ _ _ _ _).
  { do 2 eexists. split; [reflexivity | assumption]. }
  destruct (depth =? 0).
  { destruct (qsearch_restores params fuel depth p
                ltac:(eapply SearchFacts.fuel_for_qsearch; eassumption)
                alpha beta (uncount_node (count_node st0)))
      as (v & s' & -> & Hk'); [cbn; assumption | cbn; assumption | cbn; assumption |].
    do 2 eexists. split; [reflexivity |].
    apply (node_kept_trans _ _ _ Hc).
    apply (node_kept_trans _ _ _ (uncount_node_kept _) Hk'). }
  match goal with
  | |- exists _ _, match (if ?c then _ else _) with _ => _ end = _ /\ _ =>
      destruct c eqn:Hnullc
  end.
  - (* null move tried *)
    assert (Hd : depth > NULL_MOVE_REDUCTION).
    { apply andb_true_iff in Hnullc. destruct Hnullc as [_ Hd].
      apply Z.gtb_lt in Hd. lia. }
    match goal with
    | |- context [negamax fuel params ?d ?a ?b ?s] =>
        destruct (IH d p ltac:(apply SearchFacts.fuel_for_null; assumption) a b s)
          as (v & s' & -> & Hk')
    end.
    { cbn. assumption. }
    { cbn. assumption. }
    { cbn. apply Hnull. assumption. }
    assert (Hback : node_kept st (set_pos s' (undo_null_move (pos s')))).
    { apply (node_kept_trans _ _ _ Hc).
      apply (null_move_kept (count_node st0) s'); [cbn; assumption | exact Hk']. }
    match goal with |- exists _ _, match (if ?c then _ else _) with _ => _ end = _ /\ _ =>
      destruct c end.
    + do 2 eexists. split; [reflexivity | assumption].
    + destruct (Search.get_pseudo_legal_moves get_rook_attacks get_bishop_attacks
                  (pos (set_pos s' (undo_null_move (pos s'))))) as [moves len].
      match goal with
      | |- context [negamax_loop ?rec depth beta ?e ?c ?n 0%nat ?l ?s] =>
          destruct (negamax_loop_restores rec depth beta e p c
                      (IH (depth - 1) (p + 1)
                          ltac:(apply SearchFacts.fuel_for_child; (assumption || lia)))
                      n 0%nat l s) as (le & -> & Hle)
      end.
      { destruct Hback as (_ & Hp & _). lia. }
      { apply (i8_table_kept _ _ Hback Hi8). }
      { apply (valid_kept _ _ Hback Hv). }
      destruct le as [loc' st' | v' st'].
      * pose proof (finish_node_kept depth loc' st') as Hf.
        destruct (finish_node depth loc' st') as [v2 st'']. cbn [snd] in Hf.
        do 2 eexists. split; [reflexivity |].
        apply (node_kept_trans _ _ _ Hback). apply (node_kept_trans _ _ _ Hle Hf).
      * do 2 eexists. split; [reflexivity |].
        apply (node_kept_trans _ _ _ Hback Hle).
  - destruct (Search.get_pseudo_legal_moves get_rook_attacks get_bishop_attacks
                (pos (count_node st0))) as [moves len].
    match goal with
    | |- context [negamax_loop ?rec depth beta ?e ?c ?n 0%nat ?l ?s] =>
        destruct (negamax_loop_restores rec depth beta e p c
                    (IH (depth - 1) (p + 1)
                        ltac:(apply SearchFacts.fuel_for_child; (assumption || lia)))
                    n 0%nat l s) as (le & -> & Hle)
    end.
    { cbn. assumption. }
    { cbn. assumption. }
    { cbn. assumption. }
    destruct le as [loc' st' | v' st'].
    + pose proof (finish_node_kept depth loc' st') as Hf.
      destruct (finish_node depth loc' st') as [v2 st'']. cbn [snd] in Hf.
      do 2 eexists. split; [reflexivity |].
      apply (node_kept_trans _ _ _ Hc). apply (node_kept_trans _ _ _ Hle Hf).
    + do 2 eexists. split; [reflexivity |].
      apply (node_kept_trans _ _ _ Hc Hle).
Qed.


(** *** A node without legal move *)

Notation repeated := (repeated zobrist_numbers undo_move).
Notation tt_probe := (tt_probe zobrist_numbers tt_capacity).
Notation is_in_check := (Search.is_in_check get_rook_attacks get_bishop_attacks).
Notation no_legal_move :=
  (Search.no_legal_move get_rook_attacks get_bishop_attacks move_is_legal).
Notation get_pseudo_legal_moves :=
  (Search.get_pseudo_legal_moves get_rook_attacks get_bishop_attacks).

Lemma get_pseudo_legal_moves_same (p q : position) :
  pos_same p q -> get_pseudo_legal_moves p = get_pseudo_legal_moves q.
Proof.
  intros H. unfold Search.get_pseudo_legal_moves, Movegen.get_pseudo_legal_moves.
  rewrite (PosSame.generate_same get_rook_attacks get_bishop_attacks p q H).
  reflexivity.
Qed.

Lemma no_legal_move_same (p q : position) :
  pos_same p q -> no_legal_move p -> no_legal_move q.
Proof.
  intros H Hnone m Hm. rewrite <- (Hlegal_same p q m H). apply Hnone.
  unfold Search.generate in *.
  rewrite (PosSame.generate_same get_rook_attacks get_bishop_attacks p q H).
  exact Hm.
Qed.

(** The node after the polls at the top of [negamax], when the search is
    still running. *)
Lemma running_after_polls (st : state) (params : parameters) :
  running (limit_check (time_check timespec_get st params) params) = true ->
  let st0 := time_check timespec_get st params in
  limit_check st0 params = st0 /\ running st0 = true /\
  nodes st0 < params_nodes params /\ ply st0 <= MAX_PLY /\
  same_node (count_node st0) st.
Proof.
  intros Hrun st0.
  destruct (SearchFacts.limit_check_running st0 params Hrun) as (Heq & Hr & Hn & Hp).
  repeat split; try assumption;
    destruct (SearchFacts.same_node_time_check timespec_get st params)
      as (H1 & H2 & H3 & H4 & H5); cbn; assumption.
Qed.

Lemma early_return_cases (st : state) (params : parameters) (depth alpha beta : Z)
    (s1 : state) :
  same_node s1 st ->
  repeated s1 params = repeated st params /\
  tt_probe s1 depth alpha beta = tt_probe st depth alpha beta /\
  pos s1 = pos st /\ ply s1 = ply st.
Proof.
  intros Hsame. split; [apply SearchFacts.repeated_same; assumption |].
  split; [apply SearchFacts.tt_probe_same; assumption |].
  split; apply Hsame.
Qed.

(** [qsearch] on a position without legal move, whatever the window. *)
Lemma qsearch_no_legal (fuel : nat) (params : parameters) (depth alpha beta : Z)
    (st : state) :
  no_legal_move (pos st) ->
  exists st',
    qsearch (S fuel) params depth alpha beta st =
    Some (if running (limit_check st params) then
            match (if repeated st params then Some 0
                   else tt_probe st depth alpha beta) with
            | Some v => v
            | None =>
                if (evaluate (pos st) >=? beta) && negb (is_in_check (pos st))
                then evaluate (pos st)
                else if is_in_check (pos st) then - INF + ply st else 0
            end
          else alpha, st').
Proof.
  intros Hnone.
  destruct (running (limit_check st params)) eqn:Hrun.
  2:{ rewrite SearchFacts.qsearch_unfold. cbv zeta. rewrite Hrun. cbn [negb orb].
      eexists. reflexivity. }
  destruct (repeated st params) eqn:Hrep.
  { rewrite SearchFacts.qsearch_unfold. cbv zeta.
    destruct (SearchFacts.limit_check_running st params Hrun) as (Heq & Hr & Hn & _).
    rewrite Heq, Hr. cbn [negb orb].
    destruct (Z.geb_spec (nodes st) (params_nodes params)) as [| _]; [lia |].
    rewrite (SearchFacts.repeated_same zobrist_numbers undo_move params
               (count_node st) st (SearchFacts.same_node_count st)), Hrep.
    eexists. reflexivity. }
  destruct (tt_probe st depth alpha beta) as [score |] eqn:Htt.
  { rewrite SearchFacts.qsearch_unfold. cbv zeta.
    destruct (SearchFacts.limit_check_running st params Hrun) as (Heq & Hr & Hn & _).
    rewrite Heq, Hr. cbn [negb orb].
    destruct (Z.geb_spec (nodes st) (params_nodes params)) as [| _]; [lia |].
    rewrite (SearchFacts.repeated_same zobrist_numbers undo_move params
               (count_node st) st (SearchFacts.same_node_count st)), Hrep.
    rewrite (SearchFacts.tt_probe_same zobrist_numbers tt_capacity
               (count_node st) st depth alpha beta (SearchFacts.same_node_count st)), Htt.
    eexists. reflexivity. }
  destruct ((evaluate (pos st) >=? beta) && negb (is_in_check (pos st))) eqn:Hcut.
  { rewrite SearchFacts.qsearch_unfold. cbv zeta.
    destruct (SearchFacts.limit_check_running st params Hrun) as (Heq & Hr & Hn & _).
    rewrite Heq, Hr. cbn [negb orb].
    destruct (Z.geb_spec (nodes st) (params_nodes params)) as [| _]; [lia |].
    rewrite (SearchFacts.repeated_same zobrist_numbers undo_move params
               (count_node st) st (SearchFacts.same_node_count st)), Hrep.
    rewrite (SearchFacts.tt_probe_same zobrist_numbers tt_capacity
               (count_node st) st depth alpha beta (SearchFacts.same_node_count st)), Htt.
    change (pos (count_node st)) with (pos st). rewrite Hcut.
    eexists. reflexivity. }
  destruct (SearchFacts.no_legal_move_score zobrist_numbers tt_capacity
              get_rook_attacks get_bishop_attacks do_move undo_move do_null_move
              undo_null_move move_is_legal evaluate_move timespec_get
              fuel params depth alpha beta st Hnone Hrep Htt) as [_ Hq].
  apply Hq; [assumption |].
  apply andb_false_iff in Hcut. destruct Hcut as [Hc | Hc].
  - right. destruct (Z.geb_spec (evaluate (pos st)) beta); [discriminate | lia].
  - left. apply negb_false_iff in Hc. assumption.
Qed.


(** *** The root *)

Variable compute_stop_time : search_argument -> Z * Z -> Z * Z.
Variable stack_garbage : Z -> Z.
Variable indeterminate_move : Z.
Variable indeterminate_int : Z.

Notation search :=
  (search zobrist_numbers tt_capacity get_rook_attacks get_bishop_attacks
     do_move undo_move do_null_move undo_null_move move_is_legal evaluate_move
     timespec_get stack_garbage).
Notation search_loop := (search_loop zobrist_numbers do_move undo_move move_is_legal).
Notation deepening_loop :=
  (deepening_loop zobrist_numbers tt_capacity get_rook_attacks get_bishop_attacks
     do_move undo_move do_null_move undo_null_move move_is_legal evaluate_move
     timespec_get stack_garbage).
Notation run_search :=
  (run_search zobrist_numbers tt_capacity get_rook_attacks get_bishop_attacks
     do_move undo_move do_null_move undo_null_move move_is_legal evaluate_move
     timespec_get compute_stop_time stack_garbage indeterminate_move
     indeterminate_int).
Notation generate := (Search.generate get_rook_attacks get_bishop_attacks).
Notation has_legal_move :=
  (Search.has_legal_move get_rook_attacks get_bishop_attacks move_is_legal).
Notation init_pos_cnt_table := (init_pos_cnt_table zobrist_numbers undo_move).
Notation legal_in p moves m := (In m moves /\ move_is_legal p m = true).

Lemma init_pos_cnt_table_i8 (st : state) (params : parameters) :
  i8_table (pos_cnt st) -> i8_table (pos_cnt (init_pos_cnt_table st params)).
Proof.
  intros Hi8. unfold Search.init_pos_cnt_table.
  destruct (params_num_moves params =? 0); [assumption |].
  assert (Hfold : forall (idxs : list nat) (q : position) (cnt : Z -> Z),
             i8_table cnt ->
             i8_table
               (snd (fold_left
                       (fun '(prev_pos, cnt) i =>
                          let prev_pos :=
                            undo_move prev_pos (nth i (params_moves params) 0) in
                          (prev_pos, inc_pos_cnt cnt prev_pos))
                       idxs (q, cnt)))).
  { induction idxs as [| i idxs IH]; intros q cnt Hc; [exact Hc |].
    cbn [fold_left]. apply IH. apply inc_pos_cnt_i8. assumption. }
  specialize (Hfold (rev (seq 0 (Z.to_nat (params_num_moves params)))) (pos st)
                (fun _ => 0) ltac:(intros k; lia)).
  destruct (fold_left _ _ _) as [prev cnt]. exact Hfold.
Qed.

Lemma fold_last_legal (p : position) (moves : list Z) (best : Z) :
  let r := fold_left (fun best move => if move_is_legal p move then move else best)
                     moves best in
  (r = best /\ forall m, In m moves -> move_is_legal p m = false) \/
  legal_in p moves r.
Proof.
  cbv zeta. revert best. induction moves as [| move rest IH]; intros best.
  { left. split; [reflexivity | intros m []]. }
  cbn [fold_left]. destruct (move_is_legal p move) eqn:Hl.
  - right. destruct (IH move) as [[-> _] | [Hin Hlegal]].
    + split; [left; reflexivity | assumption].
    + split; [right; assumption | assumption].
  - destruct (IH best) as [[-> Hnone] | [Hin Hlegal]].
    + left. split; [reflexivity |]. intros m [<- | Hm]; [assumption | auto].
    + right. split; [right; assumption | assumption].
Qed.

Lemma root_fold_legal (p : position) (moves : list Z) (h : bool) (b : Z) :
  let r := fold_left
             (fun '(has_legal, best_move) move =>
                if move_is_legal p move then (true, move) else (has_legal, best_move))
             moves (h, b) in
  (r = (h, b) /\ forall m, In m moves -> move_is_legal p m = false) \/
  (fst r = true /\ legal_in p moves (snd r)).
Proof.
  cbv zeta. revert h b. induction moves as [| move rest IH]; intros h b.
  { left. split; [reflexivity | intros m []]. }
  cbn [fold_left]. destruct (move_is_legal p move) eqn:Hl.
  - right. destruct (IH true move) as [[-> _] | (Hf & Hin & Hlegal)].
    + cbn [fst snd]. split; [reflexivity |].
      split; [left; reflexivity | assumption].
    + split; [assumption |]. split; [right; assumption | assumption].
  - destruct (IH h b) as [[-> Hnone] | (Hf & Hin & Hlegal)].
    + left. split; [reflexivity |]. intros m [<- | Hm]; [assumption | auto].
    + right. split; [assumption |]. split; [right; assumption | assumption].
Qed.

Lemma search_loop_legal (rec : Z -> Z -> Z -> state -> option (Z * state))
    (params : parameters) (root : position) :
  restores_at rec (params_depth params - 1) 1 ->
  forall (moves : list Z) (alpha : Z) (res : result) (st : state),
    ply st = 0 -> i8_table (pos_cnt st) -> valid (pos st) ->
    pos_same (pos st) root ->
    exists alpha' res' st',
      search_loop rec params moves alpha res st = Some (alpha', res', st') /\
      node_kept st st' /\
      (result_best res' = result_best res \/ legal_in root moves (result_best res')).
Proof.
  intros Hrec.
  induction moves as [| move rest IH]; intros alpha res st Hply Hi8 Hv Hpos.
  { do 3 eexists. split; [reflexivity |]. split; [apply node_kept_refl | auto]. }
  cbn [Search.search_loop].
  set (st0 := if nodes st >=? params_nodes params then set_running st false else st).
  assert (Hk0 : node_kept st st0)
    by (subst st0; destruct (_ >=? _); apply node_kept_fields; reflexivity).
  assert (Hp0 : ply st0 = 0) by (destruct Hk0 as (_ & Hp & _); lia).
  assert (Hi0 : i8_table (pos_cnt st0)) by (apply (i8_table_kept _ _ Hk0 Hi8)).
  assert (Hv0 : valid (pos st0)) by (apply (valid_kept _ _ Hk0 Hv)).
  assert (Hpos0 : pos_same (pos st0) root)
    by (destruct Hk0 as (Hq & _); apply (PosSame.pos_same_trans _ _ _ Hq Hpos)).
  destruct (negb (running st0)).
  { do 3 eexists. split; [reflexivity |]. auto. }
  destruct (move_is_legal (pos st0) move) eqn:Hlegal; cbn [negb].
  2:{ destruct (IH alpha res st0 Hp0 Hi0 Hv0 Hpos0) as (a' & r' & s' & -> & Hk' & Hb').
      do 3 eexists. split; [reflexivity |].
      split; [apply (node_kept_trans _ _ _ Hk0 Hk') |].
      destruct Hb' as [Hb' | [Hin Hl]]; [left; assumption | right].
      split; [right; assumption | assumption]. }
  destruct (child_restores rec (params_depth params - 1) 0 (- INF) (- alpha) st0 move
              Hrec Hp0 Hi0 Hv0 Hlegal) as (v & s1 & -> & Hk1).
  set (st2 := leave_child s1 move) in *.
  assert (Hk2 : node_kept st st2) by (apply (node_kept_trans _ _ _ Hk0 Hk1)).
  assert (Hp2 : ply st2 = 0) by (destruct Hk2 as (_ & Hp & _); lia).
  assert (Hi2 : i8_table (pos_cnt st2)) by (apply (i8_table_kept _ _ Hk2 Hi8)).
  assert (Hv2 : valid (pos st2)) by (apply (valid_kept _ _ Hk2 Hv)).
  assert (Hpos2 : pos_same (pos st2) root)
    by (destruct Hk2 as (Hq & _); apply (PosSame.pos_same_trans _ _ _ Hq Hpos)).
  assert (Hmove : legal_in root (move :: rest) move).
  { split; [left; reflexivity |].
    rewrite <- (Hlegal_same (pos st0) root move Hpos0). exact Hlegal. }
  destruct (- v >? alpha); cbv beta iota.
  - match goal with |- exists _ _ _, (if ?c then _ else _) = _ /\ _ => destruct c end.
    + do 3 eexists. split; [reflexivity |]. cbn [result_best]. auto.
    + match goal with
      | |- context [search_loop rec params rest ?a ?r st2] =>
          destruct (IH a r st2 Hp2 Hi2 Hv2 Hpos2) as (a' & r' & s' & -> & Hk' & Hb')
      end.
      do 3 eexists. split; [reflexivity |].
      split; [apply (node_kept_trans _ _ _ Hk2 Hk') |]. right.
      cbn [result_best] in Hb'. destruct Hb' as [-> | [Hin Hl]]; [assumption |].
      split; [right; assumption | assumption].
  - match goal with |- exists _ _ _, (if ?c then _ else _) = _ /\ _ => destruct c end.
    + do 3 eexists. split; [reflexivity |]. cbn [result_best]. auto.
    + match goal with
      | |- context [search_loop rec params rest ?a ?r st2] =>
          destruct (IH a r st2 Hp2 Hi2 Hv2 Hpos2) as (a' & r' & s' & -> & Hk' & Hb')
      end.
      do 3 eexists. split; [reflexivity |].
      split; [apply (node_kept_trans _ _ _ Hk2 Hk') |].
      destruct Hb' as [Hb' | [Hin Hl]]; [left; assumption | right].
      split; [right; assumption | assumption].
Qed.

Lemma fold_last_same (p q : position) (moves : list Z) (best : Z) :
  pos_same p q ->
  fold_left (fun best move => if move_is_legal p move then move else best) moves best =
  fold_left (fun best move => if move_is_legal q move then move else best) moves best.
Proof.
  intros H. revert best. induction moves as [| move rest IH]; intros best;
    [reflexivity |].
  cbn [fold_left]. rewrite (Hlegal_same p q move H). apply IH.
Qed.

Hypothesis Hgarbage : i8_table stack_garbage.

Lemma search_legal (fuel : nat) (params : parameters) (st : state) :
  (fuel_for (params_depth params - 1) 1 <= fuel)%nat ->
  valid (params_pos params) ->
  has_legal_move (params_pos params) ->
  exists res st',
    search fuel params st = Some (res, st') /\
    best_moves_sent (trace st') = best_moves_sent (trace st) /\
    legal_in (params_pos params) (generate (params_pos params)) (result_best res).
Proof.
  intros Hfuel Hv (lm & Hlm_in & Hlm_legal). unfold Search.search.
  destruct (SearchFacts.get_pseudo_legal_moves_cases get_rook_attacks
              get_bishop_attacks (params_pos params)) as [[Hgen Heq] | [Hgen Heq]].
  { unfold Search.generate in Hlm_in, Hgen. rewrite Hgen in Hlm_in. destruct Hlm_in. }
  rewrite Heq. cbn [array_of].
  set (st_in := set_inodes _ 0).
  destruct (SearchFacts.init_pos_cnt_table_keeps zobrist_numbers undo_move
              (set_pos_cnt
                 (set_killers
                    (set_move_made
                       (set_pos (set_nodes (set_ply st 0) 0) (params_pos params))
                       (fun _ => 0)) (fun _ => (0, 0))) stack_garbage) params)
    as (Kp & Kt & Kr & Kn & Kpos).
  match goal with
  | |- context [search_loop ?rec params ?ms ?a ?r ?s] =>
      destruct (search_loop_legal rec params (params_pos params)
                  (negamax_restores params fuel (params_depth params - 1) 1 Hfuel)
                  ms a r s) as (a' & r' & s' & -> & Hk' & Hb')
  end.
  { cbn. exact Kp. }
  { cbn. apply inc_pos_cnt_i8. apply init_pos_cnt_table_i8. cbn. exact Hgarbage. }
  { cbn. rewrite Kpos. exact Hv. }
  { cbn. rewrite Kpos. apply PosSame.pos_same_refl. }
  destruct Hk' as (Hq & _ & _ & Ht'). cbn in Hq, Ht'. rewrite Kpos in Hq.
  do 2 eexists. split; [reflexivity |].
  cbn [trace set_pos_cnt emit set_clock_reads result_best pos].
  split.
  { rewrite Ht', SearchFacts.best_moves_sent_app. cbn. rewrite app_nil_r, Kt.
    reflexivity. }
  cbn [result_best] in Hb'.
  destruct (Z.eqb_spec (result_best r') 0) as [Hz | Hnz]; cbn [andb].
  - destruct (Z.eqb_spec (Z.of_nat (length (generate (params_pos params)))) 0)
      as [Hlen | Hlen].
    { destruct (generate (params_pos params)); [congruence | cbn in Hlen; lia]. }
    cbn [negb]. rewrite (fold_last_same (pos s') (params_pos params) _ _ Hq).
    destruct (fold_last_legal (params_pos params) (generate (params_pos params))
                (result_best r')) as [[_ Hnone] | Hl]; [| exact Hl].
    rewrite (Hnone lm Hlm_in) in Hlm_legal. discriminate.
  - destruct Hb' as [Hb' | Hl]; [congruence | exact Hl].
Qed.

Lemma deepening_loop_legal (fuel : nat) (max_depth : Z) :
  max_depth <= MAX_DEPTH -> (fuel_for MAX_DEPTH 0 <= fuel)%nat ->
  forall (n : nat) (depth nodes : Z) (params : parameters) (best_move : Z)
         (st : state),
    valid (params_pos params) ->
    has_legal_move (params_pos params) ->
    legal_in (params_pos params) (generate (params_pos params)) best_move ->
    exists best_move' st',
      deepening_loop fuel n max_depth depth nodes params best_move st
      = Some (best_move', st') /\
      best_moves_sent (trace st') = best_moves_sent (trace st) /\
      legal_in (params_pos params) (generate (params_pos params)) best_move'.
Proof.
  intros Hmax Hfuel.
  induction n as [| n IH]; intros depth nodes params best_move st Hv Hhas Hbest.
  { do 2 eexists. split; [reflexivity | auto]. }
  cbn [Search.deepening_loop].
  destruct (Z.leb_spec depth max_depth) as [Hd | Hd]; cbn [andb];
    [| do 2 eexists; split; [reflexivity | auto]].
  destruct (nodes >? 0); [| do 2 eexists; split; [reflexivity | auto]].
  destruct (search_legal fuel (with_depth_nodes params depth nodes) st)
    as (res & st1 & -> & Ht1 & Hl1).
  { cbn. etransitivity; [apply SearchFacts.fuel_for_root; lia | exact Hfuel]. }
  { exact Hv. }
  { exact Hhas. }
  cbn [params_pos with_depth_nodes] in Hl1.
  destruct (negb (running st1)); [do 2 eexists; split; [reflexivity | auto] |].
  match goal with |- exists _ _, (if ?c then _ else _) = _ /\ _ => destruct c end;
    [do 2 eexists; split; [reflexivity | auto] |].
  match goal with
  | |- context [deepening_loop fuel n max_depth ?d ?k ?ps ?bm st1] =>
      destruct (IH d k ps bm st1 Hv Hhas Hl1) as (bm' & st' & -> & Ht' & Hl')
  end.
  do 2 eexists. split; [reflexivity |]. split; [congruence | exact Hl'].
Qed.


End Tree.

(** *** The search on a make and an unmake put together from pos.c *)

Lemma ex_valid_pos_start : ex_valid pos_start.
Proof. split; [vm_compute; reflexivity | left; reflexivity]. Qed.

Lemma ex_white_quiet_move_undo (p : position) (m : Z) :
  ex_valid p -> ex_white_quiet_move p m = true ->
  ex_valid (ex_make_move p m) /\
  pos_same (ex_unmake_move (ex_make_move p m) m) p.
Proof.
  intros Hv Hl. apply andb_true_iff in Hl. destruct Hl as [_ Hl].
  apply PosSame.ex_make_unmake; assumption.
Qed.

Lemma ex_white_quiet_move_same (p q : position) (m : Z) :
  pos_same p q -> ex_white_quiet_move p m = ex_white_quiet_move q m.
Proof.
  intros H. unfold ex_white_quiet_move.
  rewrite (PosSame.ex_quiet_move_same p q m H). destruct H as (-> & _).
  reflexivity.
Qed.

Lemma ex_black_has_no_move (gr gb : Z -> Z -> Z) (p : position) :
  side_to_move p = COLOR_BLACK -> no_legal_move gr gb ex_white_quiet_move p.
Proof. intros H m _. unfold ex_white_quiet_move. rewrite H. reflexivity. Qed.

Lemma leave_child_undoes_enter_child_witness :
  node_kept (ex_state pos_start 0)
    (leave_child ex_zobrist ex_unmake_move
       (enter_child ex_zobrist ex_make_move (ex_state pos_start 0)
          (create_move 12 20 MOVE_OTHER))
       (create_move 12 20 MOVE_OTHER)).
Proof.
  refine (proj2 (proj2 (proj2
    (leave_child_undoes_enter_child ex_zobrist ex_make_move ex_unmake_move
       (ex_state pos_start 0) _ (create_move 12 20 MOVE_OTHER) _))) _ _ _).
  - intros k. cbn. lia.
  - apply (PosSame.ex_make_unmake pos_start (create_move 12 20 MOVE_OTHER));
      [exact ex_valid_pos_start | vm_compute; reflexivity].
  - intros p q. apply PosSame.ex_unmake_move_same.
  - apply node_kept_refl.
Defined.




(** ** The search stops *)

Section Stop.

Variable zobrist_numbers : Z -> Z.
Variable tt_capacity : Z.
Variable get_rook_attacks : Z -> Z -> Z.
Variable get_bishop_attacks : Z -> Z -> Z.
Variable do_move : position -> Z -> position.
Variable undo_move : position -> Z -> position.
Variable do_null_move : position -> position.
Variable undo_null_move : position -> position.
Variable move_is_legal : position -> Z -> bool.
Variable evaluate_move : Z -> position -> Z.
Variable timespec_get : nat -> Z * Z.

Notation qsearch :=
  (qsearch zobrist_numbers tt_capacity get_rook_attacks get_bishop_attacks
     do_move undo_move move_is_legal evaluate_move).
Notation negamax :=
  (negamax zobrist_numbers tt_capacity get_rook_attacks get_bishop_attacks
     do_move undo_move do_null_move undo_null_move move_is_legal evaluate_move
     timespec_get).


(** The fields of the memory that a stopped node leaves alone: all but
    [running] and the number of clock readings. *)
Notation untouched s s' :=
  (ply s' = ply s /\ nodes s' = nodes s /\ pos s' = pos s /\
   killers s' = killers s /\ move_made s' = move_made s /\
   pos_cnt s' = pos_cnt s /\ inodes s' = inodes s /\ tt s' = tt s /\
   trace s' = trace s).

Lemma time_check_untouched (st : state) (params : parameters) :
  untouched st (time_check timespec_get st params) /\
  (running st = false -> running (time_check timespec_get st params) = false).
Proof.
  unfold time_check. destruct (Z.rem (nodes st) 8192 =? 0); [| tauto].
  destruct (params_limited_time params); [| cbn; tauto].
  destruct (_ || _); cbn; tauto.
Qed.

Lemma limit_check_untouched (st : state) (params : parameters) :
  untouched st (limit_check st params) /\
  (running st = false \/ params_nodes params <= nodes st \/ MAX_PLY < ply st ->
   running (limit_check st params) = false).
Proof.
  unfold limit_check.
  destruct (Z.geb_spec (nodes st) (params_nodes params)) as [Hn | Hn];
    destruct (Z.gtb_spec (ply st) MAX_PLY) as [Hp | Hp]; cbn [orb];
    cbn [orb running set_running ply nodes pos killers move_made pos_cnt inodes tt
         trace];
    (split; [repeat split |]); intros [H | [H | H]];
    first [reflexivity | assumption | lia].
Qed.

(** X26: a node entered when the search is stopped, when the node limit
    is used up or beyond [MAX_PLY] returns the [alpha] it was given at once;
    it counts no node, probes and stores nothing in the transposition table
    and changes neither position, killers nor repetition counters.  All it
    leaves behind is the stop flag, set. *)
Theorem stopped_search_returns_alpha (params : parameters) (fuel : nat)
    (depth alpha beta : Z) (st : state) :
  running st = false \/ params_nodes params <= nodes st \/ MAX_PLY < ply st ->
  (exists st', negamax (S fuel) params depth alpha beta st = Some (alpha, st') /\
               running st' = false /\ untouched st st') /\
  (exists st', qsearch (S fuel) params depth alpha beta st = Some (alpha, st') /\
               untouched st st' /\ clock_reads st' = clock_reads st).
Proof.
  intros Hstop. split.
  - cbn [Search.negamax].
    destruct (time_check_untouched st params) as [Ht Htr].
    set (st0 := time_check timespec_get st params) in *.
    destruct (limit_check_untouched st0 params) as [Hl Hlr].
    assert (Hrun : running (limit_check st0 params) = false).
    { apply Hlr. destruct Ht as (Hp & Hn & _). rewrite Hp, Hn.
      destruct Hstop as [H | H]; [left; apply Htr; assumption | right; assumption]. }
    rewrite Hrun. cbn [negb]. eexists. split; [reflexivity |].
    split; [assumption |].
    destruct Ht as (A1 & A2 & A3 & A4 & A5 & A6 & A7 & A8 & A9).
    destruct Hl as (B1 & B2 & B3 & B4 & B5 & B6 & B7 & B8 & B9).
    repeat split; congruence.
  - cbn [Search.qsearch].
    destruct (limit_check_untouched st params) as [Hl Hlr].
    assert (Hc : clock_reads (limit_check st params) = clock_reads st)
      by (unfold limit_check; destruct (_ || _); reflexivity).
    destruct (negb (running (limit_check st params)) ||
              (nodes (limit_check st params) >=? params_nodes params)) eqn:Hcond.
    + eexists. split; [reflexivity |]. split; assumption.
    + exfalso. apply orb_false_elim in Hcond. destruct Hcond as [Hr _].
      rewrite (Hlr Hstop) in Hr. discriminate.
Qed.

End Stop.

Lemma stopped_search_returns_alpha_witness :
  exists st',
    ex_negamax 1 (ex_params pos_start) 3 (-5) 7
      (set_running (ex_state pos_start 0) false) = Some (-5, st') /\
    running st' = false.
Proof.
  destruct (stopped_search_returns_alpha ex_zobrist ex_capacity
              Movegen.table_rook_attacks Movegen.table_bishop_attacks
              ex_do_move ex_do_move ex_do_null_move ex_do_null_move ex_illegal
              ex_evaluate_move ex_clock (ex_params pos_start) 0 3 (-5) 7
              (set_running (ex_state pos_start 0) false) (or_introl eq_refl))
    as [(st' & Heq & Hrun & _) _].
  exists st'. split; assumption.
Defined.
(** ** Perft *)

Section Perft.

Variable get_rook_attacks : Z -> Z -> Z.
Variable get_bishop_attacks : Z -> Z -> Z.
Variable do_move : position -> Z -> position.
Variable undo_move : position -> Z -> position.
Variable move_is_legal : position -> Z -> bool.

(** What perft asks of the functions that make and unmake moves: on the
    positions of some invariant [valid], a legal move that is made and taken
    back gives the position back up to what lies above the top of its stack
    of irreversible states, and none of the three functions depends on what
    lies there. *)
Variable valid : position -> Prop.

Hypothesis Hundo :
  forall p m, valid p -> move_is_legal p m = true ->
              valid (do_move p m) /\ pos_same (undo_move (do_move p m) m) p.
Hypothesis Hdo_same :
  forall p q m, pos_same p q -> pos_same (do_move p m) (do_move q m).
Hypothesis Hundo_same :
  forall p q m, pos_same p q -> pos_same (undo_move p m) (undo_move q m).
Hypothesis Hlegal_same :
  forall p q m, pos_same p q -> move_is_legal p m = move_is_legal q m.

Notation movegen_perft :=
  (movegen_perft get_rook_attacks get_bishop_attacks do_move undo_move move_is_legal).
Notation generate := (Search.generate get_rook_attacks get_bishop_attacks).

(** The count and the position handed back do not depend on what lies
    above the top of the stack. *)
Notation perft_same_at d :=
  (forall p p', valid p -> pos_same p' p ->
                fst (movegen_perft d p') = fst (movegen_perft d p) /\
                pos_same (snd (movegen_perft d p')) p).

Lemma perft_fold (d : nat) :
  perft_same_at d ->
  forall (moves : list Z) (p p' : position) (n : Z),
    0 <= n < 2 ^ 64 -> valid p -> pos_same p' p ->
    let r := fold_left
               (fun '(n, p) move =>
                  if negb (move_is_legal p move) then (n, p)
                  else
                    let p := do_move p move in
                    let '(sub, p) := movegen_perft d p in
                    (Bit.wrap64 (n + sub), undo_move p move))
               moves (n, p') in
    fst r = Bit.wrap64
              (n + fold_right Z.add 0
                     (map (fun m => fst (movegen_perft d (do_move p m)))
                          (filter (move_is_legal p) moves))) /\
    pos_same (snd r) p.
Proof.
  intros Hd. cbv zeta.
  induction moves as [| move rest IH]; intros p p' n Hn Hv Hp.
  { cbn. unfold Bit.wrap64. rewrite Z.add_0_r, Z.mod_small by assumption.
    split; [reflexivity | assumption]. }
  cbn [fold_left filter]. rewrite (Hlegal_same p' p move Hp).
  destruct (move_is_legal p move) eqn:Hl; cbn [negb].
  - destruct (Hundo p move Hv Hl) as [Hv1 Hback].
    destruct (Hd (do_move p move) (do_move p' move) Hv1 (Hdo_same p' p move Hp))
      as [Hcount Hkept].
    destruct (movegen_perft d (do_move p' move)) as [sub q].
    cbn [fst snd] in Hcount, Hkept.
    destruct (IH p (undo_move q move) (Bit.wrap64 (n + sub))) as [Hfst Hsnd].
    + unfold Bit.wrap64. apply Z.mod_pos_bound. lia.
    + assumption.
    + apply (PosSame.pos_same_trans _ _ _ (Hundo_same _ _ move Hkept) Hback).
    + split; [| exact Hsnd]. rewrite Hfst. cbn [map fold_right].
      rewrite Hcount. unfold Bit.wrap64. rewrite Zplus_mod_idemp_l.
      f_equal. lia.
  - apply IH; assumption.
Qed.

Lemma perft_same (d : nat) : perft_same_at d.
Proof.
  induction d as [| d IH]; intros p p' Hv Hp; [split; [reflexivity | exact Hp] |].
  cbn [Search.movegen_perft].
  destruct (SearchFacts.array_of_moves get_rook_attacks get_bishop_attacks p')
    as [-> _].
  destruct (SearchFacts.array_of_moves get_rook_attacks get_bishop_attacks p)
    as [-> _].
  unfold Search.generate.
  rewrite (PosSame.generate_same get_rook_attacks get_bishop_attacks p' p Hp).
  destruct (perft_fold d IH (Movegen.generate get_rook_attacks get_bishop_attacks p)
              p p' 0 ltac:(lia) Hv Hp) as [H1 H2].
  destruct (perft_fold d IH (Movegen.generate get_rook_attacks get_bishop_attacks p)
              p p 0 ltac:(lia) Hv (PosSame.pos_same_refl p)) as [H3 _].
  split; [exact (eq_trans H1 (eq_sym H3)) | exact H2].
Qed.

(** X27: when [undo_move] takes back every legal move up to what lies
    above the top of the stack of irreversible states, [movegen_perft]
    hands the position back as it found it, up to the same, and counts the
    leaves of the tree of legal moves: 1 at depth 0, at depth 1 the number
    of legal moves, and one ply deeper the sum of the counts of the
    positions after each legal move, in 64-bit arithmetic. *)
Theorem perft_counts_the_legal_tree (d : nat) (p : position) :
  valid p ->
  pos_same (snd (movegen_perft d p)) p /\
  fst (movegen_perft 0 p) = 1 /\
  fst (movegen_perft (S d) p)
  = Bit.wrap64
      (fold_right Z.add 0
         (map (fun m => fst (movegen_perft d (do_move p m)))
              (filter (move_is_legal p) (generate p)))) /\
  fst (movegen_perft 1 p)
  = Bit.wrap64 (Z.of_nat (length (filter (move_is_legal p) (generate p)))).
Proof.
  intros Hv.
  assert (Hstep : forall d', fst (movegen_perft (S d') p)
            = Bit.wrap64
                (fold_right Z.add 0
                   (map (fun m => fst (movegen_perft d' (do_move p m)))
                        (filter (move_is_legal p) (generate p))))).
  { intros d'. cbn [Search.movegen_perft].
    destruct (SearchFacts.array_of_moves get_rook_attacks get_bishop_attacks p)
      as [-> _].
    destruct (perft_fold d' (perft_same d') (generate p) p p 0 ltac:(lia) Hv
                (PosSame.pos_same_refl p)) as [H1 _].
    exact H1. }
  split; [apply (perft_same d p p Hv (PosSame.pos_same_refl p)) |].
  split; [reflexivity |]. split; [apply Hstep |].
  rewrite Hstep. f_equal. clear Hstep.
  induction (filter (move_is_legal p) (generate p)) as [| m l IH]; [reflexivity |].
  cbn [map fold_right length]. rewrite IH. cbn [Search.movegen_perft fst]. lia.
Qed.

End Perft.

Lemma perft_counts_the_legal_tree_witness :
  pos_same
    (snd (movegen_perft Movegen.table_rook_attacks Movegen.table_bishop_attacks
            ex_make_move ex_unmake_move ex_quiet_move 2 pos_start)) pos_start /\
  fst (movegen_perft Movegen.table_rook_attacks Movegen.table_bishop_attacks
         ex_make_move ex_unmake_move ex_quiet_move 1 pos_start)
  = Bit.wrap64 (Z.of_nat (length (filter (ex_quiet_move pos_start)
      (generate Movegen.table_rook_attacks Movegen.table_bishop_attacks pos_start)))).
Proof.
  destruct (perft_counts_the_legal_tree Movegen.table_rook_attacks
              Movegen.table_bishop_attacks ex_make_move ex_unmake_move
              ex_quiet_move ex_valid PosSame.ex_make_unmake
              PosSame.ex_make_move_same PosSame.ex_unmake_move_same
              PosSame.ex_quiet_move_same 2 pos_start ex_valid_pos_start)
    as (Hback & _ & _ & Hone).
  split; [exact Hback | exact Hone].
Defined.

(** ** A perft run *)

Section PerftRun.

Variable zobrist_numbers : Z -> Z.
Variable tt_capacity : Z.
Variable get_rook_attacks : Z -> Z -> Z.
Variable get_bishop_attacks : Z -> Z -> Z.
Variable do_move : position -> Z -> position.
Variable undo_move : position -> Z -> position.
Variable do_null_move : position -> position.
Variable undo_null_move : position -> position.
Variable move_is_legal : position -> Z -> bool.
Variable evaluate_move : Z -> position -> Z.
Variable timespec_get : nat -> Z * Z.
Variable compute_stop_time : search_argument -> Z * Z -> Z * Z.
Variable stack_garbage : Z -> Z.
Variable indeterminate_move : Z.
Variable indeterminate_int : Z.

Notation run_search :=
  (run_search zobrist_numbers tt_capacity get_rook_attacks get_bishop_attacks
     do_move undo_move do_null_move undo_null_move move_is_legal evaluate_move
     timespec_get compute_stop_time stack_garbage indeterminate_move
     indeterminate_int).
Notation movegen_perft :=
  (movegen_perft get_rook_attacks get_bishop_attacks do_move undo_move move_is_legal).
Notation generate := (Search.generate get_rook_attacks get_bishop_attacks).
Notation has_legal_move :=
  (Search.has_legal_move get_rook_attacks get_bishop_attacks move_is_legal).

(** X28: a request with a positive [perft] on a position with a legal
    move is a perft run, also when [infinite] is set: [run_search] sends one
    record whose node count is the count of [movegen_perft] and whose flags
    are [INFO_FLAG_NODES | INFO_FLAG_NPS], hands no move to
    [best_move_sender], clears the running flag and returns 0; it makes no
    search, so it needs none of the search's recursion. *)
Theorem perft_run_sends_the_count_only (fuel : nat) (arg : search_argument)
    (st : state) :
  0 < arg_perft arg ->
  has_legal_move (arg_pos arg) ->
  exists i st',
    run_search fuel arg st = Some (0, st') /\
    trace st' = trace st ++ [InfoSent i] /\
    info_nodes i = fst (movegen_perft (Z.to_nat (arg_perft arg)) (arg_pos arg)) /\
    info_flags i = Z.lor INFO_FLAG_NODES INFO_FLAG_NPS /\
    running st' = false /\
    best_moves_sent (trace st') = best_moves_sent (trace st).
Proof.
  intros Hperft Hhas. unfold Search.run_search.
  destruct (SearchFacts.get_pseudo_legal_moves_cases get_rook_attacks
              get_bishop_attacks (arg_pos arg)) as [[Hgen Heq] | [Hgen Heq]].
  { destruct Hhas as (lm & Hin & _). unfold Search.generate in Hin, Hgen.
    rewrite Hgen in Hin. destruct Hin. }
  rewrite Heq.
  pose proof (SearchFacts.root_fold_has_legal move_is_legal (arg_pos arg)
                (generate (arg_pos arg)) false indeterminate_move) as Hfold.
  destruct (fold_left _ (generate (arg_pos arg)) (false, indeterminate_move))
    as [has_legal first_move].
  cbn [fst orb] in Hfold.
  assert (Hex : existsb (move_is_legal (arg_pos arg)) (generate (arg_pos arg)) = true)
    by (apply existsb_exists; exact Hhas).
  rewrite Hex in Hfold. subst has_legal. cbn [negb andb].
  destruct (Z.eqb_spec (arg_perft arg) 0) as [H0 | _]; [lia |]. cbn [negb].
  unfold perft. destruct (Z.ltb_spec (arg_perft arg) 0) as [Hneg | _]; [lia |].
  do 2 eexists. split; [reflexivity |].
  cbn [trace emit set_running set_clock_reads running info_nodes info_flags].
  repeat split.
  rewrite SearchFacts.best_moves_sent_app. cbn. apply app_nil_r.
Qed.

End PerftRun.

Lemma perft_run_sends_the_count_only_witness :
  exists i st',
    run_search ex_zobrist ex_capacity Movegen.table_rook_attacks
      Movegen.table_bishop_attacks ex_do_move ex_do_move ex_do_null_move
      ex_do_null_move (fun _ _ => true) ex_evaluate_move ex_clock ex_stop_time
      (fun _ => 0) 0 0 0
      {| arg_pos := pos_start; arg_moves := []; arg_num_moves := 0;
         arg_infinite := true; arg_depth := 0; arg_mate := 0; arg_movestogo := 0;
         arg_perft := 1; arg_nodes := 0; arg_time := fun _ => 0;
         arg_inc := fun _ => 0; arg_movetime := 0 |}
      (ex_state pos_start 0) = Some (0, st') /\
    trace st' = [InfoSent i] /\ running st' = false.
Proof.
  destruct (perft_run_sends_the_count_only ex_zobrist ex_capacity
              Movegen.table_rook_attacks Movegen.table_bishop_attacks
              ex_do_move ex_do_move ex_do_null_move ex_do_null_move
              (fun _ _ => true) ex_evaluate_move ex_clock ex_stop_time
              (fun _ => 0) 0 0 0%nat
              {| arg_pos := pos_start; arg_moves := []; arg_num_moves := 0;
                 arg_infinite := true; arg_depth := 0; arg_mate := 0;
                 arg_movestogo := 0; arg_perft := 1; arg_nodes := 0;
                 arg_time := fun _ => 0; arg_inc := fun _ => 0;
                 arg_movetime := 0 |}
              (ex_state pos_start 0))
    as (i & st' & Heq & Htr & _ & _ & Hrun & _).
  - reflexivity.
  - exists (create_move 12 28 MOVE_DOUBLE_PAWN_PUSH). split; [| reflexivity].
    vm_compute. repeat (first [left; reflexivity | right]).
  - exists i, st'. split; [exact Heq |]. split; [exact Htr | exact Hrun].
Defined.

(** ** The information sent after an iteration *)

(** X29: the record that [search] sends keeps what search.h asks of the
    flags: of [INFO_FLAG_MATE] and [INFO_FLAG_CP] exactly one is set, the
    first exactly for a score in one of the two mate windows;
    [INFO_FLAG_LBOUND] is set exactly when the search was stopped.  A score
    of [INF - k] is reported as mate in [(k + 1) / 2] moves, a score of
    [-INF + k] as minus that. *)
Theorem search_info_flags_and_mate (params : parameters) (alpha : Z) (st : state) :
  let i := search_info params alpha st in
  let has flag := negb (Z.land (info_flags i) flag =? 0) in
  has INFO_FLAG_MATE = negb (has INFO_FLAG_CP) /\
  has INFO_FLAG_MATE = (alpha >=? INF - MAX_PLY) || (alpha <=? - INF + MAX_PLY) /\
  has INFO_FLAG_LBOUND = negb (running st) /\
  info_cp i = alpha /\
  (forall k, 0 <= k <= MAX_PLY ->
     (alpha = INF - k -> info_mate i = (k + 1) / 2) /\
     (alpha = - INF + k -> info_mate i = - ((k + 1) / 2))).
Proof.
  cbv zeta. unfold search_info.
  assert (Hmate : forall k, 0 <= k <= MAX_PLY ->
            Z.quot (INF - (INF - k) + 1) 2 = (k + 1) / 2 /\
            Z.quot (- (INF + (- INF + k) + 1)) 2 = - ((k + 1) / 2)).
  { intros k Hk. replace (INF - (INF - k) + 1) with (k + 1) by lia.
    replace (- (INF + (- INF + k) + 1)) with (- (k + 1)) by lia.
    rewrite Z.quot_opp_l by lia. rewrite Z.quot_div_nonneg by lia. auto. }
  destruct (Z.geb_spec alpha (INF - MAX_PLY)) as [Hhi | Hhi];
    [| destruct (Z.leb_spec alpha (- INF + MAX_PLY)) as [Hlo | Hlo]];
    destruct (running st); cbn [negb orb info_flags info_cp info_mate];
    (split; [vm_compute; reflexivity |]);
    (split; [vm_compute; reflexivity |]);
    (split; [vm_compute; reflexivity |]);
    (split; [reflexivity |]);
    intros k Hk; (split; intros ->);
    try apply (proj1 (Hmate k Hk)); try apply (proj2 (Hmate k Hk));
    unfold INF, MAX_PLY, MAX_DEPTH in *; lia.
Qed.

End SearchProps.

Module EvalProps.
Import Pos Tables.

Lemma phase_in_range (pos : position) :
  phase_material pos <= 24 -> 0 <= get_phase pos <= 256.
Proof.
  intros Hle. rewrite PosProps.get_phase_formula.
  assert (Hm : 0 <= phase_material pos).
  { unfold phase_material. cbv zeta.
    repeat match goal with
           | |- context [get_number_of_pieces pos ?p] =>
               let H := fresh in
               pose proof (PosProps.number_of_pieces_nonneg pos p) as H;
               generalize dependent (get_number_of_pieces pos p); intros
           end.
    lia. }
  set (m := phase_material pos) in *.
  pose proof (Z.quot_rem' (256 * (24 - m) + 12) 24) as Hqr.
  pose proof (Z.rem_bound_pos (256 * (24 - m) + 12) 24 ltac:(lia) ltac:(lia)) as Hr.
  lia.
Qed.

Lemma quot_between (lo hi n : Z) :
  256 * lo <= n <= 256 * hi -> lo <= Z.quot n 256 <= hi.
Proof.
  intros Hn. pose proof (Z.quot_rem' n 256) as Hqr.
  destruct (Z_le_gt_dec 0 n) as [Hpos | Hneg].
  - pose proof (Z.rem_bound_pos n 256 Hpos ltac:(lia)). lia.
  - pose proof (PosProps.rem_neg_bound n 256) as Hr. lia.
Qed.

Lemma taper_between (s : score) (phase : Z) :
  0 <= phase <= 256 ->
  Z.min (mg s) (eg s) <= Eval1.taper s phase <= Z.max (mg s) (eg s).
Proof.
  intros Hph. unfold Eval1.taper. apply quot_between. nia.
Qed.

(** X30: as long as the board holds no more knights, bishops, rooks and
    queens than the starting position, the tapered evaluation lies between
    its middle-game and its end-game score; it is the middle-game score
    with the full material and the end-game score when only kings and
    pawns are left.  Both versions of [evaluate] do so. *)
Theorem evaluate_between_game_phases (pos : position) :
  phase_material pos <= 24 ->
  (let s := Eval1.evaluate_score pos in
   Z.min (mg s) (eg s) <= Eval1.evaluate pos <= Z.max (mg s) (eg s) /\
   (phase_material pos = 24 -> Eval1.evaluate pos = mg s) /\
   (phase_material pos = 0 -> Eval1.evaluate pos = eg s)) /\
  (let s := Eval2.evaluate_score pos in
   Z.min (mg s) (eg s) <= Eval2.evaluate pos <= Z.max (mg s) (eg s) /\
   (phase_material pos = 24 -> Eval2.evaluate pos = mg s) /\
   (phase_material pos = 0 -> Eval2.evaluate pos = eg s)).
Proof.
  intros Hle. pose proof (phase_in_range pos Hle) as Hph.
  assert (H24 : phase_material pos = 24 -> get_phase pos = 0)
    by (intros H; rewrite PosProps.get_phase_formula, H; reflexivity).
  assert (H0 : phase_material pos = 0 -> get_phase pos = 256)
    by (intros H; rewrite PosProps.get_phase_formula, H; reflexivity).
  assert (Hgen : forall s ph,
            0 <= ph <= 256 ->
            Z.min (mg s) (eg s) <= Z.quot (mg s * (256 - ph) + eg s * ph) 256
              <= Z.max (mg s) (eg s) /\
            (ph = 0 -> Z.quot (mg s * (256 - ph) + eg s * ph) 256 = mg s) /\
            (ph = 256 -> Z.quot (mg s * (256 - ph) + eg s * ph) 256 = eg s)).
  { intros s ph Hr. split; [apply (taper_between s ph Hr) |].
    split; intros ->.
    - rewrite Z.mul_0_r, Z.add_0_r. apply Z.quot_mul. lia.
    - rewrite Z.sub_diag, Z.mul_0_r, Z.add_0_l. apply Z.quot_mul. lia. }
  split; cbv zeta.
  - unfold Eval1.evaluate, Eval1.taper. cbv zeta.
    generalize (Eval1.evaluate_score pos). intros s.
    destruct (Hgen s (get_phase pos) Hph) as (Hb & Hmg & Heg). auto.
  - unfold Eval2.evaluate, Eval2.FINAL_PHASE, Eval2.INITIAL_PHASE. cbv zeta.
    generalize (Eval2.evaluate_score pos). intros s. rewrite Z.sub_0_r.
    destruct (Hgen s (get_phase pos) Hph) as (Hb & Hmg & Heg). auto.
Qed.

Lemma evaluate_between_game_phases_witness :
  Eval1.evaluate pos_start = mg (Eval1.evaluate_score pos_start).
Proof.
  refine (proj1 (proj2 (proj1 (evaluate_between_game_phases pos_start _))) _).
  - vm_compute. discriminate.
  - vm_compute. reflexivity.
Defined.

End EvalProps.
